(** * A shallow embedding of the kilo-style terminal text editor

    The development follows the C source function by function.

    Conventions of the embedding:
    - a C [char] is an [ascii]; a buffer ([char *] with its length field, or
      a NUL-terminated string) is a [list ascii] holding the bytes before the
      terminator; reading the byte just past the end yields the terminator
      NUL, which is how the C code sees it;
    - a C [int] that can be negative or that appears in a range guard
      (cursor columns, [at] arguments, key codes, the search direction) is a
      [Z]; signed overflow is undefined in C, so the model is the code's
      behaviour as long as the values stay inside the [int] range;
    - array indices that only count upwards from zero are [nat];
    - the global [struct editorConfig E] is passed explicitly. *)

From Stdlib Require Import Ascii String DecimalString.
From Stdlib Require Import List ZArith Lia Bool Arith.
Import ListNotations.

Local Open Scope Z_scope.

(** ** Characters and C strings *)

Definition NUL : ascii := "000"%char.
Definition TAB : ascii := "009"%char.
Definition SPACE : ascii := " "%char.
Definition DQUOTE : ascii := "034"%char.
Definition SQUOTE : ascii := "039"%char.
Definition BACKSLASH : ascii := "092"%char.

(** A string literal of the source, as the bytes before its terminator. *)
Definition cs (s : string) : list ascii := list_ascii_of_string s.

(** [buf[i]] for a buffer followed by its NUL terminator. *)
Definition char_at (buf : list ascii) (i : nat) : ascii := nth i buf NUL.

(** [strlen]: the number of bytes before the first NUL. *)
Fixpoint strlen (s : list ascii) : nat :=
  match s with
  | [] => O
  | c :: rest => if Ascii.eqb c NUL then O else S (strlen rest)
  end.

(** [strncmp(a, b, n) == 0]: the first [n] bytes agree, the comparison
    stopping early at a NUL common to both. *)
Fixpoint strncmp_eq (a b : list ascii) (n : nat) : bool :=
  match n with
  | O => true
  | S n' =>
      let ca := hd NUL a in
      let cb := hd NUL b in
      if Ascii.eqb ca cb
      then if Ascii.eqb ca NUL then true else strncmp_eq (tl a) (tl b) n'
      else false
  end.

(** [isspace], [isdigit] and [iscntrl] of the C locale. *)
Definition isspace (c : ascii) : bool :=
  let n := nat_of_ascii c in
  (Nat.eqb n 32 || (Nat.leb 9 n && Nat.leb n 13))%bool.

Definition isdigit (c : ascii) : bool :=
  let n := nat_of_ascii c in (Nat.leb 48 n && Nat.leb n 57)%bool.

(** [strchr(s, c) != NULL]: [c] occurs in [s], or [c] is the terminator. *)
Definition strchr_found (s : list ascii) (c : ascii) : bool :=
  (existsb (Ascii.eqb c) s || Ascii.eqb c NUL)%bool.

(** ** Highlight classes and syntax descriptors *)

Inductive editorHighlight : Type :=
| HL_NORMAL | HL_COMMENT | HL_MLCOMMENT | HL_KEYWORD1 | HL_KEYWORD2
| HL_STRING | HL_NUMBER | HL_MATCH.

Definition hl_eqb (a b : editorHighlight) : bool :=
  match a, b with
  | HL_NORMAL, HL_NORMAL | HL_COMMENT, HL_COMMENT
  | HL_MLCOMMENT, HL_MLCOMMENT | HL_KEYWORD1, HL_KEYWORD1
  | HL_KEYWORD2, HL_KEYWORD2 | HL_STRING, HL_STRING
  | HL_NUMBER, HL_NUMBER | HL_MATCH, HL_MATCH => true
  | _, _ => false
  end.

Definition KILO_TAB_STOP : Z := 8.
Definition HL_HIGHLIGHT_NUMBERS : Z := Z.shiftl 1 0.
Definition HL_HIGHLIGHT_STRINGS : Z := Z.shiftl 1 1.

(** [struct editorSyntax]; a [char *] that may be NULL is an [option]. *)
Record editorSyntax : Type := mkSyntax {
  filetype : list ascii;
  filematch : list (list ascii);
  keywords : list (list ascii);
  singleline_comment_start : option (list ascii);
  multiline_comment_start : option (list ascii);
  multiline_comment_end : option (list ascii);
  flags : Z
}.

Definition C_HL_extensions : list (list ascii) := [cs ".c"; cs ".h"; cs ".cpp"].

Definition C_HL_keywords : list (list ascii) :=
  [cs "switch"; cs "if"; cs "while"; cs "for"; cs "break"; cs "continue";
   cs "return"; cs "else";
   cs "struct"; cs "union"; cs "typedef"; cs "static"; cs "enum"; cs "class";
   cs "case";
   cs "int|"; cs "long|"; cs "double|"; cs "float|"; cs "char|";
   cs "unsigned|"; cs "signed|"; cs "void|"].

Definition C_syntax : editorSyntax :=
  mkSyntax (cs "c") C_HL_extensions C_HL_keywords
    (Some (cs "//")) (Some (cs "/*")) (Some (cs "*/"))
    (Z.lor HL_HIGHLIGHT_NUMBERS HL_HIGHLIGHT_STRINGS).

Definition HLDB : list editorSyntax := [C_syntax].

(** ** Rows and the editor state *)

(** [struct erow]; [size] and [rsize] are the lengths of [chars] and
    [render]. *)
Record erow : Type := mkRow {
  idx : nat;
  chars : list ascii;
  render : list ascii;
  hl : list editorHighlight;
  hl_open_comment : bool
}.

Definition size (r : erow) : Z := Z.of_nat (length (chars r)).
Definition rsize (r : erow) : nat := length (render r).

(** [struct editorConfig] without the terminal settings. *)
Record editorConfig : Type := mkConfig {
  cx : Z;
  cy : Z;
  rx : Z;
  rowoff : Z;
  coloff : Z;
  screenrows : Z;
  screencols : Z;
  numrows : Z;
  row : list erow;
  dirty : Z;
  filename : option (list ascii);
  statusmsg : list ascii;
  syntax : option editorSyntax
}.

Definition set_row (E : editorConfig) (rows : list erow) : editorConfig :=
  mkConfig (cx E) (cy E) (rx E) (rowoff E) (coloff E) (screenrows E)
    (screencols E) (numrows E) rows (dirty E) (filename E) (statusmsg E)
    (syntax E).

Definition set_cursor (E : editorConfig) (x y : Z) : editorConfig :=
  mkConfig x y (rx E) (rowoff E) (coloff E) (screenrows E)
    (screencols E) (numrows E) (row E) (dirty E) (filename E) (statusmsg E)
    (syntax E).

Definition set_numrows (E : editorConfig) (n : Z) : editorConfig :=
  mkConfig (cx E) (cy E) (rx E) (rowoff E) (coloff E) (screenrows E)
    (screencols E) n (row E) (dirty E) (filename E) (statusmsg E)
    (syntax E).

Definition set_dirty (E : editorConfig) (d : Z) : editorConfig :=
  mkConfig (cx E) (cy E) (rx E) (rowoff E) (coloff E) (screenrows E)
    (screencols E) (numrows E) (row E) d (filename E) (statusmsg E)
    (syntax E).

Definition set_filename (E : editorConfig) (f : option (list ascii))
  : editorConfig :=
  mkConfig (cx E) (cy E) (rx E) (rowoff E) (coloff E) (screenrows E)
    (screencols E) (numrows E) (row E) (dirty E) f (statusmsg E)
    (syntax E).

Definition set_syntax (E : editorConfig) (s : option editorSyntax)
  : editorConfig :=
  mkConfig (cx E) (cy E) (rx E) (rowoff E) (coloff E) (screenrows E)
    (screencols E) (numrows E) (row E) (dirty E) (filename E) (statusmsg E)
    s.

Definition set_rowoff (E : editorConfig) (r : Z) : editorConfig :=
  mkConfig (cx E) (cy E) (rx E) r (coloff E) (screenrows E)
    (screencols E) (numrows E) (row E) (dirty E) (filename E) (statusmsg E)
    (syntax E).

(** [vsnprintf(E.statusmsg, sizeof(E.statusmsg), ...)]: the formatted text,
    cut to the 79 bytes that fit before the terminator. *)
Definition editorSetStatusMessage (E : editorConfig) (msg : list ascii)
  : editorConfig :=
  mkConfig (cx E) (cy E) (rx E) (rowoff E) (coloff E) (screenrows E)
    (screencols E) (numrows E) (row E) (dirty E) (filename E)
    (firstn 79 msg) (syntax E).

(** In-place update of one array cell; nothing happens out of range. *)
Fixpoint update_nth {A : Type} (l : list A) (n : nat) (x : A) : list A :=
  match l, n with
  | [], _ => []
  | _ :: t, O => x :: t
  | h :: t, S n' => h :: update_nth t n' x
  end.

(** [memset(&buf[i], v, n)], clipped to the buffer. *)
Fixpoint memset {A : Type} (buf : list A) (i : nat) (v : A) (n : nat)
  : list A :=
  match buf with
  | [] => []
  | h :: t =>
      match i with
      | S i' => h :: memset t i' v n
      | O => match n with
             | O => h :: t
             | S n' => v :: memset t O v n'
             end
      end
  end.

(** ** Syntax highlighting: the scan of one row *)

(** [is_separator]: white space, the terminator, or one of the listed
    punctuation bytes. *)
Definition is_separator (c : ascii) : bool :=
  (isspace c || Ascii.eqb c NUL || strchr_found (cs ",.()+-/*=~%<>[];") c)%bool.

(** [s ? strlen(s) : 0] for a marker that may be NULL. *)
Definition marker_len (m : option (list ascii)) : nat :=
  match m with Some s => strlen s | None => O end.

Definition marker_text (m : option (list ascii)) : list ascii :=
  match m with Some s => s | None => [] end.

(** The local variables of the [while] loop of [editorUpdateSyntax]. *)
Record scan_state : Type := mkScan {
  sc_i : nat;
  sc_prev_sep : bool;
  sc_in_string : ascii;
  sc_in_comment : bool;
  sc_hl : list editorHighlight
}.

(** One pass through the loop body ends in [continue] (or falls off its
    end), or in [break]. *)
Inductive outcome : Type :=
| Continue (st : scan_state)
| Break (st : scan_state).

(** The length of a keyword entry without its trailing [|] tag, and whether
    the tag is there.  (For an empty entry the C code reads one byte before
    the string; the model reads no tag.) *)
Definition kw_is_kw2 (kw : list ascii) : bool :=
  let klen := strlen kw in
  match klen with
  | O => false
  | S k => Ascii.eqb (char_at kw k) "|"%char
  end.

Definition kw_len (kw : list ascii) : nat :=
  if kw_is_kw2 kw then Nat.pred (strlen kw) else strlen kw.

Definition kw_class (kw : list ascii) : editorHighlight :=
  if kw_is_kw2 kw then HL_KEYWORD2 else HL_KEYWORD1.

Section Scan.

Variable syn : editorSyntax.
Variable rnd : list ascii.

Let scs := singleline_comment_start syn.
Let mcs := multiline_comment_start syn.
Let mce := multiline_comment_end syn.
Let scs_len := marker_len scs.
Let mcs_len := marker_len mcs.
Let mce_len := marker_len mce.
Let n_render := length rnd.

(** [!strncmp(&row->render[i], m, len)] *)
Definition starts_with (i : nat) (m : list ascii) (len : nat) : bool :=
  strncmp_eq (skipn i rnd) m len.

(** The keyword test of the inner [for] loop. *)
Definition kw_matches (i : nat) (kw : list ascii) : bool :=
  (starts_with i kw (kw_len kw) && is_separator (char_at rnd (i + kw_len kw)))%bool.

(** The inner [for] loop: the first entry, in list order, that passes the
    test; [None] when the loop reaches the terminating NULL entry. *)
Fixpoint find_keyword (i : nat) (kws : list (list ascii))
  : option (list ascii) :=
  match kws with
  | [] => None
  | kw :: rest => if kw_matches i kw then Some kw else find_keyword i rest
  end.

(** "Handle single-line comments." *)
Definition step_slcomment (st : scan_state) : option outcome :=
  if (negb (Nat.eqb scs_len 0) && Ascii.eqb (sc_in_string st) NUL
      && negb (sc_in_comment st))%bool
  then
    if starts_with (sc_i st) (marker_text scs) scs_len
    then Some (Break (mkScan (sc_i st) (sc_prev_sep st) (sc_in_string st)
                        (sc_in_comment st)
                        (memset (sc_hl st) (sc_i st) HL_COMMENT
                                (n_render - sc_i st))))
    else None
  else None.

(** "Handle multi-line comments." *)
Definition step_mlcomment (st : scan_state) : option outcome :=
  if (negb (Nat.eqb mcs_len 0) && negb (Nat.eqb mce_len 0)
      && Ascii.eqb (sc_in_string st) NUL)%bool
  then
    if sc_in_comment st
    then
      let hl1 := update_nth (sc_hl st) (sc_i st) HL_MLCOMMENT in
      if starts_with (sc_i st) (marker_text mce) mce_len
      then Some (Continue (mkScan (sc_i st + mce_len) true (sc_in_string st)
                             false
                             (memset hl1 (sc_i st) HL_MLCOMMENT mce_len)))
      else Some (Continue (mkScan (S (sc_i st)) (sc_prev_sep st)
                             (sc_in_string st) (sc_in_comment st) hl1))
    else
      if starts_with (sc_i st) (marker_text mcs) mcs_len
      then Some (Continue (mkScan (sc_i st + mcs_len) (sc_prev_sep st)
                             (sc_in_string st) true
                             (memset (sc_hl st) (sc_i st) HL_MLCOMMENT
                                     mcs_len)))
      else None
  else None.

(** "Handle string literals with escape sequences." *)
Definition step_string (st : scan_state) : option outcome :=
  let c := char_at rnd (sc_i st) in
  if negb (Z.eqb (Z.land (flags syn) HL_HIGHLIGHT_STRINGS) 0)
  then
    if negb (Ascii.eqb (sc_in_string st) NUL)
    then
      let hl1 := update_nth (sc_hl st) (sc_i st) HL_STRING in
      if (Ascii.eqb c BACKSLASH && Nat.ltb (sc_i st + 1) n_render)%bool
      then Some (Continue (mkScan (sc_i st + 2) (sc_prev_sep st)
                             (sc_in_string st) (sc_in_comment st)
                             (update_nth hl1 (sc_i st + 1) HL_STRING)))
      else Some (Continue (mkScan (S (sc_i st)) true
                             (if Ascii.eqb c (sc_in_string st)
                              then NUL else sc_in_string st)
                             (sc_in_comment st) hl1))
    else
      if (Ascii.eqb c DQUOTE || Ascii.eqb c SQUOTE)%bool
      then Some (Continue (mkScan (S (sc_i st)) (sc_prev_sep st) c
                             (sc_in_comment st)
                             (update_nth (sc_hl st) (sc_i st) HL_STRING)))
      else None
  else None.

(** "Handle numeric literals." *)
Definition step_number (st : scan_state) : option outcome :=
  let c := char_at rnd (sc_i st) in
  let prev_hl := match sc_i st with
                 | O => HL_NORMAL
                 | S p => nth p (sc_hl st) HL_NORMAL
                 end in
  if negb (Z.eqb (Z.land (flags syn) HL_HIGHLIGHT_NUMBERS) 0)
  then
    if ((isdigit c && (sc_prev_sep st || hl_eqb prev_hl HL_NUMBER))
        || (Ascii.eqb c "."%char && hl_eqb prev_hl HL_NUMBER))%bool
    then Some (Continue (mkScan (S (sc_i st)) false (sc_in_string st)
                           (sc_in_comment st)
                           (update_nth (sc_hl st) (sc_i st) HL_NUMBER)))
    else None
  else None.

(** "Handle keyword highlighting." *)
Definition step_keyword (st : scan_state) : option outcome :=
  if sc_prev_sep st
  then
    match find_keyword (sc_i st) (keywords syn) with
    | Some kw =>
        Some (Continue (mkScan (sc_i st + kw_len kw) false (sc_in_string st)
                          (sc_in_comment st)
                          (memset (sc_hl st) (sc_i st) (kw_class kw)
                                  (kw_len kw))))
    | None => None
    end
  else None.

(** The last two statements of the body. *)
Definition step_plain (st : scan_state) : outcome :=
  Continue (mkScan (S (sc_i st)) (is_separator (char_at rnd (sc_i st)))
              (sc_in_string st) (sc_in_comment st) (sc_hl st)).

(** The loop body: the first of the handlers that applies. *)
Definition scan_body (st : scan_state) : outcome :=
  match step_slcomment st with
  | Some o => o
  | None =>
    match step_mlcomment st with
    | Some o => o
    | None =>
      match step_string st with
      | Some o => o
      | None =>
        match step_number st with
        | Some o => o
        | None =>
          match step_keyword st with
          | Some o => o
          | None => step_plain st
          end
        end
      end
    end
  end.

(** [while (i < row->rsize) { ... }], with a bound on the iterations. *)
Fixpoint scan_loop (fuel : nat) (st : scan_state) : option scan_state :=
  match fuel with
  | O => None
  | S f =>
      if Nat.ltb (sc_i st) n_render
      then match scan_body st with
           | Continue st' => scan_loop f st'
           | Break st' => Some st'
           end
      else Some st
  end.

(** The state before the first iteration: [memset(hl, HL_NORMAL, rsize)],
    [prev_sep = 1], [in_string = 0], [in_comment] seeded by the caller. *)
Definition scan_init (seed : bool) : scan_state :=
  mkScan O true NUL seed (repeat HL_NORMAL n_render).

(** Twice the remaining length, plus one while [prev_sep] is set: every
    iteration makes it smaller. *)
Definition scan_measure (st : scan_state) : nat :=
  (2 * (n_render - sc_i st) + (if sc_prev_sep st then 1 else 0))%nat.

(** The loop from a given state on; the bound is never reached (lemma
    [scan_from_total]). *)
Definition scan_from (st : scan_state) : scan_state :=
  match scan_loop (S (scan_measure st)) st with
  | Some st' => st'
  | None => st
  end.

(** The whole loop of [editorUpdateSyntax] for one row. *)
Definition scan_row (seed : bool) : scan_state := scan_from (scan_init seed).

(** States the loop passes through at the top of an iteration. *)
Inductive scan_reaches (seed : bool) : scan_state -> Prop :=
| reaches_init : scan_reaches seed (scan_init seed)
| reaches_step : forall st st',
    scan_reaches seed st ->
    Nat.ltb (sc_i st) n_render = true ->
    scan_body st = Continue st' ->
    scan_reaches seed st'.

End Scan.

(** ** [editorUpdateSyntax] on the row array *)

(** [in_comment = (row->idx > 0 && E.row[row->idx - 1].hl_open_comment)] *)
Definition seed_of (E : editorConfig) (r : erow) : bool :=
  (Nat.ltb 0 (idx r) &&
   match nth_error (row E) (idx r - 1) with
   | Some p => hl_open_comment p
   | None => false
   end)%bool.

(** The row after its scan: new [hl], new [hl_open_comment]. *)
Definition rescan_row (s : editorSyntax) (seed : bool) (r : erow) : erow :=
  let st := scan_row s (render r) seed in
  mkRow (idx r) (chars r) (render r) (sc_hl st) (sc_in_comment st).

(** The early return when no descriptor is active: [hl] is all normal and
    [hl_open_comment] is left as it was. *)
Definition plain_row (r : erow) : erow :=
  mkRow (idx r) (chars r) (render r) (repeat HL_NORMAL (rsize r))
    (hl_open_comment r).

(** [editorUpdateSyntax(&E.row[n])].  The recursive call goes to
    [&E.row[row->idx + 1]]; [fuel] bounds the depth of the recursion. *)
Fixpoint editorUpdateSyntax_fuel (fuel : nat) (E : editorConfig) (n : nat)
  : option editorConfig :=
  match fuel with
  | O => None
  | S f =>
      match nth_error (row E) n with
      | None => Some E
      | Some r =>
          match syntax E with
          | None => Some (set_row E (update_nth (row E) n (plain_row r)))
          | Some s =>
              let r' := rescan_row s (seed_of E r) r in
              let changed :=
                negb (Bool.eqb (hl_open_comment r) (hl_open_comment r')) in
              let E1 := set_row E (update_nth (row E) n r') in
              if (changed && (Z.of_nat (idx r) + 1 <? numrows E))%bool
              then editorUpdateSyntax_fuel f E1 (S (idx r))
              else Some E1
          end
      end
  end.

(** The recursion moves down the array, so it ends within as many calls as
    there are rows when every row carries its position in [idx] (lemma
    [editorUpdateSyntax_fuel_enough]). *)
Definition editorUpdateSyntax (E : editorConfig) (n : nat) : editorConfig :=
  match editorUpdateSyntax_fuel (S (length (row E))) E n with
  | Some E' => E'
  | None => E
  end.

(** ** Row operations *)

(** The inner [while (idx % KILO_TAB_STOP != 0) render[idx++] = ' ';]
    where [idx] is the length of what has been rendered so far. *)
Fixpoint tab_fill (fuel : nat) (acc : list ascii) : list ascii :=
  match fuel with
  | O => acc
  | S f =>
      if Z.eqb (Z.rem (Z.of_nat (length acc)) KILO_TAB_STOP) 0
      then acc
      else tab_fill f (acc ++ [SPACE])
  end.

(** The second [for] loop of [editorUpdateRow]. *)
Fixpoint render_loop (cs : list ascii) (acc : list ascii) : list ascii :=
  match cs with
  | [] => acc
  | c :: rest =>
      if Ascii.eqb c TAB
      then render_loop rest (tab_fill (Z.to_nat KILO_TAB_STOP) (acc ++ [SPACE]))
      else render_loop rest (acc ++ [c])
  end.

Definition render_of (cs : list ascii) : list ascii := render_loop cs [].

(** One step of the column loops: a tab moves to the next tab stop. *)
Definition advance_rx (c : ascii) (r : Z) : Z :=
  (if Ascii.eqb c TAB
   then r + ((KILO_TAB_STOP - 1) - Z.rem r KILO_TAB_STOP)
   else r) + 1.

(** The loop of [editorRowCxToRx]: [iters] iterations from column [j]. *)
Fixpoint CxToRx_loop (cs : list ascii) (j iters : nat) (r : Z) : Z :=
  match iters with
  | O => r
  | S k => CxToRx_loop cs (S j) k (advance_rx (char_at cs j) r)
  end.

Definition editorRowCxToRx (r : erow) (x : Z) : Z :=
  CxToRx_loop (chars r) O (Z.to_nat x) 0.

(** The loop of [editorRowRxToCx] over the characters from column [x]. *)
Fixpoint RxToCx_loop (rest : list ascii) (x cur_rx target : Z) : Z :=
  match rest with
  | [] => x
  | c :: rest' =>
      let cur := advance_rx c cur_rx in
      if cur >? target then x else RxToCx_loop rest' (x + 1) cur target
  end.

Definition editorRowRxToCx (r : erow) (target : Z) : Z :=
  RxToCx_loop (chars r) 0 0 target.

(** [editorUpdateRow(&E.row[n])] *)
Definition editorUpdateRow (E : editorConfig) (n : nat) : editorConfig :=
  match nth_error (row E) n with
  | None => E
  | Some r =>
      let r' := mkRow (idx r) (chars r) (render_of (chars r)) (hl r)
                  (hl_open_comment r) in
      editorUpdateSyntax (set_row E (update_nth (row E) n r')) n
  end.

Definition bump_idx (r : erow) : erow :=
  mkRow (S (idx r)) (chars r) (render r) (hl r) (hl_open_comment r).

Definition drop_idx (r : erow) : erow :=
  mkRow (Nat.pred (idx r)) (chars r) (render r) (hl r) (hl_open_comment r).

Definition set_chars (r : erow) (cs : list ascii) : erow :=
  mkRow (idx r) cs (render r) (hl r) (hl_open_comment r).

(** [editorInsertRow(at, s, len)], [s] being the [len] bytes copied.  The
    row is rendered and scanned before [E.numrows] is incremented. *)
Definition editorInsertRow (E : editorConfig) (at_ : Z) (s : list ascii)
  : editorConfig :=
  if ((at_ <? 0) || (at_ >? numrows E))%bool then E
  else
    let n := Z.to_nat at_ in
    let fresh := mkRow n s [] [] false in
    let rows := firstn n (row E) ++ fresh :: map bump_idx (skipn n (row E)) in
    let E1 := editorUpdateRow (set_row E rows) n in
    set_dirty (set_numrows E1 (numrows E1 + 1)) (dirty E1 + 1).

(** [editorDelRow(at)] *)
Definition editorDelRow (E : editorConfig) (at_ : Z) : editorConfig :=
  if ((at_ <? 0) || (at_ >=? numrows E))%bool then E
  else
    let n := Z.to_nat at_ in
    let rows := firstn n (row E) ++ map drop_idx (skipn (S n) (row E)) in
    set_dirty (set_numrows (set_row E rows) (numrows E - 1)) (dirty E + 1).

(** [editorRowInsertChar(&E.row[n], at, c)] *)
Definition editorRowInsertChar (E : editorConfig) (n : nat) (at_ : Z)
  (c : ascii) : editorConfig :=
  match nth_error (row E) n with
  | None => E
  | Some r =>
      let a := if ((at_ <? 0) || (at_ >? size r))%bool then size r else at_ in
      let k := Z.to_nat a in
      let cs' := firstn k (chars r) ++ c :: skipn k (chars r) in
      let E1 := editorUpdateRow
                  (set_row E (update_nth (row E) n (set_chars r cs'))) n in
      set_dirty E1 (dirty E1 + 1)
  end.

(** [editorRowAppendString(&E.row[n], s, len)] *)
Definition editorRowAppendString (E : editorConfig) (n : nat)
  (s : list ascii) : editorConfig :=
  match nth_error (row E) n with
  | None => E
  | Some r =>
      let E1 := editorUpdateRow
                  (set_row E (update_nth (row E) n
                                (set_chars r (chars r ++ s)))) n in
      set_dirty E1 (dirty E1 + 1)
  end.

(** [editorRowDelChar(&E.row[n], at)] *)
Definition editorRowDelChar (E : editorConfig) (n : nat) (at_ : Z)
  : editorConfig :=
  match nth_error (row E) n with
  | None => E
  | Some r =>
      if ((at_ <? 0) || (at_ >=? size r))%bool then E
      else
        let k := Z.to_nat at_ in
        let cs' := firstn k (chars r) ++ skipn (S k) (chars r) in
        let E1 := editorUpdateRow
                    (set_row E (update_nth (row E) n (set_chars r cs'))) n in
        set_dirty E1 (dirty E1 + 1)
  end.

(** ** Editor operations *)

(** [editorInsertChar(c)] *)
Definition editorInsertChar (E : editorConfig) (c : ascii) : editorConfig :=
  let E1 := if cy E =? numrows E
            then editorInsertRow E (numrows E) []
            else E in
  let E2 := editorRowInsertChar E1 (Z.to_nat (cy E1)) (cx E1) c in
  set_cursor E2 (cx E2 + 1) (cy E2).

(** [editorInsertNewline()] *)
Definition editorInsertNewline (E : editorConfig) : editorConfig :=
  let E1 :=
    if cx E =? 0
    then editorInsertRow E (cy E) []
    else
      match nth_error (row E) (Z.to_nat (cy E)) with
      | None => E
      | Some r =>
          let E' := editorInsertRow E (cy E + 1)
                      (skipn (Z.to_nat (cx E)) (chars r)) in
          match nth_error (row E') (Z.to_nat (cy E')) with
          | None => E'
          | Some r' =>
              editorUpdateRow
                (set_row E' (update_nth (row E') (Z.to_nat (cy E'))
                               (set_chars r' (firstn (Z.to_nat (cx E'))
                                                (chars r')))))
                (Z.to_nat (cy E'))
          end
      end in
  set_cursor E1 0 (cy E1 + 1).

(** [editorDelChar()] *)
Definition editorDelChar (E : editorConfig) : editorConfig :=
  if cy E =? numrows E then E
  else if ((cx E =? 0) && (cy E =? 0))%bool then E
  else
    match nth_error (row E) (Z.to_nat (cy E)) with
    | None => E
    | Some r =>
        if cx E >? 0
        then
          let E1 := editorRowDelChar E (Z.to_nat (cy E)) (cx E - 1) in
          set_cursor E1 (cx E1 - 1) (cy E1)
        else
          match nth_error (row E) (Z.to_nat (cy E - 1)) with
          | None => E
          | Some up =>
              let E1 := set_cursor E (size up) (cy E) in
              let E2 := editorRowAppendString E1 (Z.to_nat (cy E1 - 1))
                          (chars r) in
              let E3 := editorDelRow E2 (cy E2) in
              set_cursor E3 (cx E3) (cy E3 - 1)
          end
    end.

(** ** Selecting the descriptor *)

(** The bytes of a C string: everything before the first NUL. *)
Definition c_str (s : list ascii) : list ascii := firstn (strlen s) s.

Fixpoint is_prefix (needle hay : list ascii) : bool :=
  match needle with
  | [] => true
  | c :: needle' =>
      match hay with
      | [] => false
      | h :: hay' => (Ascii.eqb c h && is_prefix needle' hay')%bool
      end
  end.

Fixpoint strstr_from (hay needle : list ascii) (off : nat) : option nat :=
  if is_prefix needle hay then Some off
  else match hay with
       | [] => None
       | _ :: hay' => strstr_from hay' needle (S off)
       end.

(** [strstr(hay, needle)]: the offset of the first occurrence, [None] for
    a NULL result. *)
Definition strstr (hay needle : list ascii) : option nat :=
  strstr_from (c_str hay) (c_str needle) O.

(** The test on one [filematch] entry. *)
Definition filematch_ok (fname pat : list ascii) : bool :=
  match strstr fname pat with
  | None => false
  | Some p =>
      (negb (Ascii.eqb (char_at pat 0) "."%char)
       || Ascii.eqb (char_at (c_str fname) (p + strlen pat)) NUL)%bool
  end.

Fixpoint find_syntax (db : list editorSyntax) (fname : list ascii)
  : option editorSyntax :=
  match db with
  | [] => None
  | s :: rest =>
      if existsb (filematch_ok fname) (filematch s) then Some s
      else find_syntax rest fname
  end.

(** [for (filerow = 0; filerow < E.numrows; filerow++)
      editorUpdateSyntax(&E.row[filerow]);] *)
Fixpoint update_all_syntax (iters : nat) (filerow : nat) (E : editorConfig)
  : editorConfig :=
  match iters with
  | O => E
  | S k => update_all_syntax k (S filerow) (editorUpdateSyntax E filerow)
  end.

(** [editorSelectSyntaxHighlight()] *)
Definition editorSelectSyntaxHighlight (E : editorConfig) : editorConfig :=
  let E0 := set_syntax E None in
  match filename E0 with
  | None => E0
  | Some fname =>
      match find_syntax HLDB fname with
      | None => E0
      | Some s =>
          update_all_syntax (Z.to_nat (numrows E0)) O (set_syntax E0 (Some s))
      end
  end.

(** ** File input and output *)

Definition LF : ascii := "010"%char.
Definition CR : ascii := "013"%char.

(** [editorRowsToString(&buflen)]: the buffer and the length stored
    through [buflen]. *)
Definition editorRowsToString (E : editorConfig) : list ascii * Z :=
  let rows := firstn (Z.to_nat (numrows E)) (row E) in
  (flat_map (fun r => chars r ++ [LF]) rows,
   fold_left (fun totlen r => totlen + (size r + 1)) rows 0).

(** The successive results of [getline] on a stream holding [content]: each
    line with its newline, the last one possibly without. *)
Fixpoint getlines (content cur : list ascii) : list (list ascii) :=
  match content with
  | [] => match cur with [] => [] | _ => [cur] end
  | c :: rest =>
      if Ascii.eqb c LF then (cur ++ [c]) :: getlines rest []
      else getlines rest (cur ++ [c])
  end.

(** [while (linelen > 0 && (line[linelen - 1] == '\n' ||
                            line[linelen - 1] == '\r')) linelen--;]
    on the reversed line. *)
Fixpoint drop_eol (rev_line : list ascii) : list ascii :=
  match rev_line with
  | [] => []
  | c :: rest =>
      if (Ascii.eqb c LF || Ascii.eqb c CR)%bool then drop_eol rest
      else rev_line
  end.

Definition strip_eol (line : list ascii) : list ascii :=
  rev (drop_eol (rev line)).

(** [editorOpen(filename)] on a file holding [content]; [None] for the file
    that cannot be opened stands for the call of [die]. *)
Definition editorOpen (E : editorConfig) (fname : list ascii)
  (content : option (list ascii)) : option editorConfig :=
  let E1 := editorSelectSyntaxHighlight (set_filename E (Some (c_str fname))) in
  match content with
  | None => None
  | Some bytes =>
      let E2 := fold_left
                  (fun E' line => editorInsertRow E' (numrows E') (strip_eol line))
                  (getlines bytes []) E1 in
      Some (set_dirty E2 0)
  end.

(** ** Screen state and the prompt *)

(** [editorScroll()]; the frame that [editorRefreshScreen] then writes to
    the terminal leaves the editor state alone. *)
Definition editorScroll (E : editorConfig) : editorConfig :=
  let rx1 := if cy E <? numrows E
             then match nth_error (row E) (Z.to_nat (cy E)) with
                  | Some r => editorRowCxToRx r (cx E)
                  | None => 0
                  end
             else 0 in
  let ro1 := if cy E <? rowoff E then cy E else rowoff E in
  let ro2 := if cy E >=? ro1 + screenrows E
             then cy E - screenrows E + 1 else ro1 in
  let co1 := if rx1 <? coloff E then rx1 else coloff E in
  let co2 := if rx1 >=? co1 + screencols E
             then rx1 - screencols E + 1 else co1 in
  mkConfig (cx E) (cy E) rx1 ro2 co2 (screenrows E) (screencols E)
    (numrows E) (row E) (dirty E) (filename E) (statusmsg E) (syntax E).

Definition editorRefreshScreen (E : editorConfig) : editorConfig :=
  editorScroll E.

(** [enum editorKey] and the other key codes the editor tests. *)
Definition BACKSPACE : Z := 127.
Definition ARROW_LEFT : Z := 1000.
Definition ARROW_RIGHT : Z := 1001.
Definition ARROW_UP : Z := 1002.
Definition ARROW_DOWN : Z := 1003.
Definition DEL_KEY : Z := 1004.
Definition HOME_KEY : Z := 1005.
Definition END_KEY : Z := 1006.
Definition PAGE_UP : Z := 1007.
Definition PAGE_DOWN : Z := 1008.
Definition KEY_ENTER : Z := 13.
Definition KEY_ESC : Z := 27.
Definition CTRL_KEY (k : Z) : Z := Z.land k 31.

Definition iscntrl_key (c : Z) : bool :=
  (((0 <=? c) && (c <? 32)) || (c =? 127))%bool.

Section Prompt.

(** The callback with its [static] variables kept in a state of type
    [S]; [None] is the NULL callback. *)
Variable S : Type.
Variable callback :
  option (S -> editorConfig -> list ascii -> Z -> S * editorConfig).

Definition run_callback (s : S) (E : editorConfig) (buf : list ascii)
  (c : Z) : S * editorConfig :=
  match callback with
  | Some f => f s E buf c
  | None => (s, E)
  end.

(** [editorPrompt(prompt, callback)], reading the keys that
    [editorReadKey] returns from [keys]; [fmt] is the prompt with its
    [%s] filled in.  [None]: the keys ran out and the read blocks. *)
Fixpoint editorPrompt (fmt : list ascii -> list ascii) (keys : list Z)
  (buf : list ascii) (s : S) (E : editorConfig)
  : option (option (list ascii) * S * editorConfig * list Z) :=
  match keys with
  | [] => None
  | c :: keys' =>
      let E1 := editorRefreshScreen (editorSetStatusMessage E (fmt buf)) in
      if ((c =? DEL_KEY) || (c =? CTRL_KEY 104) || (c =? BACKSPACE))%bool
      then
        let buf' := removelast buf in
        let '(s2, E2) := run_callback s E1 buf' c in
        editorPrompt fmt keys' buf' s2 E2
      else if c =? KEY_ESC
      then
        let '(s2, E2) := run_callback s (editorSetStatusMessage E1 []) buf c in
        Some (None, s2, E2, keys')
      else if c =? KEY_ENTER
      then
        match buf with
        | [] =>
            let '(s2, E2) := run_callback s E1 buf c in
            editorPrompt fmt keys' buf s2 E2
        | _ :: _ =>
            let '(s2, E2) :=
              run_callback s (editorSetStatusMessage E1 []) buf c in
            Some (Some buf, s2, E2, keys')
        end
      else if (negb (iscntrl_key c) && (c <? 128))%bool
      then
        let buf' := buf ++ [ascii_of_N (Z.to_N (c mod 256))] in
        let '(s2, E2) := run_callback s E1 buf' c in
        editorPrompt fmt keys' buf' s2 E2
      else
        let '(s2, E2) := run_callback s E1 buf c in
        editorPrompt fmt keys' buf s2 E2
  end.

End Prompt.

(** ** Saving *)

(** What the operating system answers during one call of [editorSave]:
    whether [open] and [ftruncate] succeed, the return value of [write], and
    the text of [strerror(errno)]. *)
Record save_io : Type := mkSaveIO {
  open_ok : bool;
  ftruncate_ok : bool;
  write_ret : Z;
  io_error : list ascii
}.

Definition decimal (z : Z) : list ascii :=
  cs (DecimalString.NilEmpty.string_of_int (Z.to_int z)).

Definition save_prompt (buf : list ascii) : list ascii :=
  cs "Save as: " ++ c_str buf ++ cs " (ESC to cancel)".

(** The part of [editorSave] after the file name is known.  The second
    component holds the bytes the file ends up with when it was written in
    full. *)
Definition save_to_file (io : save_io) (E : editorConfig)
  : editorConfig * option (list ascii) :=
  let '(buf, len) := editorRowsToString E in
  if (open_ok io && ftruncate_ok io && (write_ret io =? len))%bool
  then (editorSetStatusMessage (set_dirty E 0)
          (decimal len ++ cs " bytes written to disk"),
        Some buf)
  else (editorSetStatusMessage E
          (cs "Can't save! I/O error: " ++ c_str (io_error io)),
        None).

(** Did the save fail at the [open], [ftruncate] or [write] stage? *)
Definition io_failed (io : save_io) (E : editorConfig) : bool :=
  negb (open_ok io && ftruncate_ok io
        && (write_ret io =? snd (editorRowsToString E)))%bool.

(** [editorSave()]; [keys] feed the prompt when there is no file name.
    [None]: the prompt never got its answer. *)
Definition editorSave (io : save_io) (keys : list Z) (E : editorConfig)
  : option (editorConfig * option (list ascii)) :=
  match filename E with
  | Some _ => Some (save_to_file io E)
  | None =>
      match editorPrompt unit None save_prompt keys [] tt E with
      | None => None
      | Some (None, _, E1, _) =>
          Some (editorSetStatusMessage E1 (cs "Save aborted"), None)
      | Some (Some name, _, E1, _) =>
          Some (save_to_file io
                  (editorSelectSyntaxHighlight (set_filename E1 (Some name))))
      end
  end.

(** ** Find *)

(** The [static] variables of [editorFindCallback]. *)
Record find_state : Type := mkFind {
  last_match : Z;
  direction : Z;
  saved_hl_line : nat;
  saved_hl : option (list editorHighlight)
}.

Definition find_init : find_state := mkFind (-1) 1 O None.

Definition set_hl (r : erow) (h : list editorHighlight) : erow :=
  mkRow (idx r) (chars r) (render r) h (hl_open_comment r).

(** [memcpy(dst, src, n)] into a buffer. *)
Definition memcpy {A : Type} (dst src : list A) (n : nat) : list A :=
  firstn n src ++ skipn n dst.

(** The [for] loop of [editorFindCallback]: [iters] more rows to look at,
    [current] being the row looked at last. *)
Fixpoint find_loop (iters : nat) (current dir : Z) (query : list ascii)
  (fs : find_state) (E : editorConfig) : find_state * editorConfig :=
  match iters with
  | O => (fs, E)
  | S k =>
      let cur1 := current + dir in
      let cur := if cur1 =? -1 then numrows E - 1
                 else if cur1 =? numrows E then 0 else cur1 in
      match nth_error (row E) (Z.to_nat cur) with
      | None => (fs, E)
      | Some r =>
          match strstr (render r) query with
          | Some off =>
              let r' := set_hl r (memset (hl r) off HL_MATCH (strlen query)) in
              let E1 := set_cursor E (editorRowRxToCx r (Z.of_nat off)) cur in
              (mkFind cur dir (Z.to_nat cur) (Some (firstn (rsize r) (hl r))),
               set_row (set_rowoff E1 (numrows E))
                 (update_nth (row E) (Z.to_nat cur) r'))
          | None => find_loop k cur dir query fs E
          end
      end
  end.

(** [editorFindCallback(query, key)] *)
Definition editorFindCallback (fs : find_state) (E : editorConfig)
  (query : list ascii) (key : Z) : find_state * editorConfig :=
  let E0 :=
    match saved_hl fs with
    | Some saved =>
        match nth_error (row E) (saved_hl_line fs) with
        | Some r =>
            set_row E (update_nth (row E) (saved_hl_line fs)
                         (set_hl r (memcpy (hl r) saved (rsize r))))
        | None => E
        end
    | None => E
    end in
  let fs0 := mkFind (last_match fs) (direction fs) (saved_hl_line fs) None in
  if ((key =? KEY_ENTER) || (key =? KEY_ESC))%bool
  then (mkFind (-1) 1 (saved_hl_line fs0) None, E0)
  else
    let '(lm, dir) :=
      if ((key =? ARROW_RIGHT) || (key =? ARROW_DOWN))%bool
      then (last_match fs0, 1)
      else if ((key =? ARROW_LEFT) || (key =? ARROW_UP))%bool
      then (last_match fs0, -1)
      else (-1, 1) in
    let dir' := if lm =? -1 then 1 else dir in
    find_loop (Z.to_nat (numrows E0)) lm dir' query
      (mkFind lm dir' (saved_hl_line fs0) None) E0.

(** [editorFind()]: the prompt with the callback, and the cursor and the
    scroll offsets put back when the search is cancelled. *)
Definition find_prompt (buf : list ascii) : list ascii :=
  cs "Search: " ++ c_str buf ++ cs " (Use ESC/Arrows/Enter)".

Definition editorFind (fs : find_state) (keys : list Z) (E : editorConfig)
  : option (find_state * editorConfig * list Z) :=
  match editorPrompt find_state (Some editorFindCallback) find_prompt keys []
          fs E with
  | None => None
  | Some (Some _, fs', E', rest) => Some (fs', E', rest)
  | Some (None, fs', E', rest) =>
      Some (fs',
            mkConfig (cx E) (cy E) (rx E') (rowoff E) (coloff E)
              (screenrows E') (screencols E') (numrows E') (row E')
              (dirty E') (filename E') (statusmsg E') (syntax E'),
            rest)
  end.

(** ** Views used in the statements *)

(** A row without its highlight, and a state without any. *)
Definition row_text (r : erow) : erow :=
  mkRow (idx r) (chars r) (render r) [] false.

Definition erase_hl (E : editorConfig) : editorConfig :=
  set_row E (map row_text (row E)).

(** The render column reached from column [r] after the characters of a
    prefix. *)
Definition rx_after (pre : list ascii) (r : Z) : Z :=
  fold_left (fun r c => advance_rx c r) pre r.

(** A document whose [numrows] counts its rows and whose rows carry their
    own position in [idx]. *)
Definition doc_ok (E : editorConfig) : Prop :=
  numrows E = Z.of_nat (length (row E)) /\
  map idx (row E) = seq 0 (length (row E)).


(** The text of a keyword entry, without its tag. *)
Definition kw_text (kw : list ascii) : list ascii := firstn (kw_len kw) kw.

(** No byte of the keyword's text is a separator. *)
Definition sep_free (kw : list ascii) : bool :=
  forallb (fun c => negb (is_separator c)) (kw_text kw).

(** The loop body gets as far as its keyword handler. *)
Definition at_keyword_step (syn : editorSyntax) (rnd : list ascii)
  (st : scan_state) : Prop :=
  step_slcomment syn rnd st = None /\ step_mlcomment syn rnd st = None /\
  step_string syn rnd st = None /\ step_number syn rnd st = None.

Definition is_keyword_hl (h : editorHighlight) : bool :=
  (hl_eqb h HL_KEYWORD1 || hl_eqb h HL_KEYWORD2)%bool.

(** Why column [p] carries a keyword class in [h]: it lies in the span of
    a keyword of the descriptor that occurs at column [i0], a separator
    follows the span, and before the span comes the start of the row, a
    separator, or the last byte of a string literal or of a multi-line
    comment. *)
Definition keyword_span_at (syn : editorSyntax) (rnd : list ascii)
  (h : list editorHighlight) (p : nat) : Prop :=
  exists (kw : list ascii) (i0 : nat),
    In kw (keywords syn) /\
    (i0 <= p < i0 + kw_len kw)%nat /\
    starts_with rnd i0 kw (kw_len kw) = true /\
    nth p h HL_NORMAL = kw_class kw /\
    is_separator (char_at rnd (i0 + kw_len kw)) = true /\
    (i0 = O \/
     is_separator (char_at rnd (i0 - 1)) = true \/
     nth (i0 - 1) h HL_NORMAL = HL_STRING \/
     nth (i0 - 1) h HL_NORMAL = HL_MLCOMMENT).

(** [initEditor()] for a window of the given size. *)
Definition initEditor (rows cols : Z) : editorConfig :=
  mkConfig 0 0 0 0 0 (rows - 2) cols 0 [] 0 None [] None.

(** What holds at the top of every iteration of the scan: the highlight
    array has the length of the render and is still normal from the current
    column on; [in_string] is only set when strings are highlighted; a set
    [prev_sep] outside strings and comments comes from the start of the
    row, a separator, or the end of a string or comment; and every keyword
    class already written has its reason. *)
Definition scan_inv (syn : editorSyntax) (rnd : list ascii)
  (st : scan_state) : Prop :=
  length (sc_hl st) = length rnd /\
  (sc_i st <= length rnd)%nat /\
  (forall p, (sc_i st <= p)%nat -> nth p (sc_hl st) HL_NORMAL = HL_NORMAL) /\
  (sc_in_string st <> NUL ->
   Z.land (flags syn) HL_HIGHLIGHT_STRINGS <> 0) /\
  (sc_in_string st = NUL ->
   sc_in_comment st = false \/
   marker_len (multiline_comment_start syn) = O \/
   marker_len (multiline_comment_end syn) = O ->
   sc_prev_sep st = true ->
   sc_i st = O \/
   is_separator (char_at rnd (sc_i st - 1)) = true \/
   nth (sc_i st - 1) (sc_hl st) HL_NORMAL = HL_STRING \/
   nth (sc_i st - 1) (sc_hl st) HL_NORMAL = HL_MLCOMMENT) /\
  (forall p, (p < sc_i st)%nat ->
             is_keyword_hl (nth p (sc_hl st) HL_NORMAL) = true ->
             keyword_span_at syn rnd (sc_hl st) p).

(** The rows a search step looks at, in order: [k] steps of [dir] from
    [last], wrapping around the [n] rows. *)
Definition visit_order (n last dir : Z) (k : nat) : list Z :=
  map (fun j => (last + dir * Z.of_nat j) mod n) (seq 1 k).

(** The first row of [order] whose render contains the query, with the
    offset of the match. *)
Fixpoint first_match (rows : list erow) (query : list ascii)
  (order : list Z) : option (Z * erow * nat) :=
  match order with
  | [] => None
  | cur :: rest =>
      match nth_error rows (Z.to_nat cur) with
      | None => None
      | Some r =>
          match strstr (render r) query with
          | Some off => Some (cur, r, off)
          | None => first_match rows query rest
          end
      end
  end.

(** The state in which [editorFindCallback] leaves the editor after a
    match in row [cur] at render offset [off]. *)
Definition match_found (E : editorConfig) (dir cur : Z) (r : erow)
  (off : nat) (query : list ascii) : find_state * editorConfig :=
  (mkFind cur dir (Z.to_nat cur) (Some (firstn (rsize r) (hl r))),
   set_row
     (set_rowoff (set_cursor E (editorRowRxToCx r (Z.of_nat off)) cur)
        (numrows E))
     (update_nth (row E) (Z.to_nat cur)
        (set_hl r (memset (hl r) off HL_MATCH (strlen query))))).

(** Row [c] does not contain the query. *)
Definition no_match_at (rows : list erow) (query : list ascii) (c : Z)
  : Prop :=
  forall r, nth_error rows (Z.to_nat c) = Some r ->
            strstr (render r) query = None.

(** The bytes of [needle] stand in [hay] from offset [off] on. *)
Definition occurs_at (needle hay : list ascii) (off : nat) : Prop :=
  exists pre post, hay = pre ++ needle ++ post /\ length pre = off.

(** ** Views of the row array used in further statements *)

(** The derived fields of a row are up to date: [render] is the tab
    expansion of [chars], and [hl] has one class per render byte. *)
Definition row_ok (r : erow) : Prop :=
  render r = render_of (chars r) /\ length (hl r) = length (render r).

Definition rows_ok (E : editorConfig) : Prop := Forall row_ok (row E).

(** The highlight of a whole file scanned from the top: each row is
    scanned with the comment state its predecessor ends in. *)
Fixpoint scan_all (s : editorSyntax) (seed : bool) (rows : list erow)
  : list erow :=
  match rows with
  | [] => []
  | r :: rest =>
      let r' := rescan_row s seed r in
      r' :: scan_all s (hl_open_comment r') rest
  end.

(** The stored highlight is the one a scan of the whole file gives. *)
Definition hl_current (E : editorConfig) : Prop :=
  match syntax E with
  | Some s => scan_all s false (row E) = row E
  | None => Forall (fun r => hl r = repeat HL_NORMAL (rsize r)) (row E)
  end.

(** Row by row: the row is what its scan, seeded from the row before it,
    gives. *)
Definition row_scanned (s : editorSyntax) (E : editorConfig) (r : erow)
  : Prop :=
  rescan_row s (seed_of E r) r = r.

(** ** Moving the cursor *)

(** [(E.cy >= E.numrows) ? NULL : &E.row[E.cy]] *)
Definition current_row (E : editorConfig) : option erow :=
  if cy E >=? numrows E then None else nth_error (row E) (Z.to_nat (cy E)).

(** [editorMoveCursor(key)].  The read of [E.row[E.cy].size] after the move
    to the row above is on a row of the array whenever [cy] was at most
    [numrows]; the model takes 0 where the array has no such row. *)
Definition editorMoveCursor (E : editorConfig) (key : Z) : editorConfig :=
  let E1 :=
    if key =? ARROW_LEFT then
      if negb (cx E =? 0) then set_cursor E (cx E - 1) (cy E)
      else if cy E >? 0
           then set_cursor E
                  (match nth_error (row E) (Z.to_nat (cy E - 1)) with
                   | Some p => size p
                   | None => 0
                   end)
                  (cy E - 1)
           else E
    else if key =? ARROW_RIGHT then
      match current_row E with
      | Some r =>
          if cx E <? size r then set_cursor E (cx E + 1) (cy E)
          else if cx E =? size r then set_cursor E 0 (cy E + 1)
               else E
      | None => E
      end
    else if key =? ARROW_UP then
      if negb (cy E =? 0) then set_cursor E (cx E) (cy E - 1) else E
    else if key =? ARROW_DOWN then
      if cy E <? numrows E then set_cursor E (cx E) (cy E + 1) else E
    else E in
  let rowlen := match current_row E1 with
                | Some r => size r
                | None => 0
                end in
  if cx E1 >? rowlen then set_cursor E1 rowlen (cy E1) else E1.

(** The cursor is on a row of the file or on the line after the last one,
    at a column of that row or just after its last character. *)
Definition cursor_ok (E : editorConfig) : Prop :=
  0 <= cy E <= numrows E /\
  0 <= cx E <= match current_row E with
               | Some r => size r
               | None => 0
               end.

(** ** Reading a key *)

(** What one call of [read(STDIN_FILENO, &c, 1)] returns: 1 with a byte, 0
    after the timeout of raw mode, -1 with [errno == EAGAIN], or -1 with
    another [errno]. *)
Inductive read_result : Type :=
| RByte (c : ascii)
| RNone
| RAgain
| RFail.

(** The result of a function that reads: a value and the reads left, the
    call of [die], or still waiting when the given reads are used up. *)
Inductive reading (A : Type) : Type :=
| Done (a : A) (rest : list read_result)
| Died
| Pending.

Arguments Done {A} a rest.
Arguments Died {A}.
Arguments Pending {A}.

Definition ESC_CHAR : ascii := "027"%char.

(** [while ((nread = read(...)) != 1)
      if (nread == -1 && errno != EAGAIN) die("read");] *)
Fixpoint first_byte (inp : list read_result) : reading ascii :=
  match inp with
  | [] => Pending
  | RByte c :: rest => Done c rest
  | RFail :: _ => Died
  | _ :: rest => first_byte rest
  end.

(** One [read(...) != 1] test inside an escape sequence: the byte, or
    [None] for any other return value. *)
Definition next_byte (inp : list read_result)
  : option (option ascii * list read_result) :=
  match inp with
  | [] => None
  | RByte c :: rest => Some (Some c, rest)
  | _ :: rest => Some (None, rest)
  end.

(** [switch (seq[1])] after [ESC [ digit ~]. *)
Definition tilde_key (d : ascii) : Z :=
  if Ascii.eqb d "1" then HOME_KEY
  else if Ascii.eqb d "3" then DEL_KEY
  else if Ascii.eqb d "4" then END_KEY
  else if Ascii.eqb d "5" then PAGE_UP
  else if Ascii.eqb d "6" then PAGE_DOWN
  else if Ascii.eqb d "7" then HOME_KEY
  else if Ascii.eqb d "8" then END_KEY
  else KEY_ESC.

(** [switch (seq[1])] after [ESC [] and a byte that is no digit. *)
Definition bracket_key (c : ascii) : Z :=
  if Ascii.eqb c "A" then ARROW_UP
  else if Ascii.eqb c "B" then ARROW_DOWN
  else if Ascii.eqb c "C" then ARROW_RIGHT
  else if Ascii.eqb c "D" then ARROW_LEFT
  else if Ascii.eqb c "H" then HOME_KEY
  else if Ascii.eqb c "F" then END_KEY
  else KEY_ESC.

(** [switch (seq[1])] after [ESC O]. *)
Definition o_key (c : ascii) : Z :=
  if Ascii.eqb c "H" then HOME_KEY
  else if Ascii.eqb c "F" then END_KEY
  else KEY_ESC.

Section ReadKey.

(** Whether plain [char] is signed on the platform: it decides what
    [return c] gives for a byte above 127. *)
Variable char_signed : bool.

Definition int_of_char (c : ascii) : Z :=
  let n := Z.of_N (N_of_ascii c) in
  if (char_signed && (128 <=? n))%bool then n - 256 else n.

(** [editorReadKey()] on the given results of [read].  The test
    [seq[1] >= '0' && seq[1] <= '9'] holds for the bytes [isdigit] accepts,
    whatever the signedness of [char]. *)
Definition editorReadKey (inp : list read_result) : reading Z :=
  match first_byte inp with
  | Died => Died
  | Pending => Pending
  | Done c rest =>
      if Ascii.eqb c ESC_CHAR
      then
        match next_byte rest with
        | None => Pending
        | Some (None, r1) => Done KEY_ESC r1
        | Some (Some s0, r1) =>
            match next_byte r1 with
            | None => Pending
            | Some (None, r2) => Done KEY_ESC r2
            | Some (Some s1, r2) =>
                if Ascii.eqb s0 "["
                then
                  if isdigit s1
                  then
                    match next_byte r2 with
                    | None => Pending
                    | Some (None, r3) => Done KEY_ESC r3
                    | Some (Some s2, r3) =>
                        if Ascii.eqb s2 "~" then Done (tilde_key s1) r3
                        else Done KEY_ESC r3
                    end
                  else Done (bracket_key s1) r2
                else if Ascii.eqb s0 "O" then Done (o_key s1) r2
                     else Done KEY_ESC r2
            end
        end
      else Done (int_of_char c) rest
  end.

End ReadKey.

(** The escape sequences that stand for a key, without their first byte. *)
Definition escape_table : list (list ascii * Z) :=
  [ (cs "[A", ARROW_UP); (cs "[B", ARROW_DOWN); (cs "[C", ARROW_RIGHT);
    (cs "[D", ARROW_LEFT); (cs "[H", HOME_KEY); (cs "[F", END_KEY);
    (cs "[1~", HOME_KEY); (cs "[3~", DEL_KEY); (cs "[4~", END_KEY);
    (cs "[5~", PAGE_UP); (cs "[6~", PAGE_DOWN); (cs "[7~", HOME_KEY);
    (cs "[8~", END_KEY); (cs "OH", HOME_KEY); (cs "OF", END_KEY) ].

(** A read that brings no byte and does not end the program. *)
Definition idle_read (r : read_result) : Prop := r = RNone \/ r = RAgain.

(** ** Views of the prompt *)

(** The keys the prompt takes for "delete the last character". *)
Definition erases (c : Z) : bool :=
  ((c =? DEL_KEY) || (c =? CTRL_KEY 104) || (c =? BACKSPACE))%bool.

(** The keys the prompt appends to its buffer. *)
Definition typable (c : Z) : bool :=
  (negb (erases c) && negb (c =? KEY_ESC) && negb (c =? KEY_ENTER)
   && negb (iscntrl_key c) && (c <? 128))%bool.

(** The buffer after the given keys, none of which ends the prompt. *)
Fixpoint typed_buffer (keys : list Z) (buf : list ascii) : list ascii :=
  match keys with
  | [] => buf
  | c :: keys' =>
      if erases c then typed_buffer keys' (removelast buf)
      else if typable c
           then typed_buffer keys' (buf ++ [ascii_of_N (Z.to_N (c mod 256))])
           else typed_buffer keys' buf
  end.

(** ** Views of a search *)

(** Fields a search never writes. *)
Definition same_frame (E0 E : editorConfig) : Prop :=
  numrows E = numrows E0 /\ dirty E = dirty E0 /\
  filename E = filename E0 /\ syntax E = syntax E0 /\
  screenrows E = screenrows E0 /\ screencols E = screencols E0.

(** What holds between two calls of [editorFindCallback] during a search
    started in state [E0]: the rows are those of [E0], but for the
    highlight of the row of the last match, whose own highlight is the saved
    one. *)
Definition find_inv (E0 : editorConfig) (fs : find_state)
  (E : editorConfig) : Prop :=
  same_frame E0 E /\ cursor_ok E /\ 0 <= rowoff E /\
  (-1 <= last_match fs < numrows E0 \/ last_match fs = -1) /\
  match saved_hl fs with
  | None => row E = row E0
  | Some h =>
      exists r h',
        nth_error (row E0) (saved_hl_line fs) = Some r /\
        h = hl r /\ length h' = length (hl r) /\
        row E = update_nth (row E0) (saved_hl_line fs) (set_hl r h')
  end.

(** What holds after the call that ends the search. *)
Definition find_done (E0 : editorConfig) (fs : find_state)
  (E : editorConfig) : Prop :=
  same_frame E0 E /\ cursor_ok E /\ 0 <= rowoff E /\
  row E = row E0 /\
  last_match fs = -1 /\ direction fs = 1 /\ saved_hl fs = None.

(** ** Processing a key *)


Definition KILO_QUIT_TIMES : Z := 3.

(** What one call of [editorProcessKeypress] ends in: [exit(0)]; a return,
    with the [static] counter, the [static] variables of the search
    callback, the editor state and the keys left; a prompt still waiting
    when the given keys are used up; or a page loop whose counter
    [times = E.screenrows] starts below zero, which its test [times--] does
    not end. *)
Inductive step_result : Type :=
| Exited (E : editorConfig)
| Stepped (quit_times : Z) (fs : find_state) (E : editorConfig)
    (keys : list Z)
| Starved
| Overrun.

(** [while (times--) editorMoveCursor(key);] *)
Fixpoint move_times (times : nat) (E : editorConfig) (key : Z)
  : editorConfig :=
  match times with
  | O => E
  | S k => move_times k (editorMoveCursor E key) key
  end.

(** The keys left once [editorSave] has read the answer to its prompt. *)
Definition keys_after_save (keys : list Z) (E : editorConfig) : list Z :=
  match filename E with
  | Some _ => keys
  | None =>
      match editorPrompt unit None save_prompt keys [] tt E with
      | Some (_, _, _, rest) => rest
      | None => []
      end
  end.

Definition quit_warning (quit_times : Z) : list ascii :=
  cs "WARNING!!! File has unsaved changes. Press Ctrl-Q "
  ++ decimal quit_times ++ cs " more times to quit.".

(** [editorProcessKeypress()] on the key [c] that [editorReadKey] returned;
    [keys] are the keys read after it, [io] what the system answers to a
    save. *)
Definition editorProcessKeypress (io : save_io) (quit_times : Z)
  (fs : find_state) (E : editorConfig) (c : Z) (keys : list Z)
  : step_result :=
  if c =? KEY_ENTER
  then Stepped KILO_QUIT_TIMES fs (editorInsertNewline E) keys
  else if c =? CTRL_KEY 113
  then
    if (negb (dirty E =? 0) && (quit_times >? 0))%bool
    then Stepped (quit_times - 1) fs
           (editorSetStatusMessage E (quit_warning quit_times)) keys
    else Exited E
  else if c =? CTRL_KEY 115
  then
    match editorSave io keys E with
    | None => Starved
    | Some (E', _) => Stepped KILO_QUIT_TIMES fs E' (keys_after_save keys E)
    end
  else if c =? HOME_KEY
  then Stepped KILO_QUIT_TIMES fs (set_cursor E 0 (cy E)) keys
  else if c =? END_KEY
  then
    Stepped KILO_QUIT_TIMES fs
      (if cy E <? numrows E
       then match nth_error (row E) (Z.to_nat (cy E)) with
            | Some r => set_cursor E (size r) (cy E)
            | None => E
            end
       else E)
      keys
  else if c =? CTRL_KEY 102
  then
    match editorFind fs keys E with
    | None => Starved
    | Some (fs', E', rest) => Stepped KILO_QUIT_TIMES fs' E' rest
    end
  else if ((c =? BACKSPACE) || (c =? CTRL_KEY 104) || (c =? DEL_KEY))%bool
  then
    let E1 := if c =? DEL_KEY then editorMoveCursor E ARROW_RIGHT else E in
    Stepped KILO_QUIT_TIMES fs (editorDelChar E1) keys
  else if ((c =? PAGE_UP) || (c =? PAGE_DOWN))%bool
  then
    let E1 :=
      if c =? PAGE_UP then set_cursor E (cx E) (rowoff E)
      else
        let y := rowoff E + screenrows E - 1 in
        set_cursor E (cx E) (if y >? numrows E then numrows E else y) in
    if screenrows E <? 0 then Overrun
    else
      Stepped KILO_QUIT_TIMES fs
        (move_times (Z.to_nat (screenrows E)) E1
           (if c =? PAGE_UP then ARROW_UP else ARROW_DOWN))
        keys
  else if ((c =? ARROW_UP) || (c =? ARROW_DOWN) || (c =? ARROW_LEFT)
           || (c =? ARROW_RIGHT))%bool
  then Stepped KILO_QUIT_TIMES fs (editorMoveCursor E c) keys
  else if ((c =? CTRL_KEY 108) || (c =? KEY_ESC))%bool
  then Stepped KILO_QUIT_TIMES fs E keys
  else
    Stepped KILO_QUIT_TIMES fs
      (editorInsertChar E (ascii_of_N (Z.to_N (c mod 256)))) keys.

(** What a run of the main loop ends in: [exit(0)] with the keys not yet
    read, or the state in which the keys ran out. *)
Inductive run_result : Type :=
| RunExited (E : editorConfig) (rest : list Z)
| RunWaiting (quit_times : Z) (fs : find_state) (E : editorConfig)
| RunStarved
| RunOverrun.

(** [while (1) { editorRefreshScreen(); editorProcessKeypress(); }] on the
    keys [editorReadKey] returns; [ios n] is what the system answers to a
    save asked for when [n] keys are left to read.  [fuel] bounds the
    iterations; each one takes at least one key, so as many iterations as
    there are keys are enough. *)
Fixpoint main_loop (fuel : nat) (ios : nat -> save_io) (quit_times : Z)
  (fs : find_state) (E : editorConfig) (keys : list Z) : run_result :=
  match fuel with
  | O => RunWaiting quit_times fs E
  | S f =>
      match keys with
      | [] => RunWaiting quit_times fs E
      | c :: keys' =>
          match editorProcessKeypress (ios (length keys')) quit_times fs
                  (editorRefreshScreen E) c keys' with
          | Exited E' => RunExited E' keys'
          | Stepped q' fs' E' rest => main_loop f ios q' fs' E' rest
          | Starved => RunStarved
          | Overrun => RunOverrun
          end
      end
  end.

Definition run (ios : nat -> save_io) (E : editorConfig) (keys : list Z)
  : run_result :=
  main_loop (length keys) ios KILO_QUIT_TIMES find_init E keys.

(** The state the main loop keeps in order. *)
Definition editor_ok (E : editorConfig) : Prop :=
  doc_ok E /\ rows_ok E /\ cursor_ok E /\ 0 <= rowoff E /\ 0 < screenrows E.

(** The callback's [static] variables between two searches. *)
Definition find_idle (fs : find_state) : Prop :=
  last_match fs = -1 /\ saved_hl fs = None.

(** The fields that describe the window on the file. *)
Definition window (E : editorConfig) : Z * Z * Z * Z :=
  (rowoff E, coloff E, screenrows E, screencols E).

(** ** Views of the file text *)

(** A row that a save followed by a load gives back as it is: no newline
    in it and no carriage return at its end. *)
Definition line_clean (l : list ascii) : Prop :=
  ~ In LF l /\ forall pre, l <> pre ++ [CR].

(** ** Drawing *)

(** [abAppend(ab, s, len)] on a buffer held as the list of its bytes, for a
    [realloc] that succeeds (when it fails the call appends nothing).  The
    C call copies [len] bytes from [s] on; the model stops at the end of
    [s]. *)
Definition abAppend (ab s : list ascii) (len : Z) : list ascii :=
  ab ++ firstn (Z.to_nat len) s.

(** An escape sequence: ESC and the given text. *)
Definition esc (s : string) : list ascii := ESC_CHAR :: cs s.

(** [editorSyntaxToColor(hl)] *)
Definition editorSyntaxToColor (h : editorHighlight) : Z :=
  match h with
  | HL_COMMENT | HL_MLCOMMENT => 36
  | HL_KEYWORD1 => 33
  | HL_KEYWORD2 => 32
  | HL_STRING => 35
  | HL_NUMBER => 31
  | HL_MATCH => 34
  | HL_NORMAL => 37
  end.

(** [iscntrl] of the C locale on a byte of the render. *)
Definition iscntrl_char (c : ascii) : bool :=
  let n := nat_of_ascii c in (Nat.ltb n 32 || Nat.eqb n 127)%bool.

(** [(c[j] <= 26) ? '@' + c[j] : '?'], for a control character. *)
Definition control_symbol (c : ascii) : ascii :=
  let n := nat_of_ascii c in
  if Nat.leb n 26 then ascii_of_nat (64 + n) else "?"%char.

(** [snprintf(buf, sizeof(buf), "\x1b[%dm", color)] *)
Definition color_escape (color : Z) : list ascii :=
  ESC_CHAR :: cs "[" ++ decimal color ++ cs "m".

(** The loop over the columns of one row in [editorDrawRows]: [iters]
    columns from index [j] of the render, [c[j]] and [hl[j]] being read at
    [j] counted from the start of the row. *)
Fixpoint draw_cols (rnd : list ascii) (hls : list editorHighlight)
  (j iters : nat) (current_color : Z) (ab : list ascii) : list ascii :=
  match iters with
  | O => ab
  | S k =>
      let c := char_at rnd j in
      if iscntrl_char c
      then
        let ab1 := abAppend ab (esc "[7m") 4 in
        let ab2 := abAppend ab1 [control_symbol c] 1 in
        let ab3 := abAppend ab2 (esc "[m") 3 in
        let ab4 := if negb (current_color =? -1)
                   then abAppend ab3 (color_escape current_color)
                          (Z.of_nat (length (color_escape current_color)))
                   else ab3 in
        draw_cols rnd hls (S j) k current_color ab4
      else if hl_eqb (nth j hls HL_NORMAL) HL_NORMAL
      then
        let ab1 := if negb (current_color =? -1)
                   then abAppend ab (esc "[39m") 5
                   else ab in
        draw_cols rnd hls (S j) k (-1) (abAppend ab1 [c] 1)
      else
        let color := editorSyntaxToColor (nth j hls HL_NORMAL) in
        let ab1 := if negb (color =? current_color)
                   then abAppend ab (color_escape color)
                          (Z.of_nat (length (color_escape color)))
                   else ab in
        draw_cols rnd hls (S j) k color (abAppend ab1 [c] 1)
  end.

Definition KILO_VERSION : list ascii := cs "0.0.1".

(** The welcome line of an empty buffer.  The loop [while (padding--)] ends
    by its test when [padding] is not negative, which is so when the window
    has no negative width. *)
Definition draw_welcome (E : editorConfig) (ab : list ascii) : list ascii :=
  let welcome := cs "Kilo editor -- version " ++ KILO_VERSION in
  let welcomelen0 := Z.of_nat (length welcome) in
  let welcomelen := if welcomelen0 >? screencols E then screencols E
                    else welcomelen0 in
  let padding := Z.quot (screencols E - welcomelen) 2 in
  let '(ab1, padding1) :=
    if negb (padding =? 0) then (abAppend ab (cs "~") 1, padding - 1)
    else (ab, padding) in
  let ab2 := ab1 ++ repeat SPACE (Z.to_nat padding1) in
  abAppend ab2 welcome welcomelen.

(** One iteration of the loop of [editorDrawRows], for screen line [y]. *)
Definition draw_line (E : editorConfig) (y : Z) (ab : list ascii)
  : list ascii :=
  let filerow := y + rowoff E in
  let ab1 :=
    if filerow >=? numrows E
    then
      if ((numrows E =? 0) && (y =? Z.quot (screenrows E) 3))%bool
      then draw_welcome E ab
      else abAppend ab (cs "~") 1
    else
      match nth_error (row E) (Z.to_nat filerow) with
      | None => ab
      | Some r =>
          let len0 := Z.of_nat (rsize r) - coloff E in
          let len1 := if len0 <? 0 then 0 else len0 in
          let len := if len1 >? screencols E then screencols E else len1 in
          abAppend
            (draw_cols (render r) (hl r) (Z.to_nat (coloff E))
               (Z.to_nat len) (-1) ab)
            (esc "[39m") 5
      end in
  abAppend (abAppend ab1 (esc "[K") 3) [CR; LF] 2.

Fixpoint draw_lines (iters : nat) (E : editorConfig) (y : Z)
  (ab : list ascii) : list ascii :=
  match iters with
  | O => ab
  | S k => draw_lines k E (y + 1) (draw_line E y ab)
  end.

(** [editorDrawRows(ab)] *)
Definition editorDrawRows (E : editorConfig) (ab : list ascii)
  : list ascii :=
  draw_lines (Z.to_nat (screenrows E)) E 0 ab.

(** [snprintf(buf, 80, ...)]: what is stored and what is returned. *)
Definition snprintf80 (text : list ascii) : list ascii * Z :=
  (firstn 79 text, Z.of_nat (length text)).

(** The padding loop of the status bar. *)
Fixpoint status_pad (fuel : nat) (E : editorConfig) (len : Z)
  (rstatus : list ascii) (rlen : Z) (ab : list ascii) : list ascii :=
  match fuel with
  | O => ab
  | S f =>
      if len <? screencols E
      then
        if screencols E - len =? rlen then abAppend ab rstatus rlen
        else status_pad f E (len + 1) rstatus rlen (abAppend ab [SPACE] 1)
      else ab
  end.

(** The two texts of the status bar, as their formats give them:
    ["%.20s - %d lines %s"] and ["%s | %d/%d"]. *)
Definition status_text (E : editorConfig) : list ascii :=
  firstn 20 (match filename E with
             | Some f => c_str f
             | None => cs "[No Name]"
             end)
  ++ cs " - " ++ decimal (numrows E) ++ cs " lines "
  ++ (if dirty E =? 0 then [] else cs "(modified)").

Definition rstatus_text (E : editorConfig) : list ascii :=
  match syntax E with
  | Some s => c_str (filetype s)
  | None => cs "no ft"
  end
  ++ cs " | " ++ decimal (cy E + 1) ++ cs "/" ++ decimal (numrows E).

(** [editorDrawStatusBar(ab)] *)
Definition editorDrawStatusBar (E : editorConfig) (ab : list ascii)
  : list ascii :=
  let '(status, len0) := snprintf80 (status_text E) in
  let '(rstatus, rlen) := snprintf80 (rstatus_text E) in
  let len := if len0 >? screencols E then screencols E else len0 in
  let ab1 := abAppend (abAppend ab (esc "[7m") 4) status len in
  let ab2 := status_pad (Z.to_nat (screencols E - len)) E len rstatus rlen
               ab1 in
  abAppend (abAppend ab2 (esc "[m") 3) [CR; LF] 2.

(** [editorDrawMessageBar(ab)]; [recent] says whether
    [time(NULL) - E.statusmsg_time < 5]. *)
Definition editorDrawMessageBar (recent : bool) (E : editorConfig)
  (ab : list ascii) : list ascii :=
  let ab1 := abAppend ab (esc "[K") 3 in
  let msglen0 := Z.of_nat (strlen (statusmsg E)) in
  let msglen := if msglen0 >? screencols E then screencols E else msglen0 in
  if (negb (msglen =? 0) && recent)%bool
  then abAppend ab1 (statusmsg E) msglen
  else ab1.

(** [snprintf(buf, sizeof(buf), "\x1b[%d;%dH", y, x)] *)
Definition cursor_escape (y x : Z) : list ascii :=
  ESC_CHAR :: cs "[" ++ decimal y ++ cs ";" ++ decimal x ++ cs "H".

(** The bytes [editorRefreshScreen] writes to the terminal; the state it
    leaves is that of [editorScroll]. *)
Definition screen_bytes (recent : bool) (E : editorConfig) : list ascii :=
  let E1 := editorScroll E in
  let ab1 := abAppend [] (esc "[?25l") 6 in
  let ab2 := abAppend ab1 (esc "[H") 3 in
  let ab3 := editorDrawRows E1 ab2 in
  let ab4 := editorDrawStatusBar E1 ab3 in
  let ab5 := editorDrawMessageBar recent E1 ab4 in
  let buf := cursor_escape (cy E1 - rowoff E1 + 1) (rx E1 - coloff E1 + 1) in
  let ab6 := abAppend ab5 buf (Z.of_nat (strlen buf)) in
  abAppend ab6 (esc "[?25h") 6.


(** A byte that is no control character, or is ESC. *)
Definition tame (b : ascii) : Prop := iscntrl_char b = true -> b = ESC_CHAR.

(** * Properties *)

(** ** Lists as arrays *)

Lemma update_nth_length {A : Type} (l : list A) (n : nat) (x : A) :
  length (update_nth l n x) = length l.
Proof.
  revert n; induction l as [|h t IH]; intros [|n]; simpl; auto.
Qed.

Lemma update_nth_map_same {A B : Type} (f : A -> B) (l : list A) (n : nat)
  (x y : A) :
  nth_error l n = Some y -> f x = f y ->
  map f (update_nth l n x) = map f l.
Proof.
  revert n; induction l as [|h t IH]; intros [|n] Hn Hf; simpl in *;
    try discriminate.
  - injection Hn as ->. now rewrite Hf.
  - f_equal. eauto.
Qed.

Lemma nth_error_update_nth_eq {A : Type} (l : list A) (n : nat) (x y : A) :
  nth_error l n = Some y -> nth_error (update_nth l n x) n = Some x.
Proof.
  revert n; induction l as [|h t IH]; intros [|n] Hn; simpl in *;
    try discriminate; eauto.
Qed.

Lemma nth_error_update_nth_ne {A : Type} (l : list A) (n m : nat) (x : A) :
  n <> m -> nth_error (update_nth l n x) m = nth_error l m.
Proof.
  revert n m; induction l as [|h t IH]; intros [|n] [|m] Hne; simpl;
    try reflexivity; try congruence.
  apply IH. congruence.
Qed.

Lemma firstn_update_nth {A : Type} (l : list A) (n : nat) (x : A) :
  firstn n (update_nth l n x) = firstn n l.
Proof.
  revert n; induction l as [|h t IH]; intros [|n]; simpl; auto.
  now rewrite IH.
Qed.


Lemma update_nth_app {A : Type} (l1 l2 : list A) (x y : A) :
  update_nth (l1 ++ y :: l2) (length l1) x = l1 ++ x :: l2.
Proof.
  induction l1 as [|h t IH]; simpl; auto. now rewrite IH.
Qed.

Lemma memset_length {A : Type} (buf : list A) (i : nat) (v : A) (n : nat) :
  length (memset buf i v n) = length buf.
Proof.
  revert i n; induction buf as [|h t IH]; intros i n; simpl; auto.
  destruct i; simpl; auto. destruct n; simpl; auto.
Qed.

(** ** What a re-highlight leaves alone *)

Lemma erase_hl_fields (E E' : editorConfig) :
  erase_hl E' = erase_hl E ->
  cx E' = cx E /\ cy E' = cy E /\ numrows E' = numrows E /\
  dirty E' = dirty E /\ filename E' = filename E /\
  statusmsg E' = statusmsg E /\ syntax E' = syntax E /\
  map chars (row E') = map chars (row E) /\
  map render (row E') = map render (row E) /\
  map idx (row E') = map idx (row E) /\
  length (row E') = length (row E).
Proof.
  intros H. unfold erase_hl, set_row in H.
  injection H as Hcx Hcy Hrx Hro Hco Hsr Hsc Hn Hrows Hd Hf Hs Hsy.
  repeat split; auto.
  - apply (f_equal (map chars)) in Hrows. rewrite !map_map in Hrows.
    exact Hrows.
  - apply (f_equal (map render)) in Hrows. rewrite !map_map in Hrows.
    exact Hrows.
  - apply (f_equal (map idx)) in Hrows. rewrite !map_map in Hrows.
    exact Hrows.
  - apply (f_equal (@length erow)) in Hrows. now rewrite !length_map in Hrows.
Qed.

Lemma erase_hl_update (E : editorConfig) (n : nat) (r r' : erow) :
  nth_error (row E) n = Some r -> row_text r' = row_text r ->
  erase_hl (set_row E (update_nth (row E) n r')) = erase_hl E.
Proof.
  intros Hn Hr. unfold erase_hl, set_row; simpl. f_equal.
  now apply update_nth_map_same with (y := r).
Qed.

Lemma editorUpdateSyntax_fuel_erase (fuel : nat) :
  forall E n E', editorUpdateSyntax_fuel fuel E n = Some E' ->
                 erase_hl E' = erase_hl E.
Proof.
  induction fuel as [|f IH]; intros E n E' H; simpl in H; [discriminate|].
  destruct (nth_error (row E) n) as [r|] eqn:Hn.
  2:{ now injection H as <-. }
  destruct (syntax E) as [s|] eqn:Hs.
  - match type of H with
    | (if ?c then _ else _) = _ => destruct c
    end.
    + apply IH in H. rewrite H. now apply erase_hl_update with (r := r).
    + injection H as <-. now apply erase_hl_update with (r := r).
  - injection H as <-. now apply erase_hl_update with (r := r).
Qed.

Lemma editorUpdateSyntax_erase (E : editorConfig) (n : nat) :
  erase_hl (editorUpdateSyntax E n) = erase_hl E.
Proof.
  unfold editorUpdateSyntax.
  destruct (editorUpdateSyntax_fuel _ E n) as [E'|] eqn:H; auto.
  now apply editorUpdateSyntax_fuel_erase in H.
Qed.

(** ** Row operations keep the text *)

Lemma editorUpdateRow_frame (E : editorConfig) (n : nat) :
  let E' := editorUpdateRow E n in
  cx E' = cx E /\ cy E' = cy E /\ numrows E' = numrows E /\
  dirty E' = dirty E /\ filename E' = filename E /\
  statusmsg E' = statusmsg E /\ syntax E' = syntax E /\
  map chars (row E') = map chars (row E) /\
  map idx (row E') = map idx (row E) /\
  length (row E') = length (row E).
Proof.
  unfold editorUpdateRow.
  destruct (nth_error (row E) n) as [r|] eqn:Hn; [|tauto].
  set (E1 := set_row E _).
  destruct (erase_hl_fields E1 (editorUpdateSyntax E1 n)
              (editorUpdateSyntax_erase E1 n))
    as (H1 & H2 & H3 & H4 & H5 & H6 & H7 & H8 & _ & H10 & H11).
  cbv zeta. rewrite H1, H2, H3, H4, H5, H6, H7, H8, H10, H11.
  subst E1; simpl. repeat split; auto.
  - now apply update_nth_map_same with (y := r).
  - now apply update_nth_map_same with (y := r).
  - apply update_nth_length.
Qed.

Lemma editorUpdateRow_chars (E : editorConfig) (n : nat) :
  map chars (row (editorUpdateRow E n)) = map chars (row E).
Proof. apply (editorUpdateRow_frame E n). Qed.

Lemma editorUpdateRow_render (E : editorConfig) (n : nat) (r : erow) :
  nth_error (row E) n = Some r ->
  exists r', nth_error (row (editorUpdateRow E n)) n = Some r' /\
             chars r' = chars r /\ render r' = render_of (chars r).
Proof.
  intros Hn. unfold editorUpdateRow. rewrite Hn.
  set (r1 := mkRow _ _ _ _ _). set (E1 := set_row E _).
  destruct (erase_hl_fields E1 (editorUpdateSyntax E1 n)
              (editorUpdateSyntax_erase E1 n))
    as (_ & _ & _ & _ & _ & _ & _ & Hc & Hr & _ & Hl).
  assert (H1 : nth_error (row E1) n = Some r1).
  { subst E1; simpl. now apply nth_error_update_nth_eq with (y := r). }
  assert (Hlt : (n < length (row (editorUpdateSyntax E1 n)))%nat).
  { rewrite Hl. apply nth_error_Some. congruence. }
  destruct (nth_error (row (editorUpdateSyntax E1 n)) n) as [r'|] eqn:Hr';
    [|apply nth_error_None in Hr'; lia].
  exists r'. split; [reflexivity|].
  pose proof (map_nth_error chars _ _ Hr') as A.
  pose proof (map_nth_error chars _ _ H1) as B.
  pose proof (map_nth_error render _ _ Hr') as C.
  pose proof (map_nth_error render _ _ H1) as D.
  rewrite Hc, B in A. rewrite Hr, D in C.
  injection A as A. injection C as C. subst r1; simpl in *. auto.
Qed.

(** Splicing one row's characters in a list of rows. *)
Lemma map_chars_update (rows : list erow) (n : nat) (r : erow)
  (cs' : list ascii) :
  nth_error rows n = Some r ->
  map chars (update_nth rows n (set_chars r cs'))
  = update_nth (map chars rows) n cs'.
Proof.
  revert n; induction rows as [|h t IH]; intros [|n] Hn; simpl in *;
    try discriminate; auto.
  f_equal. auto.
Qed.

Lemma update_nth_twice {A : Type} (l : list A) (n : nat) (x y : A) :
  update_nth (update_nth l n x) n y = update_nth l n y.
Proof.
  revert n; induction l as [|h t IH]; intros [|n]; simpl; auto.
  now rewrite IH.
Qed.

Lemma update_nth_id {A : Type} (l : list A) (n : nat) (x : A) :
  nth_error l n = Some x -> update_nth l n x = l.
Proof.
  revert n; induction l as [|h t IH]; intros [|n] Hn; simpl in *;
    try discriminate.
  - now injection Hn as ->.
  - f_equal; auto.
Qed.

Lemma editorRowInsertChar_chars (E : editorConfig) (n : nat) (k : Z)
  (c : ascii) (r : erow) :
  nth_error (row E) n = Some r -> 0 <= k <= size r ->
  map chars (row (editorRowInsertChar E n k c))
  = update_nth (map chars (row E)) n
      (firstn (Z.to_nat k) (chars r) ++ c :: skipn (Z.to_nat k) (chars r)).
Proof.
  intros Hn Hk. unfold editorRowInsertChar. rewrite Hn.
  replace ((k <? 0) || (k >? size r))%bool with false
    by (symmetry; apply orb_false_iff; split; lia).
  simpl. rewrite editorUpdateRow_chars. simpl.
  now apply map_chars_update.
Qed.

Lemma editorRowDelChar_chars (E : editorConfig) (n : nat) (k : Z)
  (r : erow) :
  nth_error (row E) n = Some r -> 0 <= k < size r ->
  map chars (row (editorRowDelChar E n k))
  = update_nth (map chars (row E)) n
      (firstn (Z.to_nat k) (chars r) ++ skipn (S (Z.to_nat k)) (chars r)).
Proof.
  intros Hn Hk. unfold editorRowDelChar. rewrite Hn.
  replace ((k <? 0) || (k >=? size r))%bool with false
    by (symmetry; apply orb_false_iff; split; lia).
  simpl. rewrite editorUpdateRow_chars. simpl.
  now apply map_chars_update.
Qed.

Lemma nth_error_map_chars (rows : list erow) (n : nat) (l : list ascii) :
  nth_error (map chars rows) n = Some l ->
  exists r, nth_error rows n = Some r /\ chars r = l.
Proof.
  rewrite nth_error_map. destruct (nth_error rows n) as [r|]; simpl;
    [|discriminate].
  intros H; injection H as <-. eauto.
Qed.

Lemma splice_unsplice (l : list ascii) (k : nat) (c : ascii) :
  (k <= length l)%nat ->
  let l' := firstn k l ++ c :: skipn k l in
  firstn k l' ++ skipn (S k) l' = l.
Proof.
  intros Hk l'. subst l'.
  assert (Hlen : length (firstn k l) = k) by (rewrite length_firstn; lia).
  rewrite firstn_app, Hlen, Nat.sub_diag, firstn_O, app_nil_r.
  rewrite firstn_all2 by lia.
  replace (S k) with (length (firstn k l) + 1)%nat by lia.
  rewrite skipn_app, Hlen.
  replace (k + 1 - k)%nat with 1%nat by lia.
  rewrite skipn_all2 by lia. simpl.
  apply firstn_skipn.
Qed.

(** C8 (as stated, for every position): the round trip fails once the
    position lies past the end of the row.  Inserting at column 3 of the
    two-character row [ab] appends; deleting at column 3 of the resulting
    three-character row is out of bounds and does nothing. *)
Lemma insert_delete_out_of_range :
  let E := mkConfig 0 0 0 0 0 24 80 1
             [mkRow 0 (cs "ab") (cs "ab") [HL_NORMAL; HL_NORMAL] false]
             0 None [] None in
  map chars (row (editorRowDelChar (editorRowInsertChar E 0 3 "c"%char) 0 3))
  = [cs "abc"] /\
  map chars (row (editorRowDelChar (editorRowInsertChar E 0 3 "c"%char) 0 3))
  <> map chars (row E).
Proof.
  split; [reflexivity | discriminate].
Qed.

Lemma editorRowInsertChar_appends (E : editorConfig) (n : nat) (k : Z)
  (c : ascii) (r : erow) :
  nth_error (row E) n = Some r -> k < 0 \/ size r < k ->
  map chars (row (editorRowInsertChar E n k c))
  = update_nth (map chars (row E)) n (chars r ++ [c]).
Proof.
  intros Hn Hk. unfold editorRowInsertChar. rewrite Hn.
  replace ((k <? 0) || (k >? size r))%bool with true
    by (symmetry; apply orb_true_iff; destruct Hk; [left|right]; lia).
  simpl. rewrite editorUpdateRow_chars. simpl.
  unfold size. rewrite Nat2Z.id, firstn_all, skipn_all.
  now apply map_chars_update.
Qed.

Lemma editorRowDelChar_out_of_range (E : editorConfig) (n : nat) (k : Z)
  (r : erow) :
  nth_error (row E) n = Some r -> k < 0 \/ size r <= k ->
  editorRowDelChar E n k = E.
Proof.
  intros Hn Hk. unfold editorRowDelChar. rewrite Hn.
  replace ((k <? 0) || (k >=? size r))%bool with true
    by (symmetry; apply orb_true_iff; destruct Hk; [left|right]; lia).
  reflexivity.
Qed.

(** C8 (amended): for every row and every position [k] inside the row,
    from 0 to its length, inserting a character at [k] and then deleting
    at [k] restores the characters of the row, and of every other row.
    For every [k] outside that range, negative or past the length, the
    insert appends the character at the end of the row, and the delete
    at [k] is out of bounds and leaves the whole state as it is, so that
    the appended character stays. *)
Theorem insert_then_delete_restores_chars :
  forall (E : editorConfig) (n : nat) (r : erow) (k : Z) (c : ascii),
    nth_error (row E) n = Some r ->
    (0 <= k <= size r ->
     map chars (row (editorRowDelChar (editorRowInsertChar E n k c) n k))
     = map chars (row E)) /\
    (k < 0 \/ size r < k ->
     map chars (row (editorRowInsertChar E n k c))
     = update_nth (map chars (row E)) n (chars r ++ [c]) /\
     editorRowDelChar (editorRowInsertChar E n k c) n k
     = editorRowInsertChar E n k c /\
     map chars (row (editorRowDelChar (editorRowInsertChar E n k c) n k))
     <> map chars (row E)).
Proof.
  intros E n r k c Hn. split; intros Hk.
  - pose proof (editorRowInsertChar_chars E n k c r Hn Hk) as Hins.
    set (E1 := editorRowInsertChar E n k c) in *.
    set (l' := firstn (Z.to_nat k) (chars r)
               ++ c :: skipn (Z.to_nat k) (chars r)) in *.
    assert (H1 : nth_error (map chars (row E1)) n = Some l').
    { rewrite Hins. apply nth_error_update_nth_eq with (y := chars r).
      now apply map_nth_error. }
    destruct (nth_error_map_chars _ _ _ H1) as (r1 & Hr1 & Hc1).
    assert (Hlen : length l' = S (length (chars r))).
    { subst l'. rewrite length_app. simpl.
      rewrite length_firstn, length_skipn. unfold size in Hk. lia. }
    rewrite (editorRowDelChar_chars E1 n k r1 Hr1)
      by (unfold size in *; rewrite Hc1, Hlen; lia).
    rewrite Hins, update_nth_twice, Hc1.
    subst l'. rewrite splice_unsplice by (unfold size in Hk; lia).
    apply update_nth_id. now apply map_nth_error.
  - pose proof (editorRowInsertChar_appends E n k c r Hn Hk) as Hins.
    set (E1 := editorRowInsertChar E n k c) in *.
    assert (H1 : nth_error (map chars (row E1)) n = Some (chars r ++ [c])).
    { rewrite Hins. apply nth_error_update_nth_eq with (y := chars r).
      now apply map_nth_error. }
    destruct (nth_error_map_chars _ _ _ H1) as (r1 & Hr1 & Hc1).
    assert (Hdel : editorRowDelChar E1 n k = E1).
    { apply (editorRowDelChar_out_of_range E1 n k r1 Hr1).
      unfold size in *. rewrite Hc1, length_app. simpl. lia. }
    split; [exact Hins|]. split; [exact Hdel|].
    rewrite Hdel. intros Heq. rewrite Heq in H1.
    rewrite (map_nth_error chars _ _ Hn) in H1.
    injection H1 as H1. apply (f_equal (@length ascii)) in H1.
    rewrite length_app in H1. simpl in H1. lia.
Qed.

(** The round trip at column 1 of the row [ab], and the two ways of being
    out of range on it: column 3 and column -1. *)
Lemma insert_then_delete_restores_chars_witness :
  let r := mkRow 0 (cs "ab") (cs "ab") [HL_NORMAL; HL_NORMAL] false in
  let E := mkConfig 0 0 0 0 0 24 80 1 [r] 0 None [] None in
  map chars (row (editorRowDelChar (editorRowInsertChar E 0 1 "c"%char) 0 1))
  = map chars (row E) /\
  map chars (row (editorRowDelChar (editorRowInsertChar E 0 3 "c"%char) 0 3))
  = [cs "abc"] /\
  map chars (row (editorRowDelChar (editorRowInsertChar E 0 (-1) "c"%char)
                    0 (-1)))
  = [cs "abc"].
Proof.
  intros r E.
  destruct (insert_then_delete_restores_chars E 0 r 1 "c"%char eq_refl)
    as [Hin _].
  destruct (insert_then_delete_restores_chars E 0 r 3 "c"%char eq_refl)
    as [_ Hbig].
  destruct (insert_then_delete_restores_chars E 0 r (-1) "c"%char eq_refl)
    as [_ Hneg].
  split; [apply Hin; unfold size; simpl; lia|].
  split.
  - destruct Hbig as (Hins & Hdel & _); [right; unfold size; simpl; lia|].
    rewrite Hdel, Hins. reflexivity.
  - destruct Hneg as (Hins & Hdel & _); [left; lia|].
    rewrite Hdel, Hins. reflexivity.
Defined.

(** ** Render space and character space *)

Lemma tab_fill_length (fuel : nat) :
  forall acc : list ascii,
    (- Z.of_nat (length acc)) mod 8 <= Z.of_nat fuel ->
    Z.of_nat (length (tab_fill fuel acc))
    = Z.of_nat (length acc) + (- Z.of_nat (length acc)) mod 8.
Proof.
  induction fuel as [|f IH]; intros acc Hf; simpl tab_fill.
  - assert ((- Z.of_nat (length acc)) mod 8 = 0)
      by (Z.to_euclidean_division_equations; lia).
    lia.
  - unfold KILO_TAB_STOP.
    rewrite Z.rem_mod_nonneg by lia.
    destruct (Z.eqb_spec (Z.of_nat (length acc) mod 8) 0) as [H0|H0].
    + Z.to_euclidean_division_equations; lia.
    + rewrite IH; rewrite length_app; simpl length;
        Z.to_euclidean_division_equations; lia.
Qed.

Lemma render_loop_tabs (cs : list ascii) :
  forall acc : list ascii,
    Forall (fun c => c = TAB) cs ->
    Z.of_nat (length acc) mod 8 = 0 ->
    Z.of_nat (length (render_loop cs acc))
    = Z.of_nat (length acc) + KILO_TAB_STOP * Z.of_nat (length cs).
Proof.
  induction cs as [|c rest IH]; intros acc Hall Hacc; cbn [render_loop length].
  - unfold KILO_TAB_STOP; lia.
  - inversion Hall as [|? ? Hc Hrest]; subst.
    rewrite Ascii.eqb_refl.
    assert (Hfill : Z.of_nat (length (tab_fill (Z.to_nat KILO_TAB_STOP)
                                        (acc ++ [SPACE])))
                    = Z.of_nat (length acc) + 8).
    { rewrite tab_fill_length; rewrite length_app; simpl length;
        unfold KILO_TAB_STOP; Z.to_euclidean_division_equations; lia. }
    rewrite IH; auto.
    + rewrite Hfill. unfold KILO_TAB_STOP. lia.
    + rewrite Hfill. clear -Hacc. Z.to_euclidean_division_equations; lia.
Qed.

Lemma advance_rx_gt (c : ascii) (r : Z) : 0 <= r -> r < advance_rx c r.
Proof.
  intros Hr. unfold advance_rx, KILO_TAB_STOP.
  destruct (Ascii.eqb c TAB); [|lia].
  rewrite Z.rem_mod_nonneg by lia.
  Z.to_euclidean_division_equations; lia.
Qed.


Lemma rx_after_ge (pre : list ascii) :
  forall r, 0 <= r -> r <= rx_after pre r.
Proof.
  unfold rx_after.
  induction pre as [|c pre IH]; intros r Hr; simpl; [lia|].
  pose proof (advance_rx_gt c r Hr).
  specialize (IH (advance_rx c r)). lia.
Qed.

Lemma CxToRx_loop_prefix (cs : list ascii) (k : nat) :
  forall (j : nat) (r : Z),
    (j + k <= length cs)%nat ->
    CxToRx_loop cs j k r = rx_after (firstn k (skipn j cs)) r.
Proof.
  induction k as [|k IH]; intros j r Hjk; simpl; [reflexivity|].
  rewrite IH by lia.
  assert (Hj : (j < length cs)%nat) by lia.
  destruct (skipn j cs) as [|c rest] eqn:Hs.
  - apply (f_equal (@length ascii)) in Hs. rewrite length_skipn in Hs.
    simpl in Hs. lia.
  - assert (Hc : char_at cs j = c).
    { unfold char_at. rewrite <- (firstn_skipn j cs) at 1.
      rewrite app_nth2; rewrite length_firstn; [|lia].
      replace (j - Nat.min j (length cs))%nat with O by lia.
      now rewrite Hs. }
    assert (Hr : skipn (S j) cs = rest).
    { replace (S j) with (1 + j)%nat by lia.
      rewrite <- skipn_skipn, Hs. reflexivity. }
    rewrite Hc, Hr. reflexivity.
Qed.

Lemma RxToCx_loop_prefix (pre : list ascii) :
  forall (post : list ascii) (x cur : Z),
    0 <= cur ->
    RxToCx_loop (pre ++ post) x cur (rx_after pre cur)
    = x + Z.of_nat (length pre).
Proof.
  unfold rx_after.
  induction pre as [|c pre IH]; intros post x cur Hcur.
  - simpl. destruct post as [|c post]; simpl; [lia|].
    pose proof (advance_rx_gt c cur Hcur).
    destruct (Z.gtb_spec (advance_rx c cur) cur); lia.
  - cbn [app RxToCx_loop fold_left length].
    pose proof (advance_rx_gt c cur Hcur).
    pose proof (rx_after_ge pre (advance_rx c cur)) as Hge.
    unfold rx_after in Hge.
    destruct (Z.gtb_spec (advance_rx c cur)
                (fold_left (fun r c0 => advance_rx c0 r) pre
                   (advance_rx c cur))); [lia|].
    rewrite IH by lia. lia.
Qed.

(** C5: a row made of tabs only is rendered [KILO_TAB_STOP] columns wide
    per character by [editorUpdateRow], and for every row and every column
    [x] from 0 to the length of the row, [editorRowRxToCx] maps the render
    column that [editorRowCxToRx] gives for [x] back to [x]. *)
Theorem tabs_render_width_and_column_roundtrip :
  forall (E : editorConfig) (n : nat) (r : erow),
    nth_error (row E) n = Some r ->
    (Forall (fun c => c = TAB) (chars r) ->
     exists r', nth_error (row (editorUpdateRow E n)) n = Some r' /\
                chars r' = chars r /\
                Z.of_nat (rsize r') = KILO_TAB_STOP * size r') /\
    (forall x : Z, 0 <= x <= size r ->
                   editorRowRxToCx r (editorRowCxToRx r x) = x).
Proof.
  intros E n r Hn. split.
  - intros Htabs.
    destruct (editorUpdateRow_render E n r Hn) as (r' & Hr' & Hc & Hrd).
    exists r'. repeat split; auto.
    unfold rsize, size. rewrite Hrd, Hc. unfold render_of.
    rewrite render_loop_tabs; auto.
  - intros x Hx. unfold editorRowRxToCx, editorRowCxToRx, size in *.
    rewrite CxToRx_loop_prefix by (simpl; lia).
    simpl skipn.
    rewrite <- (firstn_skipn (Z.to_nat x) (chars r)) at 1.
    rewrite RxToCx_loop_prefix by lia.
    rewrite length_firstn. lia.
Qed.

(** The row of two tabs: sixteen columns, and column 1 maps to render
    column 8 and back. *)
Lemma tabs_render_width_and_column_roundtrip_witness :
  let r := mkRow 0 [TAB; TAB] [] [] false in
  let E := mkConfig 0 0 0 0 0 24 80 1 [r] 0 None [] None in
  (exists r', nth_error (row (editorUpdateRow E 0)) 0 = Some r' /\
              chars r' = chars r /\
              Z.of_nat (rsize r') = KILO_TAB_STOP * size r') /\
  editorRowRxToCx r (editorRowCxToRx r 1) = 1.
Proof.
  intros r E.
  destruct (tabs_render_width_and_column_roundtrip E 0 r eq_refl) as [A B].
  split.
  - apply A. repeat constructor.
  - apply B. unfold size; simpl; lia.
Defined.

(** ** Structural edits on the text *)

Lemma editorInsertRow_text (E : editorConfig) (a : Z) (s : list ascii) :
  0 <= a <= numrows E ->
  let E' := editorInsertRow E a s in
  map chars (row E')
  = firstn (Z.to_nat a) (map chars (row E))
      ++ s :: skipn (Z.to_nat a) (map chars (row E)) /\
  numrows E' = numrows E + 1 /\ cx E' = cx E /\ cy E' = cy E /\
  dirty E' = dirty E + 1 /\ filename E' = filename E /\
  syntax E' = syntax E /\
  length (row E') = S (length (row E)).
Proof.
  intros Ha. unfold editorInsertRow.
  replace ((a <? 0) || (a >? numrows E))%bool with false
    by (symmetry; apply orb_false_iff; split; lia).
  set (rows := firstn _ _ ++ _).
  destruct (editorUpdateRow_frame (set_row E rows) (Z.to_nat a))
    as (H1 & H2 & H3 & H4 & H5 & H6 & H7 & H8 & _ & H10).
  cbv zeta. simpl. simpl in H1, H2, H3, H4, H5, H7, H8, H10.
  rewrite H1, H2, H3, H4, H5, H7, H8, H10.
  repeat split; auto.
  - subst rows. rewrite map_app. simpl. rewrite map_map. simpl.
    now rewrite firstn_map, skipn_map.
  - subst rows. rewrite length_app. simpl. rewrite length_map.
    rewrite <- (firstn_skipn (Z.to_nat a) (row E)) at 3.
    rewrite length_app. lia.
Qed.

Lemma editorDelRow_text (E : editorConfig) (a : Z) :
  0 <= a < numrows E ->
  let E' := editorDelRow E a in
  map chars (row E')
  = firstn (Z.to_nat a) (map chars (row E))
      ++ skipn (S (Z.to_nat a)) (map chars (row E)) /\
  numrows E' = numrows E - 1 /\ cx E' = cx E /\ cy E' = cy E.
Proof.
  intros Ha. unfold editorDelRow.
  replace ((a <? 0) || (a >=? numrows E))%bool with false
    by (symmetry; apply orb_false_iff; split; lia).
  cbv zeta. unfold set_dirty, set_numrows, set_row.
  cbn [row numrows cx cy]. repeat split; auto.
  rewrite firstn_map, skipn_map, map_app, map_map. reflexivity.
Qed.

Lemma editorRowAppendString_text (E : editorConfig) (n : nat)
  (s : list ascii) (r : erow) :
  nth_error (row E) n = Some r ->
  let E' := editorRowAppendString E n s in
  map chars (row E') = update_nth (map chars (row E)) n (chars r ++ s) /\
  numrows E' = numrows E /\ cx E' = cx E /\ cy E' = cy E.
Proof.
  intros Hn. unfold editorRowAppendString. rewrite Hn.
  set (E1 := set_row E _).
  destruct (editorUpdateRow_frame E1 n)
    as (H1 & H2 & H3 & _ & _ & _ & _ & H8 & _).
  cbv zeta. simpl. rewrite H1, H2, H3, H8. subst E1; simpl.
  repeat split; auto. now apply map_chars_update.
Qed.

Lemma nth_error_split_at {A : Type} (l : list A) (n : nat) (x : A) :
  nth_error l n = Some x ->
  l = firstn n l ++ x :: skipn (S n) l /\ length (firstn n l) = n.
Proof.
  revert n; induction l as [|h t IH]; intros [|n] Hn; simpl in *;
    try discriminate.
  - injection Hn as ->. auto.
  - destruct (IH n Hn) as [HA HB]. split; [f_equal; exact HA | now f_equal].
Qed.

Lemma nth_error_middle {A : Type} (l1 l2 : list A) (x : A) (n : nat) :
  length l1 = n -> nth_error (l1 ++ x :: l2) n = Some x.
Proof.
  intros <-. rewrite nth_error_app2 by lia. now rewrite Nat.sub_diag.
Qed.

Lemma firstn_middle {A : Type} (l1 l2 : list A) (n : nat) :
  length l1 = n -> firstn n (l1 ++ l2) = l1.
Proof.
  intros <-. rewrite firstn_app, Nat.sub_diag, firstn_O, app_nil_r.
  apply firstn_all.
Qed.

Lemma skipn_middle {A : Type} (l1 l2 : list A) (n : nat) :
  length l1 = n -> skipn n (l1 ++ l2) = l2.
Proof.
  intros <-. rewrite skipn_app, Nat.sub_diag, skipn_all. reflexivity.
Qed.

Lemma skipn_S_middle {A : Type} (l1 l2 : list A) (x : A) (n : nat) :
  length l1 = n -> skipn (S n) (l1 ++ x :: l2) = l2.
Proof.
  intros <-. replace (S (length l1)) with (length (l1 ++ [x])).
  - rewrite <- (skipn_middle (l1 ++ [x]) l2 (length (l1 ++ [x])) eq_refl) at 2.
    now rewrite <- app_assoc.
  - rewrite length_app; simpl; lia.
Qed.

(** The text after [editorInsertNewline]: the row under the cursor is cut
    at the cursor column. *)
Lemma editorInsertNewline_text (E : editorConfig) (r : erow) :
  numrows E = Z.of_nat (length (row E)) ->
  0 <= cy E ->
  nth_error (row E) (Z.to_nat (cy E)) = Some r ->
  0 <= cx E <= size r ->
  let E1 := editorInsertNewline E in
  map chars (row E1)
  = firstn (Z.to_nat (cy E)) (map chars (row E))
      ++ firstn (Z.to_nat (cx E)) (chars r)
      :: skipn (Z.to_nat (cx E)) (chars r)
      :: skipn (S (Z.to_nat (cy E))) (map chars (row E)) /\
  cx E1 = 0 /\ cy E1 = cy E + 1 /\ numrows E1 = numrows E + 1.
Proof.
  intros Hwf Hcy Hr Hcx.
  assert (Hlt : (Z.to_nat (cy E) < length (row E))%nat)
    by (apply nth_error_Some; congruence).
  pose proof (map_nth_error chars _ _ Hr) as Hrc.
  destruct (nth_error_split_at _ _ _ Hrc) as [Hsplit Hpre].
  set (pre := firstn (Z.to_nat (cy E)) (map chars (row E))) in *.
  set (post := skipn (S (Z.to_nat (cy E))) (map chars (row E))) in *.
  unfold editorInsertNewline.
  destruct (Z.eqb_spec (cx E) 0) as [H0|H0].
  - destruct (editorInsertRow_text E (cy E) []) as (A & B & _ & D & _);
      [lia|].
    cbv zeta. simpl. rewrite A, B, D, H0. simpl.
    repeat split; auto.
    fold pre. f_equal. f_equal.
    rewrite Hsplit. now apply skipn_middle.
  - rewrite Hr.
    set (suffix := skipn (Z.to_nat (cx E)) (chars r)).
    destruct (editorInsertRow_text E (cy E + 1) suffix)
      as (A & B & C & D & _); [lia|].
    set (E' := editorInsertRow E (cy E + 1) suffix) in *.
    assert (Hrows' : map chars (row E') = pre ++ chars r :: suffix :: post).
    { rewrite A. replace (Z.to_nat (cy E + 1)) with (S (Z.to_nat (cy E)))
        by lia.
      rewrite Hsplit at 1.
      replace (S (Z.to_nat (cy E))) with (length (pre ++ [chars r]))
        by (rewrite length_app; simpl; lia).
      rewrite (app_assoc pre [chars r] post : pre ++ chars r :: post = _).
      rewrite firstn_middle by reflexivity.
      rewrite <- app_assoc. simpl. do 3 f_equal.
      unfold post. f_equal. rewrite length_app; simpl; lia. }
    assert (Hat : nth_error (map chars (row E')) (Z.to_nat (cy E'))
                  = Some (chars r)).
    { rewrite Hrows', D. now apply nth_error_middle. }
    destruct (nth_error_map_chars _ _ _ Hat) as (r' & Hr' & Hc').
    rewrite Hr'.
    destruct (editorUpdateRow_frame
                (set_row E' (update_nth (row E') (Z.to_nat (cy E'))
                               (set_chars r' (firstn (Z.to_nat (cx E'))
                                                (chars r')))))
                (Z.to_nat (cy E')))
      as (H1 & H2 & H3 & _ & _ & _ & _ & H8 & _).
    cbv zeta. simpl. simpl in H1, H2, H3, H8. rewrite H2, H3, H8.
    rewrite (map_chars_update _ _ _ _ Hr'), Hrows', D, C, Hc', B.
    repeat split; auto.
    rewrite <- Hpre at 1. apply update_nth_app.
Qed.

(** C3: in a document whose cursor [(cx, cy)] stands on a row, at a column
    from 0 to the length of that row, [editorInsertNewline] cuts the row in
    two at [cx], and [editorDelChar], called next with the cursor at column
    0 of the new lower row, joins the two rows again: every row has its
    original characters, and the cursor is at the join point, which is the
    length of the upper row and the original [cx]. *)
Theorem split_then_join_restores_chars :
  forall (E : editorConfig) (r : erow),
    numrows E = Z.of_nat (length (row E)) ->
    0 <= cy E ->
    nth_error (row E) (Z.to_nat (cy E)) = Some r ->
    0 <= cx E <= size r ->
    let E1 := editorInsertNewline E in
    let E2 := editorDelChar E1 in
    (exists up low,
        nth_error (row E1) (Z.to_nat (cy E)) = Some up /\
        nth_error (row E1) (Z.to_nat (cy E + 1)) = Some low /\
        chars up = firstn (Z.to_nat (cx E)) (chars r) /\
        chars low = skipn (Z.to_nat (cx E)) (chars r) /\
        cx E1 = 0 /\ cy E1 = cy E + 1 /\
        cx E2 = size up) /\
    map chars (row E2) = map chars (row E) /\
    nth_error (map chars (row E2)) (Z.to_nat (cy E)) = Some (chars r) /\
    numrows E2 = numrows E /\
    cx E2 = cx E /\ cy E2 = cy E.
Proof.
  intros E r Hwf Hcy Hr Hcx E1 E2.
  destruct (editorInsertNewline_text E r Hwf Hcy Hr Hcx)
    as (Hrows1 & Hcx1 & Hcy1 & Hn1).
  fold E1 in Hrows1, Hcx1, Hcy1, Hn1. clearbody E1.
  assert (Hlt : (Z.to_nat (cy E) < length (row E))%nat)
    by (apply nth_error_Some; congruence).
  pose proof (map_nth_error chars _ _ Hr) as Hrc.
  destruct (nth_error_split_at _ _ _ Hrc) as [Hsplit Hpre].
  set (pre := firstn (Z.to_nat (cy E)) (map chars (row E))) in *.
  set (post := skipn (S (Z.to_nat (cy E))) (map chars (row E))) in *.
  set (a := firstn (Z.to_nat (cx E)) (chars r)) in *.
  set (b := skipn (Z.to_nat (cx E)) (chars r)) in *.
  assert (Hup : nth_error (map chars (row E1)) (Z.to_nat (cy E)) = Some a).
  { rewrite Hrows1. now apply nth_error_middle. }
  assert (Hlow : nth_error (map chars (row E1)) (Z.to_nat (cy E + 1))
                 = Some b).
  { rewrite Hrows1.
    rewrite (app_assoc pre [a] (b :: post) : pre ++ a :: b :: post = _).
    apply nth_error_middle. rewrite length_app; simpl; lia. }
  destruct (nth_error_map_chars _ _ _ Hup) as (up & Hup' & Hupc).
  destruct (nth_error_map_chars _ _ _ Hlow) as (low & Hlow' & Hlowc).
  assert (Hsz : size up = cx E).
  { unfold size. rewrite Hupc. subst a. rewrite length_firstn.
    unfold size in Hcx. lia. }
  (* the join *)
  assert (HE2 : map chars (row E2) = map chars (row E) /\
                numrows E2 = numrows E /\ cx E2 = size up /\ cy E2 = cy E).
  { subst E2. unfold editorDelChar.
    replace (cy E1 =? numrows E1) with false by (symmetry; lia).
    replace ((cx E1 =? 0) && (cy E1 =? 0))%bool with false
      by (symmetry; apply andb_false_iff; right; lia).
    rewrite Hcy1, Hlow'.
    replace (cx E1 >? 0) with false by (symmetry; lia).
    replace (cy E + 1 - 1) with (cy E) by lia.
    rewrite Hup'.
    set (Ea := set_cursor E1 (size up) (cy E + 1)).
    assert (Hupa : nth_error (row Ea) (Z.to_nat (cy Ea - 1)) = Some up).
    { subst Ea; simpl. now replace (cy E + 1 - 1) with (cy E) by lia. }
    destruct (editorRowAppendString_text Ea (Z.to_nat (cy Ea - 1))
                (chars low) up Hupa) as (A & B & C & D).
    set (Eb := editorRowAppendString Ea (Z.to_nat (cy Ea - 1)) (chars low))
      in *.
    destruct (editorDelRow_text Eb (cy Eb)) as (A' & B' & C' & D').
    { rewrite D, B. subst Ea; simpl. lia. }
    cbv zeta. unfold set_cursor. cbn [row numrows cx cy].
    rewrite A', B', C', D', A, B, C, D.
    subst Ea. unfold set_cursor. cbn [row numrows cx cy].
    repeat split; auto; try lia.
    replace (cy E + 1 - 1) with (cy E) by lia.
    rewrite Hrows1, Hupc, Hlowc.
    replace (Z.to_nat (cy E + 1)) with (S (Z.to_nat (cy E))) by lia.
    assert (Hupd : update_nth (pre ++ a :: b :: post) (Z.to_nat (cy E))
                     (a ++ b)
                   = (pre ++ [a ++ b]) ++ b :: post).
    { rewrite <- Hpre, update_nth_app, <- app_assoc. reflexivity. }
    rewrite Hupd.
    assert (Hl : length (pre ++ [a ++ b]) = S (Z.to_nat (cy E)))
      by (rewrite length_app; simpl; lia).
    rewrite firstn_middle by exact Hl.
    rewrite skipn_S_middle by exact Hl.
    rewrite <- app_assoc. simpl.
    subst a b. rewrite firstn_skipn. now rewrite <- Hsplit. }
  destruct HE2 as (R1 & R2 & R3 & R4).
  split.
  - exists up, low. repeat split; auto.
  - repeat split; auto; try congruence.
Qed.

(** The two-row document [hello], [x], cut at column 2 of its first row
    and joined again. *)
Lemma split_then_join_restores_chars_witness :
  let r := mkRow 0 (cs "hello") (cs "hello") (repeat HL_NORMAL 5) false in
  let E := mkConfig 2 0 0 0 0 24 80 2
             [r; mkRow 1 (cs "x") (cs "x") [HL_NORMAL] false]
             0 None [] None in
  map chars (row (editorInsertNewline E)) = [cs "he"; cs "llo"; cs "x"] /\
  map chars (row (editorDelChar (editorInsertNewline E)))
  = [cs "hello"; cs "x"] /\
  cx (editorDelChar (editorInsertNewline E)) = 2 /\
  cy (editorDelChar (editorInsertNewline E)) = 0.
Proof.
  intros r E.
  assert (Hcx : 0 <= cx E <= size r) by (unfold size; simpl; lia).
  destruct (split_then_join_restores_chars E r eq_refl (Z.le_refl 0) eq_refl
              Hcx)
    as (_ & H1 & _ & _ & H2 & H3).
  split; [reflexivity|]. split; [exact H1|]. split; [exact H2 | exact H3].
Defined.

(** ** The row array stays consistent *)

Lemma seq_split (n len : nat) :
  (n <= len)%nat -> seq 0 len = seq 0 n ++ seq n (len - n).
Proof.
  intros Hn. replace len with (n + (len - n))%nat at 1 by lia.
  apply seq_app.
Qed.

Lemma seq_insert (n len : nat) :
  (n <= len)%nat ->
  seq 0 n ++ n :: seq (S n) (len - n) = seq 0 (S len).
Proof.
  intros Hn. rewrite (seq_split n (S len)) by lia.
  replace (S len - n)%nat with (S (len - n)) by lia. reflexivity.
Qed.

Lemma doc_ok_initEditor (wrows wcols : Z) : doc_ok (initEditor wrows wcols).
Proof. split; reflexivity. Qed.

Lemma editorUpdateRow_doc_ok (E : editorConfig) (n : nat) :
  doc_ok E -> doc_ok (editorUpdateRow E n).
Proof.
  intros [Hn Hi].
  destruct (editorUpdateRow_frame E n)
    as (_ & _ & H3 & _ & _ & _ & _ & _ & H9 & H10).
  cbv zeta in H3, H9, H10. split; congruence.
Qed.

Lemma editorInsertRow_doc_ok (E : editorConfig) (a : Z) (s : list ascii) :
  doc_ok E -> doc_ok (editorInsertRow E a s).
Proof.
  intros [Hn Hi]. unfold editorInsertRow.
  destruct ((a <? 0) || (a >? numrows E))%bool eqn:Hg; [split; assumption|].
  apply orb_false_iff in Hg. destruct Hg as [G1 G2].
  set (n := Z.to_nat a).
  assert (Hle : (n <= length (row E))%nat) by lia.
  set (rows := firstn n (row E) ++ _).
  destruct (editorUpdateRow_frame (set_row E rows) n)
    as (_ & _ & H3 & _ & _ & _ & _ & _ & H9 & H10).
  cbv zeta in H3, H9, H10. simpl in H3, H9, H10.
  assert (Hlen : length rows = S (length (row E))).
  { subst rows. rewrite length_app. simpl. rewrite length_map.
    rewrite <- (firstn_skipn n (row E)) at 3. rewrite length_app. lia. }
  split; simpl.
  - rewrite H3, H10, Hlen. lia.
  - rewrite H9, H10, Hlen. subst rows.
    rewrite map_app. simpl. rewrite map_map. simpl.
    rewrite <- (map_map idx S), <- firstn_map, <- skipn_map, Hi.
    rewrite skipn_seq. simpl.
    rewrite (seq_split n (length (row E)) Hle) at 1.
    rewrite firstn_middle by apply length_seq.
    rewrite seq_shift.
    change (0%nat :: seq 1 (length (row E)))
      with (seq 0 (S (length (row E)))).
    now apply seq_insert.
Qed.

Lemma editorDelRow_doc_ok (E : editorConfig) (a : Z) :
  doc_ok E -> doc_ok (editorDelRow E a).
Proof.
  intros [Hn Hi]. unfold editorDelRow.
  destruct ((a <? 0) || (a >=? numrows E))%bool eqn:Hg; [split; assumption|].
  apply orb_false_iff in Hg. destruct Hg as [G1 G2].
  set (n := Z.to_nat a).
  assert (Hlt : (n < length (row E))%nat) by lia.
  unfold doc_ok, set_dirty, set_numrows, set_row. cbn [row numrows].
  assert (Hlen : length (firstn n (row E) ++ map drop_idx (skipn (S n) (row E)))
                 = Nat.pred (length (row E))).
  { rewrite length_app, length_map, length_firstn, length_skipn. lia. }
  rewrite Hlen. split; [lia|].
  rewrite map_app, map_map.
  change (fun x : erow => idx (drop_idx x))
    with (fun x : erow => Nat.pred (idx x)).
  rewrite <- (map_map idx Nat.pred), <- firstn_map, <- skipn_map, Hi.
  rewrite skipn_seq.
  rewrite (seq_split n (length (row E))) at 1 by lia.
  rewrite firstn_middle by apply length_seq.
  replace (0 + S n)%nat with (S n) by lia.
  rewrite <- seq_shift, map_map. simpl. rewrite map_id.
  rewrite (seq_split n (Nat.pred (length (row E)))) by lia.
  do 2 f_equal. lia.
Qed.

Lemma set_chars_doc_ok (E : editorConfig) (n : nat) (r : erow)
  (cs' : list ascii) :
  doc_ok E -> nth_error (row E) n = Some r ->
  doc_ok (set_row E (update_nth (row E) n (set_chars r cs'))).
Proof.
  intros [Hn Hi] Hr. split; simpl; rewrite update_nth_length; [exact Hn|].
  rewrite (update_nth_map_same idx _ _ _ r); auto.
Qed.

Lemma set_dirty_doc_ok (E : editorConfig) (d : Z) :
  doc_ok E -> doc_ok (set_dirty E d).
Proof. intros H; exact H. Qed.

Lemma set_cursor_doc_ok (E : editorConfig) (x y : Z) :
  doc_ok E -> doc_ok (set_cursor E x y).
Proof. intros H; exact H. Qed.

Lemma editorRowInsertChar_doc_ok (E : editorConfig) (n : nat) (a : Z)
  (c : ascii) :
  doc_ok E -> doc_ok (editorRowInsertChar E n a c).
Proof.
  intros H. unfold editorRowInsertChar.
  destruct (nth_error (row E) n) as [r|] eqn:Hr; [|exact H].
  cbv zeta. apply set_dirty_doc_ok, editorUpdateRow_doc_ok.
  now apply set_chars_doc_ok.
Qed.

Lemma editorRowAppendString_doc_ok (E : editorConfig) (n : nat)
  (s : list ascii) :
  doc_ok E -> doc_ok (editorRowAppendString E n s).
Proof.
  intros H. unfold editorRowAppendString.
  destruct (nth_error (row E) n) as [r|] eqn:Hr; [|exact H].
  cbv zeta. apply set_dirty_doc_ok, editorUpdateRow_doc_ok.
  now apply set_chars_doc_ok.
Qed.

Lemma editorRowDelChar_doc_ok (E : editorConfig) (n : nat) (a : Z) :
  doc_ok E -> doc_ok (editorRowDelChar E n a).
Proof.
  intros H. unfold editorRowDelChar.
  destruct (nth_error (row E) n) as [r|] eqn:Hr; [|exact H].
  destruct ((a <? 0) || (a >=? size r))%bool; [exact H|].
  cbv zeta. apply set_dirty_doc_ok, editorUpdateRow_doc_ok.
  now apply set_chars_doc_ok.
Qed.

(** The three editing commands keep the document consistent. *)
Lemma editorInsertChar_doc_ok (E : editorConfig) (c : ascii) :
  doc_ok E -> doc_ok (editorInsertChar E c).
Proof.
  intros H. unfold editorInsertChar. cbv zeta.
  apply set_cursor_doc_ok, editorRowInsertChar_doc_ok.
  destruct (cy E =? numrows E); [now apply editorInsertRow_doc_ok | exact H].
Qed.

Lemma editorInsertNewline_doc_ok (E : editorConfig) :
  doc_ok E -> doc_ok (editorInsertNewline E).
Proof.
  intros H. unfold editorInsertNewline. cbv zeta.
  apply set_cursor_doc_ok.
  destruct (cx E =? 0); [now apply editorInsertRow_doc_ok|].
  destruct (nth_error (row E) (Z.to_nat (cy E))) as [r|]; [|exact H].
  set (E' := editorInsertRow E (cy E + 1) _).
  assert (H' : doc_ok E') by now apply editorInsertRow_doc_ok.
  destruct (nth_error (row E') (Z.to_nat (cy E'))) as [r'|] eqn:Hr';
    [|exact H'].
  apply editorUpdateRow_doc_ok. now apply set_chars_doc_ok.
Qed.

Lemma editorDelChar_doc_ok (E : editorConfig) :
  doc_ok E -> doc_ok (editorDelChar E).
Proof.
  intros H. unfold editorDelChar.
  destruct (cy E =? numrows E); [exact H|].
  destruct ((cx E =? 0) && (cy E =? 0))%bool; [exact H|].
  destruct (nth_error (row E) (Z.to_nat (cy E))) as [r|]; [|exact H].
  destruct (cx E >? 0).
  - cbv zeta. now apply set_cursor_doc_ok, editorRowDelChar_doc_ok.
  - destruct (nth_error (row E) (Z.to_nat (cy E - 1))) as [up|]; [|exact H].
    cbv zeta. apply set_cursor_doc_ok, editorDelRow_doc_ok,
      editorRowAppendString_doc_ok, set_cursor_doc_ok. exact H.
Qed.

(** ** The scan loop *)

Ltac unfold_steps H :=
  unfold scan_body, step_slcomment, step_mlcomment, step_string,
    step_number, step_keyword, step_plain in H.

Ltac split_body H :=
  unfold_steps H;
  repeat match type of H with
         | context [if ?c then _ else _] => destruct c eqn:?
         | context [match find_keyword ?a ?b ?c with _ => _ end] =>
             destruct (find_keyword a b c) eqn:?
         end;
  try discriminate H;
  try (injection H as H; subst).

Section ScanFacts.

Variable syn : editorSyntax.
Variable rnd : list ascii.

Lemma scan_body_measure (st st' : scan_state) :
  (sc_i st < length rnd)%nat ->
  scan_body syn rnd st = Continue st' ->
  (scan_measure rnd st' < scan_measure rnd st)%nat.
Proof.
  intros Hi H. unfold scan_measure.
  split_body H; simpl;
    repeat match goal with
           | H : (_ && _)%bool = true |- _ => apply andb_prop in H; destruct H
           | H : negb _ = true |- _ => apply negb_true_iff in H
           | H : Nat.eqb _ _ = false |- _ => apply Nat.eqb_neq in H
           | H : Nat.ltb _ _ = true |- _ => apply Nat.ltb_lt in H
           end;
    try destruct (sc_prev_sep st); try destruct (is_separator _);
    try discriminate; lia.
Qed.

Lemma scan_loop_total (fuel : nat) :
  forall st, (scan_measure rnd st < fuel)%nat ->
             exists st', scan_loop syn rnd fuel st = Some st'.
Proof.
  induction fuel as [|f IH]; intros st Hm; [lia|]. simpl.
  destruct (Nat.ltb_spec (sc_i st) (length rnd)) as [Hi|Hi]; [|eauto].
  destruct (scan_body syn rnd st) as [st'|st'] eqn:Hb; [|eauto].
  apply IH. pose proof (scan_body_measure st st' Hi Hb). lia.
Qed.

Lemma scan_loop_more_fuel (fuel : nat) :
  forall fuel' st res,
    scan_loop syn rnd fuel st = Some res -> (fuel <= fuel')%nat ->
    scan_loop syn rnd fuel' st = Some res.
Proof.
  induction fuel as [|f IH]; intros fuel' st res H Hle; [discriminate|].
  destruct fuel' as [|f']; [lia|]. simpl in *.
  destruct (Nat.ltb (sc_i st) (length rnd)); [|exact H].
  destruct (scan_body syn rnd st); [|exact H].
  apply IH; [exact H | lia].
Qed.

(** The loop, one iteration at a time. *)
Lemma scan_from_unfold (st : scan_state) :
  scan_from syn rnd st
  = if Nat.ltb (sc_i st) (length rnd)
    then match scan_body syn rnd st with
         | Continue st' => scan_from syn rnd st'
         | Break st' => st'
         end
    else st.
Proof.
  unfold scan_from at 1. simpl scan_loop.
  destruct (Nat.ltb_spec (sc_i st) (length rnd)) as [Hi|Hi]; [|reflexivity].
  destruct (scan_body syn rnd st) as [st'|st'] eqn:Hb; [|reflexivity].
  pose proof (scan_body_measure st st' Hi Hb) as Hm.
  destruct (scan_loop_total (S (scan_measure rnd st')) st') as [res Hres];
    [lia|].
  unfold scan_from. rewrite Hres.
  now rewrite (scan_loop_more_fuel _ (scan_measure rnd st) _ _ Hres) by lia.
Qed.

(** The loop always comes to an end within its bound. *)
Lemma scan_from_total (st : scan_state) :
  exists res, scan_loop syn rnd (S (scan_measure rnd st)) st = Some res /\
              scan_from syn rnd st = res.
Proof.
  destruct (scan_loop_total (S (scan_measure rnd st)) st) as [res Hres];
    [lia|].
  exists res. split; [exact Hres|]. unfold scan_from. now rewrite Hres.
Qed.

(** Hoare rule for the loop: an invariant [P] of the iterations gives [Q]
    at the exit, be it through [break] or through the loop test. *)
Lemma scan_from_inv (P Q : scan_state -> Prop) :
  (forall st, P st -> (sc_i st < length rnd)%nat ->
              match scan_body syn rnd st with
              | Continue st' => P st'
              | Break st' => Q st'
              end) ->
  (forall st, P st -> (length rnd <= sc_i st)%nat -> Q st) ->
  forall st, P st -> Q (scan_from syn rnd st).
Proof.
  intros Hstep Hexit st.
  remember (scan_measure rnd st) as m eqn:Hm.
  revert st Hm. induction m as [m IH] using lt_wf_ind. intros st Hm HP.
  rewrite scan_from_unfold.
  destruct (Nat.ltb_spec (sc_i st) (length rnd)) as [Hi|Hi]; [|auto].
  specialize (Hstep st HP Hi).
  destruct (scan_body syn rnd st) as [st'|st'] eqn:Hb; [|exact Hstep].
  apply (IH (scan_measure rnd st')); auto.
  pose proof (scan_body_measure st st' Hi Hb). lia.
Qed.


(** An invariant of the iterations holds in every state the loop reaches. *)
Lemma scan_reaches_inv (P : scan_state -> Prop) (seed : bool) :
  P (scan_init rnd seed) ->
  (forall st st', P st -> (sc_i st < length rnd)%nat ->
                  scan_body syn rnd st = Continue st' -> P st') ->
  forall st, scan_reaches syn rnd seed st -> P st.
Proof.
  intros H0 Hstep st Hr. induction Hr as [|st st' Hr IH Hi Hb]; auto.
  apply (Hstep st st'); auto. now apply Nat.ltb_lt.
Qed.

End ScanFacts.

(** ** Multi-line comment state *)

Section CommentFacts.

Variable syn : editorSyntax.
Variable rnd : list ascii.





End CommentFacts.

(** *** The cascade over the rows *)

Lemma doc_ok_idx (E : editorConfig) (j : nat) (r : erow) :
  map idx (row E) = seq 0 (length (row E)) ->
  nth_error (row E) j = Some r -> idx r = j.
Proof.
  intros Hidx Hj.
  pose proof (map_nth_error idx _ _ Hj) as H. rewrite Hidx in H.
  assert (Hlt : (j < length (row E))%nat) by (apply nth_error_Some; congruence).
  rewrite nth_error_nth' with (d := O) in H by (rewrite length_seq; lia).
  rewrite seq_nth in H by lia. injection H as H. lia.
Qed.

Lemma idx_seq_update (E : editorConfig) (n : nat) (r r' : erow) :
  map idx (row E) = seq 0 (length (row E)) ->
  nth_error (row E) n = Some r -> idx r' = idx r ->
  map idx (row (set_row E (update_nth (row E) n r')))
  = seq 0 (length (row (set_row E (update_nth (row E) n r')))).
Proof.
  intros Hidx Hn Hi. simpl. rewrite update_nth_length.
  rewrite (update_nth_map_same idx _ _ _ r); auto.
Qed.

Lemma editorUpdateSyntax_fuel_prefix (fuel : nat) :
  forall E n E',
    map idx (row E) = seq 0 (length (row E)) ->
    editorUpdateSyntax_fuel fuel E n = Some E' ->
    firstn n (row E') = firstn n (row E).
Proof.
  induction fuel as [|f IH]; intros E n E' Hidx H; simpl in H;
    [discriminate|].
  destruct (nth_error (row E) n) as [r|] eqn:Hn.
  2:{ now injection H as <-. }
  pose proof (doc_ok_idx E n r Hidx Hn) as Hir.
  destruct (syntax E) as [s|].
  - match type of H with
    | (if ?c then _ else _) = _ => destruct c
    end.
    + rewrite Hir in H. apply IH in H.
      * apply (f_equal (firstn n)) in H.
        rewrite !firstn_firstn in H.
        replace (Nat.min n (S n)) with n in H by lia.
        rewrite H. simpl. apply firstn_update_nth.
      * now apply idx_seq_update with (r := r).
    + injection H as <-. simpl. apply firstn_update_nth.
  - injection H as <-. simpl. apply firstn_update_nth.
Qed.

Lemma editorUpdateSyntax_fuel_enough (fuel : nat) :
  forall E n,
    map idx (row E) = seq 0 (length (row E)) ->
    numrows E <= Z.of_nat (length (row E)) ->
    (length (row E) - n < fuel)%nat ->
    exists E', editorUpdateSyntax_fuel fuel E n = Some E'.
Proof.
  induction fuel as [|f IH]; intros E n Hidx Hnum Hf; [lia|]. simpl.
  destruct (nth_error (row E) n) as [r|] eqn:Hn; [|eauto].
  pose proof (doc_ok_idx E n r Hidx Hn) as Hir.
  assert (Hlt : (n < length (row E))%nat) by (apply nth_error_Some; congruence).
  destruct (syntax E) as [s|]; [|eauto].
  match goal with
  | |- context [if ?c then _ else _] => destruct c eqn:Hc
  end; [|eauto].
  rewrite Hir. apply IH.
  - now apply idx_seq_update with (r := r).
  - simpl. now rewrite update_nth_length.
  - simpl. rewrite update_nth_length. lia.
Qed.

Lemma editorUpdateSyntax_fuel_more (fuel : nat) :
  forall fuel' E n E',
    editorUpdateSyntax_fuel fuel E n = Some E' -> (fuel <= fuel')%nat ->
    editorUpdateSyntax_fuel fuel' E n = Some E'.
Proof.
  induction fuel as [|f IH]; intros fuel' E n E' H Hle; [discriminate|].
  destruct fuel' as [|f']; [lia|]. simpl in *.
  destruct (nth_error (row E) n) as [r|]; [|exact H].
  destruct (syntax E) as [s|]; [|exact H].
  match goal with
  | |- context [if ?c then _ else _] => destruct c
  end; [|exact H].
  apply IH; [exact H | lia].
Qed.

(** The function as the source reads: scan the row, store the result, and
    go on with the next row when the comment state has changed. *)
Lemma editorUpdateSyntax_unfold (E : editorConfig) (s : editorSyntax)
  (n : nat) (r : erow) :
  map idx (row E) = seq 0 (length (row E)) ->
  numrows E <= Z.of_nat (length (row E)) ->
  syntax E = Some s ->
  nth_error (row E) n = Some r ->
  let r' := rescan_row s (seed_of E r) r in
  let E1 := set_row E (update_nth (row E) n r') in
  editorUpdateSyntax E n
  = if (negb (Bool.eqb (hl_open_comment r) (hl_open_comment r'))
        && (Z.of_nat n + 1 <? numrows E))%bool
    then editorUpdateSyntax E1 (S n)
    else E1.
Proof.
  intros Hidx Hnum Hs Hn r' E1.
  pose proof (doc_ok_idx E n r Hidx Hn) as Hir.
  assert (Hlt : (n < length (row E))%nat) by (apply nth_error_Some; congruence).
  unfold editorUpdateSyntax at 1. cbn [editorUpdateSyntax_fuel].
  rewrite Hn, Hs, Hir. fold r'. fold E1.
  destruct (negb (Bool.eqb (hl_open_comment r) (hl_open_comment r'))
            && (Z.of_nat n + 1 <? numrows E))%bool; [|reflexivity].
  assert (Hidx1 : map idx (row E1) = seq 0 (length (row E1))).
  { subst E1. apply idx_seq_update with (r := r); auto. }
  assert (Hlen1 : length (row E1) = length (row E)).
  { subst E1; simpl. apply update_nth_length. }
  destruct (editorUpdateSyntax_fuel_enough (length (row E)) E1 (S n))
    as [E' HE']; auto; try lia.
  { subst E1; simpl in *; lia. }
  rewrite HE'. unfold editorUpdateSyntax. rewrite Hlen1.
  now rewrite (editorUpdateSyntax_fuel_more _ (S (length (row E))) _ _ _ HE')
    by lia.
Qed.

Lemma editorUpdateSyntax_prefix (E : editorConfig) (n : nat) :
  map idx (row E) = seq 0 (length (row E)) ->
  firstn n (row (editorUpdateSyntax E n)) = firstn n (row E).
Proof.
  intros Hidx. unfold editorUpdateSyntax.
  destruct (editorUpdateSyntax_fuel _ E n) as [E'|] eqn:H; [|reflexivity].
  now apply editorUpdateSyntax_fuel_prefix in H.
Qed.

Lemma firstn_S_nth_error {A : Type} (l l' : list A) (n : nat) :
  firstn (S n) l = firstn (S n) l' -> nth_error l n = nth_error l' n.
Proof.
  revert l l'; induction n as [|n IH]; intros [|h t] [|h' t'] H;
    simpl in *; try discriminate; try reflexivity.
  - now injection H as ->.
  - injection H as _ H. apply IH. exact H.
Qed.

(** The row that is scanned keeps the result of its own scan, whatever the
    cascade does to the rows after it. *)
Lemma editorUpdateSyntax_row_result (E : editorConfig) (s : editorSyntax)
  (n : nat) (r : erow) :
  map idx (row E) = seq 0 (length (row E)) ->
  numrows E <= Z.of_nat (length (row E)) ->
  syntax E = Some s ->
  nth_error (row E) n = Some r ->
  nth_error (row (editorUpdateSyntax E n)) n
  = Some (rescan_row s (seed_of E r) r).
Proof.
  intros Hidx Hnum Hs Hn.
  rewrite (editorUpdateSyntax_unfold E s n r Hidx Hnum Hs Hn).
  set (r' := rescan_row s (seed_of E r) r).
  set (E1 := set_row E (update_nth (row E) n r')).
  assert (H1 : nth_error (row E1) n = Some r').
  { subst E1; simpl. now apply nth_error_update_nth_eq with (y := r). }
  destruct (negb (Bool.eqb (hl_open_comment r) (hl_open_comment r'))
            && (Z.of_nat n + 1 <? numrows E))%bool; [|exact H1].
  rewrite <- H1. apply firstn_S_nth_error.
  apply editorUpdateSyntax_prefix.
  subst E1. now apply idx_seq_update with (r := r).
Qed.




(** The scenario as a session: the file [/* a], [b] is loaded, then a
    closer is typed at the end of row 0.  After the load both rows end
    inside the comment; after the two keystrokes neither does, and row 1 is
    no longer comment text. *)
Lemma closer_insertion_example :
  match editorOpen (initEditor 24 80) (cs "t.c")
          (Some (cs "/* a" ++ [LF] ++ cs "b" ++ [LF])) with
  | None => False
  | Some E =>
      map hl_open_comment (row E) = [true; true] /\
      map hl (row E) = [repeat HL_MLCOMMENT 4; [HL_MLCOMMENT]] /\
      let E' := editorInsertChar
                  (editorInsertChar (set_cursor E 4 0) "*"%char) "/"%char in
      map chars (row E') = [cs "/* a*/"; cs "b"] /\
      map hl_open_comment (row E') = [false; false] /\
      map hl (row E') = [repeat HL_MLCOMMENT 6; [HL_NORMAL]]
  end.
Proof.
  vm_compute. repeat split.
Qed.

(** A call on a document that is not consistent: [editorInsertRow] scans
    the new row while [numrows] still has its old value, so the cascade it
    starts never reaches the last row of the array.  In the file with the
    two rows [a "/*"] and [c], Enter at column 3 of row 0 moves the opener
    out of the string into a new row 1.  The scan of row 1 changes its
    [hl_open_comment] from unset to set, but row 2 is not scanned again: it
    keeps its normal highlight under a row that ends inside a comment,
    where a scan would mark it as comment text. *)
Lemma cascade_misses_last_row_on_insert :
  match editorOpen (initEditor 24 80) (cs "t.c")
          (Some (cs "a " ++ [DQUOTE] ++ cs "/*" ++ [DQUOTE; LF]
                   ++ cs "c" ++ [LF])) with
  | None => False
  | Some E =>
      doc_ok E /\
      map chars (row E) = [cs "a " ++ [DQUOTE] ++ cs "/*" ++ [DQUOTE]; cs "c"] /\
      map hl_open_comment (row E) = [false; false] /\
      let E' := editorInsertNewline (set_cursor E 3 0) in
      doc_ok E' /\
      map chars (row E')
      = [cs "a " ++ [DQUOTE]; cs "/*" ++ [DQUOTE]; cs "c"] /\
      map hl_open_comment (row E') = [false; true; false] /\
      map hl (row E')
      = [[HL_NORMAL; HL_NORMAL; HL_STRING]; repeat HL_MLCOMMENT 3;
         [HL_NORMAL]] /\
      map hl (row (editorUpdateSyntax E' 2))
      = [[HL_NORMAL; HL_NORMAL; HL_STRING]; repeat HL_MLCOMMENT 3;
         [HL_MLCOMMENT]]
  end.
Proof.
  vm_compute. repeat split.
Qed.

(** ** Keywords *)

Lemma strlen_le_length (s : list ascii) : (strlen s <= length s)%nat.
Proof.
  induction s as [|c s IH]; simpl; [lia|].
  destruct (Ascii.eqb c NUL); lia.
Qed.

Lemma strlen_nth_not_NUL (s : list ascii) :
  forall j, (j < strlen s)%nat -> nth j s NUL <> NUL.
Proof.
  induction s as [|c s IH]; simpl; intros j Hj; [lia|].
  destruct (Ascii.eqb_spec c NUL) as [Hc|Hc]; [lia|].
  destruct j as [|j]; [exact Hc|]. apply IH. lia.
Qed.

Lemma strncmp_eq_chars (n : nat) :
  forall a b : list ascii,
    strncmp_eq a b n = true -> (n <= strlen b)%nat ->
    (n <= length a)%nat /\ forall j, (j < n)%nat -> nth j a NUL = nth j b NUL.
Proof.
  induction n as [|n IH]; intros a b H Hn.
  - split; [lia | intros j Hj; lia].
  - simpl in H.
    destruct b as [|cb tb]; [simpl in Hn; lia|].
    simpl in Hn. destruct (Ascii.eqb_spec cb NUL) as [Hcb|Hcb]; [lia|].
    simpl in H.
    destruct (Ascii.eqb_spec (hd NUL a) cb) as [Hhd|Hhd]; [|discriminate].
    destruct a as [|ca ta]; [simpl in Hhd; congruence|].
    simpl in Hhd. subst ca. simpl in H.
    destruct (Ascii.eqb_spec cb NUL) as [Hcb'|_]; [congruence|].
    destruct (IH ta tb H) as [Hlen Hch]; [lia|].
    split; [simpl; lia|].
    intros [|j] Hj; simpl; [reflexivity|]. apply Hch. lia.
Qed.

Lemma kw_len_le_strlen (kw : list ascii) : (kw_len kw <= strlen kw)%nat.
Proof. unfold kw_len. destruct (kw_is_kw2 kw); lia. Qed.

Lemma kw_class_keyword (kw : list ascii) :
  kw_class kw = (if kw_is_kw2 kw then HL_KEYWORD2 else HL_KEYWORD1) /\
  is_keyword_hl (kw_class kw) = true.
Proof. unfold kw_class. destruct (kw_is_kw2 kw); auto. Qed.

Section KeywordFacts.

Variable syn : editorSyntax.
Variable rnd : list ascii.

(** A marker that is found at column [i] lies inside the render, and the
    render carries its bytes there. *)
Lemma starts_with_chars (i : nat) (m : list ascii) (len : nat) :
  starts_with rnd i m len = true -> (len <= strlen m)%nat ->
  (i <= length rnd)%nat ->
  (i + len <= length rnd)%nat /\
  forall j, (j < len)%nat -> char_at rnd (i + j) = nth j m NUL.
Proof.
  unfold starts_with. intros H Hlen Hi.
  destruct (strncmp_eq_chars len _ _ H Hlen) as [Hl Hch].
  rewrite length_skipn in Hl. split; [lia|].
  intros j Hj. rewrite <- (Hch j Hj). unfold char_at.
  rewrite <- (firstn_skipn i rnd) at 1.
  rewrite app_nth2; rewrite length_firstn; [|lia].
  f_equal. lia.
Qed.

Lemma find_keyword_first (i : nat) (kws : list (list ascii)) :
  match find_keyword rnd i kws with
  | Some kw =>
      exists before after,
        kws = before ++ kw :: after /\
        kw_matches rnd i kw = true /\
        Forall (fun k => kw_matches rnd i k = false) before
  | None => Forall (fun k => kw_matches rnd i k = false) kws
  end.
Proof.
  induction kws as [|k rest IH]; simpl; [constructor|].
  destruct (kw_matches rnd i k) eqn:Hk.
  - exists [], rest. repeat split; auto.
  - destruct (find_keyword rnd i rest) as [kw|].
    + destruct IH as (before & after & -> & Hm & Hall).
      exists (k :: before), after. repeat split; auto.
    + constructor; auto.
Qed.

(** Two keywords without separators in their text that both match at the
    same column have texts of the same length. *)
Lemma matches_same_length (i : nat) (k1 k2 : list ascii) :
  (i <= length rnd)%nat ->
  kw_matches rnd i k1 = true -> kw_matches rnd i k2 = true ->
  sep_free k2 = true ->
  (kw_len k2 <= kw_len k1)%nat.
Proof.
  unfold kw_matches. intros Hi H1 H2 Hfree.
  apply andb_prop in H1, H2. destruct H1 as [S1 P1], H2 as [S2 P2].
  destruct (Nat.le_gt_cases (kw_len k2) (kw_len k1)) as [Hle|Hlt]; [exact Hle|].
  exfalso.
  destruct (starts_with_chars i k2 (kw_len k2) S2 (kw_len_le_strlen k2) Hi)
    as [_ Hch].
  rewrite (Hch (kw_len k1) Hlt) in P1.
  unfold sep_free in Hfree. rewrite forallb_forall in Hfree.
  assert (Hin : In (nth (kw_len k1) k2 NUL) (kw_text k2)).
  { unfold kw_text.
    pose proof (kw_len_le_strlen k2). pose proof (strlen_le_length k2).
    rewrite <- (firstn_skipn (kw_len k2) k2) at 1.
    rewrite app_nth1 by (rewrite length_firstn; lia).
    apply nth_In. rewrite length_firstn. lia. }
  apply Hfree in Hin. rewrite P1 in Hin. discriminate.
Qed.

End KeywordFacts.

(** C2 (as stated): with the keyword list [a], [a.b] and the render [a.b],
    both entries occur at column 0 followed by a separator; the scanner
    marks [a], the first one in list order, and not the longer [a.b]. *)
Lemma first_match_not_longest :
  let syn := mkSyntax (cs "x") [] [cs "a"; cs "a.b"] None None None 0 in
  let rnd := cs "a.b" in
  let st := scan_init rnd false in
  sc_prev_sep st = true /\
  at_keyword_step syn rnd st /\
  kw_matches rnd 0 (cs "a") = true /\
  kw_matches rnd 0 (cs "a.b") = true /\
  (kw_len (cs "a") < kw_len (cs "a.b"))%nat /\
  scan_body syn rnd st
  = Continue (mkScan 1 false NUL false [HL_KEYWORD1; HL_NORMAL; HL_NORMAL]).
Proof.
  cbv zeta. unfold at_keyword_step. repeat split; vm_compute; lia.
Qed.

(** C2 (amended): when the loop body reaches its keyword handler with
    [prev_sep] set, it marks the first keyword in list order whose text
    occurs at the current column followed by a separator, with
    [HL_KEYWORD2] for an entry tagged by a trailing bar and [HL_KEYWORD1]
    otherwise, moves past the marked span and clears [prev_sep].  When no
    keyword of the descriptor has a separator in its text, every keyword
    that matches at this column has the length of the marked one, which is
    then also the longest match.  When no keyword matches, the body falls
    through to its last two statements. *)
Theorem keyword_step_marks_first_match :
  forall (syn : editorSyntax) (rnd : list ascii) (st : scan_state),
    (sc_i st < length rnd)%nat ->
    sc_prev_sep st = true ->
    at_keyword_step syn rnd st ->
    match find_keyword rnd (sc_i st) (keywords syn) with
    | Some kw =>
        scan_body syn rnd st
        = Continue (mkScan (sc_i st + kw_len kw) false (sc_in_string st)
                      (sc_in_comment st)
                      (memset (sc_hl st) (sc_i st) (kw_class kw) (kw_len kw)))
        /\
        (exists before after,
            keywords syn = before ++ kw :: after /\
            kw_matches rnd (sc_i st) kw = true /\
            Forall (fun k => kw_matches rnd (sc_i st) k = false) before) /\
        kw_class kw = (if kw_is_kw2 kw then HL_KEYWORD2 else HL_KEYWORD1) /\
        (forallb sep_free (keywords syn) = true ->
         forall k, In k (keywords syn) ->
                   kw_matches rnd (sc_i st) k = true ->
                   kw_len k = kw_len kw)
    | None =>
        scan_body syn rnd st = step_plain rnd st /\
        Forall (fun k => kw_matches rnd (sc_i st) k = false) (keywords syn)
    end.
Proof.
  intros syn rnd st Hi Hsep (H1 & H2 & H3 & H4).
  pose proof (find_keyword_first rnd (sc_i st) (keywords syn)) as Hfirst.
  unfold scan_body. rewrite H1, H2, H3, H4. unfold step_keyword.
  rewrite Hsep.
  destruct (find_keyword rnd (sc_i st) (keywords syn)) as [kw|].
  - destruct Hfirst as (before & after & Hkws & Hm & Hall).
    split; [reflexivity|]. split; [eauto|].
    split; [apply kw_class_keyword|].
    intros Hfree k Hk Hkm.
    rewrite forallb_forall in Hfree.
    assert (Hkw : In kw (keywords syn)).
    { rewrite Hkws. apply in_or_app. right. now left. }
    apply Nat.le_antisymm.
    + apply (matches_same_length rnd (sc_i st) kw k); auto; lia.
    + apply (matches_same_length rnd (sc_i st) k kw); auto; lia.
  - split; [reflexivity | exact Hfirst].
Qed.

(** The built-in descriptor on the render [int x]: the entry [int|] is
    marked with [HL_KEYWORD2] over three columns. *)
Lemma keyword_step_marks_first_match_witness :
  let rnd := cs "int x" in
  let st := scan_init rnd false in
  scan_body C_syntax rnd st
  = Continue (mkScan 3 false NUL false
                [HL_KEYWORD2; HL_KEYWORD2; HL_KEYWORD2; HL_NORMAL; HL_NORMAL])
  /\
  (forall k, In k (keywords C_syntax) ->
             kw_matches rnd 0 k = true -> kw_len k = 3%nat).
Proof.
  intros rnd st.
  assert (Hi : (sc_i st < length rnd)%nat) by (vm_compute; lia).
  assert (Hk : at_keyword_step C_syntax rnd st)
    by (unfold at_keyword_step; repeat split; reflexivity).
  pose proof (keyword_step_marks_first_match C_syntax rnd st Hi eq_refl Hk)
    as H.
  change (find_keyword rnd (sc_i st) (keywords C_syntax))
    with (Some (cs "int|")) in H.
  destruct H as (Hb & _ & _ & Hlong).
  split; [exact Hb|].
  intros k Hin Hm. apply (Hlong eq_refl k Hin Hm).
Defined.

(** ** Where keyword classes come from *)

Lemma nth_update_nth {A : Type} (l : list A) (i p : nat) (v d : A) :
  nth p (update_nth l i v) d
  = if (Nat.eqb p i && Nat.ltb p (length l))%bool then v else nth p l d.
Proof.
  revert i p; induction l as [|h t IH]; intros i p.
  - simpl. destruct i, p; simpl; try reflexivity;
      now rewrite andb_false_r.
  - destruct i as [|i], p as [|p]; simpl; try reflexivity.
    rewrite IH. reflexivity.
Qed.

Lemma nth_memset {A : Type} (l : list A) (i k p : nat) (v d : A) :
  nth p (memset l i v k) d
  = if (Nat.leb i p && Nat.ltb p (i + k) && Nat.ltb p (length l))%bool
    then v else nth p l d.
Proof.
  revert i k p; induction l as [|h t IH]; intros i k p.
  - simpl. destruct p; now rewrite andb_false_r.
  - destruct i as [|i]; simpl.
    + destruct k as [|k]; simpl.
      * now destruct p.
      * destruct p as [|p]; [reflexivity|]. rewrite IH. simpl.
        reflexivity.
    + destruct p as [|p]; [reflexivity|]. rewrite IH. reflexivity.
Qed.

Lemma keyword_span_at_agree (syn : editorSyntax) (rnd : list ascii)
  (h h' : list editorHighlight) (p : nat) :
  (forall q, (q <= p)%nat -> nth q h' HL_NORMAL = nth q h HL_NORMAL) ->
  keyword_span_at syn rnd h p -> keyword_span_at syn rnd h' p.
Proof.
  intros Hag (kw & i0 & Hin & Hp & Hs & Hc & Hsep & Hbefore).
  exists kw, i0. repeat split; auto; try lia.
  - now rewrite Hag by lia.
  - destruct Hbefore as [H|[H|[H|H]]]; auto.
    + right; right; left. now rewrite Hag by lia.
    + right; right; right. now rewrite Hag by lia.
Qed.

Ltac bool_to_prop :=
  repeat match goal with
         | H : (_ && _)%bool = true |- _ => apply andb_prop in H; destruct H
         | H : (_ || _)%bool = false |- _ =>
             apply orb_false_iff in H; destruct H
         | H : negb _ = true |- _ => apply negb_true_iff in H
         | H : negb _ = false |- _ => apply negb_false_iff in H
         | H : Nat.eqb _ _ = false |- _ => apply Nat.eqb_neq in H
         | H : Nat.eqb _ _ = true |- _ => apply Nat.eqb_eq in H
         | H : Nat.ltb _ _ = true |- _ => apply Nat.ltb_lt in H
         | H : Nat.ltb _ _ = false |- _ => apply Nat.ltb_ge in H
         | H : Nat.leb _ _ = true |- _ => apply Nat.leb_le in H
         | H : Nat.leb _ _ = false |- _ => apply Nat.leb_gt in H
         | H : Ascii.eqb _ _ = true |- _ => apply Ascii.eqb_eq in H
         | H : Ascii.eqb _ _ = false |- _ => apply Ascii.eqb_neq in H
         | H : Z.eqb _ _ = false |- _ => apply Z.eqb_neq in H
         | H : Z.eqb _ _ = true |- _ => apply Z.eqb_eq in H
         end.

Section KeywordInvariant.

Variable syn : editorSyntax.
Variable rnd : list ascii.

Lemma marker_len_strlen (m : option (list ascii)) :
  (marker_len m <= strlen (marker_text m))%nat.
Proof. destruct m; simpl; lia. Qed.

Ltac nth_cases :=
  rewrite ?nth_memset, ?nth_update_nth;
  repeat match goal with
         | |- context [if ?c then _ else _] => destruct c eqn:?
         end;
  bool_to_prop;
  first [ left; reflexivity | right; split; [lia | reflexivity] ].

Ltac written_class v :=
  exists v; split;
  [ intros p; nth_cases | intros Hk; discriminate Hk ].

(** What one iteration does to the highlight array: it writes one class
    [v] into columns of the span it moves over and nothing else; a keyword
    class is only written by the keyword handler. *)
Lemma scan_body_effect (st st' : scan_state) :
  scan_body syn rnd st = Continue st' ->
  (sc_i st < length rnd)%nat ->
  length (sc_hl st) = length rnd ->
  (sc_in_string st <> NUL ->
   Z.land (flags syn) HL_HIGHLIGHT_STRINGS <> 0) ->
  length (sc_hl st') = length rnd /\
  (sc_i st <= sc_i st' <= length rnd)%nat /\
  exists v,
    (forall p, nth p (sc_hl st') HL_NORMAL = nth p (sc_hl st) HL_NORMAL \/
               ((sc_i st <= p < sc_i st')%nat /\
                nth p (sc_hl st') HL_NORMAL = v)) /\
    (is_keyword_hl v = true ->
     sc_prev_sep st = true /\ sc_in_string st = NUL /\
     (sc_in_comment st = false \/
      marker_len (multiline_comment_start syn) = O \/
      marker_len (multiline_comment_end syn) = O) /\
     exists kw, In kw (keywords syn) /\
                kw_matches rnd (sc_i st) kw = true /\
                v = kw_class kw /\
                sc_i st' = (sc_i st + kw_len kw)%nat).
Proof.
  intros H Hi Hlen Hstr.
  assert (Hnostr : Z.land (flags syn) HL_HIGHLIGHT_STRINGS = 0 ->
                   sc_in_string st = NUL).
  { intros Hz. destruct (Ascii.eqb_spec (sc_in_string st) NUL) as [|Hne];
      [assumption | exfalso; exact (Hstr Hne Hz)]. }
  split_body H; simpl; bool_to_prop.
  all: try (exfalso; congruence).
  all: try match goal with
         | H : find_keyword _ _ _ = Some ?kw |- _ =>
             let F := fresh "F" in
             pose proof (find_keyword_first rnd (sc_i st) (keywords syn)) as F;
             rewrite H in F;
             destruct F as (before & after & Hkws & Hkm & _);
             assert (Hkin : In kw (keywords syn))
               by (rewrite Hkws; apply in_or_app; right; now left);
             pose proof Hkm as Hkm';
             unfold kw_matches in Hkm'; apply andb_prop in Hkm';
             destruct Hkm' as [Hkst Hksep]
         end.
  all: repeat match goal with
         | H : starts_with _ _ _ _ = true |- _ =>
             apply starts_with_chars in H;
             [ destruct H as [? _]
             | try apply marker_len_strlen; try apply kw_len_le_strlen
             | lia ]
         end.
  all: rewrite ?memset_length, ?update_nth_length.
  all: split; [assumption|]; split; [lia|].
  all: first
         [ written_class HL_MLCOMMENT
         | written_class HL_STRING
         | written_class HL_NUMBER
         | match goal with
           | Hk : In ?kw (keywords syn) |- _ =>
               exists (kw_class kw); split;
               [ intros p; nth_cases
               | intros _; split; [reflexivity|]; split;
                 [ first [assumption | apply Hnostr; assumption]
                 | split;
                   [ repeat match goal with
                            | H : (_ && _)%bool = false |- _ =>
                                apply andb_false_iff in H; destruct H
                            end;
                     bool_to_prop;
                     first [ left; reflexivity | left; assumption
                           | right; left; assumption
                           | right; right; assumption
                           | exfalso; intuition congruence ]
                   | exists kw; repeat split; auto ] ] ]
           end ].
Qed.

Lemma scan_body_string_flag (st st' : scan_state) :
  scan_body syn rnd st = Continue st' ->
  (sc_in_string st <> NUL ->
   Z.land (flags syn) HL_HIGHLIGHT_STRINGS <> 0) ->
  sc_in_string st' <> NUL ->
  Z.land (flags syn) HL_HIGHLIGHT_STRINGS <> 0.
Proof.
  intros H Hstr.
  split_body H; simpl; bool_to_prop; auto.
Qed.

(** A set [prev_sep] outside strings and comments after an iteration: the
    byte just passed is a separator, or the last byte of a string or of a
    multi-line comment. *)
Lemma scan_body_prev_sep (st st' : scan_state) :
  scan_body syn rnd st = Continue st' ->
  (sc_i st < length rnd)%nat ->
  length (sc_hl st) = length rnd ->
  sc_in_string st' = NUL ->
  sc_in_comment st' = false \/
  marker_len (multiline_comment_start syn) = O \/
  marker_len (multiline_comment_end syn) = O ->
  sc_prev_sep st' = true ->
  is_separator (char_at rnd (sc_i st' - 1)) = true \/
  nth (sc_i st' - 1) (sc_hl st') HL_NORMAL = HL_STRING \/
  nth (sc_i st' - 1) (sc_hl st') HL_NORMAL = HL_MLCOMMENT.
Proof.
  intros H Hi Hlen.
  split_body H; simpl; intros Hs' Hc' Hp'; bool_to_prop.
  all: try (exfalso; intuition congruence).
  all: try match goal with
         | H : starts_with _ _ _ _ = true |- _ =>
             apply starts_with_chars in H;
             [ destruct H as [? _] | apply marker_len_strlen | lia ]
         end.
  all: rewrite ?Nat.sub_0_r.
  all: try (left; assumption).
  all: try (right; left; rewrite nth_update_nth, Nat.eqb_refl;
            replace (Nat.ltb (sc_i st) (length (sc_hl st))) with true
              by (symmetry; apply Nat.ltb_lt; lia);
            reflexivity).
  all: try (right; right; rewrite nth_memset, update_nth_length;
            match goal with
            | |- (if ?c then _ else _) = _ =>
                replace c with true; [reflexivity|]
            end;
            symmetry; rewrite !andb_true_iff;
            repeat split; [apply Nat.leb_le | apply Nat.ltb_lt
                           | apply Nat.ltb_lt]; lia).
Qed.

Lemma scan_body_break (st st' : scan_state) :
  scan_body syn rnd st = Break st' ->
  sc_hl st'
  = memset (sc_hl st) (sc_i st) HL_COMMENT (length rnd - sc_i st).
Proof.
  intros H. split_body H. reflexivity.
Qed.

Lemma scan_inv_init (seed : bool) : scan_inv syn rnd (scan_init rnd seed).
Proof.
  unfold scan_inv, scan_init; simpl.
  split; [apply repeat_length|]. split; [lia|].
  split; [intros p _; apply nth_repeat|].
  split; [congruence|]. split; [auto|]. intros p Hp; lia.
Qed.

Lemma scan_inv_step (st st' : scan_state) :
  scan_inv syn rnd st ->
  (sc_i st < length rnd)%nat ->
  scan_body syn rnd st = Continue st' ->
  scan_inv syn rnd st'.
Proof.
  intros (Hlen & Hile & Hnorm & Hstr & Hprev & HK) Hi Hb.
  destruct (scan_body_effect st st' Hb Hi Hlen Hstr)
    as (Hlen' & Hrange & v & Hnth & Hkw).
  assert (Hbelow : forall q, (q < sc_i st)%nat ->
                             nth q (sc_hl st') HL_NORMAL
                             = nth q (sc_hl st) HL_NORMAL).
  { intros q Hq. destruct (Hnth q) as [Hsame|[Hr _]]; [exact Hsame | lia]. }
  unfold scan_inv.
  split; [exact Hlen'|]. split; [lia|].
  split.
  { intros p Hp. destruct (Hnth p) as [Hsame|[Hr _]]; [|lia].
    rewrite Hsame. apply Hnorm. lia. }
  split; [now apply (scan_body_string_flag st st')|].
  split.
  { intros Hs' Hc' Hp'. right.
    now apply (scan_body_prev_sep st st'). }
  intros p Hp Hkwp.
  destruct (Hnth p) as [Hsame|[Hr Hv]].
  - destruct (Nat.lt_ge_cases p (sc_i st)) as [Hlt|Hge].
    + apply keyword_span_at_agree with (h := sc_hl st).
      * intros q Hq. apply Hbelow. lia.
      * apply HK; [exact Hlt|]. now rewrite <- Hsame.
    + rewrite Hsame, (Hnorm p Hge) in Hkwp. discriminate.
  - rewrite Hv in Hkwp.
    destruct (Hkw Hkwp) as (Hps & Hins & Hcom & kw & Hin & Hm & -> & Hi').
    unfold kw_matches in Hm. apply andb_prop in Hm. destruct Hm as [Hsw Hsep].
    exists kw, (sc_i st). repeat split; auto; try lia.
    destruct (Nat.eq_dec (sc_i st) 0) as [H0|H0]; [now left|].
    destruct (Hprev Hins Hcom Hps) as [H|[H|[H|H]]]; auto.
    + right; right; left. rewrite Hbelow by lia. exact H.
    + right; right; right. rewrite Hbelow by lia. exact H.
Qed.

(** Every keyword class in the result of the scan has its reason. *)
Lemma scan_keywords_justified (seed : bool) (p : nat) :
  let h := sc_hl (scan_row syn rnd seed) in
  is_keyword_hl (nth p h HL_NORMAL) = true ->
  keyword_span_at syn rnd h p.
Proof.
  intros h. subst h. unfold scan_row. revert p.
  apply (scan_from_inv syn rnd (scan_inv syn rnd)
           (fun st => forall p,
                is_keyword_hl (nth p (sc_hl st) HL_NORMAL) = true ->
                keyword_span_at syn rnd (sc_hl st) p)).
  - intros st Hinv Hi.
    destruct (scan_body syn rnd st) as [st'|st'] eqn:Hb.
    + now apply (scan_inv_step st st').
    + destruct Hinv as (Hlen & Hile & Hnorm & Hstr & Hprev & HK).
      intros p Hkwp. pose proof (scan_body_break st st' Hb) as Hhl.
      assert (Hsame : forall q, (q < sc_i st)%nat ->
                                nth q (sc_hl st') HL_NORMAL
                                = nth q (sc_hl st) HL_NORMAL).
      { intros q Hq. rewrite Hhl, nth_memset.
        replace (Nat.leb (sc_i st) q) with false
          by (symmetry; apply Nat.leb_gt; lia).
        reflexivity. }
      destruct (Nat.lt_ge_cases p (sc_i st)) as [Hlt|Hge].
      * apply keyword_span_at_agree with (h := sc_hl st).
        -- intros q Hq. apply Hsame. lia.
        -- apply HK; [exact Hlt|]. now rewrite <- Hsame.
      * exfalso. rewrite Hhl, nth_memset in Hkwp.
        destruct (Nat.leb (sc_i st) p && Nat.ltb p (sc_i st + (length rnd - sc_i st))
                  && Nat.ltb p (length (sc_hl st)))%bool;
          [discriminate|].
        rewrite (Hnorm p Hge) in Hkwp. discriminate.
  - intros st (Hlen & Hile & Hnorm & Hstr & Hprev & HK) Hexit p Hkwp.
    destruct (Nat.lt_ge_cases p (sc_i st)) as [Hlt|Hge]; [now apply HK|].
    rewrite (Hnorm p Hge) in Hkwp. discriminate.
  - apply scan_inv_init.
Qed.

End KeywordInvariant.

(** C4 (as stated): in the render of two double quotes followed by [int],
    the keyword is highlighted although the byte before it, the closing
    quote of the string, is not a separator and the keyword does not start
    the row. *)
Lemma keyword_after_string_without_separator :
  let rnd := [DQUOTE; DQUOTE] ++ cs "int" in
  sc_hl (scan_row C_syntax rnd false)
  = [HL_STRING; HL_STRING; HL_KEYWORD2; HL_KEYWORD2; HL_KEYWORD2] /\
  is_separator (char_at rnd 1) = false /\
  skipn 2 rnd = cs "int".
Proof.
  repeat split.
Qed.

(** C4 (amended): a column of a row carries a keyword class only when it
    lies in the span of a keyword of the descriptor whose text occurs
    there, with a separator (or the end of the row) right after the span,
    and with, right before the span, the start of the row, a separator, or
    the last byte of a string literal or of a multi-line comment.  With the
    built-in descriptor the render [intx] gets no keyword class and the
    render [int x] gets one on [int]. *)
Theorem keyword_needs_boundaries :
  (forall (syn : editorSyntax) (seed : bool) (r : erow) (p : nat),
      is_keyword_hl (nth p (hl (rescan_row syn seed r)) HL_NORMAL) = true ->
      keyword_span_at syn (render r) (hl (rescan_row syn seed r)) p) /\
  sc_hl (scan_row C_syntax (cs "intx") false)
  = [HL_NORMAL; HL_NORMAL; HL_NORMAL; HL_NORMAL] /\
  sc_hl (scan_row C_syntax (cs "int x") false)
  = [HL_KEYWORD2; HL_KEYWORD2; HL_KEYWORD2; HL_NORMAL; HL_NORMAL].
Proof.
  split; [|split; reflexivity].
  intros syn seed r p H. unfold rescan_row in *. simpl in *.
  now apply scan_keywords_justified.
Qed.

(** Column 1 of the row [int x]: inside the span of [int|], which starts
    the row and is followed by a blank. *)
Lemma keyword_needs_boundaries_witness :
  let r := mkRow 0 (cs "int x") (cs "int x") [] false in
  keyword_span_at C_syntax (render r) (hl (rescan_row C_syntax false r)) 1%nat.
Proof.
  intros r.
  apply (proj1 keyword_needs_boundaries C_syntax false r 1%nat).
  reflexivity.
Defined.

(** ** A keyword at the end of the row *)

(** C10 (as stated): the render [1.if] ends exactly with the keyword [if]
    and the byte before it, the dot, is a separator; but the dot follows a
    number, is marked as part of it, and clears [prev_sep], so [if] gets no
    keyword class. *)
Lemma keyword_at_end_not_highlighted :
  let rnd := cs "1.if" in
  In (cs "if") (keywords C_syntax) /\
  skipn 2 rnd = cs "if" /\
  is_separator (char_at rnd 1) = true /\
  sc_hl (scan_row C_syntax rnd false)
  = [HL_NUMBER; HL_NUMBER; HL_NORMAL; HL_NORMAL].
Proof.
  cbv zeta. split; [|repeat split].
  right; left; reflexivity.
Qed.

(** C10 (amended): when the loop body reaches its keyword handler with
    [prev_sep] set at a column from which the rest of the render is exactly
    the text of a keyword of the descriptor, a keyword is marked there: the
    byte one past the end of the render is the NUL terminator, which
    [is_separator] accepts, so the keyword passes the test.  The entry
    marked is the first matching one in list order; when no keyword of the
    descriptor has a separator in its text, it has the same length, the
    scan ends there, and every column up to the end of the row carries its
    keyword class. *)
Theorem keyword_at_end_of_row :
  forall (syn : editorSyntax) (rnd : list ascii) (st : scan_state)
         (kw : list ascii),
    length (sc_hl st) = length rnd ->
    In kw (keywords syn) ->
    (sc_i st < length rnd)%nat ->
    (sc_i st + kw_len kw = length rnd)%nat ->
    starts_with rnd (sc_i st) kw (kw_len kw) = true ->
    sc_prev_sep st = true ->
    at_keyword_step syn rnd st ->
    char_at rnd (length rnd) = NUL /\
    is_separator NUL = true /\
    kw_matches rnd (sc_i st) kw = true /\
    exists kw',
      find_keyword rnd (sc_i st) (keywords syn) = Some kw' /\
      scan_body syn rnd st
      = Continue (mkScan (sc_i st + kw_len kw') false (sc_in_string st)
                    (sc_in_comment st)
                    (memset (sc_hl st) (sc_i st) (kw_class kw') (kw_len kw')))
      /\
      is_keyword_hl (kw_class kw') = true /\
      (forallb sep_free (keywords syn) = true ->
       kw_len kw' = kw_len kw /\
       forall p, (sc_i st <= p < length rnd)%nat ->
                 nth p (sc_hl (scan_from syn rnd st)) HL_NORMAL
                 = kw_class kw').
Proof.
  intros syn rnd st kw Hlen Hin Hi Hend Hsw Hsep (H1 & H2 & H3 & H4).
  assert (Hnul : char_at rnd (length rnd) = NUL)
    by (unfold char_at; apply nth_overflow; lia).
  assert (Hm : kw_matches rnd (sc_i st) kw = true).
  { unfold kw_matches. rewrite Hsw, Hend, Hnul. reflexivity. }
  split; [exact Hnul|]. split; [reflexivity|]. split; [exact Hm|].
  pose proof (find_keyword_first rnd (sc_i st) (keywords syn)) as Hfirst.
  destruct (find_keyword rnd (sc_i st) (keywords syn)) as [kw'|] eqn:Hfind.
  2:{ rewrite Forall_forall in Hfirst. rewrite (Hfirst kw Hin) in Hm.
      discriminate. }
  destruct Hfirst as (before & after & Hkws & Hm' & _).
  assert (Hin' : In kw' (keywords syn)).
  { rewrite Hkws. apply in_or_app. right. now left. }
  assert (Hbody : scan_body syn rnd st
                  = Continue (mkScan (sc_i st + kw_len kw') false
                                (sc_in_string st) (sc_in_comment st)
                                (memset (sc_hl st) (sc_i st) (kw_class kw')
                                   (kw_len kw')))).
  { unfold scan_body. rewrite H1, H2, H3, H4. unfold step_keyword.
    now rewrite Hsep, Hfind. }
  exists kw'. split; [reflexivity|]. split; [exact Hbody|].
  split; [apply kw_class_keyword|].
  intros Hfree. rewrite forallb_forall in Hfree.
  assert (Hsame : kw_len kw' = kw_len kw).
  { apply Nat.le_antisymm.
    - apply (matches_same_length rnd (sc_i st) kw kw'); auto; lia.
    - apply (matches_same_length rnd (sc_i st) kw' kw); auto; lia. }
  split; [exact Hsame|].
  intros p Hp.
  rewrite scan_from_unfold.
  replace (Nat.ltb (sc_i st) (length rnd)) with true
    by (symmetry; apply Nat.ltb_lt; lia).
  rewrite Hbody, scan_from_unfold. simpl sc_i.
  replace (Nat.ltb (sc_i st + kw_len kw') (length rnd)) with false
    by (symmetry; apply Nat.ltb_ge; lia).
  simpl sc_hl. rewrite nth_memset.
  replace (Nat.leb (sc_i st) p && Nat.ltb p (sc_i st + kw_len kw')
           && Nat.ltb p (length (sc_hl st)))%bool with true; [reflexivity|].
  symmetry. rewrite !andb_true_iff.
  repeat split; [apply Nat.leb_le | apply Nat.ltb_lt | apply Nat.ltb_lt]; lia.
Qed.

(** The render [x int] of the built-in descriptor, at the state the scan
    is in when it comes to column 2: [int] is marked up to the end of the
    row. *)
Lemma keyword_at_end_of_row_witness :
  let rnd := cs "x int" in
  let st := mkScan 2 true NUL false (repeat HL_NORMAL 5) in
  scan_reaches C_syntax rnd false st /\
  sc_hl (scan_row C_syntax rnd false)
  = [HL_NORMAL; HL_NORMAL; HL_KEYWORD2; HL_KEYWORD2; HL_KEYWORD2] /\
  forall p, (2 <= p < 5)%nat ->
            nth p (sc_hl (scan_from C_syntax rnd st)) HL_NORMAL = HL_KEYWORD2.
Proof.
  intros rnd st.
  assert (Hr : scan_reaches C_syntax rnd false st).
  { apply reaches_step
      with (st := mkScan 1 false NUL false (repeat HL_NORMAL 5));
      [|reflexivity|reflexivity].
    apply reaches_step with (st := scan_init rnd false);
      [apply reaches_init|reflexivity|reflexivity]. }
  split; [exact Hr|]. split; [reflexivity|].
  assert (Hin : In (cs "int|") (keywords C_syntax)).
  { unfold C_syntax, C_HL_keywords; simpl. do 15 right. now left. }
  assert (Hk : at_keyword_step C_syntax rnd st)
    by (unfold at_keyword_step; repeat split; reflexivity).
  assert (Hlt : (sc_i st < length rnd)%nat) by (simpl; lia).
  destruct (keyword_at_end_of_row C_syntax rnd st (cs "int|")
              eq_refl Hin Hlt eq_refl eq_refl eq_refl Hk)
    as (_ & _ & _ & kw' & Hfind & _ & _ & Hlast).
  change (find_keyword rnd (sc_i st) (keywords C_syntax))
    with (Some (cs "int|")) in Hfind.
  injection Hfind as <-.
  destruct (Hlast eq_refl) as [_ Hall].
  exact Hall.
Defined.

(** ** Loading and flattening *)

Lemma update_all_syntax_erase (k : nat) :
  forall (j : nat) (E : editorConfig),
    erase_hl (update_all_syntax k j E) = erase_hl E.
Proof.
  induction k as [|k IH]; intros j E; simpl; [reflexivity|].
  rewrite IH. apply editorUpdateSyntax_erase.
Qed.

Lemma editorSelectSyntaxHighlight_frame (E : editorConfig) :
  let E' := editorSelectSyntaxHighlight E in
  cx E' = cx E /\ cy E' = cy E /\ numrows E' = numrows E /\
  dirty E' = dirty E /\ filename E' = filename E /\
  statusmsg E' = statusmsg E /\
  map chars (row E') = map chars (row E) /\
  length (row E') = length (row E).
Proof.
  unfold editorSelectSyntaxHighlight. cbv zeta.
  change (filename (set_syntax E None)) with (filename E).
  destruct (filename E) as [fname|] eqn:Hf;
    [|simpl; rewrite ?Hf; repeat split; reflexivity].
  destruct (find_syntax HLDB fname) as [s|];
    [|simpl; rewrite ?Hf; repeat split; reflexivity].
  cbv zeta.
  destruct (erase_hl_fields _ _
              (update_all_syntax_erase (Z.to_nat (numrows E)) O
                 (set_syntax (set_syntax E None) (Some s))))
    as (H1 & H2 & H3 & H4 & H5 & H6 & _ & H8 & _ & _ & H11).
  simpl in *. rewrite ?Hf in *. repeat split; assumption.
Qed.

Lemma insert_rows_at_end (lines : list (list ascii)) :
  forall E : editorConfig,
    numrows E = Z.of_nat (length (row E)) ->
    let E' := fold_left
                (fun E0 line => editorInsertRow E0 (numrows E0) (strip_eol line))
                lines E in
    map chars (row E') = map chars (row E) ++ map strip_eol lines /\
    numrows E' = Z.of_nat (length (row E')) /\
    filename E' = filename E.
Proof.
  induction lines as [|line rest IH]; intros E Hwf; simpl.
  - rewrite app_nil_r. auto.
  - destruct (editorInsertRow_text E (numrows E) (strip_eol line))
      as (A1 & A2 & _ & _ & _ & A6 & _ & A8); [lia|].
    set (E1 := editorInsertRow E (numrows E) (strip_eol line)) in *.
    destruct (IH E1) as (B1 & B2 & B3); [lia|].
    cbv zeta in B1, B2, B3. rewrite B1, B3, A6. repeat split; auto.
    rewrite A1, Hwf, Nat2Z.id.
    rewrite <- (length_map chars (row E)).
    rewrite firstn_all, skipn_all. rewrite <- app_assoc. reflexivity.
Qed.

Lemma editorOpen_text (E : editorConfig) (fname bytes : list ascii) :
  numrows E = Z.of_nat (length (row E)) ->
  exists E',
    editorOpen E fname (Some bytes) = Some E' /\
    map chars (row E')
    = map chars (row E) ++ map strip_eol (getlines bytes []) /\
    numrows E' = Z.of_nat (length (row E')) /\
    filename E' = Some (c_str fname) /\ dirty E' = 0.
Proof.
  intros Hwf. unfold editorOpen.
  set (E0 := set_filename E (Some (c_str fname))).
  destruct (editorSelectSyntaxHighlight_frame E0)
    as (_ & _ & H3 & _ & H5 & _ & H7 & H8).
  set (E1 := editorSelectSyntaxHighlight E0) in *.
  destruct (insert_rows_at_end (getlines bytes []) E1) as (A & B & C).
  { rewrite H3, H8. exact Hwf. }
  eexists. split; [reflexivity|]. simpl.
  cbv zeta in A, B, C. rewrite A, H7, C, H5. repeat split; auto.
Qed.

Lemma flat_map_chars (rows : list erow) :
  flat_map (fun r => chars r ++ [LF]) rows
  = flat_map (fun l => l ++ [LF]) (map chars rows).
Proof.
  induction rows as [|r rows IH]; simpl; [reflexivity|]. now rewrite IH.
Qed.

Lemma totlen_loop (rows : list erow) :
  forall acc : Z,
    fold_left (fun totlen r => totlen + (size r + 1)) rows acc
    = acc + Z.of_nat (length (flat_map (fun r => chars r ++ [LF]) rows)) /\
    fold_left (fun totlen r => totlen + (size r + 1)) rows acc
    = acc + fold_right Z.add 0 (map size rows) + Z.of_nat (length rows).
Proof.
  induction rows as [|r rows IH]; intros acc; simpl; [lia|].
  destruct (IH (acc + (size r + 1))) as [A B].
  rewrite A at 1. rewrite B.
  rewrite !length_app. simpl. unfold size. lia.
Qed.

Lemma editorRowsToString_spec (E : editorConfig) :
  numrows E = Z.of_nat (length (row E)) ->
  fst (editorRowsToString E) = flat_map (fun r => chars r ++ [LF]) (row E) /\
  snd (editorRowsToString E)
  = Z.of_nat (length (fst (editorRowsToString E))) /\
  snd (editorRowsToString E)
  = fold_right Z.add 0 (map size (row E)) + numrows E.
Proof.
  intros Hwf. unfold editorRowsToString. simpl.
  rewrite Hwf, Nat2Z.id, firstn_all.
  destruct (totlen_loop (row E) 0) as [A B].
  repeat split; lia.
Qed.

Lemma flat_map_last_LF (rows : list erow) :
  rows <> [] ->
  last (flat_map (fun r => chars r ++ [LF]) rows) NUL = LF.
Proof.
  induction rows as [|r rows IH]; intros Hne; [congruence|].
  simpl. destruct rows as [|r' rows'].
  - simpl. rewrite app_nil_r. apply last_last.
  - rewrite <- app_assoc.
    set (tail := flat_map _ (r' :: rows')) in *.
    assert (Htail : tail <> []).
    { subst tail. simpl. destruct (chars r'); discriminate. }
    assert (Hl : forall (a b : list ascii), b <> [] -> last (a ++ b) NUL = last b NUL).
    { intros a b Hb. induction a as [|x a IHa]; [reflexivity|].
      simpl. destruct (a ++ b) eqn:Hab; [|exact IHa].
      apply app_eq_nil in Hab. destruct Hab; congruence. }
    rewrite Hl.
    + rewrite Hl by exact Htail. apply IH. discriminate.
    + intros Hnil. apply app_eq_nil in Hnil. destruct Hnil. congruence.
Qed.

(** C9: loading the five bytes [a CR LF b LF] into a fresh editor gives
    exactly the two rows [a] and [b]; for every document
    [editorRowsToString] yields each row's characters followed by one
    newline, so that a non-empty document always ends in a newline, and
    reports as length the length of that buffer, which is the sum of the
    row lengths plus the number of rows; and saving the loaded buffer
    writes the four bytes [a LF b LF]. *)
Theorem load_strips_line_ends_and_save_flattens :
  forall (wrows wcols : Z) (fname : list ascii),
    (exists E,
        editorOpen (initEditor wrows wcols) fname
          (Some (cs "a" ++ [CR; LF] ++ cs "b" ++ [LF])) = Some E /\
        map chars (row E) = [cs "a"; cs "b"] /\
        numrows E = 2 /\
        editorRowsToString E
        = (cs "a" ++ [LF] ++ cs "b" ++ [LF], 4) /\
        forall (err : list ascii) (keys : list Z),
          exists E',
            editorSave (mkSaveIO true true 4 err) keys E
            = Some (E', Some (cs "a" ++ [LF] ++ cs "b" ++ [LF])) /\
            dirty E' = 0) /\
    (forall E : editorConfig,
        numrows E = Z.of_nat (length (row E)) ->
        fst (editorRowsToString E)
        = flat_map (fun r => chars r ++ [LF]) (row E) /\
        (row E <> [] -> last (fst (editorRowsToString E)) NUL = LF) /\
        snd (editorRowsToString E)
        = Z.of_nat (length (fst (editorRowsToString E))) /\
        snd (editorRowsToString E)
        = fold_right Z.add 0 (map size (row E)) + numrows E).
Proof.
  intros wrows wcols fname. split.
  - destruct (editorOpen_text (initEditor wrows wcols) fname
                (cs "a" ++ [CR; LF] ++ cs "b" ++ [LF]) eq_refl)
      as (E & Hopen & Hchars & Hnum & Hname & Hdirty).
    simpl in Hchars.
    assert (Hlen : length (row E) = 2%nat).
    { apply (f_equal (@length (list ascii))) in Hchars.
      now rewrite length_map in Hchars. }
    destruct (editorRowsToString_spec E Hnum) as (Hbuf & Hl1 & _).
    assert (Hstr : editorRowsToString E
                   = (cs "a" ++ [LF] ++ cs "b" ++ [LF], 4)).
    { rewrite (surjective_pairing (editorRowsToString E)).
      rewrite Hl1, Hbuf, flat_map_chars, Hchars. reflexivity. }
    exists E. repeat split; auto; try lia.
    intros err keys. unfold editorSave. rewrite Hname.
    unfold save_to_file. rewrite Hstr. simpl.
    eexists. split; reflexivity.
  - intros E Hwf.
    destruct (editorRowsToString_spec E Hwf) as (Hbuf & Hl1 & Hl2).
    repeat split; auto.
    intros Hne. rewrite Hbuf. now apply flat_map_last_LF.
Qed.

(** The flattening of the two rows [a] and [b]: four bytes. *)
Lemma load_strips_line_ends_and_save_flattens_witness :
  let E := mkConfig 0 0 0 0 0 22 80 2
             [mkRow 0 (cs "a") (cs "a") [HL_NORMAL] false;
              mkRow 1 (cs "b") (cs "b") [HL_NORMAL] false]
             0 (Some (cs "t.txt")) [] None in
  fst (editorRowsToString E) = cs "a" ++ [LF] ++ cs "b" ++ [LF] /\
  snd (editorRowsToString E) = 4.
Proof.
  intros E.
  destruct (load_strips_line_ends_and_save_flattens 24 80 (cs "t.txt"))
    as [_ H].
  destruct (H E eq_refl) as (Hbuf & _ & Hlen & _).
  split; [exact Hbuf|]. rewrite Hlen, Hbuf. reflexivity.
Defined.

(** Loading a file into a consistent document gives a consistent
    document. *)
Lemma editorOpen_doc_ok (E E' : editorConfig) (fname bytes : list ascii) :
  doc_ok E -> editorOpen E fname (Some bytes) = Some E' -> doc_ok E'.
Proof.
  intros [Hn Hi] H. unfold editorOpen in H. injection H as <-.
  apply set_dirty_doc_ok.
  set (E0 := set_filename E (Some (c_str fname))).
  assert (H1 : doc_ok (editorSelectSyntaxHighlight E0)).
  { unfold editorSelectSyntaxHighlight. cbv zeta.
    destruct (filename (set_syntax E0 None)); [|split; assumption].
    destruct (find_syntax HLDB l) as [s|]; [|split; assumption].
    destruct (erase_hl_fields _ _
                (update_all_syntax_erase (Z.to_nat (numrows (set_syntax E0 None)))
                   O (set_syntax (set_syntax E0 None) (Some s))))
      as (_ & _ & H3 & _ & _ & _ & _ & _ & _ & H10 & H11).
    unfold doc_ok. rewrite H3, H10, H11. split; assumption. }
  generalize (getlines bytes []) as lines.
  generalize dependent (editorSelectSyntaxHighlight E0). clear.
  intros E1 H1 lines. revert E1 H1.
  induction lines as [|line rest IH]; intros E1 H1; simpl; [exact H1|].
  apply IH. now apply editorInsertRow_doc_ok.
Qed.

(** ** Saving *)

Lemma editorPrompt_frame (fmt : list ascii -> list ascii) (keys : list Z) :
  forall (buf : list ascii) (E : editorConfig) res u E' rest,
    editorPrompt unit None fmt keys buf tt E = Some (res, u, E', rest) ->
    row E' = row E /\ dirty E' = dirty E /\ numrows E' = numrows E.
Proof.
  induction keys as [|c keys IH]; intros buf E res u E' rest H;
    simpl in H; [discriminate|].
  repeat match type of H with
         | context [if ?b then _ else _] => destruct b
         | context [match ?l with [] => _ | _ :: _ => _ end] => destruct l
         end;
    try (injection H as _ _ <- _; simpl; auto);
    try (apply IH in H; simpl in H; exact H).
Qed.

Lemma editorRowsToString_text (E E' : editorConfig) :
  map chars (row E') = map chars (row E) ->
  numrows E' = numrows E ->
  editorRowsToString E' = editorRowsToString E.
Proof.
  intros Hc Hn. unfold editorRowsToString. rewrite Hn.
  set (k := Z.to_nat (numrows E)).
  assert (Hk : map chars (firstn k (row E')) = map chars (firstn k (row E)))
    by (rewrite <- !firstn_map; now rewrite Hc).
  clearbody k. revert Hk. generalize (firstn k (row E)) as l.
  generalize (firstn k (row E')) as l'. clear.
  assert (Hgen : forall (l' l : list erow) (acc : Z),
             map chars l' = map chars l ->
             flat_map (fun r => chars r ++ [LF]) l'
             = flat_map (fun r => chars r ++ [LF]) l /\
             fold_left (fun totlen r => totlen + (size r + 1)) l' acc
             = fold_left (fun totlen r => totlen + (size r + 1)) l acc).
  { induction l' as [|a l' IH]; intros [|b l] acc Hm; simpl in Hm;
      try discriminate; [split; reflexivity|].
    injection Hm as Hab Hm. simpl. unfold size. rewrite Hab.
    destruct (IH l (acc + (Z.of_nat (length (chars b)) + 1)) Hm) as [A B].
    rewrite A. split; [reflexivity | exact B]. }
  intros l' l Hm. destruct (Hgen l' l 0 Hm) as [A B]. now rewrite A, B.
Qed.

Lemma save_to_file_result (io : save_io) (E : editorConfig) :
  (io_failed io E = true ->
   save_to_file io E
   = (editorSetStatusMessage E
        (cs "Can't save! I/O error: " ++ c_str (io_error io)), None)) /\
  (io_failed io E = false ->
   save_to_file io E
   = (editorSetStatusMessage (set_dirty E 0)
        (decimal (snd (editorRowsToString E)) ++ cs " bytes written to disk"),
      Some (fst (editorRowsToString E)))).
Proof.
  unfold io_failed, save_to_file.
  destruct (editorRowsToString E) as [buf len]. simpl.
  destruct (open_ok io && ftruncate_ok io && (write_ret io =? len))%bool;
    simpl; split; intros H; try discriminate; reflexivity.
Qed.

(** C7: whenever [editorSave] ends without the whole buffer written --
    [open], [ftruncate] or [write] failed, or the prompt for a file name
    was cancelled -- the dirty counter and the characters of every row are
    as before and a status message says what happened; with a known file
    name nothing but the status message changes.  The dirty counter is set
    to zero only together with a complete write. *)
Theorem save_failure_keeps_buffer :
  forall (io : save_io) (keys : list Z) (E E' : editorConfig)
         (written : option (list ascii)),
    editorSave io keys E = Some (E', written) ->
    (io_failed io E = true -> written = None) /\
    (written = None ->
     dirty E' = dirty E /\
     map chars (row E') = map chars (row E) /\
     numrows E' = numrows E /\
     (statusmsg E'
      = firstn 79 (cs "Can't save! I/O error: " ++ c_str (io_error io)) \/
      statusmsg E' = cs "Save aborted")) /\
    (filename E <> None -> io_failed io E = true ->
     E' = editorSetStatusMessage E
            (cs "Can't save! I/O error: " ++ c_str (io_error io))) /\
    (forall buf, written = Some buf ->
                 io_failed io E = false /\
                 buf = fst (editorRowsToString E) /\
                 dirty E' = 0 /\
                 statusmsg E'
                 = firstn 79 (decimal (snd (editorRowsToString E))
                                ++ cs " bytes written to disk")).
Proof.
  intros io keys E E' written H.
  destruct (save_to_file_result io E) as [Hfail Hok].
  unfold editorSave in H.
  destruct (filename E) as [f|] eqn:Hf.
  - injection H as H.
    destruct (io_failed io E) eqn:Hio.
    + rewrite (Hfail eq_refl) in H. injection H as <- <-.
      split; [reflexivity|]. split; [simpl; auto|].
      split; [reflexivity|]. intros buf Hb. discriminate.
    + rewrite (Hok eq_refl) in H. injection H as <- <-.
      split; [discriminate|]. split; [discriminate|].
      split; [discriminate|].
      intros buf Hb. injection Hb as <-. simpl. auto.
  - destruct (editorPrompt unit None save_prompt keys [] tt E)
      as [[[[[name|] u] E1] rest]|] eqn:Hp; [| |discriminate].
    + destruct (editorPrompt_frame _ _ _ _ _ _ _ _ Hp) as (P1 & P2 & P3).
      set (E2 := editorSelectSyntaxHighlight (set_filename E1 (Some name)))
        in *.
      destruct (editorSelectSyntaxHighlight_frame
                  (set_filename E1 (Some name)))
        as (_ & _ & S3 & S4 & _ & _ & S7 & _).
      fold E2 in S3, S4, S7. simpl in S3, S4, S7.
      assert (Hstr : editorRowsToString E2 = editorRowsToString E).
      { apply editorRowsToString_text; [rewrite S7, P1 | rewrite S3, P3];
          reflexivity. }
      assert (Hio2 : io_failed io E2 = io_failed io E)
        by (unfold io_failed; now rewrite Hstr).
      destruct (save_to_file_result io E2) as [Hfail2 Hok2].
      rewrite Hstr in Hok2.
      injection H as H.
      destruct (io_failed io E) eqn:Hio.
      * rewrite (Hfail2 Hio2) in H. injection H as <- <-.
        split; [reflexivity|].
        split; [intros _; simpl; rewrite S4, S7, S3, P1, P2, P3; auto|].
        split; [congruence|]. intros buf Hb. discriminate.
      * rewrite (Hok2 Hio2) in H. injection H as <- <-.
        split; [discriminate|]. split; [discriminate|].
        split; [discriminate|].
        intros buf Hb. injection Hb as <-. simpl. auto.
    + destruct (editorPrompt_frame _ _ _ _ _ _ _ _ Hp) as (P1 & P2 & P3).
      injection H as <- <-.
      split; [reflexivity|].
      split; [intros _; simpl; rewrite P1, P2, P3; auto|].
      split; [congruence|]. intros buf Hb. discriminate.
Qed.

(** A one-row document with a file name, on a disk where [write] stores
    one byte only: the counter of unsaved changes keeps its value 3. *)
Lemma save_failure_keeps_buffer_witness :
  let E := mkConfig 0 0 0 0 0 22 80 1
             [mkRow 0 (cs "hi") (cs "hi") [HL_NORMAL; HL_NORMAL] false]
             3 (Some (cs "notes.txt")) [] None in
  let io := mkSaveIO true true 1 (cs "No space left on device") in
  editorSave io [] E
  = Some (editorSetStatusMessage E
            (cs "Can't save! I/O error: No space left on device"), None) /\
  dirty (editorSetStatusMessage E
           (cs "Can't save! I/O error: No space left on device")) = 3.
Proof.
  intros E io.
  assert (H : editorSave io [] E
              = Some (editorSetStatusMessage E
                        (cs "Can't save! I/O error: No space left on device"),
                      None)) by reflexivity.
  destruct (save_failure_keeps_buffer io [] E _ _ H) as (_ & Hkeep & _).
  split; [exact H|].
  destruct (Hkeep eq_refl) as (Hd & _). exact Hd.
Defined.

(** ** Search *)

Section FindFacts.

Variable E : editorConfig.
Variable query : list ascii.
Variable dir : Z.

Hypothesis Hrows : numrows E = Z.of_nat (length (row E)).
Hypothesis Hdir : dir = 1 \/ dir = -1.
Hypothesis Hn : 0 < numrows E.

Lemma wrap_is_mod (current : Z) :
  -1 <= current < numrows E ->
  (current = -1 -> dir = 1) ->
  let cur1 := current + dir in
  (if cur1 =? -1 then numrows E - 1
   else if cur1 =? numrows E then 0 else cur1)
  = (current + dir) mod numrows E /\
  0 <= (current + dir) mod numrows E < numrows E.
Proof.
  intros Hc Hfirst cur1. subst cur1.
  split; [|apply Z.mod_pos_bound; lia].
  destruct (Z.eqb_spec (current + dir) (-1)) as [H1|H1].
  - apply Z.mod_unique with (q := -1); lia.
  - destruct (Z.eqb_spec (current + dir) (numrows E)) as [H2|H2].
    + rewrite H2. symmetry. apply Z.mod_same. lia.
    + symmetry. apply Z.mod_small. lia.
Qed.

Lemma visit_order_step (current : Z) (k : nat) :
  visit_order (numrows E) current dir (S k)
  = (current + dir) mod numrows E
    :: visit_order (numrows E) ((current + dir) mod numrows E) dir k.
Proof.
  unfold visit_order. simpl seq. simpl map. f_equal.
  - f_equal. lia.
  - rewrite <- seq_shift, map_map. apply map_ext. intros j.
    rewrite Z.add_mod_idemp_l by lia. f_equal. lia.
Qed.

(** The loop finds what a search along [visit_order] finds. *)
Lemma find_loop_first_match (fs : find_state) (iters : nat) :
  forall current : Z,
    -1 <= current < numrows E ->
    (current = -1 -> dir = 1) ->
    find_loop iters current dir query fs E
    = match first_match (row E) query
              (visit_order (numrows E) current dir iters) with
      | Some (cur, r, off) => match_found E dir cur r off query
      | None => (fs, E)
      end.
Proof.
  induction iters as [|k IH]; intros current Hc Hfirst; [reflexivity|].
  rewrite visit_order_step. cbn [find_loop first_match].
  destruct (wrap_is_mod current Hc Hfirst) as [Hwrap Hrange].
  cbv zeta in Hwrap. rewrite Hwrap.
  destruct (nth_error (row E) (Z.to_nat ((current + dir) mod numrows E)))
    as [r|]; [|reflexivity].
  destruct (strstr (render r) query) as [off|]; [reflexivity|].
  apply IH; lia.
Qed.

Lemma first_match_none (order : list Z) :
  Forall (fun c => 0 <= c < numrows E) order ->
  Forall (no_match_at (row E) query) order ->
  first_match (row E) query order = None.
Proof.
  induction 1 as [|c order Hc Hall IH]; intros Hno; [reflexivity|].
  inversion Hno as [|? ? Hnc Hrest]; subst. simpl.
  destruct (nth_error (row E) (Z.to_nat c)) as [r|] eqn:Hr; [|reflexivity].
  rewrite (Hnc r Hr). auto.
Qed.

Lemma first_match_some (before after : list Z) (cur : Z) (r : erow)
  (off : nat) :
  Forall (fun c => 0 <= c < numrows E) before ->
  Forall (no_match_at (row E) query) before ->
  nth_error (row E) (Z.to_nat cur) = Some r ->
  strstr (render r) query = Some off ->
  first_match (row E) query (before ++ cur :: after) = Some (cur, r, off).
Proof.
  induction 1 as [|c before Hc Hall IH]; intros Hno Hr Hm.
  - simpl. now rewrite Hr, Hm.
  - inversion Hno as [|? ? Hnc Hrest]; subst. simpl.
    assert (Hlt : (Z.to_nat c < length (row E))%nat) by lia.
    destruct (nth_error (row E) (Z.to_nat c)) as [rc|] eqn:Hrc;
      [|apply nth_error_None in Hrc; lia].
    rewrite (Hnc rc Hrc). auto.
Qed.

Lemma visit_order_range (last : Z) (k : nat) :
  Forall (fun c => 0 <= c < numrows E) (visit_order (numrows E) last dir k).
Proof.
  unfold visit_order. apply Forall_map, Forall_forall.
  intros j _. apply Z.mod_pos_bound. lia.
Qed.

Lemma visit_order_NoDup (last : Z) :
  NoDup (visit_order (numrows E) last dir (Z.to_nat (numrows E))).
Proof.
  unfold visit_order.
  apply NoDup_map_NoDup_ForallPairs; [|apply seq_NoDup].
  intros j1 j2 H1 H2 Heq. apply in_seq in H1, H2.
  assert (Hdiv : (numrows E | dir * (Z.of_nat j1 - Z.of_nat j2))).
  { apply Z.mod_divide; [lia|].
    replace (dir * (Z.of_nat j1 - Z.of_nat j2))
      with ((last + dir * Z.of_nat j1) - (last + dir * Z.of_nat j2)) by lia.
    rewrite Zminus_mod, Heq, Z.sub_diag. apply Z.mod_0_l. lia. }
  destruct Hdiv as [q Hq].
  assert (Hq0 : q = 0) by (destruct Hdir; subst dir; nia).
  subst q. destruct Hdir; subst dir; lia.
Qed.

Lemma visit_order_from_start :
  dir = 1 ->
  visit_order (numrows E) (-1) dir (Z.to_nat (numrows E))
  = map Z.of_nat (seq 0 (Z.to_nat (numrows E))).
Proof.
  intros ->. unfold visit_order.
  rewrite <- seq_shift, map_map. apply map_ext_in.
  intros j Hj. apply in_seq in Hj.
  rewrite Z.mod_small; lia.
Qed.

End FindFacts.

(** *** [strstr] on text without NUL bytes *)

Lemma c_str_no_NUL (s : list ascii) : ~ In NUL s -> c_str s = s.
Proof.
  unfold c_str. induction s as [|c s IH]; intros Hno; simpl; [reflexivity|].
  destruct (Ascii.eqb_spec c NUL) as [Hc|Hc].
  - exfalso. apply Hno. left. exact Hc.
  - simpl. f_equal. apply IH. intros Hin. apply Hno. now right.
Qed.

Lemma is_prefix_app (needle : list ascii) :
  forall hay, is_prefix needle hay = true <->
              exists post, hay = needle ++ post.
Proof.
  induction needle as [|c needle IH]; intros hay; simpl.
  - split; [intros _; now exists hay | reflexivity].
  - destruct hay as [|h hay].
    + split; [discriminate | intros [post H]; discriminate].
    + rewrite andb_true_iff, IH. split.
      * intros [Hc [post ->]]. apply Ascii.eqb_eq in Hc. subst. now exists post.
      * intros [post H]. injection H as -> ->. split;
          [apply Ascii.eqb_refl | now exists post].
Qed.

Lemma occurs_at_0 (needle hay : list ascii) :
  occurs_at needle hay 0 <-> is_prefix needle hay = true.
Proof.
  rewrite is_prefix_app. unfold occurs_at. split.
  - intros (pre & post & -> & Hl). destruct pre; [|discriminate].
    now exists post.
  - intros [post ->]. now exists [], post.
Qed.

Lemma occurs_at_S (needle hay : list ascii) (h : ascii) (off : nat) :
  occurs_at needle (h :: hay) (S off) <-> occurs_at needle hay off.
Proof.
  unfold occurs_at. split.
  - intros (pre & post & H & Hl). destruct pre as [|p pre]; [discriminate|].
    injection H as -> ->. injection Hl as Hl. now exists pre, post.
  - intros (pre & post & -> & Hl). exists (h :: pre), post.
    split; [reflexivity | simpl; now f_equal].
Qed.

Lemma strstr_from_spec (needle : list ascii) :
  forall (hay : list ascii) (base : nat),
    match strstr_from hay needle base with
    | Some off =>
        exists k, off = (base + k)%nat /\ occurs_at needle hay k /\
                  forall j, (j < k)%nat -> ~ occurs_at needle hay j
    | None => forall j, ~ occurs_at needle hay j
    end.
Proof.
  induction hay as [|h hay IH]; intros base; simpl.
  - destruct (is_prefix needle []) eqn:Hp.
    + exists O. split; [lia|]. split; [now apply occurs_at_0|].
      intros j Hj; lia.
    + intros j (pre & post & H & _).
      symmetry in H. apply app_eq_nil in H. destruct H as [-> H].
      apply app_eq_nil in H. destruct H as [-> ->].
      simpl in Hp. discriminate.
  - destruct (is_prefix needle (h :: hay)) eqn:Hp.
    + exists O. split; [lia|]. split; [now apply occurs_at_0|].
      intros j Hj; lia.
    + specialize (IH (S base)).
      destruct (strstr_from hay needle (S base)) as [off|].
      * destruct IH as (k & -> & Hk & Hmin).
        exists (S k). split; [lia|]. split; [now apply occurs_at_S|].
        intros [|j] Hj.
        -- rewrite occurs_at_0, Hp. discriminate.
        -- rewrite occurs_at_S. apply Hmin. lia.
      * intros [|j].
        -- rewrite occurs_at_0, Hp. discriminate.
        -- rewrite occurs_at_S. apply IH.
Qed.

(** On bytes without NUL, [strstr] finds the first occurrence of the
    query in the render, and fails only when there is none. *)
Lemma strstr_first_occurrence (hay needle : list ascii) :
  ~ In NUL hay -> ~ In NUL needle ->
  match strstr hay needle with
  | Some off => occurs_at needle hay off /\
                forall j, (j < off)%nat -> ~ occurs_at needle hay j
  | None => forall j, ~ occurs_at needle hay j
  end.
Proof.
  intros Hh Hn. unfold strstr.
  rewrite (c_str_no_NUL hay Hh), (c_str_no_NUL needle Hn).
  pose proof (strstr_from_spec needle hay 0) as H.
  destruct (strstr_from hay needle 0) as [off|]; [|exact H].
  destruct H as (k & -> & Hk & Hmin). simpl. auto.
Qed.

(** [strstr] reads both arguments as C strings: it finds the first
    occurrence of the bytes of the query before its first NUL among the
    bytes of the render before its first NUL. *)
Lemma strstr_c_strings (hay needle : list ascii) :
  match strstr hay needle with
  | Some off => occurs_at (c_str needle) (c_str hay) off /\
                forall j, (j < off)%nat ->
                          ~ occurs_at (c_str needle) (c_str hay) j
  | None => forall j, ~ occurs_at (c_str needle) (c_str hay) j
  end.
Proof.
  unfold strstr.
  pose proof (strstr_from_spec (c_str needle) (c_str hay) 0) as H.
  destruct (strstr_from (c_str hay) (c_str needle) 0) as [off|]; [|exact H].
  destruct H as (k & -> & Hk & Hmin). simpl. auto.
Qed.

Lemma c_str_cut (pre post : list ascii) :
  ~ In NUL pre -> c_str (pre ++ NUL :: post) = pre.
Proof.
  unfold c_str. induction pre as [|c pre IH]; intros Hno; [reflexivity|].
  cbn [app strlen].
  destruct (Ascii.eqb_spec c NUL) as [Hc|Hc].
  - exfalso. apply Hno. left. exact Hc.
  - cbn [firstn]. f_equal. apply IH. intros Hin. apply Hno. now right.
Qed.

(** What the keys do before the loop starts: the highlight saved by the
    last step is put back, an arrow key keeps the last match and sets the
    direction, any other key starts over from the top. *)
Lemma editorFindCallback_loop (fs : find_state) (E : editorConfig)
  (query : list ascii) (key : Z) :
  key <> KEY_ENTER -> key <> KEY_ESC ->
  exists (E0 : editorConfig) (lm d : Z),
    editorFindCallback fs E query key
    = find_loop (Z.to_nat (numrows E0)) lm d query
        (mkFind lm d (saved_hl_line fs) None) E0 /\
    map render (row E0) = map render (row E) /\
    length (row E0) = length (row E) /\
    numrows E0 = numrows E /\
    (d = 1 \/ d = -1) /\ (lm = -1 -> d = 1) /\
    (key = ARROW_RIGHT \/ key = ARROW_DOWN -> lm = last_match fs /\ d = 1) /\
    (key = ARROW_LEFT \/ key = ARROW_UP ->
     lm = last_match fs /\ (lm <> -1 -> d = -1)) /\
    (key <> ARROW_RIGHT -> key <> ARROW_DOWN ->
     key <> ARROW_LEFT -> key <> ARROW_UP -> lm = -1 /\ d = 1).
Proof.
  intros Hent Hesc. unfold editorFindCallback.
  set (E0 := match saved_hl fs with
             | Some saved => _
             | None => E
             end).
  assert (HE0 : map render (row E0) = map render (row E) /\
                length (row E0) = length (row E) /\
                numrows E0 = numrows E).
  { subst E0. destruct (saved_hl fs) as [saved|]; [|auto].
    destruct (nth_error (row E) (saved_hl_line fs)) as [r|] eqn:Hr; [|auto].
    simpl. rewrite update_nth_length.
    rewrite (update_nth_map_same render _ _ _ r); auto. }
  destruct HE0 as (R1 & R2 & R3).
  replace ((key =? KEY_ENTER) || (key =? KEY_ESC))%bool with false
    by (symmetry; apply orb_false_iff; split; apply Z.eqb_neq; assumption).
  cbn [last_match direction saved_hl_line].
  destruct ((key =? ARROW_RIGHT) || (key =? ARROW_DOWN))%bool eqn:Hfw.
  - exists E0, (last_match fs), 1.
    replace (if last_match fs =? -1 then 1 else 1) with 1
      by (destruct (last_match fs =? -1); reflexivity).
    repeat split; auto; try lia.
    apply orb_prop in Hfw.
    unfold ARROW_RIGHT, ARROW_DOWN, ARROW_LEFT, ARROW_UP in *. lia.
  - apply orb_false_iff in Hfw. destruct Hfw as [F1 F2].
    destruct ((key =? ARROW_LEFT) || (key =? ARROW_UP))%bool eqn:Hbw.
    + exists E0, (last_match fs), (if last_match fs =? -1 then 1 else -1).
      repeat split; auto; try lia;
        destruct (Z.eqb_spec (last_match fs) (-1)); auto; try lia.
      all: apply orb_prop in Hbw;
        unfold ARROW_RIGHT, ARROW_DOWN, ARROW_LEFT, ARROW_UP in *; lia.
    + apply orb_false_iff in Hbw. destruct Hbw as [B1 B2].
      exists E0, (-1), 1. simpl. repeat split; auto; try lia.
Qed.

(** C6 (as stated): a row that contains the query as a substring is
    passed over when the occurrence stands behind a NUL byte of the row.
    The file with the two lines [a NUL foo] and [foo] loads as two rows
    with those renders; [foo] stands at offset 2 of row 0; the first
    search for [foo], with no prior match and forward direction, lands on
    row 1. *)
Lemma search_skips_match_behind_NUL :
  match editorOpen (initEditor 24 80) (cs "t.txt")
          (Some ("a"%char :: NUL :: cs "foo" ++ [LF] ++ cs "foo" ++ [LF]))
  with
  | None => False
  | Some E =>
      map render (row E) = ["a"%char :: NUL :: cs "foo"; cs "foo"] /\
      occurs_at (cs "foo") ("a"%char :: NUL :: cs "foo") 2 /\
      strstr ("a"%char :: NUL :: cs "foo") (cs "foo") = None /\
      let '(fs1, E1) := editorFindCallback find_init E (cs "foo") 111 in
      (cy E1, cx E1, last_match fs1) = (1, 0, 1)
  end.
Proof.
  vm_compute. split; [reflexivity|]. split; [|split; reflexivity].
  exists ["a"%char; NUL], []. split; reflexivity.
Qed.

(** C6 (amended): in the document with the rows [foo], [bar foo], [baz]
    the search for [foo] lands on row 0; the next step forward lands on
    row 1; the next one wraps around and lands on row 0; and a step
    backward from the match on row 1 lands on row 0.  In general a step
    looks at the rows in the order [last + dir], [last + 2 dir], ... taken
    modulo the number of rows, starting after the last match (with row 0
    when there is none), each row once, and takes the first row in whose
    render [strstr] finds the query; when no row has it, nothing changes.
    [strstr] reads render and query as C strings: it finds the first
    occurrence of the bytes of the query before its first NUL among the
    bytes of the render before its first NUL, so that a row is selected
    when the part of its render before the first NUL byte contains the
    query as a substring; on renders and queries without NUL bytes that
    part is the whole. *)
Theorem search_steps_cyclically :
  (match editorOpen (initEditor 24 80) (cs "t.txt")
           (Some (cs "foo" ++ [LF] ++ cs "bar foo" ++ [LF] ++ cs "baz" ++ [LF]))
   with
   | None => False
   | Some E =>
       map render (row E) = [cs "foo"; cs "bar foo"; cs "baz"] /\
       let '(fs1, E1) := editorFindCallback find_init E (cs "foo") 111 in
       let '(fs2, E2) := editorFindCallback fs1 E1 (cs "foo") ARROW_RIGHT in
       let '(fs3, E3) := editorFindCallback fs2 E2 (cs "foo") ARROW_RIGHT in
       let '(fs4, E4) := editorFindCallback fs2 E2 (cs "foo") ARROW_LEFT in
       (cy E1, cx E1, last_match fs1) = (0, 0, 0) /\
       (cy E2, cx E2, last_match fs2) = (1, 4, 1) /\
       (cy E3, cx E3, last_match fs3) = (0, 0, 0) /\
       (cy E4, cx E4, last_match fs4) = (0, 0, 0)
   end) /\
  (forall (fs : find_state) (E : editorConfig) (query : list ascii) (key : Z),
      key <> KEY_ENTER -> key <> KEY_ESC ->
      exists (E0 : editorConfig) (lm d : Z),
        editorFindCallback fs E query key
        = find_loop (Z.to_nat (numrows E0)) lm d query
            (mkFind lm d (saved_hl_line fs) None) E0 /\
        map render (row E0) = map render (row E) /\
        numrows E0 = numrows E /\
        (d = 1 \/ d = -1) /\ (lm = -1 -> d = 1) /\
        (key = ARROW_RIGHT \/ key = ARROW_DOWN ->
         lm = last_match fs /\ d = 1) /\
        (key = ARROW_LEFT \/ key = ARROW_UP ->
         lm = last_match fs /\ (lm <> -1 -> d = -1))) /\
  (forall (fs : find_state) (E : editorConfig) (query : list ascii)
          (last dir : Z),
      numrows E = Z.of_nat (length (row E)) ->
      0 < numrows E ->
      -1 <= last < numrows E ->
      dir = 1 \/ dir = -1 ->
      (last = -1 -> dir = 1) ->
      let order := visit_order (numrows E) last dir (Z.to_nat (numrows E)) in
      NoDup order /\
      length order = length (row E) /\
      Forall (fun c => 0 <= c < numrows E) order /\
      hd_error order = Some ((last + dir) mod numrows E) /\
      (last = -1 -> order = map Z.of_nat (seq 0 (length (row E)))) /\
      (Forall (no_match_at (row E) query) order ->
       find_loop (Z.to_nat (numrows E)) last dir query fs E = (fs, E)) /\
      (forall before cur after r off,
          order = before ++ cur :: after ->
          Forall (no_match_at (row E) query) before ->
          nth_error (row E) (Z.to_nat cur) = Some r ->
          strstr (render r) query = Some off ->
          find_loop (Z.to_nat (numrows E)) last dir query fs E
          = match_found E dir cur r off query)) /\
  (forall hay needle : list ascii,
      match strstr hay needle with
      | Some off => occurs_at (c_str needle) (c_str hay) off /\
                    forall j, (j < off)%nat ->
                              ~ occurs_at (c_str needle) (c_str hay) j
      | None => forall j, ~ occurs_at (c_str needle) (c_str hay) j
      end) /\
  (forall pre post : list ascii,
      ~ In NUL pre ->
      c_str pre = pre /\ c_str (pre ++ NUL :: post) = pre) /\
  (forall hay needle : list ascii,
      ~ In NUL hay -> ~ In NUL needle ->
      match strstr hay needle with
      | Some off => occurs_at needle hay off /\
                    forall j, (j < off)%nat -> ~ occurs_at needle hay j
      | None => forall j, ~ occurs_at needle hay j
      end).
Proof.
  split; [vm_compute; repeat split|]. split; [|split].
  3: { split; [exact strstr_c_strings|]. split.
       - intros pre post Hno.
         split; [now apply c_str_no_NUL | now apply c_str_cut].
       - exact strstr_first_occurrence. }
  - intros fs E query key Hent Hesc.
    destruct (editorFindCallback_loop fs E query key Hent Hesc)
      as (E0 & lm & d & H1 & H2 & _ & H3 & H4 & H5 & H6 & H7 & _).
    exists E0, lm, d. repeat split; auto; try tauto.
  - intros fs E query last dir Hrows Hn Hlast Hdir Hfirst order.
    assert (Hrange : Forall (fun c => 0 <= c < numrows E) order)
      by (apply visit_order_range; assumption).
    assert (Hloop : find_loop (Z.to_nat (numrows E)) last dir query fs E
                    = match first_match (row E) query order with
                      | Some (cur, r, off) => match_found E dir cur r off query
                      | None => (fs, E)
                      end)
      by (apply find_loop_first_match; assumption).
    split; [apply visit_order_NoDup; assumption|].
    split; [unfold order, visit_order;
            rewrite length_map, length_seq; lia|].
    split; [exact Hrange|].
    split.
    { unfold order. replace (Z.to_nat (numrows E))
        with (S (Nat.pred (Z.to_nat (numrows E)))) by lia.
      rewrite visit_order_step by assumption. reflexivity. }
    split.
    { intros ->. unfold order. rewrite visit_order_from_start by auto.
      do 2 f_equal. lia. }
    split.
    { intros Hno. rewrite Hloop.
      rewrite first_match_none; auto. }
    intros before cur after r off Hord Hno Hr Hm.
    rewrite Hloop, Hord.
    rewrite Hord in Hrange. apply Forall_app in Hrange.
    destruct Hrange as [Hrb _].
    erewrite first_match_some; eauto.
Qed.

(** From the match on row 1, forward: row 2 holds no [foo], the search
    wraps around and stops on row 0. *)
Lemma search_steps_cyclically_witness :
  let r0 := mkRow 0 (cs "foo") (cs "foo") (repeat HL_NORMAL 3) false in
  let r1 := mkRow 1 (cs "bar foo") (cs "bar foo") (repeat HL_NORMAL 7) false in
  let r2 := mkRow 2 (cs "baz") (cs "baz") (repeat HL_NORMAL 3) false in
  let E := mkConfig 4 1 0 0 0 22 80 3 [r0; r1; r2] 0 None [] None in
  let fs := mkFind 1 1 1 None in
  visit_order 3 1 1 3 = [2; 0; 1] /\
  find_loop 3 1 1 (cs "foo") fs E = match_found E 1 0 r0 0 (cs "foo").
Proof.
  intros r0 r1 r2 E fs. split; [reflexivity|].
  destruct search_steps_cyclically as (_ & _ & H & _).
  assert (Hlast : -1 <= 1 < numrows E) by (simpl; lia).
  assert (Hfirst : 1 = -1 -> 1 = 1) by reflexivity.
  destruct (H fs E (cs "foo") 1 1 eq_refl eq_refl Hlast
              (or_introl eq_refl) Hfirst)
    as (_ & _ & _ & _ & _ & _ & Hfound).
  apply (Hfound [2] 0 [1] r0 0%nat); try reflexivity.
  constructor; [|constructor].
  intros r Hr. injection Hr as <-. reflexivity.
Defined.

(** * Further properties of the code *)

(** ** Derived fields of the rows *)

Lemma Forall_nth_error {A : Type} (P : A -> Prop) (l : list A) :
  Forall P l <-> (forall m x, nth_error l m = Some x -> P x).
Proof.
  rewrite Forall_forall. split; intros H.
  - intros m x Hm. apply H. eapply nth_error_In; eauto.
  - intros x Hx. apply In_nth_error in Hx as [m Hm]. eauto.
Qed.

(** Whatever the scan does, it leaves one class per render byte. *)
Lemma scan_row_hl_length (s : editorSyntax) (rnd : list ascii) (seed : bool) :
  length (sc_hl (scan_row s rnd seed)) = length rnd.
Proof.
  unfold scan_row.
  apply (scan_from_inv s rnd (scan_inv s rnd)
           (fun st => length (sc_hl st) = length rnd)).
  - intros st HP Hi. destruct (scan_body s rnd st) as [st'|st'] eqn:Hb.
    + now apply (scan_inv_step s rnd st st').
    + rewrite (scan_body_break s rnd st st' Hb), memset_length. apply HP.
  - intros st HP _. apply HP.
  - apply scan_inv_init.
Qed.

Lemma rescan_row_ok (s : editorSyntax) (seed : bool) (r : erow) :
  render r = render_of (chars r) -> row_ok (rescan_row s seed r).
Proof.
  intros H. split; simpl; [exact H | apply scan_row_hl_length].
Qed.

Lemma plain_row_ok (r : erow) :
  render r = render_of (chars r) -> row_ok (plain_row r).
Proof.
  intros H. split; simpl; [exact H | apply repeat_length].
Qed.

Lemma editorUpdateSyntax_plain (E : editorConfig) (n : nat) (r : erow) :
  syntax E = None -> nth_error (row E) n = Some r ->
  editorUpdateSyntax E n = set_row E (update_nth (row E) n (plain_row r)).
Proof.
  intros Hs Hn. unfold editorUpdateSyntax. simpl. now rewrite Hn, Hs.
Qed.

Lemma editorUpdateSyntax_none (E : editorConfig) (n : nat) :
  nth_error (row E) n = None -> editorUpdateSyntax E n = E.
Proof.
  intros Hn. unfold editorUpdateSyntax. simpl. now rewrite Hn.
Qed.

(** The scan of row [n] and its cascade repair the highlight of row [n]
    and keep the other rows in order. *)
Lemma editorUpdateSyntax_rows_ok (k : nat) :
  forall E n,
    (length (row E) - n <= k)%nat ->
    map idx (row E) = seq 0 (length (row E)) ->
    numrows E <= Z.of_nat (length (row E)) ->
    (forall m r, nth_error (row E) m = Some r ->
                 render r = render_of (chars r)) ->
    (forall m r, m <> n -> nth_error (row E) m = Some r -> row_ok r) ->
    rows_ok (editorUpdateSyntax E n).
Proof.
  induction k as [|k IH]; intros E n Hk Hidx Hnum Hrnd Hok.
  - rewrite editorUpdateSyntax_none by (apply nth_error_None; lia).
    apply Forall_nth_error. intros m x Hm. apply (Hok m x); [|exact Hm].
    assert ((m < length (row E))%nat) by (apply nth_error_Some; congruence).
    lia.
  - destruct (nth_error (row E) n) as [r|] eqn:Hn.
    2:{ rewrite editorUpdateSyntax_none by exact Hn.
        apply Forall_nth_error. intros m x Hm. apply (Hok m x); [|exact Hm].
        intros ->. congruence. }
    assert (Hlt : (n < length (row E))%nat)
      by (apply nth_error_Some; congruence).
    destruct (syntax E) as [s|] eqn:Hs.
    + rewrite (editorUpdateSyntax_unfold E s n r Hidx Hnum Hs Hn). cbv zeta.
      set (r' := rescan_row s (seed_of E r) r).
      set (E1 := set_row E (update_nth (row E) n r')).
      assert (Hall : forall m x, nth_error (row E1) m = Some x -> row_ok x).
      { intros m x Hm. subst E1; simpl in Hm.
        destruct (Nat.eq_dec n m) as [<-|Hne].
        - rewrite (nth_error_update_nth_eq _ _ _ r Hn) in Hm.
          injection Hm as <-. apply rescan_row_ok. eapply Hrnd; eauto.
        - rewrite nth_error_update_nth_ne in Hm by exact Hne.
          apply (Hok m x); auto. }
      destruct (negb _ && _)%bool.
      * apply IH.
        -- subst E1; simpl. rewrite update_nth_length. lia.
        -- now apply (idx_seq_update E n r r').
        -- subst E1; simpl. now rewrite update_nth_length.
        -- intros m x Hm. now apply (Hall m x).
        -- intros m x _ Hm. now apply (Hall m x).
      * apply Forall_nth_error. exact Hall.
    + rewrite (editorUpdateSyntax_plain E n r Hs Hn).
      apply Forall_nth_error. intros m x Hm. simpl in Hm.
      destruct (Nat.eq_dec n m) as [<-|Hne].
      * rewrite (nth_error_update_nth_eq _ _ _ r Hn) in Hm.
        injection Hm as <-. apply plain_row_ok. eapply Hrnd; eauto.
      * rewrite nth_error_update_nth_ne in Hm by exact Hne.
        apply (Hok m x); auto.
Qed.

Lemma editorUpdateRow_rows_ok (E : editorConfig) (n : nat) :
  map idx (row E) = seq 0 (length (row E)) ->
  numrows E <= Z.of_nat (length (row E)) ->
  (forall m r, m <> n -> nth_error (row E) m = Some r -> row_ok r) ->
  rows_ok (editorUpdateRow E n).
Proof.
  intros Hidx Hnum Hok. unfold editorUpdateRow.
  destruct (nth_error (row E) n) as [r|] eqn:Hn.
  2:{ apply Forall_nth_error. intros m x Hm. apply (Hok m x); [|exact Hm].
      intros ->. congruence. }
  set (r1 := mkRow _ _ _ _ _). set (E1 := set_row E _).
  assert (Hrow : forall m x, nth_error (row E1) m = Some x ->
                             (m = n /\ x = r1) \/
                             (m <> n /\ nth_error (row E) m = Some x)).
  { intros m x Hm. subst E1; simpl in Hm.
    destruct (Nat.eq_dec n m) as [<-|Hne].
    - rewrite (nth_error_update_nth_eq _ _ _ r Hn) in Hm.
      injection Hm as <-. now left.
    - rewrite nth_error_update_nth_ne in Hm by exact Hne. right; auto. }
  apply (editorUpdateSyntax_rows_ok (length (row E1))).
  - lia.
  - now apply (idx_seq_update E n r r1).
  - subst E1; simpl. now rewrite update_nth_length.
  - intros m x Hm. destruct (Hrow m x Hm) as [[_ ->]|[Hne Hm']];
      [reflexivity | apply (Hok m x Hne Hm')].
  - intros m x Hne Hm. destruct (Hrow m x Hm) as [[-> _]|[_ Hm']];
      [congruence | apply (Hok m x Hne Hm')].
Qed.

Lemma rows_ok_nth (E : editorConfig) (m : nat) (r : erow) :
  rows_ok E -> nth_error (row E) m = Some r -> row_ok r.
Proof. intros H. now apply Forall_nth_error. Qed.

Lemma insert_rows_idx (rows : list erow) (n : nat) (fresh : erow) :
  map idx rows = seq 0 (length rows) -> (n <= length rows)%nat ->
  idx fresh = n ->
  let rows' := firstn n rows ++ fresh :: map bump_idx (skipn n rows) in
  length rows' = S (length rows) /\ map idx rows' = seq 0 (length rows').
Proof.
  intros Hi Hle Hf rows'.
  assert (Hlen : length rows' = S (length rows)).
  { subst rows'. rewrite length_app. simpl. rewrite length_map.
    rewrite <- (firstn_skipn n rows) at 3. rewrite length_app. lia. }
  split; [exact Hlen|]. rewrite Hlen. subst rows'.
  rewrite map_app. simpl. rewrite map_map. simpl.
  rewrite <- (map_map idx S), <- firstn_map, <- skipn_map, Hi, Hf.
  rewrite skipn_seq. simpl.
  rewrite (seq_split n (length rows) Hle) at 1.
  rewrite firstn_middle by apply length_seq.
  rewrite seq_shift.
  change (0%nat :: seq 1 (length rows)) with (seq 0 (S (length rows))).
  now apply seq_insert.
Qed.

Lemma bump_idx_ok (r : erow) : row_ok r -> row_ok (bump_idx r).
Proof. intros H; exact H. Qed.

Lemma drop_idx_ok (r : erow) : row_ok r -> row_ok (drop_idx r).
Proof. intros H; exact H. Qed.

Lemma nth_error_middle_ne {A : Type} (l1 l2 : list A) (x y : A)
  (n m : nat) :
  length l1 = n -> m <> n -> nth_error (l1 ++ x :: l2) m = Some y ->
  In y l1 \/ In y l2.
Proof.
  intros <- Hne Hm. destruct (Nat.lt_ge_cases m (length l1)) as [Hlt|Hge].
  - rewrite nth_error_app1 in Hm by exact Hlt. left.
    eapply nth_error_In; eauto.
  - rewrite nth_error_app2 in Hm by exact Hge.
    destruct (m - length l1)%nat as [|j] eqn:Hj; [lia|]. simpl in Hm.
    right. eapply nth_error_In; eauto.
Qed.

Lemma In_firstn {A : Type} (l : list A) (n : nat) (x : A) :
  In x (firstn n l) -> In x l.
Proof.
  intros H. rewrite <- (firstn_skipn n l). apply in_or_app. now left.
Qed.

Lemma In_skipn {A : Type} (l : list A) (n : nat) (x : A) :
  In x (skipn n l) -> In x l.
Proof.
  intros H. rewrite <- (firstn_skipn n l). apply in_or_app. now right.
Qed.

Lemma editorInsertRow_rows_ok (E : editorConfig) (a : Z) (s : list ascii) :
  doc_ok E -> rows_ok E -> rows_ok (editorInsertRow E a s).
Proof.
  intros [Hn Hi] Hok. unfold editorInsertRow.
  destruct ((a <? 0) || (a >? numrows E))%bool eqn:Hg; [exact Hok|].
  apply orb_false_iff in Hg. destruct Hg as [G1 G2].
  set (n := Z.to_nat a).
  assert (Hle : (n <= length (row E))%nat) by lia.
  set (fresh := mkRow n s [] [] false).
  destruct (insert_rows_idx (row E) n fresh Hi Hle eq_refl) as [Hlen Hidx].
  cbv zeta in Hlen, Hidx.
  set (rows := firstn n (row E) ++ fresh :: map bump_idx (skipn n (row E)))
    in *.
  unfold rows_ok, set_dirty, set_numrows; cbn [row].
  apply editorUpdateRow_rows_ok.
  - exact Hidx.
  - cbn [row numrows set_row]. lia.
  - cbn [row set_row]. intros m r Hne Hm.
    assert (Hfn : length (firstn n (row E)) = n)
      by (apply firstn_length_le; exact Hle).
    destruct (nth_error_middle_ne _ _ _ _ n m Hfn Hne Hm) as [Hr|Hr].
    + apply (proj1 (Forall_forall _ _) Hok). now apply In_firstn in Hr.
    + apply in_map_iff in Hr. destruct Hr as (r0 & <- & Hr0).
      apply bump_idx_ok.
      apply (proj1 (Forall_forall _ _) Hok). now apply In_skipn in Hr0.
Qed.

Lemma editorDelRow_rows_ok (E : editorConfig) (a : Z) :
  rows_ok E -> rows_ok (editorDelRow E a).
Proof.
  intros Hok. unfold editorDelRow.
  destruct ((a <? 0) || (a >=? numrows E))%bool; [exact Hok|].
  unfold rows_ok, set_dirty, set_numrows, set_row; cbn [row].
  apply Forall_forall. intros r Hr. apply in_app_or in Hr.
  destruct Hr as [Hr|Hr].
  - apply (proj1 (Forall_forall _ _) Hok). now apply In_firstn in Hr.
  - apply in_map_iff in Hr. destruct Hr as (r0 & <- & Hr0).
    apply drop_idx_ok.
    apply (proj1 (Forall_forall _ _) Hok). now apply In_skipn in Hr0.
Qed.

(** Changing the characters of row [n] and calling [editorUpdateRow] on
    it. *)
Lemma set_chars_rows_ok (E : editorConfig) (n : nat) (r : erow)
  (cs' : list ascii) :
  doc_ok E -> rows_ok E -> nth_error (row E) n = Some r ->
  rows_ok (editorUpdateRow
             (set_row E (update_nth (row E) n (set_chars r cs'))) n).
Proof.
  intros [Hn Hi] Hok Hr. apply editorUpdateRow_rows_ok.
  - now apply (idx_seq_update E n r).
  - cbn [row numrows set_row]. rewrite update_nth_length. lia.
  - cbn [row set_row]. intros m x Hne Hm.
    rewrite nth_error_update_nth_ne in Hm by congruence.
    now apply (rows_ok_nth E m x).
Qed.

Lemma editorRowInsertChar_rows_ok (E : editorConfig) (n : nat) (a : Z)
  (c : ascii) :
  doc_ok E -> rows_ok E -> rows_ok (editorRowInsertChar E n a c).
Proof.
  intros Hd Hok. unfold editorRowInsertChar.
  destruct (nth_error (row E) n) as [r|] eqn:Hr; [|exact Hok].
  cbv zeta. unfold rows_ok, set_dirty; cbn [row].
  now apply set_chars_rows_ok.
Qed.

Lemma editorRowAppendString_rows_ok (E : editorConfig) (n : nat)
  (s : list ascii) :
  doc_ok E -> rows_ok E -> rows_ok (editorRowAppendString E n s).
Proof.
  intros Hd Hok. unfold editorRowAppendString.
  destruct (nth_error (row E) n) as [r|] eqn:Hr; [|exact Hok].
  cbv zeta. unfold rows_ok, set_dirty; cbn [row].
  now apply set_chars_rows_ok.
Qed.

Lemma editorRowDelChar_rows_ok (E : editorConfig) (n : nat) (a : Z) :
  doc_ok E -> rows_ok E -> rows_ok (editorRowDelChar E n a).
Proof.
  intros Hd Hok. unfold editorRowDelChar.
  destruct (nth_error (row E) n) as [r|] eqn:Hr; [|exact Hok].
  destruct ((a <? 0) || (a >=? size r))%bool; [exact Hok|].
  cbv zeta. unfold rows_ok, set_dirty; cbn [row].
  now apply set_chars_rows_ok.
Qed.

Lemma set_cursor_rows_ok (E : editorConfig) (x y : Z) :
  rows_ok E -> rows_ok (set_cursor E x y).
Proof. intros H; exact H. Qed.

Lemma editorInsertChar_rows_ok (E : editorConfig) (c : ascii) :
  doc_ok E -> rows_ok E -> rows_ok (editorInsertChar E c).
Proof.
  intros Hd Hok. unfold editorInsertChar. cbv zeta.
  apply set_cursor_rows_ok.
  destruct (cy E =? numrows E).
  - apply editorRowInsertChar_rows_ok;
      [now apply editorInsertRow_doc_ok | now apply editorInsertRow_rows_ok].
  - now apply editorRowInsertChar_rows_ok.
Qed.

Lemma editorInsertNewline_rows_ok (E : editorConfig) :
  doc_ok E -> rows_ok E -> rows_ok (editorInsertNewline E).
Proof.
  intros Hd Hok. unfold editorInsertNewline. cbv zeta.
  apply set_cursor_rows_ok.
  destruct (cx E =? 0); [now apply editorInsertRow_rows_ok|].
  destruct (nth_error (row E) (Z.to_nat (cy E))) as [r|]; [|exact Hok].
  set (E' := editorInsertRow E _ _).
  assert (Hd' : doc_ok E') by now apply editorInsertRow_doc_ok.
  assert (Hok' : rows_ok E') by now apply editorInsertRow_rows_ok.
  clearbody E'.
  destruct (nth_error (row E') (Z.to_nat (cy E'))) as [r'|] eqn:Hr';
    [|exact Hok'].
  now apply set_chars_rows_ok.
Qed.

Lemma editorDelChar_rows_ok (E : editorConfig) :
  doc_ok E -> rows_ok E -> rows_ok (editorDelChar E).
Proof.
  intros Hd Hok. unfold editorDelChar.
  destruct (cy E =? numrows E); [exact Hok|].
  destruct ((cx E =? 0) && (cy E =? 0))%bool; [exact Hok|].
  destruct (nth_error (row E) (Z.to_nat (cy E))) as [r|]; [|exact Hok].
  destruct (cx E >? 0).
  - cbv zeta. apply set_cursor_rows_ok.
    now apply editorRowDelChar_rows_ok.
  - destruct (nth_error (row E) (Z.to_nat (cy E - 1))) as [up|];
      [|exact Hok].
    cbv zeta. apply set_cursor_rows_ok. apply editorDelRow_rows_ok.
    apply editorRowAppendString_rows_ok.
    + now apply set_cursor_doc_ok.
    + now apply set_cursor_rows_ok.
Qed.

(** ** The render of a row and its columns *)

Lemma tab_fill_prefix (fuel : nat) :
  forall acc : list ascii,
    exists pad, tab_fill fuel acc = acc ++ pad /\
                Forall (fun c => c = SPACE) pad.
Proof.
  induction fuel as [|f IH]; intros acc; simpl.
  - exists []. now rewrite app_nil_r.
  - destruct (Z.rem _ _ =? 0).
    + exists []. now rewrite app_nil_r.
    + destruct (IH (acc ++ [SPACE])) as (pad & -> & Hp).
      exists (SPACE :: pad). rewrite <- app_assoc. split; [reflexivity|].
      constructor; auto.
Qed.

Lemma render_loop_app (a b : list ascii) :
  forall acc, render_loop (a ++ b) acc = render_loop b (render_loop a acc).
Proof.
  induction a as [|c a IH]; intros acc; simpl; [reflexivity|].
  destruct (Ascii.eqb c TAB); apply IH.
Qed.

(** The loop only appends, and what it appends holds no tab. *)
Lemma render_loop_prefix (cs : list ascii) :
  forall acc, exists out, render_loop cs acc = acc ++ out /\
                          Forall (fun c => c <> TAB) out.
Proof.
  induction cs as [|c rest IH]; intros acc; cbn [render_loop].
  - exists []. now rewrite app_nil_r.
  - destruct (Ascii.eqb_spec c TAB) as [->|Hc].
    + destruct (tab_fill_prefix (Z.to_nat KILO_TAB_STOP) (acc ++ [SPACE]))
        as (pad & -> & Hp).
      destruct (IH ((acc ++ [SPACE]) ++ pad)) as (out & -> & Ho).
      exists (SPACE :: pad ++ out). rewrite <- !app_assoc. split; [reflexivity|].
      constructor; [discriminate|]. apply Forall_app. split; [|exact Ho].
      eapply Forall_impl; [|exact Hp]. intros a ->. discriminate.
    + destruct (IH (acc ++ [c])) as (out & -> & Ho).
      exists (c :: out). rewrite <- app_assoc. split; [reflexivity|].
      constructor; auto.
Qed.

(** The length of the render is the render column the column loop of
    [editorRowCxToRx] computes. *)
Lemma render_loop_length (cs : list ascii) :
  forall acc,
    Z.of_nat (length (render_loop cs acc))
    = rx_after cs (Z.of_nat (length acc)).
Proof.
  unfold rx_after.
  induction cs as [|c rest IH]; intros acc; cbn [render_loop fold_left];
    [reflexivity|].
  unfold advance_rx at 2.
  destruct (Ascii.eqb c TAB).
  - rewrite IH. f_equal.
    rewrite tab_fill_length; rewrite length_app; simpl length;
      unfold KILO_TAB_STOP.
    + rewrite Z.rem_mod_nonneg by lia.
      Z.to_euclidean_division_equations; lia.
    + Z.to_euclidean_division_equations; lia.
  - rewrite IH. f_equal. rewrite length_app. simpl. lia.
Qed.

Lemma rx_after_bounds (cs : list ascii) :
  forall r, 0 <= r ->
            r + Z.of_nat (length cs) <= rx_after cs r
            /\ rx_after cs r <= r + KILO_TAB_STOP * Z.of_nat (length cs).
Proof.
  unfold rx_after, KILO_TAB_STOP.
  induction cs as [|c rest IH]; intros r Hr; cbn [fold_left length]; [lia|].
  assert (Hadv : r + 1 <= advance_rx c r <= r + 8).
  { unfold advance_rx, KILO_TAB_STOP. destruct (Ascii.eqb c TAB); [|lia].
    rewrite Z.rem_mod_nonneg by lia.
    Z.to_euclidean_division_equations; lia. }
  specialize (IH (advance_rx c r)). lia.
Qed.

Lemma render_loop_no_tab (cs : list ascii) :
  forall acc, Forall (fun c => c <> TAB) cs -> render_loop cs acc = acc ++ cs.
Proof.
  induction cs as [|c rest IH]; intros acc H; simpl.
  - now rewrite app_nil_r.
  - inversion H as [|? ? Hc Hrest]; subst.
    destruct (Ascii.eqb_spec c TAB) as [->|_]; [congruence|].
    rewrite IH by exact Hrest. now rewrite <- app_assoc.
Qed.

(** [editorUpdateRow]'s render: no tab is left in it, it is at least as
    long as the characters and at most [KILO_TAB_STOP] times as long, and it
    is the characters themselves when they hold no tab. *)
Theorem render_expands_tabs :
  forall cs : list ascii,
    Forall (fun c => c <> TAB) (render_of cs) /\
    (length cs <= length (render_of cs))%nat /\
    Z.of_nat (length (render_of cs)) <= KILO_TAB_STOP * Z.of_nat (length cs) /\
    (Forall (fun c => c <> TAB) cs -> render_of cs = cs).
Proof.
  intros cs. unfold render_of.
  destruct (render_loop_prefix cs []) as (out & Ho & Hno).
  pose proof (render_loop_length cs []) as Hl.
  pose proof (rx_after_bounds cs 0 (Z.le_refl 0)) as Hb.
  simpl length in Hl. change (Z.of_nat 0) with 0 in Hl.
  repeat split.
  - now rewrite Ho.
  - lia.
  - lia.
  - intros H. now rewrite render_loop_no_tab.
Qed.

(** The render column of character column [x] is the length of the render
    of the first [x] characters, and that render is the start of the row's
    render: the cursor's render column is where character [x] is drawn. *)
Theorem render_column_is_prefix_length :
  forall (r : erow) (x : Z),
    0 <= x <= size r ->
    editorRowCxToRx r x
    = Z.of_nat (length (render_of (firstn (Z.to_nat x) (chars r)))) /\
    exists rest,
      render_of (chars r)
      = render_of (firstn (Z.to_nat x) (chars r)) ++ rest.
Proof.
  intros r x Hx. unfold size in Hx. unfold editorRowCxToRx, render_of. split.
  - rewrite CxToRx_loop_prefix by (simpl; lia).
    rewrite skipn_O. now rewrite render_loop_length.
  - pose proof (render_loop_app (firstn (Z.to_nat x) (chars r))
                  (skipn (Z.to_nat x) (chars r)) []) as Ha.
    rewrite firstn_skipn in Ha.
    destruct (render_loop_prefix (skipn (Z.to_nat x) (chars r))
                (render_loop (firstn (Z.to_nat x) (chars r)) []))
      as (out & Ho & _).
    exists out. now rewrite Ha.
Qed.

Lemma render_column_is_prefix_length_witness :
  let r := mkRow 0 [TAB; "a"%char; "b"%char] [] [] false in
  editorRowCxToRx r 2
  = Z.of_nat (length (render_of (firstn (Z.to_nat 2) (chars r)))) /\
  exists rest,
    render_of (chars r) = render_of (firstn (Z.to_nat 2) (chars r)) ++ rest.
Proof.
  intros r. apply (render_column_is_prefix_length r 2).
  unfold size; simpl; lia.
Defined.

Lemma RxToCx_loop_spec (rest : list ascii) :
  forall x cur target,
    cur <= target ->
    exists k : nat,
      RxToCx_loop rest x cur target = x + Z.of_nat k /\
      (k <= length rest)%nat /\
      rx_after (firstn k rest) cur <= target /\
      ((k < length rest)%nat -> target < rx_after (firstn (S k) rest) cur).
Proof.
  unfold rx_after.
  induction rest as [|c rest IH]; intros x cur target Hc; cbn [RxToCx_loop].
  - exists O. simpl. repeat split; lia.
  - cbv zeta. destruct (Z.gtb_spec (advance_rx c cur) target) as [Hgt|Hle].
    + exists O. simpl. repeat split; lia.
    + destruct (IH (x + 1) (advance_rx c cur) target Hle)
        as (k & Hk & Hlen & Hlo & Hhi).
      exists (S k). cbn [firstn fold_left length].
      repeat split; [lia | lia | exact Hlo |].
      intros Hlt. apply Hhi. lia.
Qed.

(** [editorRowRxToCx] answers with the character whose render span holds
    the render column: its own render column is not after [rx], the next
    character's is, and past the end of the render it answers with the
    row's length. *)
Theorem render_column_falls_in_char_span :
  forall (r : erow) (rx0 : Z),
    0 <= rx0 ->
    let c := editorRowRxToCx r rx0 in
    0 <= c <= size r /\
    editorRowCxToRx r c <= rx0 /\
    (c < size r -> rx0 < editorRowCxToRx r (c + 1)).
Proof.
  intros r rx0 Hrx c. subst c. unfold editorRowRxToCx, editorRowCxToRx, size.
  destruct (RxToCx_loop_spec (chars r) 0 0 rx0 Hrx)
    as (k & -> & Hlen & Hlo & Hhi).
  rewrite Z.add_0_l. split; [lia|].
  rewrite !CxToRx_loop_prefix by (simpl; lia). rewrite skipn_O.
  rewrite Nat2Z.id. split; [exact Hlo|].
  intros Hlt.
  rewrite CxToRx_loop_prefix by (simpl; lia). rewrite skipn_O.
  replace (Z.to_nat (Z.of_nat k + 1)) with (S k) by lia.
  apply Hhi. lia.
Qed.

Lemma render_column_falls_in_char_span_witness :
  let r := mkRow 0 [TAB; "a"%char] [] [] false in
  let c := editorRowRxToCx r 5 in
  0 <= c <= size r /\
  editorRowCxToRx r c <= 5 /\
  (c < size r -> 5 < editorRowCxToRx r (c + 1)).
Proof.
  intros r. apply (render_column_falls_in_char_span r 5). lia.
Defined.

(** ** The stored highlight against a scan of the whole file *)

Lemma rescan_row_twice (s : editorSyntax) (a b : bool) (r : erow) :
  rescan_row s a (rescan_row s b r) = rescan_row s a r.
Proof. reflexivity. Qed.

(** The seed of a row only looks at the row before it. *)
Lemma seed_of_same (E E' : editorConfig) (x : erow) :
  (idx x <> O ->
   option_map hl_open_comment (nth_error (row E') (idx x - 1))
   = option_map hl_open_comment (nth_error (row E) (idx x - 1))) ->
  seed_of E' x = seed_of E x.
Proof.
  intros H. unfold seed_of. destruct (idx x) as [|p]; [reflexivity|].
  specialize (H (Nat.neq_succ_0 p)). simpl in *.
  destruct (nth_error (row E') (p - 0)), (nth_error (row E) (p - 0));
    simpl in H; congruence.
Qed.

(** When every row but row [n] is as its scan leaves it, the scan of row
    [n] with its cascade leaves every row so, provided the rows below [n]
    are all counted in [numrows]. *)
Lemma editorUpdateSyntax_scanned (k : nat) :
  forall E n s,
    (length (row E) - n <= k)%nat ->
    map idx (row E) = seq 0 (length (row E)) ->
    numrows E <= Z.of_nat (length (row E)) ->
    syntax E = Some s ->
    (forall m, (n < m < length (row E))%nat -> Z.of_nat m < numrows E) ->
    (forall m r, m <> n -> nth_error (row E) m = Some r ->
                 row_scanned s E r) ->
    forall m r, nth_error (row (editorUpdateSyntax E n)) m = Some r ->
                row_scanned s (editorUpdateSyntax E n) r.
Proof.
  induction k as [|k IH]; intros E n s Hk Hidx Hnum Hs Hcount Hsc.
  - rewrite editorUpdateSyntax_none by (apply nth_error_None; lia).
    intros m r Hm. apply (Hsc m r); [|exact Hm].
    assert ((m < length (row E))%nat) by (apply nth_error_Some; congruence).
    lia.
  - destruct (nth_error (row E) n) as [r|] eqn:Hn.
    2:{ rewrite editorUpdateSyntax_none by exact Hn.
        intros m x Hm. apply (Hsc m x); [|exact Hm]. intros ->. congruence. }
    assert (Hlt : (n < length (row E))%nat)
      by (apply nth_error_Some; congruence).
    pose proof (doc_ok_idx E n r Hidx Hn) as Hir.
    rewrite (editorUpdateSyntax_unfold E s n r Hidx Hnum Hs Hn). cbv zeta.
    set (r' := rescan_row s (seed_of E r) r).
    set (E1 := set_row E (update_nth (row E) n r')).
    assert (Hidx1 : map idx (row E1) = seq 0 (length (row E1)))
      by now apply (idx_seq_update E n r r').
    assert (Hlen1 : length (row E1) = length (row E))
      by (subst E1; simpl; apply update_nth_length).
    assert (Hn1 : nth_error (row E1) n = Some r')
      by (subst E1; simpl; now apply nth_error_update_nth_eq with (y := r)).
    assert (Hother : forall m, m <> n ->
                               nth_error (row E1) m = nth_error (row E) m).
    { intros m Hne. subst E1; simpl.
      apply nth_error_update_nth_ne. congruence. }
    (* row n itself *)
    assert (Ha : row_scanned s E1 r').
    { unfold row_scanned.
      rewrite (seed_of_same E E1 r').
      - subst r'. rewrite rescan_row_twice.
        replace (seed_of E (rescan_row s (seed_of E r) r)) with (seed_of E r)
          by reflexivity.
        reflexivity.
      - intros Hi. rewrite Hother; [reflexivity|].
        change (idx r') with (idx r) in Hi |- *. lia. }
    (* rows other than n and n + 1 *)
    assert (Hb : forall m x, m <> n -> m <> S n ->
                             nth_error (row E1) m = Some x ->
                             row_scanned s E1 x).
    { intros m x Hne HneS Hm.
      pose proof (doc_ok_idx E1 m x Hidx1 Hm) as Hix.
      unfold row_scanned. rewrite (seed_of_same E E1 x).
      - apply (Hsc m x Hne). now rewrite <- Hother.
      - intros Hi. rewrite Hother; [reflexivity | lia]. }
    destruct (negb (Bool.eqb (hl_open_comment r) (hl_open_comment r')))
      eqn:Hchg; cbn [andb].
    + destruct (Z.ltb_spec (Z.of_nat n + 1) (numrows E)) as [Hnext|Hlast].
      * apply (IH E1 (S n) s); auto.
        -- lia.
        -- subst E1; simpl. rewrite update_nth_length. exact Hnum.
        -- intros m Hm. rewrite Hlen1 in Hm.
           change (numrows E1) with (numrows E). apply Hcount. lia.
        -- intros m x Hne Hm. destruct (Nat.eq_dec m n) as [->|Hne'].
           ++ rewrite Hn1 in Hm. injection Hm as <-. exact Ha.
           ++ now apply (Hb m x).
      * intros m x Hm. destruct (Nat.eq_dec m n) as [->|Hne].
        -- rewrite Hn1 in Hm. injection Hm as <-. exact Ha.
        -- apply (Hb m x); auto. intros ->.
           assert ((S n < length (row E1))%nat)
             by (apply nth_error_Some; congruence).
           specialize (Hcount (S n)). lia.
    + intros m x Hm. destruct (Nat.eq_dec m n) as [->|Hne].
      * rewrite Hn1 in Hm. injection Hm as <-. exact Ha.
      * destruct (Nat.eq_dec m (S n)) as [->|HneS]; [|now apply (Hb m x)].
        pose proof (doc_ok_idx E1 (S n) x Hidx1 Hm) as Hix.
        unfold row_scanned. rewrite (seed_of_same E E1 x).
        -- apply (Hsc (S n) x); [lia|]. now rewrite <- Hother by lia.
        -- intros _. rewrite Hix.
           replace (S n - 1)%nat with n by lia. rewrite Hn1, Hn.
           cbn [option_map].
           apply negb_false_iff, Bool.eqb_prop in Hchg. now rewrite Hchg.
Qed.

Lemma skipn_nth_error {A : Type} (l : list A) (j : nat) (x : A) :
  nth_error l j = Some x -> skipn j l = x :: skipn (S j) l.
Proof.
  revert j; induction l as [|h t IH]; intros [|j] H; simpl in *;
    try discriminate.
  - now injection H as ->.
  - now apply IH.
Qed.

(** The seed of the row at position [j]. *)
Lemma seed_of_idx (E : editorConfig) (r r0 : erow) :
  idx r = idx r0 -> seed_of E r = seed_of E r0.
Proof. intros H. unfold seed_of. now rewrite H. Qed.

Lemma scan_all_of_scanned (E : editorConfig) (s : editorSyntax) (k : nat) :
  map idx (row E) = seq 0 (length (row E)) ->
  (forall m r, nth_error (row E) m = Some r -> row_scanned s E r) ->
  forall j, (length (row E) - j <= k)%nat ->
            scan_all s (seed_of E (mkRow j [] [] [] false)) (skipn j (row E))
            = skipn j (row E).
Proof.
  intros Hidx Hsc. induction k as [|k IH]; intros j Hj.
  - rewrite skipn_all2 by lia. reflexivity.
  - destruct (nth_error (row E) j) as [r|] eqn:Hr.
    2:{ apply nth_error_None in Hr. rewrite skipn_all2 by lia. reflexivity. }
    assert (Hlt : (j < length (row E))%nat)
      by (apply nth_error_Some; congruence).
    pose proof (doc_ok_idx E j r Hidx Hr) as Hir.
    rewrite (skipn_nth_error _ _ _ Hr). cbn [scan_all]. cbv zeta.
    rewrite (seed_of_idx E _ r) by (simpl; congruence).
    rewrite (Hsc j r Hr). f_equal.
    rewrite <- (IH (S j)) at 2 by lia. f_equal.
    unfold seed_of. cbn [idx Nat.ltb Nat.leb andb].
    replace (S j - 1)%nat with j by lia. now rewrite Hr.
Qed.

Lemma scanned_of_scan_all (E : editorConfig) (s : editorSyntax) (k : nat) :
  map idx (row E) = seq 0 (length (row E)) ->
  forall j, (length (row E) - j <= k)%nat ->
            scan_all s (seed_of E (mkRow j [] [] [] false)) (skipn j (row E))
            = skipn j (row E) ->
            forall m r, (j <= m)%nat -> nth_error (row E) m = Some r ->
                        row_scanned s E r.
Proof.
  intros Hidx. induction k as [|k IH]; intros j Hj Hfix m r Hjm Hm.
  - assert ((m < length (row E))%nat) by (apply nth_error_Some; congruence).
    lia.
  - assert (Hlt : (m < length (row E))%nat)
      by (apply nth_error_Some; congruence).
    destruct (nth_error (row E) j) as [rj|] eqn:Hr;
      [|apply nth_error_None in Hr; lia].
    pose proof (doc_ok_idx E j rj Hidx Hr) as Hir.
    rewrite (skipn_nth_error _ _ _ Hr) in Hfix. cbn [scan_all] in Hfix.
    cbv zeta in Hfix.
    rewrite (seed_of_idx E _ rj) in Hfix by (simpl; congruence).
    remember (skipn (S j) (row E)) as tl eqn:Htl.
    remember (rescan_row s (seed_of E rj) rj) as r2 eqn:Hr2.
    injection Hfix as Hhead Htail. subst r2 tl.
    destruct (Nat.eq_dec m j) as [->|Hne].
    + rewrite Hr in Hm. injection Hm as <-. exact Hhead.
    + apply (IH (S j)) with (m := m); [lia | | lia | exact Hm].
      rewrite Hhead in Htail. rewrite <- Htail at 2. f_equal.
      unfold seed_of. cbn [idx Nat.ltb Nat.leb andb].
      replace (S j - 1)%nat with j by lia. now rewrite Hr.
Qed.

(** With a descriptor active, the stored highlight is that of a scan of
    the whole file exactly when every row is as the scan seeded by the row
    before it leaves it. *)
Lemma hl_current_rows (E : editorConfig) (s : editorSyntax) :
  map idx (row E) = seq 0 (length (row E)) ->
  syntax E = Some s ->
  hl_current E <->
  (forall m r, nth_error (row E) m = Some r -> row_scanned s E r).
Proof.
  intros Hidx Hs. unfold hl_current. rewrite Hs. split.
  - intros Hfix m r Hm.
    apply (scanned_of_scan_all E s (length (row E)) Hidx O) with (m := m);
      auto; lia.
  - intros Hsc.
    apply (scan_all_of_scanned E s (length (row E)) Hidx Hsc O). lia.
Qed.

Lemma seed_of_opens (E E' : editorConfig) (x : erow) :
  map hl_open_comment (row E') = map hl_open_comment (row E) ->
  seed_of E' x = seed_of E x.
Proof.
  intros H. apply seed_of_same. intros _.
  rewrite <- !nth_error_map. now rewrite H.
Qed.

Lemma editorUpdateSyntax_idx (E : editorConfig) (n : nat) :
  map idx (row (editorUpdateSyntax E n)) = map idx (row E) /\
  length (row (editorUpdateSyntax E n)) = length (row E) /\
  syntax (editorUpdateSyntax E n) = syntax E /\
  numrows (editorUpdateSyntax E n) = numrows E.
Proof.
  destruct (erase_hl_fields E (editorUpdateSyntax E n)
              (editorUpdateSyntax_erase E n))
    as (_ & _ & H3 & _ & _ & _ & H7 & _ & _ & H10 & H11).
  auto.
Qed.

(** [editorUpdateRow] on row [n] brings the whole highlight up to date when
    the other rows already are and all rows below [n] are counted. *)
Lemma editorUpdateRow_hl_current (E : editorConfig) (n : nat) :
  map idx (row E) = seq 0 (length (row E)) ->
  numrows E <= Z.of_nat (length (row E)) ->
  (forall m, (n < m < length (row E))%nat -> Z.of_nat m < numrows E) ->
  match syntax E with
  | Some s => forall m r, m <> n -> nth_error (row E) m = Some r ->
                          row_scanned s E r
  | None => forall m r, m <> n -> nth_error (row E) m = Some r ->
                        hl r = repeat HL_NORMAL (rsize r)
  end ->
  hl_current (editorUpdateRow E n).
Proof.
  intros Hidx Hnum Hcount Hrows. unfold editorUpdateRow.
  destruct (nth_error (row E) n) as [r|] eqn:Hn.
  - set (r1 := mkRow _ _ _ _ _). set (E1 := set_row E _).
    assert (Hidx1 : map idx (row E1) = seq 0 (length (row E1)))
      by now apply (idx_seq_update E n r r1).
    assert (Hlen1 : length (row E1) = length (row E))
      by (subst E1; simpl; apply update_nth_length).
    assert (Hother : forall m, m <> n ->
                               nth_error (row E1) m = nth_error (row E) m).
    { intros m Hne. subst E1; simpl.
      apply nth_error_update_nth_ne. congruence. }
    assert (Hopen : map hl_open_comment (row E1)
                    = map hl_open_comment (row E)).
    { subst E1; simpl. now apply update_nth_map_same with (y := r). }
    destruct (editorUpdateSyntax_idx E1 n) as (Hi' & Hl' & Hs' & _).
    destruct (syntax E) as [s|] eqn:Hs.
    + apply (hl_current_rows _ s).
      * rewrite Hi', Hl'. exact Hidx1.
      * rewrite Hs'. exact Hs.
      * apply (editorUpdateSyntax_scanned (length (row E1))); auto.
        -- lia.
        -- rewrite Hlen1. exact Hnum.
        -- intros m Hm. rewrite Hlen1 in Hm. now apply Hcount.
        -- intros m x Hne Hm. unfold row_scanned.
           rewrite (seed_of_opens E E1 x Hopen).
           apply (Hrows m x Hne). now rewrite <- Hother.
    + unfold hl_current. rewrite Hs'. change (syntax E1) with (syntax E).
      rewrite Hs.
      assert (Hs1 : syntax E1 = None) by exact Hs.
      assert (Hn1 : nth_error (row E1) n = Some r1)
        by (subst E1; simpl; now apply nth_error_update_nth_eq with (y := r)).
      rewrite (editorUpdateSyntax_plain E1 n r1 Hs1 Hn1).
      apply Forall_nth_error. intros m x Hm. cbn [row set_row] in Hm.
      destruct (Nat.eq_dec n m) as [<-|Hne].
      * rewrite (nth_error_update_nth_eq _ _ _ r1 Hn1) in Hm.
        now injection Hm as <-.
      * rewrite nth_error_update_nth_ne in Hm by exact Hne.
        apply (Hrows m x); [congruence|]. rewrite <- Hother by congruence.
        exact Hm.
  - destruct (syntax E) as [s|] eqn:Hs.
    + apply (hl_current_rows E s Hidx Hs). intros m x Hm.
      apply (Hrows m x); [intros ->; congruence | exact Hm].
    + unfold hl_current. rewrite Hs.
      apply Forall_nth_error. intros m x Hm.
      apply (Hrows m x); [intros ->; congruence | exact Hm].
Qed.

Lemma hl_current_cases (E : editorConfig) :
  map idx (row E) = seq 0 (length (row E)) ->
  hl_current E ->
  match syntax E with
  | Some s => forall m r, nth_error (row E) m = Some r -> row_scanned s E r
  | None => forall m r, nth_error (row E) m = Some r ->
                        hl r = repeat HL_NORMAL (rsize r)
  end.
Proof.
  intros Hidx H. destruct (syntax E) as [s|] eqn:Hs.
  - now apply (hl_current_rows E s Hidx Hs).
  - unfold hl_current in H. rewrite Hs in H.
    intros m r Hm. revert m r Hm. now apply Forall_nth_error.
Qed.

Lemma set_chars_hl_current (E : editorConfig) (n : nat) (r : erow)
  (cs' : list ascii) :
  doc_ok E -> hl_current E -> nth_error (row E) n = Some r ->
  hl_current (editorUpdateRow
                (set_row E (update_nth (row E) n (set_chars r cs'))) n).
Proof.
  intros [Hn Hi] Hcur Hr.
  pose proof (hl_current_cases E Hi Hcur) as Hrows.
  set (E0 := set_row E _).
  assert (Hopen : map hl_open_comment (row E0)
                  = map hl_open_comment (row E)).
  { subst E0; simpl. now apply update_nth_map_same with (y := r). }
  apply editorUpdateRow_hl_current.
  - now apply (idx_seq_update E n r).
  - subst E0. cbn [row numrows set_row]. rewrite update_nth_length. lia.
  - subst E0. cbn [row numrows set_row]. rewrite update_nth_length. lia.
  - change (syntax E0) with (syntax E).
    destruct (syntax E) as [s|]; intros m x Hne Hm;
      subst E0; cbn [row set_row] in Hm;
      rewrite nth_error_update_nth_ne in Hm by congruence.
    + unfold row_scanned. rewrite (seed_of_opens E _ x Hopen).
      now apply (Hrows m x).
    + now apply (Hrows m x).
Qed.

Lemma set_dirty_hl_current (E : editorConfig) (d : Z) :
  hl_current E -> hl_current (set_dirty E d).
Proof. intros H; exact H. Qed.

Lemma set_cursor_hl_current (E : editorConfig) (x y : Z) :
  hl_current E -> hl_current (set_cursor E x y).
Proof. intros H; exact H. Qed.

Lemma editorRowInsertChar_hl_current (E : editorConfig) (n : nat) (a : Z)
  (c : ascii) :
  doc_ok E -> hl_current E -> hl_current (editorRowInsertChar E n a c).
Proof.
  intros Hd Hcur. unfold editorRowInsertChar.
  destruct (nth_error (row E) n) as [r|] eqn:Hr; [|exact Hcur].
  cbv zeta. apply set_dirty_hl_current. now apply set_chars_hl_current.
Qed.

Lemma editorRowAppendString_hl_current (E : editorConfig) (n : nat)
  (s : list ascii) :
  doc_ok E -> hl_current E -> hl_current (editorRowAppendString E n s).
Proof.
  intros Hd Hcur. unfold editorRowAppendString.
  destruct (nth_error (row E) n) as [r|] eqn:Hr; [|exact Hcur].
  cbv zeta. apply set_dirty_hl_current. now apply set_chars_hl_current.
Qed.

Lemma editorRowDelChar_hl_current (E : editorConfig) (n : nat) (a : Z) :
  doc_ok E -> hl_current E -> hl_current (editorRowDelChar E n a).
Proof.
  intros Hd Hcur. unfold editorRowDelChar.
  destruct (nth_error (row E) n) as [r|] eqn:Hr; [|exact Hcur].
  destruct ((a <? 0) || (a >=? size r))%bool; [exact Hcur|].
  cbv zeta. apply set_dirty_hl_current. now apply set_chars_hl_current.
Qed.

(** A row added after the last one only has itself to scan. *)
Lemma editorInsertRow_end_hl_current (E : editorConfig) (s : list ascii) :
  doc_ok E -> hl_current E ->
  hl_current (editorInsertRow E (numrows E) s).
Proof.
  intros [Hn Hi] Hcur. unfold editorInsertRow.
  pose proof (hl_current_cases E Hi Hcur) as Hrows.
  replace ((numrows E <? 0) || (numrows E >? numrows E))%bool with false
    by (symmetry; apply orb_false_iff; split; lia).
  set (n := Z.to_nat (numrows E)).
  assert (Hnl : n = length (row E)) by lia.
  set (fresh := mkRow n s [] [] false).
  destruct (insert_rows_idx (row E) n fresh Hi (Nat.eq_le_incl _ _ Hnl)
              eq_refl) as [Hlen Hidx].
  cbv zeta in Hlen, Hidx. cbv zeta.
  set (rows := firstn n (row E) ++ fresh :: map bump_idx (skipn n (row E)))
    in *.
  assert (Hrows' : rows = row E ++ [fresh]).
  { subst rows. rewrite Hnl, firstn_all, skipn_all. reflexivity. }
  apply set_dirty_hl_current.
  unfold set_numrows, hl_current; cbn [row syntax].
  apply editorUpdateRow_hl_current.
  - exact Hidx.
  - cbn [row numrows set_row]. lia.
  - cbn [row numrows set_row]. lia.
  - cbn [syntax row set_row].
    assert (Hbelow : forall m x, m <> n -> nth_error rows m = Some x ->
                                 nth_error (row E) m = Some x).
    { intros m x Hne Hm. rewrite Hrows' in Hm.
      assert (Hlt : (m < length (row E ++ [fresh]))%nat)
        by (apply nth_error_Some; congruence).
      rewrite length_app in Hlt. simpl in Hlt.
      rewrite nth_error_app1 in Hm by lia. exact Hm. }
    destruct (syntax E) as [sy|]; intros m x Hne Hm.
    + pose proof (Hbelow m x Hne Hm) as Hm'.
      pose proof (doc_ok_idx E m x Hi Hm') as Hix.
      assert (Hlt : (m < length (row E))%nat)
        by (apply nth_error_Some; congruence).
      unfold row_scanned. rewrite (seed_of_same E (set_row E rows) x).
      * now apply (Hrows m x).
      * intros _. cbn [row set_row]. rewrite Hrows'.
        rewrite nth_error_app1 by lia. reflexivity.
    + apply (Hrows m x). now apply Hbelow.
Qed.

(** Typing a character keeps the stored highlight that of a scan of the
    whole file. *)
Lemma editorInsertChar_hl_current (E : editorConfig) (c : ascii) :
  doc_ok E -> hl_current E -> hl_current (editorInsertChar E c).
Proof.
  intros Hd Hcur. unfold editorInsertChar. cbv zeta.
  apply set_cursor_hl_current.
  destruct (cy E =? numrows E).
  - apply editorRowInsertChar_hl_current;
      [now apply editorInsertRow_doc_ok
      | now apply editorInsertRow_end_hl_current].
  - now apply editorRowInsertChar_hl_current.
Qed.

Lemma nth_error_firstn_eq {A : Type} (l l' : list A) (j m : nat) :
  firstn j l' = firstn j l -> (m < j)%nat ->
  nth_error l' m = nth_error l m.
Proof.
  intros H Hm.
  pose proof (nth_error_firstn j l' m) as A1.
  pose proof (nth_error_firstn j l m) as A2.
  destruct (Nat.ltb_spec m j); [|lia]. rewrite <- A1, <- A2. now rewrite H.
Qed.

(** The loop of [editorSelectSyntaxHighlight] scans the rows from the top,
    so each one is scanned after the row before it. *)
Lemma update_all_syntax_scanned (k : nat) :
  forall j E s,
    map idx (row E) = seq 0 (length (row E)) ->
    numrows E = Z.of_nat (length (row E)) ->
    syntax E = Some s ->
    (j + k = length (row E))%nat ->
    (forall m r, (m < j)%nat -> nth_error (row E) m = Some r ->
                 row_scanned s E r) ->
    forall m r, nth_error (row (update_all_syntax k j E)) m = Some r ->
                row_scanned s (update_all_syntax k j E) r.
Proof.
  induction k as [|k IH]; intros j E s Hidx Hnum Hs Hjk Hsc; cbn [update_all_syntax].
  - intros m r Hm. apply (Hsc m r); [|exact Hm].
    assert ((m < length (row E))%nat) by (apply nth_error_Some; congruence).
    lia.
  - destruct (editorUpdateSyntax_idx E j) as (Hi' & Hl' & Hs' & Hn').
    pose proof (editorUpdateSyntax_prefix E j Hidx) as Hpre.
    set (E' := editorUpdateSyntax E j) in *.
    assert (Hidx' : map idx (row E') = seq 0 (length (row E')))
      by (rewrite Hi', Hl'; exact Hidx).
    destruct (nth_error (row E) j) as [rj|] eqn:Hrj;
      [|apply nth_error_None in Hrj; lia].
    pose proof (editorUpdateSyntax_row_result E s j rj Hidx
                  (Z.eq_le_incl _ _ Hnum) Hs Hrj) as Hres.
    fold E' in Hres.
    assert (Hseed : forall x, (idx x <= j)%nat ->
                              seed_of E' x = seed_of E x).
    { intros x Hx. apply seed_of_same. intros Hi0.
      rewrite (nth_error_firstn_eq (row E) (row E') j) by (auto; lia).
      reflexivity. }
    apply IH; auto.
    + rewrite Hn', Hl'. exact Hnum.
    + rewrite Hs'. exact Hs.
    + lia.
    + intros m x Hm Hx.
      pose proof (doc_ok_idx E' m x Hidx' Hx) as Hix.
      unfold row_scanned. rewrite Hseed by lia.
      destruct (Nat.eq_dec m j) as [->|Hne].
      * rewrite Hres in Hx. injection Hx as <-.
        rewrite rescan_row_twice.
        replace (seed_of E (rescan_row s (seed_of E rj) rj))
          with (seed_of E rj) by reflexivity.
        reflexivity.
      * apply (Hsc m x); [lia|].
        rewrite <- (nth_error_firstn_eq (row E) (row E') j) by (auto; lia).
        exact Hx.
Qed.

Lemma editorUpdateSyntax_keeps_rows_ok (E : editorConfig) (n : nat) :
  map idx (row E) = seq 0 (length (row E)) ->
  numrows E <= Z.of_nat (length (row E)) ->
  rows_ok E -> rows_ok (editorUpdateSyntax E n).
Proof.
  intros Hidx Hnum Hok.
  apply (editorUpdateSyntax_rows_ok (length (row E))); auto; try lia.
  - intros m r Hm. apply (rows_ok_nth E m r Hok Hm).
  - intros m r _ Hm. apply (rows_ok_nth E m r Hok Hm).
Qed.

Lemma update_all_syntax_rows_ok (k : nat) :
  forall j E,
    map idx (row E) = seq 0 (length (row E)) ->
    numrows E <= Z.of_nat (length (row E)) ->
    rows_ok E -> rows_ok (update_all_syntax k j E).
Proof.
  induction k as [|k IH]; intros j E Hidx Hnum Hok; cbn [update_all_syntax];
    [exact Hok|].
  destruct (editorUpdateSyntax_idx E j) as (Hi' & Hl' & _ & Hn').
  apply IH.
  - rewrite Hi', Hl'. exact Hidx.
  - rewrite Hn', Hl'. exact Hnum.
  - now apply editorUpdateSyntax_keeps_rows_ok.
Qed.

Lemma update_all_syntax_idx (k : nat) :
  forall j E,
    map idx (row (update_all_syntax k j E)) = map idx (row E) /\
    length (row (update_all_syntax k j E)) = length (row E) /\
    syntax (update_all_syntax k j E) = syntax E /\
    numrows (update_all_syntax k j E) = numrows E.
Proof.
  intros j E.
  destruct (erase_hl_fields _ _ (update_all_syntax_erase k j E))
    as (_ & _ & H3 & _ & _ & _ & H7 & _ & _ & H10 & H11).
  auto.
Qed.

(** Choosing the descriptor leaves the rows in order and, on rows that
    carried no highlight, the highlight of a scan of the whole file. *)
Lemma editorSelectSyntaxHighlight_current (E : editorConfig) :
  doc_ok E -> rows_ok E ->
  Forall (fun r => hl r = repeat HL_NORMAL (rsize r)) (row E) ->
  let E' := editorSelectSyntaxHighlight E in
  doc_ok E' /\ rows_ok E' /\ hl_current E'.
Proof.
  intros [Hn Hi] Hok Hplain. unfold editorSelectSyntaxHighlight. cbv zeta.
  change (filename (set_syntax E None)) with (filename E).
  destruct (filename E) as [fname|];
    [|split; [split; assumption|split; assumption]].
  destruct (find_syntax HLDB fname) as [s|];
    [|split; [split; assumption|split; assumption]].
  set (E0 := set_syntax (set_syntax E None) (Some s)).
  change (numrows (set_syntax E None)) with (numrows E0).
  assert (Hi0 : map idx (row E0) = seq 0 (length (row E0))) by exact Hi.
  assert (Hn0 : numrows E0 = Z.of_nat (length (row E0))) by exact Hn.
  destruct (update_all_syntax_idx (Z.to_nat (numrows E0)) O E0)
    as (Hi' & Hl' & Hs' & Hn').
  split; [split; [now rewrite Hn', Hl' | now rewrite Hi', Hl']|].
  split.
  - apply update_all_syntax_rows_ok; auto. lia.
  - apply (hl_current_rows _ s).
    + now rewrite Hi', Hl'.
    + now rewrite Hs'.
    + apply update_all_syntax_scanned; auto.
      * lia.
      * intros m r Hm. lia.
Qed.

Lemma insert_rows_keep_current (lines : list (list ascii)) :
  forall E : editorConfig,
    doc_ok E -> rows_ok E -> hl_current E ->
    let E' := fold_left
                (fun E0 line => editorInsertRow E0 (numrows E0) (strip_eol line))
                lines E in
    doc_ok E' /\ rows_ok E' /\ hl_current E'.
Proof.
  induction lines as [|line rest IH]; intros E Hd Hok Hcur; simpl; [auto|].
  apply IH.
  - now apply editorInsertRow_doc_ok.
  - now apply editorInsertRow_rows_ok.
  - now apply editorInsertRow_end_hl_current.
Qed.

(** The three editing commands keep the row array in order: [numrows]
    counts the rows, every row carries its position, its render is the tab
    expansion of its characters and its highlight has one class per render
    byte. *)
Theorem edits_keep_rows_in_order :
  forall (E : editorConfig) (c : ascii),
    doc_ok E -> rows_ok E ->
    (doc_ok (editorInsertChar E c) /\ rows_ok (editorInsertChar E c)) /\
    (doc_ok (editorInsertNewline E) /\ rows_ok (editorInsertNewline E)) /\
    (doc_ok (editorDelChar E) /\ rows_ok (editorDelChar E)).
Proof.
  intros E c Hd Hok. repeat split.
  - apply (editorInsertChar_doc_ok E c Hd).
  - apply (editorInsertChar_doc_ok E c Hd).
  - now apply editorInsertChar_rows_ok.
  - apply (editorInsertNewline_doc_ok E Hd).
  - apply (editorInsertNewline_doc_ok E Hd).
  - now apply editorInsertNewline_rows_ok.
  - apply (editorDelChar_doc_ok E Hd).
  - apply (editorDelChar_doc_ok E Hd).
  - now apply editorDelChar_rows_ok.
Qed.

Lemma edits_keep_rows_in_order_witness :
  let E := initEditor 24 80 in
  (doc_ok (editorInsertChar E "a"%char)
   /\ rows_ok (editorInsertChar E "a"%char)) /\
  (doc_ok (editorInsertNewline E) /\ rows_ok (editorInsertNewline E)) /\
  (doc_ok (editorDelChar E) /\ rows_ok (editorDelChar E)).
Proof.
  intros E. apply (edits_keep_rows_in_order E "a"%char).
  - split; reflexivity.
  - constructor.
Defined.

(** The cascade of [editorUpdateSyntax] does its work: when every row but
    row [n] is as a scan seeded by the row before it leaves it, the call on
    row [n] makes the stored highlight that of a scan of the whole file. *)
Theorem cascade_brings_highlight_up_to_date :
  forall (E : editorConfig) (s : editorSyntax) (n : nat),
    doc_ok E -> syntax E = Some s ->
    (forall m r, m <> n -> nth_error (row E) m = Some r ->
                 rescan_row s (seed_of E r) r = r) ->
    scan_all s false (row (editorUpdateSyntax E n))
    = row (editorUpdateSyntax E n).
Proof.
  intros E s n [Hn Hi] Hs Hsc.
  destruct (editorUpdateSyntax_idx E n) as (Hi' & Hl' & Hs' & _).
  assert (H : hl_current (editorUpdateSyntax E n)).
  { apply (hl_current_rows _ s).
    - now rewrite Hi', Hl'.
    - now rewrite Hs'.
    - apply (editorUpdateSyntax_scanned (length (row E))); auto; lia. }
  unfold hl_current in H. now rewrite Hs', Hs in H.
Qed.

Lemma cascade_brings_highlight_up_to_date_witness :
  let r0 := mkRow 0 (cs "/*") (cs "/*") [] false in
  let r1 := mkRow 1 (cs "int") (cs "int")
              [HL_KEYWORD2; HL_KEYWORD2; HL_KEYWORD2] false in
  let E := mkConfig 0 0 0 0 0 24 80 2 [r0; r1] 0 None [] (Some C_syntax) in
  scan_all C_syntax false (row (editorUpdateSyntax E 0))
  = row (editorUpdateSyntax E 0).
Proof.
  intros r0 r1 E.
  apply (cascade_brings_highlight_up_to_date E C_syntax 0).
  - split; reflexivity.
  - reflexivity.
  - intros [|[|m]] r Hne Hm; [congruence | | destruct m; discriminate].
    injection Hm as <-. vm_compute. reflexivity.
Defined.

(** Edits inside one row keep the stored highlight that of a scan of the
    whole file: typing a character, and inserting, deleting or appending
    characters in a row. *)
Theorem single_row_edits_keep_highlight_current :
  forall (E : editorConfig),
    doc_ok E -> hl_current E ->
    (forall c, hl_current (editorInsertChar E c)) /\
    (forall n a c, hl_current (editorRowInsertChar E n a c)) /\
    (forall n a, hl_current (editorRowDelChar E n a)) /\
    (forall n s, hl_current (editorRowAppendString E n s)).
Proof.
  intros E Hd Hcur. repeat split; intros.
  - now apply editorInsertChar_hl_current.
  - now apply editorRowInsertChar_hl_current.
  - now apply editorRowDelChar_hl_current.
  - now apply editorRowAppendString_hl_current.
Qed.

Lemma single_row_edits_keep_highlight_current_witness :
  let r0 := mkRow 0 (cs "int") (cs "int")
              [HL_KEYWORD2; HL_KEYWORD2; HL_KEYWORD2] false in
  let E := mkConfig 0 0 0 0 0 24 80 1 [r0] 0 None [] (Some C_syntax) in
  (forall c, hl_current (editorInsertChar E c)) /\
  (forall n a c, hl_current (editorRowInsertChar E n a c)) /\
  (forall n a, hl_current (editorRowDelChar E n a)) /\
  (forall n s, hl_current (editorRowAppendString E n s)).
Proof.
  intros r0 E. apply (single_row_edits_keep_highlight_current E).
  - split; reflexivity.
  - vm_compute. reflexivity.
Defined.

(** When the file name selects a descriptor, [editorSelectSyntaxHighlight]
    leaves the highlight of a scan of the whole file, whatever the rows
    carried before. *)
Theorem select_syntax_rescans_whole_file :
  forall (E : editorConfig) (fname : list ascii) (s : editorSyntax),
    doc_ok E ->
    filename E = Some fname -> find_syntax HLDB fname = Some s ->
    let E' := editorSelectSyntaxHighlight E in
    syntax E' = Some s /\ scan_all s false (row E') = row E'.
Proof.
  intros E fname s [Hn Hi] Hf Hfind. unfold editorSelectSyntaxHighlight.
  cbv zeta. change (filename (set_syntax E None)) with (filename E).
  rewrite Hf, Hfind.
  set (E0 := set_syntax (set_syntax E None) (Some s)).
  change (numrows (set_syntax E None)) with (numrows E0).
  assert (Hi0 : map idx (row E0) = seq 0 (length (row E0))) by exact Hi.
  assert (Hn0 : numrows E0 = Z.of_nat (length (row E0))) by exact Hn.
  destruct (update_all_syntax_idx (Z.to_nat (numrows E0)) O E0)
    as (Hi' & Hl' & Hs' & Hn').
  split; [exact Hs'|].
  assert (H : hl_current (update_all_syntax (Z.to_nat (numrows E0)) O E0)).
  { apply (hl_current_rows _ s).
    - now rewrite Hi', Hl'.
    - now rewrite Hs'.
    - apply update_all_syntax_scanned; auto.
      + lia.
      + intros m r Hm. lia. }
  unfold hl_current in H. now rewrite Hs' in H.
Qed.

Lemma select_syntax_rescans_whole_file_witness :
  let r0 := mkRow 0 (cs "int") (cs "int") [] false in
  let E := mkConfig 0 0 0 0 0 24 80 1 [r0] 0 (Some (cs "a.c")) [] None in
  let E' := editorSelectSyntaxHighlight E in
  syntax E' = Some C_syntax /\ scan_all C_syntax false (row E') = row E'.
Proof.
  intros r0 E.
  apply (select_syntax_rescans_whole_file E (cs "a.c") C_syntax).
  - split; reflexivity.
  - reflexivity.
  - vm_compute. reflexivity.
Defined.

(** Loading a file into a state whose rows are in order and carry no
    highlight gives a state whose rows are in order and whose highlight is
    that of a scan of the whole file. *)
Theorem open_leaves_rows_in_order_and_highlighted :
  forall (E : editorConfig) (fname bytes : list ascii),
    doc_ok E -> rows_ok E ->
    Forall (fun r => hl r = repeat HL_NORMAL (rsize r)) (row E) ->
    exists E',
      editorOpen E fname (Some bytes) = Some E' /\
      doc_ok E' /\ rows_ok E' /\ hl_current E'.
Proof.
  intros E fname bytes Hd Hok Hplain. unfold editorOpen.
  eexists. split; [reflexivity|].
  set (E0 := set_filename E (Some (c_str fname))).
  destruct (editorSelectSyntaxHighlight_current E0 Hd Hok Hplain)
    as (Hd1 & Hok1 & Hcur1).
  cbv zeta in Hd1, Hok1, Hcur1.
  destruct (insert_rows_keep_current (getlines bytes [])
              (editorSelectSyntaxHighlight E0) Hd1 Hok1 Hcur1)
    as (Hd2 & Hok2 & Hcur2).
  cbv zeta in Hd2, Hok2, Hcur2. auto.
Qed.

Lemma open_leaves_rows_in_order_and_highlighted_witness :
  exists E',
    editorOpen (initEditor 24 80) (cs "a.c") (Some (cs "int x;")) = Some E' /\
    doc_ok E' /\ rows_ok E' /\ hl_current E'.
Proof.
  apply (open_leaves_rows_in_order_and_highlighted (initEditor 24 80)
           (cs "a.c") (cs "int x;")).
  - split; reflexivity.
  - constructor.
  - constructor.
Defined.

(** ** The cursor and the window *)

Lemma current_row_some (E : editorConfig) :
  numrows E = Z.of_nat (length (row E)) ->
  0 <= cy E < numrows E ->
  exists r, current_row E = Some r /\
            nth_error (row E) (Z.to_nat (cy E)) = Some r.
Proof.
  intros Hn Hcy. unfold current_row.
  destruct (Z.geb_spec (cy E) (numrows E)); [lia|].
  destruct (nth_error (row E) (Z.to_nat (cy E))) as [r|] eqn:Hr; [eauto|].
  apply nth_error_None in Hr. lia.
Qed.

Lemma current_row_none (E : editorConfig) :
  numrows E <= cy E -> current_row E = None.
Proof.
  intros H. unfold current_row.
  destruct (Z.geb_spec (cy E) (numrows E)); [reflexivity | lia].
Qed.

Lemma current_row_set_cursor (E : editorConfig) (x y : Z) :
  current_row (set_cursor E x y)
  = if y >=? numrows E then None else nth_error (row E) (Z.to_nat y).
Proof. reflexivity. Qed.

(** The last statement of [editorMoveCursor] brings any column back into
    the row. *)
Lemma clamp_cursor_ok (E : editorConfig) :
  0 <= cy E <= numrows E -> 0 <= cx E ->
  let rowlen := match current_row E with
                | Some r => size r
                | None => 0
                end in
  cursor_ok (if cx E >? rowlen then set_cursor E rowlen (cy E) else E).
Proof.
  intros Hcy Hcx rowlen.
  assert (Hlen : 0 <= rowlen).
  { subst rowlen. destruct (current_row E); unfold size; lia. }
  destruct (Z.gtb_spec (cx E) rowlen) as [Hgt|Hle].
  - split; [exact Hcy|]. unfold cursor_ok.
    replace (current_row (set_cursor E rowlen (cy E))) with (current_row E)
      by reflexivity.
    fold rowlen. simpl. lia.
  - split; [exact Hcy|]. fold rowlen. lia.
Qed.

Lemma editorMoveCursor_ok (E : editorConfig) (key : Z) :
  0 <= cy E <= numrows E -> 0 <= cx E ->
  let E' := editorMoveCursor E key in
  cursor_ok E' /\
  row E' = row E /\ numrows E' = numrows E /\ dirty E' = dirty E /\
  rowoff E' = rowoff E /\ coloff E' = coloff E /\
  screenrows E' = screenrows E /\ screencols E' = screencols E /\
  filename E' = filename E /\ syntax E' = syntax E.
Proof.
  intros Hcy Hcx. unfold editorMoveCursor.
  set (E1 := if key =? ARROW_LEFT then _ else _).
  assert (H1 : (0 <= cy E1 <= numrows E1 /\ 0 <= cx E1) /\
               row E1 = row E /\ numrows E1 = numrows E /\
               dirty E1 = dirty E /\
               rowoff E1 = rowoff E /\ coloff E1 = coloff E /\
               screenrows E1 = screenrows E /\ screencols E1 = screencols E /\
               filename E1 = filename E /\ syntax E1 = syntax E).
  { subst E1.
    destruct (key =? ARROW_LEFT).
    { destruct (Z.eqb_spec (cx E) 0); cbn [negb].
      - destruct (Z.gtb_spec (cy E) 0); [|auto 15].
        cbn [cx cy numrows row dirty rowoff coloff screenrows screencols
             filename syntax set_cursor].
        repeat split; try lia.
        destruct (nth_error _ _); unfold size; lia.
      - cbn [cx cy numrows row dirty rowoff coloff screenrows screencols
             filename syntax set_cursor].
        repeat split; lia. }
    destruct (key =? ARROW_RIGHT).
    { unfold current_row.
      destruct (Z.geb_spec (cy E) (numrows E)); [auto 15|].
      destruct (nth_error _ _) as [r|]; [|auto 15].
      destruct (Z.ltb_spec (cx E) (size r)).
      - cbn [cx cy numrows row dirty rowoff coloff screenrows screencols
             filename syntax set_cursor].
        repeat split; lia.
      - destruct (Z.eqb_spec (cx E) (size r)); [|auto 15].
        cbn [cx cy numrows row dirty rowoff coloff screenrows screencols
             filename syntax set_cursor].
        repeat split; lia. }
    destruct (key =? ARROW_UP).
    { destruct (Z.eqb_spec (cy E) 0); cbn [negb]; [auto 15|].
      cbn [cx cy numrows row dirty rowoff coloff screenrows screencols
             filename syntax set_cursor].
      repeat split; lia. }
    destruct (key =? ARROW_DOWN); [|auto 15].
    destruct (Z.ltb_spec (cy E) (numrows E)); [|auto 15].
    cbn [cx cy numrows row dirty rowoff coloff screenrows screencols
             filename syntax set_cursor].
    repeat split; lia. }
  clearbody E1.
  destruct H1 as ((Hcy1 & Hcx1) & Hr & Hn & Hd & Hro & Hco & A & B & C & D).
  cbv zeta. split; [now apply clamp_cursor_ok|].
  destruct (cx E1 >? _);
    cbn [row numrows dirty rowoff coloff screenrows screencols filename
           syntax set_cursor];
    auto 15.
Qed.

(** Wherever the cursor was on or below the first row and at or after
    column 0, [editorMoveCursor] leaves it on a row of the file or on the
    line after the last one, and inside that row; it changes nothing but the
    cursor. *)
Theorem move_cursor_stays_in_document :
  forall (E : editorConfig) (key : Z),
    0 <= cy E <= numrows E -> 0 <= cx E ->
    let E' := editorMoveCursor E key in
    cursor_ok E' /\
    row E' = row E /\ numrows E' = numrows E /\ dirty E' = dirty E /\
    rowoff E' = rowoff E /\ coloff E' = coloff E.
Proof.
  intros E key Hcy Hcx.
  destruct (editorMoveCursor_ok E key Hcy Hcx)
    as (H1 & H2 & H3 & H4 & H5 & H6 & _).
  cbv zeta. auto 10.
Qed.

Lemma move_cursor_stays_in_document_witness :
  let r0 := mkRow 0 (cs "ab") (cs "ab") [HL_NORMAL; HL_NORMAL] false in
  let E := mkConfig 7 0 0 0 0 24 80 1 [r0] 0 None [] None in
  let E' := editorMoveCursor E ARROW_DOWN in
  cursor_ok E' /\
  row E' = row E /\ numrows E' = numrows E /\ dirty E' = dirty E /\
  rowoff E' = rowoff E /\ coloff E' = coloff E.
Proof.
  intros r0 E. apply (move_cursor_stays_in_document E ARROW_DOWN).
  - simpl; lia.
  - simpl; lia.
Defined.

Lemma move_right_spec (E : editorConfig) (r : erow) :
  current_row E = Some r -> 0 <= cx E <= size r ->
  editorMoveCursor E ARROW_RIGHT
  = if cx E <? size r then set_cursor E (cx E + 1) (cy E)
    else set_cursor E 0 (cy E + 1).
Proof.
  intros Hr Hcx. unfold editorMoveCursor.
  change (ARROW_RIGHT =? ARROW_LEFT) with false.
  change (ARROW_RIGHT =? ARROW_RIGHT) with true. cbv iota.
  rewrite Hr.
  destruct (Z.ltb_spec (cx E) (size r)) as [Hlt|Hge].
  - cbv zeta. replace (current_row (set_cursor E (cx E + 1) (cy E)))
      with (current_row E) by reflexivity.
    rewrite Hr. cbn [cx set_cursor].
    destruct (Z.gtb_spec (cx E + 1) (size r)); [lia | reflexivity].
  - destruct (Z.eqb_spec (cx E) (size r)); [|lia].
    cbv zeta. cbn [cx cy set_cursor].
    destruct (current_row (set_cursor E 0 (cy E + 1))) as [r'|].
    + destruct (Z.gtb_spec 0 (size r')); [unfold size in *; lia|reflexivity].
    + reflexivity.
Qed.

Lemma move_left_spec (E : editorConfig) :
  numrows E = Z.of_nat (length (row E)) -> cursor_ok E ->
  editorMoveCursor E ARROW_LEFT
  = if cx E =? 0
    then match nth_error (row E) (Z.to_nat (cy E - 1)) with
         | Some p => if cy E >? 0 then set_cursor E (size p) (cy E - 1) else E
         | None => E
         end
    else set_cursor E (cx E - 1) (cy E).
Proof.
  intros Hn [Hcy Hcx]. unfold editorMoveCursor.
  change (ARROW_LEFT =? ARROW_LEFT) with true. cbv iota.
  destruct (Z.eqb_spec (cx E) 0) as [H0|H0]; cbn [negb].
  - destruct (Z.gtb_spec (cy E) 0) as [Hpos|Hz].
    + destruct (nth_error (row E) (Z.to_nat (cy E - 1))) as [p|] eqn:Hp;
        [|apply nth_error_None in Hp; lia].
      cbv zeta. rewrite current_row_set_cursor.
      destruct (Z.geb_spec (cy E - 1) (numrows E)); [lia|]. rewrite Hp.
      cbn [cx cy set_cursor].
      destruct (Z.gtb_spec (size p) (size p)); [lia | reflexivity].
    + cbv zeta.
      assert (Hres : forall X : editorConfig,
                 (if cx E >? match current_row E with
                             | Some r => size r
                             | None => 0
                             end
                  then set_cursor E match current_row E with
                                    | Some r => size r
                                    | None => 0
                                    end (cy E)
                  else E) = X -> X = E).
      { intros X <-. destruct (Z.gtb_spec (cx E)
                                 match current_row E with
                                 | Some r => size r
                                 | None => 0
                                 end); [lia | reflexivity]. }
      rewrite (Hres _ eq_refl). now destruct (nth_error _ _).
  - cbv zeta. replace (current_row (set_cursor E (cx E - 1) (cy E)))
      with (current_row E) by reflexivity.
    cbn [cx cy set_cursor].
    destruct (Z.gtb_spec (cx E - 1)
                match current_row E with
                | Some r => size r
                | None => 0
                end); [lia | reflexivity].
Qed.

(** The two horizontal moves undo each other: left after right from any
    place on a row, right after left from any place but the start of the
    file.  At the end of a row "right" goes to the start of the next, and at
    the start of a row "left" goes to the end of the one before. *)
Theorem left_and_right_undo_each_other :
  forall E : editorConfig,
    numrows E = Z.of_nat (length (row E)) -> cursor_ok E ->
    (cy E < numrows E ->
     let E' := editorMoveCursor (editorMoveCursor E ARROW_RIGHT) ARROW_LEFT in
     cx E' = cx E /\ cy E' = cy E) /\
    (~ (cx E = 0 /\ cy E = 0) ->
     let E' := editorMoveCursor (editorMoveCursor E ARROW_LEFT) ARROW_RIGHT in
     cx E' = cx E /\ cy E' = cy E).
Proof.
  intros E Hn Hok. pose proof Hok as [Hcy Hcx]. split.
  - intros Hrow.
    destruct (current_row_some E Hn) as (r & Hr & Hnth); [lia|].
    rewrite Hr in Hcx.
    rewrite (move_right_spec E r Hr Hcx).
    destruct (Z.ltb_spec (cx E) (size r)) as [Hlt|Hge].
    + rewrite move_left_spec.
      * cbn [cx cy set_cursor row].
        destruct (Z.eqb_spec (cx E + 1) 0); [lia|].
        cbn [cx cy set_cursor]. split; lia.
      * exact Hn.
      * split; [exact Hcy|]. change (current_row (set_cursor E (cx E + 1) (cy E)))
          with (current_row E). rewrite Hr. cbn [cx set_cursor]. lia.
    + rewrite move_left_spec.
      * cbn [cx cy set_cursor row]. change (0 =? 0) with true. cbv iota.
        replace (cy E + 1 - 1) with (cy E) by lia. rewrite Hnth.
        destruct (Z.gtb_spec (cy E + 1) 0); [|lia].
        cbn [cx cy set_cursor]. split; lia.
      * exact Hn.
      * split; cbn [cx cy set_cursor numrows]; [lia|].
        rewrite current_row_set_cursor.
        destruct (Z.geb_spec (cy E + 1) (numrows E)); [lia|].
        destruct (nth_error (row E) (Z.to_nat (cy E + 1))) as [r2|];
          [unfold size; lia | lia].
  - intros Hnot0. rewrite (move_left_spec E Hn Hok).
    destruct (Z.eqb_spec (cx E) 0) as [H0|H0].
    + assert (Hpos : 0 < cy E) by lia.
      destruct (nth_error (row E) (Z.to_nat (cy E - 1))) as [p|] eqn:Hp;
        [|apply nth_error_None in Hp; lia].
      destruct (Z.gtb_spec (cy E) 0); [|lia].
      assert (Hcur : current_row (set_cursor E (size p) (cy E - 1)) = Some p).
      { rewrite current_row_set_cursor.
        destruct (Z.geb_spec (cy E - 1) (numrows E)); [lia | exact Hp]. }
      rewrite (move_right_spec _ p Hcur)
        by (cbn [cx set_cursor]; unfold size; lia).
      cbn [cx cy set_cursor].
      destruct (Z.ltb_spec (size p) (size p)); [lia|].
      cbn [cx cy set_cursor]. split; lia.
    + assert (Hrow : cy E < numrows E).
      { destruct (Z.lt_ge_cases (cy E) (numrows E)) as [|Hge]; [assumption|].
        rewrite current_row_none in Hcx by lia. lia. }
      destruct (current_row_some E Hn) as (r & Hr & Hnth); [lia|].
      rewrite Hr in Hcx.
      assert (Hcur : current_row (set_cursor E (cx E - 1) (cy E)) = Some r)
        by exact Hr.
      rewrite (move_right_spec _ r Hcur) by (cbn [cx set_cursor]; lia).
      cbn [cx cy set_cursor].
      destruct (Z.ltb_spec (cx E - 1) (size r)); [|lia].
      cbn [cx cy set_cursor]. split; lia.
Qed.

Lemma left_and_right_undo_each_other_witness :
  let r0 := mkRow 0 (cs "ab") (cs "ab") [HL_NORMAL; HL_NORMAL] false in
  let r1 := mkRow 1 (cs "c") (cs "c") [HL_NORMAL] false in
  let E := mkConfig 2 0 0 0 0 24 80 2 [r0; r1] 0 None [] None in
  (cy E < numrows E ->
   let E' := editorMoveCursor (editorMoveCursor E ARROW_RIGHT) ARROW_LEFT in
   cx E' = cx E /\ cy E' = cy E) /\
  (~ (cx E = 0 /\ cy E = 0) ->
   let E' := editorMoveCursor (editorMoveCursor E ARROW_LEFT) ARROW_RIGHT in
   cx E' = cx E /\ cy E' = cy E).
Proof.
  intros r0 r1 E. apply (left_and_right_undo_each_other E).
  - reflexivity.
  - split; vm_compute; split; discriminate.
Defined.

Ltac scroll_cases :=
  repeat match goal with
         | |- context [?a <? ?b] => destruct (Z.ltb_spec a b)
         | |- context [?a >=? ?b] => destruct (Z.geb_spec a b)
         end.

(** With a window of at least one line and one column, [editorScroll]
    leaves the cursor's row and render column inside the window; it moves
    neither offset when the cursor already was inside, touches nothing but
    [rx] and the offsets, and a second call changes nothing. *)
Theorem scroll_brings_cursor_into_window :
  forall E : editorConfig,
    0 < screenrows E -> 0 < screencols E ->
    let E' := editorScroll E in
    (rowoff E' <= cy E' < rowoff E' + screenrows E' /\
     coloff E' <= rx E' < coloff E' + screencols E') /\
    (rowoff E <= cy E < rowoff E + screenrows E -> rowoff E' = rowoff E) /\
    (coloff E <= rx E' < coloff E + screencols E -> coloff E' = coloff E) /\
    (0 <= rowoff E -> 0 <= cy E -> 0 <= rowoff E') /\
    (cx E' = cx E /\ cy E' = cy E /\ row E' = row E /\
     numrows E' = numrows E /\ dirty E' = dirty E) /\
    editorScroll E' = E'.
Proof.
  intros E Hr Hc. unfold editorScroll.
  set (rx1 := if cy E <? numrows E then _ else 0).
  cbv zeta. cbn [cx cy rx rowoff coloff screenrows screencols numrows row
                 dirty filename statusmsg syntax].
  fold rx1. clearbody rx1.
  repeat split; try (scroll_cases; lia).
  scroll_cases; f_equal; lia.
Qed.

Lemma scroll_brings_cursor_into_window_witness :
  let r0 := mkRow 0 (cs "ab") (cs "ab") [HL_NORMAL; HL_NORMAL] false in
  let E := mkConfig 2 0 0 5 7 24 80 1 [r0] 0 None [] None in
  let E' := editorScroll E in
  (rowoff E' <= cy E' < rowoff E' + screenrows E' /\
   coloff E' <= rx E' < coloff E' + screencols E') /\
  (rowoff E <= cy E < rowoff E + screenrows E -> rowoff E' = rowoff E) /\
  (coloff E <= rx E' < coloff E + screencols E -> coloff E' = coloff E) /\
  (0 <= rowoff E -> 0 <= cy E -> 0 <= rowoff E') /\
  (cx E' = cx E /\ cy E' = cy E /\ row E' = row E /\
   numrows E' = numrows E /\ dirty E' = dirty E) /\
  editorScroll E' = E'.
Proof.
  intros r0 E. apply (scroll_brings_cursor_into_window E).
  - reflexivity.
  - reflexivity.
Defined.

(** ** Reading a key *)

Lemma first_byte_spec (inp : list read_result) :
  match first_byte inp with
  | Done c rest =>
      exists pre, Forall idle_read pre /\ inp = pre ++ RByte c :: rest
  | Died =>
      exists pre post, Forall idle_read pre /\ inp = pre ++ RFail :: post
  | Pending => Forall idle_read inp
  end.
Proof.
  induction inp as [|r inp IH]; simpl; [constructor|].
  destruct r.
  - exists []. split; [constructor | reflexivity].
  - destruct (first_byte inp) as [c rest| |].
    + destruct IH as (pre & Hpre & ->). exists (RNone :: pre).
      split; [constructor; [now left | exact Hpre] | reflexivity].
    + destruct IH as (pre & post & Hpre & ->). exists (RNone :: pre), post.
      split; [constructor; [now left | exact Hpre] | reflexivity].
    + constructor; [now left | exact IH].
  - destruct (first_byte inp) as [c rest| |].
    + destruct IH as (pre & Hpre & ->). exists (RAgain :: pre).
      split; [constructor; [now right | exact Hpre] | reflexivity].
    + destruct IH as (pre & post & Hpre & ->). exists (RAgain :: pre), post.
      split; [constructor; [now right | exact Hpre] | reflexivity].
    + constructor; [now right | exact IH].
  - exists [], inp. split; [constructor | reflexivity].
Qed.

Lemma first_byte_skips (pre : list read_result) (x : read_result)
  (post : list read_result) :
  Forall idle_read pre ->
  first_byte (pre ++ x :: post) = first_byte (x :: post).
Proof.
  induction 1 as [|r pre [-> | ->] _ IH]; simpl; auto.
Qed.

Lemma next_byte_spec (inp : list read_result) (o : option ascii)
  (rest : list read_result) :
  next_byte inp = Some (o, rest) ->
  exists r, inp = r :: rest /\
            match o with Some c => r = RByte c | None => True end.
Proof.
  destruct inp as [|r inp]; simpl; [discriminate|].
  destruct r; intros H; injection H as <- <-; eauto.
Qed.

Lemma int_of_char_range (sgn : bool) (c : ascii) :
  -128 <= int_of_char sgn c <= 255 /\
  (Z.of_N (N_of_ascii c) < 128 ->
   int_of_char sgn c = Z.of_N (N_of_ascii c)).
Proof.
  unfold int_of_char. cbv zeta.
  pose proof (N_ascii_bounded c) as Hb.
  destruct sgn; cbn [andb].
  - destruct (Z.leb_spec 128 (Z.of_N (N_of_ascii c))); split; lia.
  - split; lia.
Qed.

Lemma tilde_key_range (d : ascii) :
  tilde_key d = KEY_ESC \/ 1000 <= tilde_key d <= 1008.
Proof.
  unfold tilde_key.
  repeat match goal with
         | |- context [if ?b then _ else _] => destruct b
         end; (now left) || (right; vm_compute; split; discriminate).
Qed.

Lemma bracket_key_range (d : ascii) :
  bracket_key d = KEY_ESC \/ 1000 <= bracket_key d <= 1008.
Proof.
  unfold bracket_key.
  repeat match goal with
         | |- context [if ?b then _ else _] => destruct b
         end; (now left) || (right; vm_compute; split; discriminate).
Qed.

Lemma o_key_range (d : ascii) :
  o_key d = KEY_ESC \/ 1000 <= o_key d <= 1008.
Proof.
  unfold o_key.
  repeat match goal with
         | |- context [if ?b then _ else _] => destruct b
         end; (now left) || (right; vm_compute; split; discriminate).
Qed.

(** What a returned key was read from: after reads that brought nothing
    comes one byte; a byte other than ESC is the key, and nothing more is
    read; after ESC at most three more reads are used, and the key is ESC or
    one of the nine editor keys. *)
Theorem read_key_uses_one_byte_or_an_escape_sequence :
  forall (sgn : bool) (inp : list read_result) (k : Z)
         (rest : list read_result),
    editorReadKey sgn inp = Done k rest ->
    exists pre c more,
      inp = pre ++ RByte c :: more ++ rest /\
      Forall idle_read pre /\ (length more <= 3)%nat /\
      (c <> ESC_CHAR -> more = [] /\ k = int_of_char sgn c) /\
      (c = ESC_CHAR -> k = KEY_ESC \/ 1000 <= k <= 1008) /\
      (-128 <= k <= 255 \/ 1000 <= k <= 1008).
Proof.
  intros sgn inp k rest H. unfold editorReadKey in H.
  pose proof (first_byte_spec inp) as Hfb.
  destruct (first_byte inp) as [c r0| |]; try discriminate.
  destruct Hfb as (pre & Hpre & ->). exists pre, c.
  destruct (Ascii.eqb_spec c ESC_CHAR) as [->|Hc].
  2:{ injection H as <- <-. exists []. repeat split; auto; try congruence.
      left. apply int_of_char_range. }
  assert (Hesc : forall more,
             (length more <= 3)%nat -> r0 = more ++ rest ->
             k = KEY_ESC \/ 1000 <= k <= 1008 ->
             exists more0,
               pre ++ RByte ESC_CHAR :: r0
               = pre ++ RByte ESC_CHAR :: more0 ++ rest /\
               Forall idle_read pre /\ (length more0 <= 3)%nat /\
               (ESC_CHAR <> ESC_CHAR ->
                more0 = [] /\ k = int_of_char sgn ESC_CHAR) /\
               (ESC_CHAR = ESC_CHAR -> k = KEY_ESC \/ 1000 <= k <= 1008) /\
               (-128 <= k <= 255 \/ 1000 <= k <= 1008)).
  { intros more Hlen -> Hk. exists more. repeat split; auto; try congruence.
    destruct Hk as [-> | Hk]; [left; vm_compute; split; discriminate|].
    now right. }
  destruct (next_byte r0) as [[o1 r1]|] eqn:H1; [|discriminate].
  apply next_byte_spec in H1. destruct H1 as (x1 & -> & Hx1).
  destruct o1 as [s0|].
  2:{ injection H as <- <-. apply (Hesc [x1]); auto. }
  destruct (next_byte r1) as [[o2 r2]|] eqn:H2; [|discriminate].
  apply next_byte_spec in H2. destruct H2 as (x2 & -> & Hx2).
  destruct o2 as [s1|].
  2:{ injection H as <- <-. apply (Hesc [x1; x2]); auto. }
  destruct (Ascii.eqb s0 "[").
  - destruct (isdigit s1).
    + destruct (next_byte r2) as [[o3 r3]|] eqn:H3; [|discriminate].
      apply next_byte_spec in H3. destruct H3 as (x3 & -> & Hx3).
      destruct o3 as [s2|].
      2:{ injection H as <- <-. apply (Hesc [x1; x2; x3]); auto. }
      destruct (Ascii.eqb s2 "~"); injection H as <- <-;
        apply (Hesc [x1; x2; x3]); auto using tilde_key_range.
    + injection H as <- <-.
      apply (Hesc [x1; x2]); auto using bracket_key_range.
  - destruct (Ascii.eqb s0 "O"); injection H as <- <-;
      apply (Hesc [x1; x2]); auto using o_key_range.
Qed.

Lemma read_key_uses_one_byte_or_an_escape_sequence_witness :
  exists pre c more,
    [RNone; RByte "a"%char; RByte "b"%char]
    = pre ++ RByte c :: more ++ [RByte "b"%char] /\
    Forall idle_read pre /\ (length more <= 3)%nat /\
    (c <> ESC_CHAR -> more = [] /\ 97 = int_of_char true c) /\
    (c = ESC_CHAR -> 97 = KEY_ESC \/ 1000 <= 97 <= 1008) /\
    (-128 <= 97 <= 255 \/ 1000 <= 97 <= 1008).
Proof.
  apply (read_key_uses_one_byte_or_an_escape_sequence true
           [RNone; RByte "a"%char; RByte "b"%char] 97 [RByte "b"%char]).
  reflexivity.
Defined.

(** [editorReadKey] ends the program exactly when a read fails with an
    error other than EAGAIN before the first byte has come; a failing read
    inside an escape sequence does not. *)
Theorem read_key_dies_only_before_first_byte :
  forall (sgn : bool) (inp : list read_result),
    editorReadKey sgn inp = Died <->
    exists pre post, Forall idle_read pre /\ inp = pre ++ RFail :: post.
Proof.
  intros sgn inp. split.
  - intros H. unfold editorReadKey in H.
    pose proof (first_byte_spec inp) as Hfb.
    destruct (first_byte inp) as [c r0| |]; try discriminate; [|exact Hfb].
    exfalso.
    repeat match type of H with
           | (if ?b then _ else _) = _ => destruct b
           | match ?x with _ => _ end = _ => destruct x
           | Done _ _ = Died => discriminate H
           | Pending = Died => discriminate H
           end.
  - intros (pre & post & Hpre & ->). unfold editorReadKey.
    now rewrite first_byte_skips.
Qed.

Ltac in_table :=
  unfold escape_table, cs; simpl;
  repeat (first [left; reflexivity | right]).

(** After an ESC byte, [editorReadKey] answers with a key other than ESC
    exactly for the fifteen sequences of the table, and then it has read the
    bytes of the sequence and no more. *)
Theorem escape_sequences_are_those_of_the_table :
  forall (sgn : bool) (tail : list read_result) (k : Z)
         (rest : list read_result),
    (editorReadKey sgn (RByte ESC_CHAR :: tail) = Done k rest /\
     k <> KEY_ESC) <->
    (exists seq, In (seq, k) escape_table /\ tail = map RByte seq ++ rest).
Proof.
  intros sgn tail k rest. split.
  - intros [H Hk]. unfold editorReadKey in H. cbn [first_byte] in H.
    change (Ascii.eqb ESC_CHAR ESC_CHAR) with true in H. cbv iota in H.
    destruct (next_byte tail) as [[o1 r1]|] eqn:H1; [|discriminate].
    apply next_byte_spec in H1. destruct H1 as (x1 & -> & Hx1).
    destruct o1 as [s0|]; [subst x1 | injection H as <- _; congruence].
    destruct (next_byte r1) as [[o2 r2]|] eqn:H2; [|discriminate].
    apply next_byte_spec in H2. destruct H2 as (x2 & -> & Hx2).
    destruct o2 as [s1|]; [subst x2 | injection H as <- _; congruence].
    destruct (Ascii.eqb_spec s0 "[") as [->|Hs0].
    + destruct (isdigit s1) eqn:Hd.
      * destruct (next_byte r2) as [[o3 r3]|] eqn:H3; [|discriminate].
        apply next_byte_spec in H3. destruct H3 as (x3 & -> & Hx3).
        destruct o3 as [s2|]; [subst x3 | injection H as <- _; congruence].
        destruct (Ascii.eqb_spec s2 "~") as [->|Hs2];
          [|injection H as <- _; congruence].
        injection H as <- <-. exists ["["%char; s1; "~"%char].
        split; [|reflexivity].
        unfold tilde_key in *.
        repeat match goal with
               | |- context [Ascii.eqb s1 ?c] =>
                   destruct (Ascii.eqb_spec s1 c) as [->|?]
               end; try congruence; in_table.
      * injection H as <- <-. exists ["["%char; s1].
        split; [|reflexivity].
        unfold bracket_key in *.
        repeat match goal with
               | |- context [Ascii.eqb s1 ?c] =>
                   destruct (Ascii.eqb_spec s1 c) as [->|?]
               end; try congruence; in_table.
    + destruct (Ascii.eqb_spec s0 "O") as [->|Hs0'];
        [|injection H as <- _; congruence].
      injection H as <- <-. exists ["O"%char; s1].
      split; [|reflexivity].
      unfold o_key in *.
      repeat match goal with
             | |- context [Ascii.eqb s1 ?c] =>
                 destruct (Ascii.eqb_spec s1 c) as [->|?]
             end; try congruence; in_table.
  - intros (seq & Hin & ->). unfold escape_table in Hin. simpl in Hin.
    repeat match type of Hin with
           | _ \/ _ => destruct Hin as [Hin|Hin]
           | False => destruct Hin
           end;
      injection Hin as <- <-; (split; [reflexivity | discriminate]).
Qed.

(** ** The prompt *)

Section PromptFacts.

Variable S : Type.
Variable callback :
  option (S -> editorConfig -> list ascii -> Z -> S * editorConfig).
Variable fmt : list ascii -> list ascii.

(** An invariant [P] of the prompt's loop and what it gives, [Q], after the
    last call of the callback. *)
Variable P Q : S -> editorConfig -> Prop.

Hypothesis Hmsg : forall s E m, P s E -> P s (editorSetStatusMessage E m).
Hypothesis Hscroll : forall s E, P s E -> P s (editorRefreshScreen E).
Hypothesis Hcb :
  forall s E buf c, P s E -> c <> KEY_ESC -> (c <> KEY_ENTER \/ buf = []) ->
                    P (fst (run_callback S callback s E buf c))
                      (snd (run_callback S callback s E buf c)).
Hypothesis Hend :
  forall s E buf c, P s E -> c = KEY_ESC \/ c = KEY_ENTER ->
                    Q (fst (run_callback S callback s E buf c))
                      (snd (run_callback S callback s E buf c)).

Lemma editorPrompt_inv (keys : list Z) :
  forall buf s E res s' E' rest,
    P s E ->
    editorPrompt S callback fmt keys buf s E = Some (res, s', E', rest) ->
    Q s' E' /\
    exists used c,
      keys = used ++ c :: rest /\
      Forall (fun k => k <> KEY_ESC) used /\
      ((c = KEY_ESC /\ res = None) \/
       (c = KEY_ENTER /\ exists b, res = Some b /\ b <> [])).
Proof.
  induction keys as [|c keys IH]; intros buf s E res s' E' rest HP H;
    cbn [editorPrompt] in H; [discriminate|].
  cbv zeta in H.
  set (E1 := editorRefreshScreen (editorSetStatusMessage E (fmt buf))) in H.
  assert (HP1 : P s E1) by (apply Hscroll, Hmsg, HP).
  assert (Hnext : forall buf' s2 E2,
             P s2 E2 -> c <> KEY_ESC ->
             editorPrompt S callback fmt keys buf' s2 E2
             = Some (res, s', E', rest) ->
             Q s' E' /\
             exists used c0,
               c :: keys = used ++ c0 :: rest /\
               Forall (fun k => k <> KEY_ESC) used /\
               ((c0 = KEY_ESC /\ res = None) \/
                (c0 = KEY_ENTER /\ exists b, res = Some b /\ b <> []))).
  { intros buf' s2 E2 HP2 Hc H2.
    destruct (IH buf' s2 E2 res s' E' rest HP2 H2)
      as (HQ & used & c0 & -> & Hused & Hc0).
    split; [exact HQ|]. exists (c :: used), c0.
    split; [reflexivity|]. split; [constructor; assumption | exact Hc0]. }
  destruct ((c =? DEL_KEY) || (c =? CTRL_KEY 104) || (c =? BACKSPACE))%bool
    eqn:Hdel.
  { assert (Hc : c <> KEY_ESC /\ c <> KEY_ENTER).
    { apply orb_true_iff in Hdel. destruct Hdel as [Hdel|Hdel];
        [apply orb_true_iff in Hdel; destruct Hdel as [Hdel|Hdel]|];
        apply Z.eqb_eq in Hdel; subst c; split; discriminate. }
    destruct Hc as [Hc1 Hc2].
    pose proof (Hcb s E1 (removelast buf) c HP1 Hc1 (or_introl Hc2)) as HP2.
    destruct (run_callback S callback s E1 (removelast buf) c) as [s2 E2].
    now apply (Hnext (removelast buf) s2 E2). }
  destruct (Z.eqb_spec c KEY_ESC) as [Hesc|Hesc].
  { pose proof (Hend s (editorSetStatusMessage E1 []) buf c
                  (Hmsg _ _ _ HP1) (or_introl Hesc)) as HQ.
    destruct (run_callback S callback s (editorSetStatusMessage E1 []) buf c)
      as [s2 E2].
    injection H as <- <- <- <-. split; [exact HQ|].
    exists [], c. split; [reflexivity|]. split; [constructor|]. now left. }
  destruct (Z.eqb_spec c KEY_ENTER) as [Hent|Hent].
  { destruct buf as [|b0 buf].
    - pose proof (Hcb s E1 [] c HP1 Hesc (or_intror eq_refl)) as HP2.
      destruct (run_callback S callback s E1 [] c) as [s2 E2].
      now apply (Hnext [] s2 E2).
    - pose proof (Hend s (editorSetStatusMessage E1 []) (b0 :: buf) c
                    (Hmsg _ _ _ HP1) (or_intror Hent)) as HQ.
      destruct (run_callback S callback s (editorSetStatusMessage E1 [])
                  (b0 :: buf) c) as [s2 E2].
      injection H as <- <- <- <-. split; [exact HQ|].
      exists [], c. split; [reflexivity|]. split; [constructor|]. right.
      split; [exact Hent|]. exists (b0 :: buf). split; [reflexivity|].
      discriminate. }
  destruct (negb (iscntrl_key c) && (c <? 128))%bool.
  - set (buf' := buf ++ _) in H.
    pose proof (Hcb s E1 buf' c HP1 Hesc (or_introl Hent)) as HP2.
    destruct (run_callback S callback s E1 buf' c) as [s2 E2].
    now apply (Hnext buf' s2 E2).
  - pose proof (Hcb s E1 buf c HP1 Hesc (or_introl Hent)) as HP2.
    destruct (run_callback S callback s E1 buf c) as [s2 E2].
    now apply (Hnext buf s2 E2).
Qed.

End PromptFacts.

Lemma typable_test (c : Z) :
  erases c = false -> c <> KEY_ESC -> c <> KEY_ENTER ->
  typable c = (negb (iscntrl_key c) && (c <? 128))%bool.
Proof.
  intros He Hesc Hent. unfold typable. rewrite He.
  destruct (Z.eqb_spec c KEY_ESC); [congruence|].
  destruct (Z.eqb_spec c KEY_ENTER); [congruence|]. reflexivity.
Qed.

Lemma erases_not_end (c : Z) :
  erases c = true -> c <> KEY_ESC /\ c <> KEY_ENTER.
Proof.
  unfold erases. intros H.
  apply orb_true_iff in H. destruct H as [H|H];
    [apply orb_true_iff in H; destruct H as [H|H]|];
    apply Z.eqb_eq in H; subst c; split; discriminate.
Qed.

(** One turn of the prompt's loop on a key that does not end it. *)
Lemma editorPrompt_step (S : Type)
  (callback : option (S -> editorConfig -> list ascii -> Z -> S * editorConfig))
  (fmt : list ascii -> list ascii) (c : Z) (keys : list Z)
  (buf : list ascii) (s : S) (E : editorConfig) :
  c <> KEY_ESC -> c <> KEY_ENTER ->
  exists s2 E2,
    editorPrompt S callback fmt (c :: keys) buf s E
    = editorPrompt S callback fmt keys (typed_buffer [c] buf) s2 E2.
Proof.
  intros Hesc Hent. cbn [editorPrompt typed_buffer]. cbv zeta.
  fold (erases c).
  destruct (erases c) eqn:He.
  - destruct (run_callback S callback s _ (removelast buf) c) as [s2 E2].
    eauto.
  - rewrite (typable_test c He Hesc Hent).
    destruct (Z.eqb_spec c KEY_ESC); [congruence|].
    destruct (Z.eqb_spec c KEY_ENTER); [congruence|].
    destruct (negb (iscntrl_key c) && (c <? 128))%bool.
    + destruct (run_callback S callback s _ _ c) as [s2 E2]. eauto.
    + destruct (run_callback S callback s _ _ c) as [s2 E2]. eauto.
Qed.

Lemma typed_buffer_cons (c : Z) (keys : list Z) (buf : list ascii) :
  typed_buffer (c :: keys) buf = typed_buffer keys (typed_buffer [c] buf).
Proof.
  cbn [typed_buffer]. destruct (erases c); [reflexivity|].
  destruct (typable c); reflexivity.
Qed.

Lemma editorPrompt_steps (S : Type)
  (callback : option (S -> editorConfig -> list ascii -> Z -> S * editorConfig))
  (fmt : list ascii -> list ascii) (ks : list Z) :
  forall (keys : list Z) (buf : list ascii) (s : S) (E : editorConfig),
    Forall (fun k => k <> KEY_ESC /\ k <> KEY_ENTER) ks ->
    exists s2 E2,
      editorPrompt S callback fmt (ks ++ keys) buf s E
      = editorPrompt S callback fmt keys (typed_buffer ks buf) s2 E2.
Proof.
  induction ks as [|c ks IH]; intros keys buf s E Hks.
  - exists s, E. reflexivity.
  - inversion Hks as [|? ? [Hesc Hent] Hrest]; subst.
    destruct (editorPrompt_step S callback fmt c (ks ++ keys) buf s E
                Hesc Hent) as (s1 & E1 & H1).
    destruct (IH keys (typed_buffer [c] buf) s1 E1 Hrest) as (s2 & E2 & H2).
    exists s2, E2. rewrite typed_buffer_cons.
    cbn [app]. now rewrite H1, H2.
Qed.

(** What the prompt answers after keys that do not end it: ESC gives no
    answer; Enter gives the typed characters, with the deletions applied,
    when there are any, and is passed over when there are none.  In both
    cases the keys after the ending key are left unread.  The answer holds
    no control character when the keys are such as [editorReadKey]
    returns. *)
Theorem prompt_answer_is_typed_text :
  forall (S : Type)
         (callback :
            option (S -> editorConfig -> list ascii -> Z -> S * editorConfig))
         (fmt : list ascii -> list ascii) (ks rest : list Z)
         (buf : list ascii) (s : S) (E : editorConfig),
    Forall (fun k => k <> KEY_ESC /\ k <> KEY_ENTER) ks ->
    (exists s' E',
        editorPrompt S callback fmt (ks ++ KEY_ESC :: rest) buf s E
        = Some (None, s', E', rest)) /\
    (typed_buffer ks buf <> [] ->
     exists s' E',
       editorPrompt S callback fmt (ks ++ KEY_ENTER :: rest) buf s E
       = Some (Some (typed_buffer ks buf), s', E', rest)) /\
    (typed_buffer ks buf = [] ->
     exists s' E',
       editorPrompt S callback fmt (ks ++ KEY_ENTER :: rest) buf s E
       = editorPrompt S callback fmt rest [] s' E') /\
    (Forall (fun k => -128 <= k) ks ->
     Forall (fun ch => 32 <= Z.of_N (N_of_ascii ch)
                       /\ Z.of_N (N_of_ascii ch) <> 127) buf ->
     Forall (fun ch => 32 <= Z.of_N (N_of_ascii ch)
                       /\ Z.of_N (N_of_ascii ch) <> 127)
       (typed_buffer ks buf)).
Proof.
  intros S callback fmt ks rest buf s E Hks. repeat split.
  - destruct (editorPrompt_steps S callback fmt ks (KEY_ESC :: rest) buf s E
                Hks) as (s2 & E2 & ->).
    cbn [editorPrompt]. cbv zeta.
    change ((KEY_ESC =? DEL_KEY) || (KEY_ESC =? CTRL_KEY 104)
            || (KEY_ESC =? BACKSPACE))%bool with false.
    change (KEY_ESC =? KEY_ESC) with true. cbv iota.
    destruct (run_callback S callback s2 _ _ KEY_ESC) as [s3 E3]. eauto.
  - intros Hne.
    destruct (editorPrompt_steps S callback fmt ks (KEY_ENTER :: rest) buf s E
                Hks) as (s2 & E2 & ->).
    cbn [editorPrompt]. cbv zeta.
    change ((KEY_ENTER =? DEL_KEY) || (KEY_ENTER =? CTRL_KEY 104)
            || (KEY_ENTER =? BACKSPACE))%bool with false.
    change (KEY_ENTER =? KEY_ESC) with false.
    change (KEY_ENTER =? KEY_ENTER) with true. cbv iota.
    destruct (typed_buffer ks buf) as [|b0 b]; [congruence|].
    destruct (run_callback S callback s2 _ _ KEY_ENTER) as [s3 E3]. eauto.
  - intros Hempty.
    destruct (editorPrompt_steps S callback fmt ks (KEY_ENTER :: rest) buf s E
                Hks) as (s2 & E2 & ->).
    cbn [editorPrompt]. cbv zeta.
    change ((KEY_ENTER =? DEL_KEY) || (KEY_ENTER =? CTRL_KEY 104)
            || (KEY_ENTER =? BACKSPACE))%bool with false.
    change (KEY_ENTER =? KEY_ESC) with false.
    change (KEY_ENTER =? KEY_ENTER) with true. cbv iota.
    rewrite Hempty.
    destruct (run_callback S callback s2 _ _ KEY_ENTER) as [s3 E3]. eauto.
  - clear Hks. revert buf. induction ks as [|c ks IH]; intros buf Hr Hb;
      [exact Hb|].
    inversion Hr as [|? ? Hc Hrest]; subst. cbn [typed_buffer].
    destruct (erases c).
    + apply IH; [exact Hrest|].
      destruct buf as [|b0 b] using rev_ind; [constructor|].
      rewrite removelast_last. apply Forall_app in Hb. apply Hb.
    + destruct (typable c) eqn:Ht; [|now apply IH].
      apply IH; [exact Hrest|]. apply Forall_app. split; [exact Hb|].
      constructor; [|constructor].
      unfold typable, iscntrl_key in Ht.
      rewrite N_ascii_embedding.
      * rewrite Z2N.id by (apply Z.mod_pos_bound; lia).
        destruct (Z.leb_spec 0 c), (Z.ltb_spec c 32), (Z.eqb_spec c 127),
          (Z.ltb_spec c 128); cbn in Ht;
          rewrite ?andb_false_r in Ht; try discriminate;
          Z.to_euclidean_division_equations; lia.
      * assert (0 <= c mod 256 < 256) by (apply Z.mod_pos_bound; lia).
        lia.
Qed.

Lemma prompt_answer_is_typed_text_witness :
  exists s' E',
    editorPrompt unit None save_prompt
      ([97; BACKSPACE; 98] ++ KEY_ENTER :: [99]) [] tt (initEditor 24 80)
    = Some (Some (typed_buffer [97; BACKSPACE; 98] []), s', E', [99]).
Proof.
  apply (prompt_answer_is_typed_text unit None save_prompt
           [97; BACKSPACE; 98] [99] [] tt (initEditor 24 80)).
  - repeat constructor; discriminate.
  - discriminate.
Defined.

(** ** A search leaves the rows alone *)

Lemma cursor_ok_same_text (E E' : editorConfig) :
  cursor_ok E -> cx E' = cx E -> cy E' = cy E -> numrows E' = numrows E ->
  map chars (row E') = map chars (row E) -> cursor_ok E'.
Proof.
  intros [Hcy Hcx] Hx Hy Hn Hc. unfold cursor_ok, current_row in *.
  rewrite Hx, Hy, Hn. split; [exact Hcy|].
  destruct (cy E >=? numrows E); [exact Hcx|].
  pose proof (nth_error_map chars (Z.to_nat (cy E)) (row E')) as A.
  pose proof (nth_error_map chars (Z.to_nat (cy E)) (row E)) as B.
  rewrite Hc, B in A. unfold size.
  destruct (nth_error (row E') (Z.to_nat (cy E))),
    (nth_error (row E) (Z.to_nat (cy E))); simpl in A; try discriminate.
  - injection A as <-. exact Hcx.
  - exact Hcx.
Qed.

Lemma editorScroll_rowoff (E : editorConfig) :
  0 <= rowoff E -> 0 <= cy E -> 0 <= rowoff (editorScroll E).
Proof.
  intros Hr Hc. unfold editorScroll. cbv zeta. cbn [rowoff].
  scroll_cases; lia.
Qed.

Lemma first_match_sound (rows : list erow) (query : list ascii)
  (order : list Z) (cur : Z) (r : erow) (off : nat) :
  first_match rows query order = Some (cur, r, off) ->
  In cur order /\ nth_error rows (Z.to_nat cur) = Some r /\
  strstr (render r) query = Some off.
Proof.
  induction order as [|c order IH]; simpl; [discriminate|].
  destruct (nth_error rows (Z.to_nat c)) as [rc|] eqn:Hrc; [|discriminate].
  destruct (strstr (render rc) query) as [o|] eqn:Ho.
  - intros H. injection H as <- <- <-. auto.
  - intros H. destruct (IH H) as (A & B & C). auto.
Qed.

Lemma editorRowRxToCx_range (r : erow) (target : Z) :
  0 <= editorRowRxToCx r target <= size r.
Proof.
  unfold editorRowRxToCx, size.
  assert (H : forall rest x cur,
             x <= RxToCx_loop rest x cur target
             <= x + Z.of_nat (length rest)).
  { induction rest as [|c rest IH]; intros x cur; cbn [RxToCx_loop length];
      [lia|].
    cbv zeta. destruct (advance_rx c cur >? target); [lia|].
    specialize (IH (x + 1) (advance_rx c cur)). lia. }
  specialize (H (chars r) 0 0). lia.
Qed.

Lemma set_hl_same (r : erow) : set_hl r (hl r) = r.
Proof. now destruct r. Qed.

Lemma set_hl_twice (r : erow) (h h' : list editorHighlight) :
  set_hl (set_hl r h) h' = set_hl r h'.
Proof. reflexivity. Qed.

Lemma memcpy_all {A : Type} (dst src : list A) (n : nat) :
  length src = n -> length dst = n -> memcpy dst src n = src.
Proof.
  intros Hs Hd. unfold memcpy.
  rewrite <- Hs at 1. rewrite firstn_all.
  rewrite <- Hd, skipn_all. apply app_nil_r.
Qed.

Section FindInvariant.

Variable E0 : editorConfig.
Hypothesis Hdoc : doc_ok E0.
Hypothesis Hrows : rows_ok E0.

Lemma find_inv_msg (fs : find_state) (E : editorConfig) (m : list ascii) :
  find_inv E0 fs E -> find_inv E0 fs (editorSetStatusMessage E m).
Proof. intros H; exact H. Qed.

Lemma find_inv_scroll (fs : find_state) (E : editorConfig) :
  find_inv E0 fs E -> find_inv E0 fs (editorRefreshScreen E).
Proof.
  intros (Hf & Hc & Hr & Hl & Hs). unfold editorRefreshScreen.
  split; [exact Hf|]. split; [exact Hc|].
  split; [apply editorScroll_rowoff; [exact Hr | apply Hc]|].
  split; [exact Hl | exact Hs].
Qed.

(** The first statement of the callback puts the saved highlight back. *)
Lemma restore_gives_rows (fs : find_state) (E : editorConfig) :
  find_inv E0 fs E ->
  let E1 :=
    match saved_hl fs with
    | Some saved =>
        match nth_error (row E) (saved_hl_line fs) with
        | Some r =>
            set_row E (update_nth (row E) (saved_hl_line fs)
                         (set_hl r (memcpy (hl r) saved (rsize r))))
        | None => E
        end
    | None => E
    end in
  row E1 = row E0 /\ same_frame E0 E1 /\ cursor_ok E1 /\ 0 <= rowoff E1 /\
  cx E1 = cx E /\ cy E1 = cy E /\ coloff E1 = coloff E.
Proof.
  intros (Hf & Hc & Hr & Hl & Hs).
  destruct (saved_hl fs) as [h|]; cbv zeta.
  2:{ repeat split; auto; apply Hf || apply Hc. }
  destruct Hs as (r & h' & Hnth & -> & Hlen & Hrow).
  assert (Hn' : nth_error (row E) (saved_hl_line fs) = Some (set_hl r h')).
  { rewrite Hrow. now apply nth_error_update_nth_eq with (y := r). }
  rewrite Hn'.
  assert (Hrok : row_ok r) by (apply (rows_ok_nth E0 _ r Hrows Hnth)).
  destruct Hrok as [_ Hhl].
  assert (Hback : set_hl (set_hl r h')
                    (memcpy (hl (set_hl r h')) (hl r) (rsize (set_hl r h')))
                  = r).
  { rewrite set_hl_twice.
    change (rsize (set_hl r h')) with (length (render r)).
    change (hl (set_hl r h')) with h'.
    rewrite memcpy_all by lia. apply set_hl_same. }
  rewrite Hback.
  assert (Hrows1 : update_nth (row E) (saved_hl_line fs) r = row E0).
  { rewrite Hrow, update_nth_twice. now apply update_nth_id. }
  cbn [row set_row]. rewrite Hrows1.
  split; [reflexivity|]. split; [exact Hf|].
  split; [|repeat split; auto].
  apply (cursor_ok_same_text E); try reflexivity; [exact Hc|].
  cbn [row set_row]. rewrite Hrow.
  symmetry. now apply update_nth_map_same with (y := r).
Qed.

Lemma find_callback_inv (fs : find_state) (E : editorConfig)
  (query : list ascii) (c : Z) :
  find_inv E0 fs E ->
  (c = KEY_ESC \/ c = KEY_ENTER ->
   find_done E0 (fst (editorFindCallback fs E query c))
     (snd (editorFindCallback fs E query c))) /\
  find_inv E0 (fst (editorFindCallback fs E query c))
    (snd (editorFindCallback fs E query c)).
Proof.
  intros Hinv. pose proof (restore_gives_rows fs E Hinv) as Hres.
  pose proof Hinv as (_ & _ & _ & Hlm & _).
  unfold editorFindCallback.
  set (E1 := match saved_hl fs with
             | Some saved => _
             | None => E
             end) in *.
  cbv zeta in Hres. destruct Hres as (Hr1 & Hf1 & Hc1 & Ho1 & _).
  clearbody E1.
  cbn [last_match direction saved_hl_line saved_hl].
  destruct ((c =? KEY_ENTER) || (c =? KEY_ESC))%bool eqn:Hend.
  { cbn [fst snd].
    assert (Hd : find_done E0 (mkFind (-1) 1 (saved_hl_line fs) None) E1)
      by (repeat split; auto; apply Hf1 || apply Hc1).
    split; [intros _; exact Hd|].
    destruct Hd as (A & B & C & D & _).
    split; [exact A|]. split; [exact B|]. split; [exact C|].
    split; [now right | exact D]. }
  split.
  { intros [-> | ->]; discriminate. }
  set (lmd := if ((c =? ARROW_RIGHT) || (c =? ARROW_DOWN))%bool
              then (last_match fs, 1)
              else if ((c =? ARROW_LEFT) || (c =? ARROW_UP))%bool
                   then (last_match fs, -1)
                   else (-1, 1)).
  assert (Hlmd : (fst lmd = last_match fs \/ fst lmd = -1) /\
                 (snd lmd = 1 \/ snd lmd = -1)).
  { subst lmd. destruct ((c =? ARROW_RIGHT) || (c =? ARROW_DOWN))%bool;
      [auto|].
    destruct ((c =? ARROW_LEFT) || (c =? ARROW_UP))%bool; auto. }
  destruct lmd as [lm d]. cbn [fst snd] in Hlmd. destruct Hlmd as [Hlm' Hd].
  set (d' := if lm =? -1 then 1 else d).
  assert (Hd' : d' = 1 \/ d' = -1)
    by (subst d'; destruct (lm =? -1); auto).
  assert (Hfirst : lm = -1 -> d' = 1).
  { intros ->. reflexivity. }
  assert (Hn1 : numrows E1 = Z.of_nat (length (row E1))).
  { destruct Hf1 as (-> & _). rewrite Hr1. apply Hdoc. }
  assert (Hlmr : -1 <= lm < numrows E1 \/ lm = -1).
  { destruct Hf1 as (-> & _). destruct Hlm' as [->| ->]; auto. }
  assert (Hnone : find_inv E0 (mkFind lm d' (saved_hl_line fs) None) E1).
  { split; [exact Hf1|]. split; [exact Hc1|]. split; [exact Ho1|].
    split; [|exact Hr1]. cbn [last_match].
    destruct Hf1 as (Hnum & _). rewrite <- Hnum. exact Hlmr. }
  destruct (Z.le_gt_cases (numrows E1) 0) as [Hz|Hpos].
  { replace (Z.to_nat (numrows E1)) with O by lia. exact Hnone. }
  assert (Hlmr' : -1 <= lm < numrows E1) by lia.
  rewrite (find_loop_first_match E1 query d' Hd' Hpos _ _ lm Hlmr' Hfirst).
  destruct (first_match (row E1) query _) as [[[cur r] off]|] eqn:Hfm;
    [|exact Hnone].
  apply first_match_sound in Hfm. destruct Hfm as (Hin & Hnth & _).
  pose proof (visit_order_range E1 d' Hpos lm (Z.to_nat (numrows E1)))
    as Hrange.
  rewrite Forall_forall in Hrange. specialize (Hrange cur Hin).
  rewrite Hr1 in Hnth.
  assert (Hrok : row_ok r) by (apply (rows_ok_nth E0 _ r Hrows Hnth)).
  destruct Hrok as [_ Hhl].
  unfold match_found. cbn [fst snd].
  destruct Hf1 as (F1 & F2 & F3 & F4 & F5 & F6).
  split; [repeat split; assumption|].
  split.
  { unfold cursor_ok, current_row.
    cbn [cx cy numrows row set_row set_rowoff set_cursor].
    split; [lia|].
    destruct (Z.geb_spec cur (numrows E1)); [lia|].
    rewrite Hr1, (nth_error_update_nth_eq _ _ _ r Hnth).
    change (size (set_hl r _)) with (size r).
    apply editorRowRxToCx_range. }
  split; [cbn [rowoff set_row set_rowoff]; lia|].
  split; [cbn [last_match]; left; lia|].
  cbn [saved_hl saved_hl_line].
  exists r, (memset (hl r) off HL_MATCH (strlen query)).
  split; [exact Hnth|].
  split; [unfold rsize; rewrite <- Hhl; apply firstn_all|].
  split; [apply memset_length|].
  cbn [row set_row]. now rewrite Hr1.
Qed.

End FindInvariant.

Lemma editorFind_done (fs : find_state) (keys : list Z) (E : editorConfig)
  (fs' : find_state) (E' : editorConfig) (rest : list Z) :
  doc_ok E -> rows_ok E -> cursor_ok E -> 0 <= rowoff E ->
  last_match fs = -1 -> saved_hl fs = None ->
  editorFind fs keys E = Some (fs', E', rest) ->
  find_done E fs' E' /\
  exists used c,
    keys = used ++ c :: rest /\
    Forall (fun k => k <> KEY_ESC) used /\
    ((c = KEY_ESC /\ cx E' = cx E /\ cy E' = cy E /\
      rowoff E' = rowoff E /\ coloff E' = coloff E) \/
     c = KEY_ENTER).
Proof.
  intros Hdoc Hrows Hcur Hoff Hlm Hsaved H. unfold editorFind in H.
  destruct (editorPrompt find_state (Some editorFindCallback) find_prompt
              keys [] fs E) as [[[[res s1] E1] rest1]|] eqn:Hp;
    [|discriminate].
  assert (Hinit : find_inv E fs E).
  { split; [repeat split|]. split; [exact Hcur|]. split; [exact Hoff|].
    split; [now right|]. now rewrite Hsaved. }
  destruct (editorPrompt_inv find_state (Some editorFindCallback) find_prompt
              (find_inv E) (find_done E)
              (find_inv_msg E) (find_inv_scroll E)
              (fun s X buf c HP _ _ =>
                 proj2 (find_callback_inv E Hdoc Hrows s X buf c HP))
              (fun s X buf c HP Hc =>
                 proj1 (find_callback_inv E Hdoc Hrows s X buf c HP)
                   (match Hc with
                    | or_introl a => or_introl a
                    | or_intror b => or_intror b
                    end))
              keys [] fs E res s1 E1 rest1 Hinit Hp)
    as (HQ & used & c & Hkeys & Hused & Hc).
  destruct res as [b|].
  - injection H as <- <- <-. split; [exact HQ|].
    exists used, c. split; [exact Hkeys|]. split; [exact Hused|].
    destruct Hc as [[_ Hn]|[Hent _]]; [discriminate | now right].
  - injection H as <- <- <-.
    destruct HQ as (Hf & Hc1 & Ho1 & Hr1 & Hl1 & Hd1 & Hs1).
    split.
    + split; [exact Hf|]. split.
      * apply (cursor_ok_same_text E); try reflexivity; [exact Hcur | |].
        -- apply Hf.
        -- cbn [row]. now rewrite Hr1.
      * split; [exact Hoff|]. repeat split; assumption.
    + exists used, c. split; [exact Hkeys|]. split; [exact Hused|].
      destruct Hc as [[Hesc _]|[_ (b & Hb & _)]]; [|discriminate].
      left. repeat split; auto.
Qed.

(** A search, however it goes and however it ends, leaves every row as it
    was, highlight included: the match colour is taken off before the
    search returns.  The file's other data are untouched, the cursor is
    inside the file, and the variables the callback keeps between calls are
    back at their start values. *)
Theorem search_leaves_rows_as_they_were :
  forall (fs : find_state) (keys : list Z) (E : editorConfig)
         (fs' : find_state) (E' : editorConfig) (rest : list Z),
    doc_ok E -> rows_ok E -> cursor_ok E -> 0 <= rowoff E ->
    last_match fs = -1 -> saved_hl fs = None ->
    editorFind fs keys E = Some (fs', E', rest) ->
    row E' = row E /\ numrows E' = numrows E /\ dirty E' = dirty E /\
    filename E' = filename E /\ syntax E' = syntax E /\
    cursor_ok E' /\
    last_match fs' = -1 /\ direction fs' = 1 /\ saved_hl fs' = None.
Proof.
  intros fs keys E fs' E' rest Hdoc Hrows Hcur Hoff Hlm Hsaved H.
  destruct (editorFind_done fs keys E fs' E' rest Hdoc Hrows Hcur Hoff Hlm
              Hsaved H)
    as (((F1 & F2 & F3 & F4 & _) & Hc & _ & Hr & Hl & Hd & Hs) & _).
  repeat split; auto; apply Hc.
Qed.

Lemma search_leaves_rows_as_they_were_witness :
  let r0 := mkRow 0 (cs "abc") (cs "abc")
              [HL_NORMAL; HL_NORMAL; HL_NORMAL] false in
  let E := mkConfig 0 0 0 0 0 24 80 1 [r0] 0 None [] None in
  exists fs' E' rest,
    editorFind find_init [98; KEY_ENTER] E = Some (fs', E', rest) /\
    row E' = row E /\ numrows E' = numrows E /\ dirty E' = dirty E /\
    filename E' = filename E /\ syntax E' = syntax E /\
    cursor_ok E' /\
    last_match fs' = -1 /\ direction fs' = 1 /\ saved_hl fs' = None.
Proof.
  intros r0 E.
  destruct (editorFind find_init [98; KEY_ENTER] E)
    as [[[fs' E'] rest]|] eqn:H; [|vm_compute in H; discriminate].
  exists fs', E', rest. split; [reflexivity|].
  apply (search_leaves_rows_as_they_were find_init [98; KEY_ENTER] E
           fs' E' rest).
  - split; reflexivity.
  - repeat constructor.
  - split; vm_compute; split; discriminate.
  - simpl; lia.
  - reflexivity.
  - reflexivity.
  - exact H.
Defined.

(** The search reads keys up to the ESC or Enter that ends it and leaves
    the rest unread; when it is ESC, the cursor and both scroll offsets are
    those from before the search. *)
Theorem cancelled_search_restores_cursor :
  forall (fs : find_state) (keys : list Z) (E : editorConfig)
         (fs' : find_state) (E' : editorConfig) (rest : list Z),
    doc_ok E -> rows_ok E -> cursor_ok E -> 0 <= rowoff E ->
    last_match fs = -1 -> saved_hl fs = None ->
    editorFind fs keys E = Some (fs', E', rest) ->
    exists used c,
      keys = used ++ c :: rest /\
      Forall (fun k => k <> KEY_ESC) used /\
      (c = KEY_ESC \/ c = KEY_ENTER) /\
      (c = KEY_ESC ->
       cx E' = cx E /\ cy E' = cy E /\
       rowoff E' = rowoff E /\ coloff E' = coloff E).
Proof.
  intros fs keys E fs' E' rest Hdoc Hrows Hcur Hoff Hlm Hsaved H.
  destruct (editorFind_done fs keys E fs' E' rest Hdoc Hrows Hcur Hoff Hlm
              Hsaved H) as (_ & used & c & Hk & Hu & Hc).
  exists used, c. split; [exact Hk|]. split; [exact Hu|].
  destruct Hc as [(Hesc & Hres)|Hent].
  - split; [now left|]. intros _. exact Hres.
  - split; [now right|]. intros Hesc. rewrite Hent in Hesc. discriminate.
Qed.

Lemma cancelled_search_restores_cursor_witness :
  let r0 := mkRow 0 (cs "abc") (cs "abc")
              [HL_NORMAL; HL_NORMAL; HL_NORMAL] false in
  let E := mkConfig 0 0 0 0 0 24 80 1 [r0] 0 None [] None in
  exists fs' E' rest used c,
    editorFind find_init [99; KEY_ESC; 100] E = Some (fs', E', rest) /\
    [99; KEY_ESC; 100] = used ++ c :: rest /\
    Forall (fun k => k <> KEY_ESC) used /\
    (c = KEY_ESC \/ c = KEY_ENTER) /\
    (c = KEY_ESC ->
     cx E' = cx E /\ cy E' = cy E /\
     rowoff E' = rowoff E /\ coloff E' = coloff E).
Proof.
  intros r0 E.
  destruct (editorFind find_init [99; KEY_ESC; 100] E)
    as [[[fs' E'] rest]|] eqn:H; [|vm_compute in H; discriminate].
  destruct (cancelled_search_restores_cursor find_init [99; KEY_ESC; 100] E
              fs' E' rest) as (used & c & Hk);
    [split; reflexivity | repeat constructor
    | split; vm_compute; split; discriminate | simpl; lia
    | reflexivity | reflexivity | exact H |].
  exists fs', E', rest, used, c. split; [reflexivity | exact Hk].
Defined.

(** ** The cursor stays inside the document *)

(** [cursor_ok] read off the characters of the rows. *)
Lemma cursor_ok_chars (E : editorConfig) :
  numrows E = Z.of_nat (length (row E)) ->
  cursor_ok E <->
  (0 <= cy E <= numrows E /\
   0 <= cx E
   <= Z.of_nat (length (nth (Z.to_nat (cy E)) (map chars (row E)) []))).
Proof.
  intros Hn. unfold cursor_ok, current_row.
  assert (Hlen : Z.of_nat
                   (length (nth (Z.to_nat (cy E)) (map chars (row E)) []))
                 = if cy E >=? numrows E then 0
                   else match nth_error (row E) (Z.to_nat (cy E)) with
                        | Some r => size r
                        | None => 0
                        end).
  { destruct (Z.geb_spec (cy E) (numrows E)) as [Hge|Hlt].
    - destruct (Z.lt_ge_cases (cy E) 0) as [Hneg|Hpos].
      + replace (Z.to_nat (cy E)) with O by lia.
        destruct (row E) as [|r0 rows]; [reflexivity|]. simpl in Hn. lia.
      + rewrite nth_overflow; [reflexivity|]. rewrite length_map. lia.
    - destruct (nth_error (row E) (Z.to_nat (cy E))) as [r|] eqn:Hr.
      + rewrite (nth_error_nth _ _ _ (map_nth_error chars _ _ Hr)).
        reflexivity.
      + apply nth_error_None in Hr.
        rewrite nth_overflow; [reflexivity|]. rewrite length_map. lia. }
  rewrite Hlen.
  destruct (cy E >=? numrows E); [tauto|].
  destruct (nth_error (row E) (Z.to_nat (cy E))); tauto.
Qed.

Lemma nth_insert_middle {A : Type} (l : list A) (n : nat) (x d : A) :
  (n <= length l)%nat -> nth n (firstn n l ++ x :: skipn n l) d = x.
Proof.
  intros Hn. rewrite app_nth2; rewrite length_firstn; [|lia].
  replace (n - Nat.min n (length l))%nat with O by lia. reflexivity.
Qed.

Lemma editorInsertNewline_cursor_ok (E : editorConfig) :
  doc_ok E -> cursor_ok E -> cursor_ok (editorInsertNewline E).
Proof.
  intros Hd Hc. pose proof (editorInsertNewline_doc_ok E Hd) as [Hn' _].
  pose proof Hd as [Hn _]. pose proof Hc as [Hcy Hcx].
  apply cursor_ok_chars; [exact Hn'|].
  assert (Hgoal : cx (editorInsertNewline E) = 0 /\
                  cy (editorInsertNewline E) = cy E + 1 /\
                  numrows (editorInsertNewline E) = numrows E + 1).
  { destruct (Z.eq_dec (cy E) (numrows E)) as [Hlast|Hnl].
    - rewrite current_row_none in Hcx by lia.
      assert (Hx0 : cx E = 0) by lia.
      unfold editorInsertNewline. rewrite Hx0. change (0 =? 0) with true.
      cbv iota zeta.
      destruct (editorInsertRow_text E (cy E) []) as (_ & A & _ & B & _);
        [lia|].
      cbv zeta in A, B. cbn [cx cy numrows set_cursor]. rewrite A, B. auto.
    - destruct (current_row_some E Hn) as (r & Hr & Hnth); [lia|].
      rewrite Hr in Hcx.
      destruct (editorInsertNewline_text E r Hn (proj1 Hcy) Hnth Hcx)
        as (_ & A & B & C).
      auto. }
  destruct Hgoal as (-> & -> & ->). split; [lia|]. split; [lia|].
  apply Nat2Z.is_nonneg.
Qed.

Lemma editorInsertChar_cursor_ok (E : editorConfig) (c : ascii) :
  doc_ok E -> cursor_ok E -> cursor_ok (editorInsertChar E c).
Proof.
  intros Hd Hc. pose proof (editorInsertChar_doc_ok E c Hd) as [Hn' _].
  pose proof Hd as [Hn _]. pose proof Hc as [Hcy Hcx].
  apply cursor_ok_chars; [exact Hn'|].
  unfold editorInsertChar in *. cbv zeta in *.
  set (E1 := if cy E =? numrows E then editorInsertRow E (numrows E) []
             else E) in *.
  assert (H1 : doc_ok E1 /\ cx E1 = cx E /\ cy E1 = cy E /\
               exists r, nth_error (row E1) (Z.to_nat (cy E)) = Some r /\
                         0 <= cx E <= size r).
  { subst E1. destruct (Z.eqb_spec (cy E) (numrows E)) as [Hlast|Hnl].
    - split; [now apply editorInsertRow_doc_ok|].
      destruct (editorInsertRow_text E (numrows E) [])
        as (A & _ & B & C & _); [lia|].
      cbv zeta in A, B, C. split; [exact B|]. split; [exact C|].
      rewrite current_row_none in Hcx by lia.
      assert (Hnth : nth_error (map chars (row (editorInsertRow E (numrows E) [])))
                       (Z.to_nat (cy E)) = Some []).
      { rewrite A, Hlast, Hn, Nat2Z.id.
        rewrite <- (length_map chars (row E)).
        rewrite firstn_all, skipn_all.
        rewrite nth_error_app2 by lia. now rewrite Nat.sub_diag. }
      apply nth_error_map_chars in Hnth. destruct Hnth as (r & Hr & Hcs).
      exists r. split; [exact Hr|]. unfold size. rewrite Hcs. simpl. lia.
    - split; [exact Hd|]. split; [reflexivity|]. split; [reflexivity|].
      destruct (current_row_some E Hn) as (r & Hr & Hnth); [lia|].
      rewrite Hr in Hcx. eauto. }
  clearbody E1. destruct H1 as (Hd1 & Hx1 & Hy1 & r & Hr & Hcxr).
  rewrite Hx1, Hy1 in *.
  pose proof (editorRowInsertChar_chars E1 (Z.to_nat (cy E)) (cx E) c r Hr
                Hcxr) as Hchars.
  cbn [cx cy numrows row set_cursor] in *.
  set (E2 := editorRowInsertChar E1 (Z.to_nat (cy E)) (cx E) c) in *.
  assert (Hfr : cx E2 = cx E /\ cy E2 = cy E).
  { subst E2. unfold editorRowInsertChar. rewrite Hr. cbv zeta.
    set (E3 := set_row E1 _).
    destruct (editorUpdateRow_frame E3 (Z.to_nat (cy E)))
      as (A & B & _). cbv zeta in A, B.
    cbn [cx cy set_dirty]. rewrite A, B. subst E3. simpl. auto. }
  destruct Hfr as [-> ->].
  assert (Hlt : (Z.to_nat (cy E) < length (map chars (row E1)))%nat).
  { rewrite length_map. apply nth_error_Some. congruence. }
  rewrite Hchars, nth_update_nth.
  rewrite Nat.eqb_refl. cbn [andb].
  destruct (Nat.ltb_spec (Z.to_nat (cy E)) (length (map chars (row E1))));
    [|lia].
  rewrite length_app, length_firstn. cbn [length]. rewrite length_skipn.
  unfold size in Hcxr.
  assert (Hy : 0 <= cy E < numrows E2).
  { rewrite Hn'. rewrite <- (length_map chars (row E2)), Hchars.
    rewrite update_nth_length. lia. }
  lia.
Qed.

Lemma editorRowDelChar_cursor (E : editorConfig) (n : nat) (a : Z) :
  cx (editorRowDelChar E n a) = cx E /\ cy (editorRowDelChar E n a) = cy E.
Proof.
  unfold editorRowDelChar.
  destruct (nth_error (row E) n) as [r|]; [|auto].
  destruct ((a <? 0) || (a >=? size r))%bool; [auto|].
  cbv zeta. set (E3 := set_row E _).
  destruct (editorUpdateRow_frame E3 n) as (A & B & _). cbv zeta in A, B.
  cbn [cx cy set_dirty]. rewrite A, B. subst E3. simpl. auto.
Qed.

Lemma editorDelChar_cursor_ok (E : editorConfig) :
  doc_ok E -> cursor_ok E -> cursor_ok (editorDelChar E).
Proof.
  intros Hd Hc. pose proof (editorDelChar_doc_ok E Hd) as [Hn' _].
  pose proof Hd as [Hn _]. pose proof Hc as [Hcy Hcx].
  unfold editorDelChar in *.
  destruct (Z.eqb_spec (cy E) (numrows E)) as [Hlast|Hnl]; [exact Hc|].
  destruct ((cx E =? 0) && (cy E =? 0))%bool eqn:H00; [exact Hc|].
  destruct (current_row_some E Hn) as (r & Hr & Hnth); [lia|].
  rewrite Hr in Hcx. rewrite Hnth in *.
  destruct (Z.gtb_spec (cx E) 0) as [Hpos|Hzero].
  - cbv zeta in *. apply cursor_ok_chars; [exact Hn'|].
    destruct (editorRowDelChar_cursor E (Z.to_nat (cy E)) (cx E - 1))
      as [Hx Hy].
    pose proof (editorRowDelChar_chars E (Z.to_nat (cy E)) (cx E - 1) r Hnth)
      as Hchars.
    cbn [cx cy numrows row set_cursor] in *.
    set (E1 := editorRowDelChar E (Z.to_nat (cy E)) (cx E - 1)) in *.
    rewrite Hx, Hy. rewrite Hchars by lia.
    assert (Hlen : length (map chars (row E1)) = length (row E)).
    { rewrite Hchars by lia. rewrite update_nth_length. apply length_map. }
    rewrite length_map in Hlen.
    rewrite nth_update_nth, Nat.eqb_refl. cbn [andb].
    rewrite length_map.
    destruct (Nat.ltb_spec (Z.to_nat (cy E)) (length (row E))); [|lia].
    rewrite length_app, length_firstn, length_skipn.
    unfold size in Hcx. lia.
  - assert (Hx0 : cx E = 0) by lia.
    assert (Hypos : 0 < cy E).
    { rewrite Hx0 in H00. change (0 =? 0) with true in H00.
      cbn [andb] in H00. apply Z.eqb_neq in H00. lia. }
    destruct (nth_error (row E) (Z.to_nat (cy E - 1))) as [up|] eqn:Hup;
      [|apply nth_error_None in Hup; lia].
    cbv zeta in *. apply cursor_ok_chars; [exact Hn'|].
    set (E1 := set_cursor E (size up) (cy E)) in *.
    assert (Hup1 : nth_error (row E1) (Z.to_nat (cy E1 - 1)) = Some up)
      by exact Hup.
    destruct (editorRowAppendString_text E1 (Z.to_nat (cy E1 - 1)) (chars r)
                up Hup1) as (A & B & C & D).
    cbv zeta in A, B, C, D.
    set (E2 := editorRowAppendString E1 (Z.to_nat (cy E1 - 1)) (chars r)) in *.
    change (cx E1) with (size up) in C. change (cy E1) with (cy E) in *.
    change (numrows E1) with (numrows E) in B.
    change (row E1) with (row E) in A.
    destruct (editorDelRow_text E2 (cy E2)) as (F & G & H & I); [lia|].
    cbv zeta in F, G, H, I.
    set (E3 := editorDelRow E2 (cy E2)) in *.
    cbn [cx cy numrows row set_cursor] in *.
    rewrite H, I, C, D, G, B, F, A, D.
    split; [lia|]. split; [unfold size; lia|].
    assert (Hlt : (Z.to_nat (cy E - 1) < Z.to_nat (cy E))%nat) by lia.
    rewrite app_nth1.
    2:{ rewrite length_firstn, update_nth_length, length_map. lia. }
    rewrite nth_firstn.
    destruct (Nat.ltb_spec (Z.to_nat (cy E - 1)) (Z.to_nat (cy E))); [|lia].
    rewrite nth_update_nth, Nat.eqb_refl. cbn [andb].
    rewrite length_map.
    destruct (Nat.ltb_spec (Z.to_nat (cy E - 1)) (length (row E))); [|lia].
    rewrite length_app. unfold size. lia.
Qed.

(** *** Saving and searching keep the state in order *)

Lemma erase_hl_window (E E' : editorConfig) :
  erase_hl E' = erase_hl E ->
  rowoff E' = rowoff E /\ coloff E' = coloff E /\
  screenrows E' = screenrows E /\ screencols E' = screencols E.
Proof.
  intros H. unfold erase_hl, set_row in H.
  injection H as _ _ _ Hro Hco Hsr Hsc _ _ _ _ _ _. auto.
Qed.

Lemma editorSelectSyntaxHighlight_ok (E : editorConfig) :
  editor_ok E -> editor_ok (editorSelectSyntaxHighlight E).
Proof.
  intros ((Hn & Hi) & Hrows & Hcur & Hoff & Hscr).
  destruct (editorSelectSyntaxHighlight_frame E)
    as (F1 & F2 & F3 & _ & _ & _ & F7 & F8).
  cbv zeta in F1, F2, F3, F7, F8.
  assert (H : (doc_ok (editorSelectSyntaxHighlight E) /\
               rows_ok (editorSelectSyntaxHighlight E)) /\
              rowoff (editorSelectSyntaxHighlight E) = rowoff E /\
              screenrows (editorSelectSyntaxHighlight E) = screenrows E).
  { unfold editorSelectSyntaxHighlight. cbv zeta.
    change (filename (set_syntax E None)) with (filename E).
    destruct (filename E) as [fname|];
      [|split; [split; [split|]; assumption | split; reflexivity]].
    destruct (find_syntax HLDB fname) as [s|];
      [|split; [split; [split|]; assumption | split; reflexivity]].
    set (E0 := set_syntax (set_syntax E None) (Some s)).
    change (numrows (set_syntax E None)) with (numrows E0).
    assert (Hi0 : map idx (row E0) = seq 0 (length (row E0))) by exact Hi.
    assert (Hn0 : numrows E0 = Z.of_nat (length (row E0))) by exact Hn.
    destruct (update_all_syntax_idx (Z.to_nat (numrows E0)) O E0)
      as (Hi' & Hl' & Hs' & Hn').
    destruct (erase_hl_window _ _
                (update_all_syntax_erase (Z.to_nat (numrows E0)) O E0))
      as (W1 & _ & W3 & _).
    split; [split|].
    - split; [now rewrite Hn', Hl' | now rewrite Hi', Hl'].
    - apply update_all_syntax_rows_ok; auto. lia.
    - split; [exact W1 | exact W3]. }
  destruct H as ((Hd' & Hr') & Ho' & Hs').
  split; [exact Hd'|]. split; [exact Hr'|].
  split; [now apply (cursor_ok_same_text E)|].
  split; [now rewrite Ho' | now rewrite Hs'].
Qed.

Lemma editor_ok_same_rows (E E' : editorConfig) :
  editor_ok E -> row E' = row E -> numrows E' = numrows E ->
  cx E' = cx E -> cy E' = cy E -> screenrows E' = screenrows E ->
  0 <= rowoff E' -> editor_ok E'.
Proof.
  intros ((Hn & Hi) & Hrows & Hcur & Hoff & Hscr) Hr Hnum Hx Hy Hs Ho.
  split; [split; rewrite ?Hnum, Hr; assumption|].
  split; [unfold rows_ok; now rewrite Hr|].
  split; [apply (cursor_ok_same_text E); auto; now rewrite Hr|].
  split; [exact Ho | now rewrite Hs].
Qed.

Lemma editorRefreshScreen_ok (E : editorConfig) :
  editor_ok E ->
  editor_ok (editorRefreshScreen E) /\
  rowoff (editorRefreshScreen E) <= cy E /\
  dirty (editorRefreshScreen E) = dirty E.
Proof.
  intros Hok. pose proof Hok as (_ & _ & Hcur & Hoff & Hscr).
  split; [|split; [|reflexivity]].
  - apply (editor_ok_same_rows E); auto.
    apply editorScroll_rowoff; [exact Hoff | apply Hcur].
  - unfold editorRefreshScreen, editorScroll. cbv zeta. cbn [rowoff].
    scroll_cases; lia.
Qed.

(** The prompt without a callback touches nothing that matters here. *)
Lemma editorPrompt_plain_ok (fmt : list ascii -> list ascii)
  (keys : list Z) (buf : list ascii) (E : editorConfig)
  (res : option (list ascii)) (u : unit) (E' : editorConfig)
  (rest : list Z) :
  editor_ok E ->
  editorPrompt unit None fmt keys buf tt E = Some (res, u, E', rest) ->
  (editor_ok E' /\ dirty E' = dirty E /\ row E' = row E) /\
  exists used c, keys = used ++ c :: rest.
Proof.
  intros Hok H. pose proof Hok as (_ & _ & Hcur & Hoff & Hscr).
  set (P := fun (_ : unit) (X : editorConfig) =>
              row X = row E /\ numrows X = numrows E /\ cx X = cx E /\
              cy X = cy E /\ screenrows X = screenrows E /\
              dirty X = dirty E /\ 0 <= rowoff X).
  assert (Hmsg : forall s X m, P s X -> P s (editorSetStatusMessage X m))
    by (intros s X m HX; exact HX).
  assert (Hscroll : forall s X, P s X -> P s (editorRefreshScreen X)).
  { unfold P; cbv beta. intros s X (A & B & C & D & F & G & I).
    repeat split; auto.
    apply editorScroll_rowoff; [exact I | rewrite D; apply Hcur]. }
  assert (Hcb : forall s X b c,
             P s X -> c <> KEY_ESC -> (c <> KEY_ENTER \/ b = []) ->
             P (fst (run_callback unit None s X b c))
               (snd (run_callback unit None s X b c)))
    by (intros s X b c HX _ _; exact HX).
  assert (Hend : forall s X b c,
             P s X -> c = KEY_ESC \/ c = KEY_ENTER ->
             P (fst (run_callback unit None s X b c))
               (snd (run_callback unit None s X b c)))
    by (intros s X b c HX _; exact HX).
  assert (HP : P tt E) by (subst P; cbv beta; repeat split; auto).
  pose proof (editorPrompt_inv unit None fmt P P Hmsg Hscroll Hcb Hend
                keys buf tt E res u E' rest HP H) as HH.
  subst P. cbv beta in HH.
  destruct HH as ((A & B & C & D & F & G & I) & used & c & Hk & _).
  split; [|eauto]. split; [|auto].
  now apply (editor_ok_same_rows E).
Qed.

Lemma save_to_file_ok (io : save_io) (E : editorConfig) :
  editor_ok E -> editor_ok (fst (save_to_file io E)).
Proof.
  intros Hok. unfold save_to_file.
  destruct (editorRowsToString E) as [buf len].
  destruct (open_ok io && ftruncate_ok io && (write_ret io =? len))%bool;
    exact Hok.
Qed.

Lemma editorSave_ok (io : save_io) (keys : list Z) (E E' : editorConfig)
  (out : option (list ascii)) :
  editor_ok E -> editorSave io keys E = Some (E', out) ->
  editor_ok E' /\ exists used, keys = used ++ keys_after_save keys E.
Proof.
  intros Hok H. unfold editorSave, keys_after_save in *.
  destruct (filename E) as [f|].
  - injection H as H. split; [|now exists []].
    replace E' with (fst (save_to_file io E)) by now rewrite H.
    apply (save_to_file_ok io E Hok).
  - destruct (editorPrompt unit None save_prompt keys [] tt E)
      as [[[[res u] E1] rest]|] eqn:Hp; [|discriminate].
    destruct (editorPrompt_plain_ok save_prompt keys [] E res u E1 rest Hok Hp)
      as ((Hok1 & _) & used & c & ->).
    split.
    + destruct res as [name|].
      * injection H as H.
        match type of H with
        | ?x = _ => replace E' with (fst x) by now rewrite H
        end.
        apply save_to_file_ok.
        apply editorSelectSyntaxHighlight_ok.
        apply (editor_ok_same_rows E1); auto; apply Hok1.
      * injection H as <- _. exact Hok1.
    + exists (used ++ [c]). now rewrite <- app_assoc.
Qed.

(** *** Editing leaves the window alone *)

Lemma window_editorUpdateRow (E : editorConfig) (n : nat) :
  window (editorUpdateRow E n) = window E.
Proof.
  unfold editorUpdateRow. destruct (nth_error (row E) n) as [r|]; [|reflexivity].
  cbv zeta. set (E1 := set_row E _).
  destruct (erase_hl_window _ _ (editorUpdateSyntax_erase E1 n))
    as (A & B & C & D).
  unfold window. now rewrite A, B, C, D.
Qed.

Lemma window_editorInsertRow (E : editorConfig) (a : Z) (s : list ascii) :
  window (editorInsertRow E a s) = window E.
Proof.
  unfold editorInsertRow. destruct (_ || _)%bool; [reflexivity|].
  cbv zeta.
  match goal with
  | |- context [editorUpdateRow ?X ?n] =>
      change (window (editorUpdateRow X n) = window X);
      apply window_editorUpdateRow
  end.
Qed.

Lemma window_editorDelRow (E : editorConfig) (a : Z) :
  window (editorDelRow E a) = window E.
Proof.
  unfold editorDelRow. destruct (_ || _)%bool; reflexivity.
Qed.

Lemma window_set_chars (E : editorConfig) (n : nat) (r : erow)
  (cs' : list ascii) :
  window (editorUpdateRow
            (set_row E (update_nth (row E) n (set_chars r cs'))) n)
  = window E.
Proof. now rewrite window_editorUpdateRow. Qed.

Lemma window_editorRowInsertChar (E : editorConfig) (n : nat) (a : Z)
  (c : ascii) :
  window (editorRowInsertChar E n a c) = window E.
Proof.
  unfold editorRowInsertChar.
  destruct (nth_error (row E) n) as [r|]; [|reflexivity].
  cbv zeta. apply (window_set_chars E n r).
Qed.

Lemma window_editorRowAppendString (E : editorConfig) (n : nat)
  (s : list ascii) :
  window (editorRowAppendString E n s) = window E.
Proof.
  unfold editorRowAppendString.
  destruct (nth_error (row E) n) as [r|]; [|reflexivity].
  cbv zeta. apply (window_set_chars E n r).
Qed.

Lemma window_editorRowDelChar (E : editorConfig) (n : nat) (a : Z) :
  window (editorRowDelChar E n a) = window E.
Proof.
  unfold editorRowDelChar.
  destruct (nth_error (row E) n) as [r|]; [|reflexivity].
  destruct (_ || _)%bool; [reflexivity|].
  cbv zeta. apply (window_set_chars E n r).
Qed.

Lemma window_editorInsertChar (E : editorConfig) (c : ascii) :
  window (editorInsertChar E c) = window E.
Proof.
  unfold editorInsertChar. cbv zeta.
  match goal with
  | |- window (set_cursor ?X _ _) = _ => change (window X = window E)
  end.
  rewrite window_editorRowInsertChar.
  destruct (cy E =? numrows E); [apply window_editorInsertRow | reflexivity].
Qed.

Lemma window_editorInsertNewline (E : editorConfig) :
  window (editorInsertNewline E) = window E.
Proof.
  unfold editorInsertNewline. cbv zeta.
  match goal with
  | |- window (set_cursor ?X _ _) = _ => change (window X = window E)
  end.
  destruct (cx E =? 0); [apply window_editorInsertRow|].
  destruct (nth_error (row E) (Z.to_nat (cy E))) as [r|]; [|reflexivity].
  set (E' := editorInsertRow E _ _).
  assert (HE' : window E' = window E) by apply window_editorInsertRow.
  clearbody E'.
  destruct (nth_error (row E') (Z.to_nat (cy E'))) as [r'|]; [|exact HE'].
  rewrite <- HE'. apply (window_set_chars E' _ r').
Qed.

Lemma window_editorDelChar (E : editorConfig) :
  window (editorDelChar E) = window E.
Proof.
  unfold editorDelChar.
  destruct (cy E =? numrows E); [reflexivity|].
  destruct (_ && _)%bool; [reflexivity|].
  destruct (nth_error (row E) (Z.to_nat (cy E))) as [r|]; [|reflexivity].
  destruct (cx E >? 0).
  - cbv zeta.
    match goal with
    | |- window (set_cursor ?X _ _) = _ => change (window X = window E)
    end.
    apply window_editorRowDelChar.
  - destruct (nth_error (row E) (Z.to_nat (cy E - 1))) as [up|];
      [|reflexivity].
    cbv zeta.
    match goal with
    | |- window (set_cursor ?X _ _) = _ => change (window X = window E)
    end.
    rewrite window_editorDelRow, window_editorRowAppendString. reflexivity.
Qed.

Lemma editor_ok_parts (E E' : editorConfig) :
  editor_ok E -> doc_ok E' -> rows_ok E' -> cursor_ok E' ->
  window E' = window E -> editor_ok E'.
Proof.
  intros (_ & _ & _ & Hoff & Hscr) Hd Hr Hc Hw.
  unfold window in Hw. injection Hw as Ho _ Hs _.
  split; [exact Hd|]. split; [exact Hr|]. split; [exact Hc|].
  rewrite Ho, Hs. auto.
Qed.

Lemma editorInsertNewline_ok (E : editorConfig) :
  editor_ok E -> editor_ok (editorInsertNewline E).
Proof.
  intros Hok. pose proof Hok as (Hd & Hr & Hc & _).
  apply (editor_ok_parts E _ Hok).
  - now apply editorInsertNewline_doc_ok.
  - now apply editorInsertNewline_rows_ok.
  - now apply editorInsertNewline_cursor_ok.
  - apply window_editorInsertNewline.
Qed.

Lemma editorInsertChar_ok (E : editorConfig) (c : ascii) :
  editor_ok E -> editor_ok (editorInsertChar E c).
Proof.
  intros Hok. pose proof Hok as (Hd & Hr & Hc & _).
  apply (editor_ok_parts E _ Hok).
  - now apply editorInsertChar_doc_ok.
  - now apply editorInsertChar_rows_ok.
  - now apply editorInsertChar_cursor_ok.
  - apply window_editorInsertChar.
Qed.

Lemma editorDelChar_ok (E : editorConfig) :
  editor_ok E -> editor_ok (editorDelChar E).
Proof.
  intros Hok. pose proof Hok as (Hd & Hr & Hc & _).
  apply (editor_ok_parts E _ Hok).
  - now apply editorDelChar_doc_ok.
  - now apply editorDelChar_rows_ok.
  - now apply editorDelChar_cursor_ok.
  - apply window_editorDelChar.
Qed.

Lemma editorMoveCursor_editor_ok (E : editorConfig) (key : Z) :
  doc_ok E -> rows_ok E -> 0 <= cy E <= numrows E -> 0 <= cx E ->
  0 <= rowoff E -> 0 < screenrows E ->
  editor_ok (editorMoveCursor E key).
Proof.
  intros [Hn Hi] Hr Hcy Hcx Hoff Hscr.
  destruct (editorMoveCursor_ok E key Hcy Hcx)
    as (A & B & C & _ & D & _ & F & _).
  cbv zeta in *.
  split; [split; rewrite ?C, B; assumption|].
  split; [unfold rows_ok; now rewrite B|].
  split; [exact A|]. split; [now rewrite D | now rewrite F].
Qed.

Lemma move_times_ok (n : nat) :
  forall (E : editorConfig) (key : Z),
    (0 < n)%nat ->
    doc_ok E -> rows_ok E -> 0 <= cy E <= numrows E -> 0 <= cx E ->
    0 <= rowoff E -> 0 < screenrows E ->
    editor_ok (move_times n E key).
Proof.
  induction n as [|n IH]; intros E key Hn Hd Hr Hcy Hcx Hoff Hscr; [lia|].
  cbn [move_times].
  pose proof (editorMoveCursor_editor_ok E key Hd Hr Hcy Hcx Hoff Hscr)
    as Hok.
  destruct n as [|n]; [exact Hok|].
  destruct Hok as (Hd1 & Hr1 & (Hcy1 & Hcx1) & Hoff1 & Hscr1).
  apply IH; auto; lia.
Qed.

(** *** One key *)

Lemma editorProcessKeypress_ok (io : save_io) (qt : Z) (fs : find_state)
  (E : editorConfig) (c : Z) (keys : list Z) :
  editor_ok E -> rowoff E <= cy E -> find_idle fs ->
  match editorProcessKeypress io qt fs E c keys with
  | Stepped q' fs' E' rest => editor_ok E' /\ find_idle fs'
  | Exited E' => E' = E
  | Starved => True
  | Overrun => False
  end.
Proof.
  intros Hok Hvis Hidle.
  pose proof Hok as (Hd & Hr & Hc & Hoff & Hscr).
  pose proof Hd as [Hn Hi]. pose proof Hc as [Hcy Hcx].
  unfold editorProcessKeypress.
  destruct (c =? KEY_ENTER).
  { split; [now apply editorInsertNewline_ok | exact Hidle]. }
  destruct (c =? CTRL_KEY 113).
  { destruct (negb (dirty E =? 0) && (qt >? 0))%bool; [|reflexivity].
    split; [exact Hok | exact Hidle]. }
  destruct (c =? CTRL_KEY 115).
  { destruct (editorSave io keys E) as [[E' out]|] eqn:Hs; [|exact I].
    split; [|exact Hidle]. now apply (editorSave_ok io keys E E' out). }
  destruct (c =? HOME_KEY).
  { split; [|exact Hidle]. apply (editor_ok_parts E _ Hok); auto.
    split; cbn [cx cy numrows set_cursor]; [exact Hcy|].
    change (current_row (set_cursor E 0 (cy E))) with (current_row E). lia. }
  destruct (c =? END_KEY).
  { split; [|exact Hidle].
    destruct (Z.ltb_spec (cy E) (numrows E)); [|exact Hok].
    destruct (nth_error (row E) (Z.to_nat (cy E))) as [r|] eqn:Hrow;
      [|exact Hok].
    apply (editor_ok_parts E _ Hok); auto.
    split; cbn [cx cy numrows set_cursor]; [exact Hcy|].
    change (current_row (set_cursor E (size r) (cy E)))
      with (current_row E).
    unfold current_row. destruct (Z.geb_spec (cy E) (numrows E)); [lia|].
    rewrite Hrow. unfold size. lia. }
  destruct (c =? CTRL_KEY 102).
  { destruct (editorFind fs keys E) as [[[fs' E'] rest]|] eqn:Hf; [|exact I].
    destruct Hidle as [Hlm Hsv].
    destruct (editorFind_done fs keys E fs' E' rest Hd Hr Hc Hoff Hlm Hsv Hf)
      as (((F1 & F2 & F3 & F4 & F5 & F6) & Hc' & Ho' & Hr' & Hl' & _ & Hs')
          & _).
    split; [|split; assumption].
    split; [split; rewrite ?F1, Hr'; assumption|].
    split; [unfold rows_ok; now rewrite Hr'|].
    split; [exact Hc'|]. split; [exact Ho' | now rewrite F5]. }
  destruct ((c =? BACKSPACE) || (c =? CTRL_KEY 104) || (c =? DEL_KEY))%bool.
  { cbv zeta. split; [|exact Hidle]. apply editorDelChar_ok.
    destruct (c =? DEL_KEY); [|exact Hok].
    apply editorMoveCursor_editor_ok; auto; lia. }
  destruct ((c =? PAGE_UP) || (c =? PAGE_DOWN))%bool.
  { cbv zeta. destruct (Z.ltb_spec (screenrows E) 0); [lia|].
    split; [|exact Hidle].
    set (y := if rowoff E + screenrows E - 1 >? numrows E
              then numrows E else rowoff E + screenrows E - 1).
    assert (Hy : 0 <= y <= numrows E).
    { subst y.
      destruct (Z.gtb_spec (rowoff E + screenrows E - 1) (numrows E)); lia. }
    clearbody y.
    destruct (c =? PAGE_UP);
      apply move_times_ok; auto; cbn [cx cy numrows set_cursor]; lia. }
  destruct ((c =? ARROW_UP) || (c =? ARROW_DOWN) || (c =? ARROW_LEFT)
            || (c =? ARROW_RIGHT))%bool.
  { split; [|exact Hidle]. apply editorMoveCursor_editor_ok; auto; lia. }
  destruct ((c =? CTRL_KEY 108) || (c =? KEY_ESC))%bool.
  { split; [exact Hok | exact Hidle]. }
  split; [now apply editorInsertChar_ok | exact Hidle].
Qed.

Lemma editorPrompt_rest (S : Type)
  (callback : option (S -> editorConfig -> list ascii -> Z -> S * editorConfig))
  (fmt : list ascii -> list ascii) (keys : list Z) (buf : list ascii)
  (s : S) (E : editorConfig) (res : option (list ascii)) (s' : S)
  (E' : editorConfig) (rest : list Z) :
  editorPrompt S callback fmt keys buf s E = Some (res, s', E', rest) ->
  exists used c, keys = used ++ c :: rest.
Proof.
  intros H.
  destruct (editorPrompt_inv S callback fmt (fun _ _ => True)
              (fun _ _ => True)
              (fun _ _ _ _ => I) (fun _ _ _ => I)
              (fun _ _ _ _ _ _ _ => I) (fun _ _ _ _ _ _ => I)
              keys buf s E res s' E' rest I H)
    as (_ & used & c & Hk & _).
  eauto.
Qed.

(** The keys a call leaves are the end of the keys it was given; the
    counter goes down by one on a refused Ctrl-Q and back to
    [KILO_QUIT_TIMES] on every other key. *)
Lemma editorProcessKeypress_keys (io : save_io) (qt : Z) (fs : find_state)
  (E : editorConfig) (c : Z) (keys : list Z) (q' : Z) (fs' : find_state)
  (E' : editorConfig) (rest : list Z) :
  editorProcessKeypress io qt fs E c keys = Stepped q' fs' E' rest ->
  (exists used, keys = used ++ rest) /\
  ((c = CTRL_KEY 113 /\ dirty E <> 0 /\ 0 < qt /\ q' = qt - 1 /\
    rest = keys /\ E' = editorSetStatusMessage E (quit_warning qt)) \/
   (c <> CTRL_KEY 113 /\ q' = KILO_QUIT_TIMES)).
Proof.
  unfold editorProcessKeypress.
  destruct (Z.eqb_spec c KEY_ENTER) as [->|_].
  { intros H; injection H as <- _ _ <-.
    split; [now exists []|]. right. split; [discriminate | reflexivity]. }
  destruct (Z.eqb_spec c (CTRL_KEY 113)) as [->|Hq].
  { destruct (Z.eqb_spec (dirty E) 0) as [Hd0|Hd0]; cbn [negb andb];
      [discriminate|].
    destruct (Z.gtb_spec qt 0) as [Hq0|Hq0]; [|discriminate].
    intros H; injection H as <- _ <- <-.
    split; [now exists []|]. left. repeat split; auto. }
  assert (Hplain : forall X,
             Stepped KILO_QUIT_TIMES fs X keys = Stepped q' fs' E' rest ->
             (exists used, keys = used ++ rest) /\
             ((c = CTRL_KEY 113 /\ dirty E <> 0 /\ 0 < qt /\ q' = qt - 1 /\
               rest = keys /\ E' = editorSetStatusMessage E (quit_warning qt))
              \/ (c <> CTRL_KEY 113 /\ q' = KILO_QUIT_TIMES))).
  { intros X H; injection H as <- _ _ <-.
    split; [now exists []|]. right. auto. }
  destruct (c =? CTRL_KEY 115).
  { destruct (editorSave io keys E) as [[E1 out]|] eqn:Hs; [|discriminate].
    intros H; injection H as <- _ _ <-.
    split; [|right; auto].
    unfold editorSave, keys_after_save in *.
    destruct (filename E); [now exists []|].
    destruct (editorPrompt unit None save_prompt keys [] tt E)
      as [[[[res u] E2] rest2]|] eqn:Hp; [|discriminate].
    destruct (editorPrompt_rest _ _ _ _ _ _ _ _ _ _ _ Hp) as (used & k & ->).
    exists (used ++ [k]). now rewrite <- app_assoc. }
  destruct (c =? HOME_KEY); [apply Hplain|].
  destruct (c =? END_KEY); [apply Hplain|].
  destruct (c =? CTRL_KEY 102).
  { destruct (editorFind fs keys E) as [[[fs1 E1] rest1]|] eqn:Hf;
      [|discriminate].
    intros H; injection H as <- _ _ <-.
    split; [|right; auto].
    unfold editorFind in Hf.
    destruct (editorPrompt find_state (Some editorFindCallback) find_prompt
                keys [] fs E) as [[[[res s1] E2] rest2]|] eqn:Hp;
      [|discriminate].
    destruct (editorPrompt_rest _ _ _ _ _ _ _ _ _ _ _ Hp) as (used & k & ->).
    exists (used ++ [k]). rewrite <- app_assoc.
    destruct res; injection Hf as _ _ <-; reflexivity. }
  destruct ((c =? BACKSPACE) || (c =? CTRL_KEY 104) || (c =? DEL_KEY))%bool;
    [apply Hplain|].
  destruct ((c =? PAGE_UP) || (c =? PAGE_DOWN))%bool.
  { cbv zeta. destruct (screenrows E <? 0); [discriminate | apply Hplain]. }
  destruct ((c =? ARROW_UP) || (c =? ARROW_DOWN) || (c =? ARROW_LEFT)
            || (c =? ARROW_RIGHT))%bool; [apply Hplain|].
  destruct ((c =? CTRL_KEY 108) || (c =? KEY_ESC))%bool; apply Hplain.
Qed.

Lemma editorProcessKeypress_exit (io : save_io) (qt : Z) (fs : find_state)
  (E : editorConfig) (c : Z) (keys : list Z) (E' : editorConfig) :
  editorProcessKeypress io qt fs E c keys = Exited E' <->
  c = CTRL_KEY 113 /\ (dirty E = 0 \/ qt <= 0) /\ E' = E.
Proof.
  unfold editorProcessKeypress. split.
  - destruct (Z.eqb_spec c KEY_ENTER) as [->|_]; [discriminate|].
    destruct (Z.eqb_spec c (CTRL_KEY 113)) as [->|Hq].
    { destruct (Z.eqb_spec (dirty E) 0) as [Hd0|Hd0]; cbn [negb andb].
      - intros H; injection H as <-. auto.
      - destruct (Z.gtb_spec qt 0) as [Hq0|Hq0]; [discriminate|].
        intros H; injection H as <-. split; [reflexivity|]. split; [lia|].
        reflexivity. }
    destruct (c =? CTRL_KEY 115).
    { destruct (editorSave io keys E) as [[E1 out]|]; discriminate. }
    destruct (c =? HOME_KEY); [discriminate|].
    destruct (c =? END_KEY); [discriminate|].
    destruct (c =? CTRL_KEY 102).
    { destruct (editorFind fs keys E) as [[[fs1 E1] rest1]|]; discriminate. }
    destruct ((c =? BACKSPACE) || (c =? CTRL_KEY 104) || (c =? DEL_KEY))%bool;
      [discriminate|].
    destruct ((c =? PAGE_UP) || (c =? PAGE_DOWN))%bool.
    { cbv zeta. destruct (screenrows E <? 0); discriminate. }
    destruct ((c =? ARROW_UP) || (c =? ARROW_DOWN) || (c =? ARROW_LEFT)
              || (c =? ARROW_RIGHT))%bool; [discriminate|].
    destruct ((c =? CTRL_KEY 108) || (c =? KEY_ESC))%bool; discriminate.
  - intros (-> & Hq & ->).
    change (CTRL_KEY 113 =? KEY_ENTER) with false.
    change (CTRL_KEY 113 =? CTRL_KEY 113) with true. cbv iota.
    destruct (Z.eqb_spec (dirty E) 0) as [Hd0|Hd0]; cbn [negb andb];
      [reflexivity|].
    destruct (Z.gtb_spec qt 0) as [Hq0|Hq0]; [lia | reflexivity].
Qed.

(** *** The main loop *)

Lemma main_loop_ok (fuel : nat) :
  forall (ios : nat -> save_io) (qt : Z) (fs : find_state)
         (E : editorConfig) (keys : list Z),
    editor_ok E -> find_idle fs ->
    match main_loop fuel ios qt fs E keys with
    | RunExited E' _ => editor_ok E'
    | RunWaiting _ fs' E' => editor_ok E' /\ find_idle fs'
    | RunStarved => True
    | RunOverrun => False
    end.
Proof.
  induction fuel as [|f IH]; intros ios qt fs E keys Hok Hidle;
    cbn [main_loop]; [auto|].
  destruct keys as [|c keys]; [auto|].
  destruct (editorRefreshScreen_ok E Hok) as (Hok1 & Hvis & _).
  pose proof (editorProcessKeypress_ok (ios (length keys)) qt fs
                (editorRefreshScreen E) c keys Hok1 Hvis Hidle) as Hstep.
  destruct (editorProcessKeypress (ios (length keys)) qt fs
              (editorRefreshScreen E) c keys) as [E'|q' fs' E' rest| |].
  - now subst E'.
  - destruct Hstep as [Hok' Hidle']. now apply IH.
  - exact I.
  - exact Hstep.
Qed.

(** Every iteration takes a key, so any bound from the number of keys on
    gives the same run. *)
Lemma main_loop_fuel (n : nat) :
  forall (f1 f2 : nat) (ios : nat -> save_io) (qt : Z) (fs : find_state)
         (E : editorConfig) (keys : list Z),
    (length keys <= n)%nat -> (n <= f1)%nat -> (n <= f2)%nat ->
    main_loop f1 ios qt fs E keys = main_loop f2 ios qt fs E keys.
Proof.
  induction n as [|n IH]; intros f1 f2 ios qt fs E keys Hk H1 H2.
  - destruct keys; [|simpl in Hk; lia]. now destruct f1, f2.
  - destruct keys as [|c keys]; [now destruct f1, f2|].
    destruct f1 as [|f1]; [lia|]. destruct f2 as [|f2]; [lia|].
    cbn [main_loop].
    destruct (editorProcessKeypress (ios (length keys)) qt fs
                (editorRefreshScreen E) c keys)
      as [E1|q1 fs1 E1 rest1| |] eqn:Hstep; try reflexivity.
    apply editorProcessKeypress_keys in Hstep.
    destruct Hstep as ((used & Hused) & _).
    apply IH; try lia.
    apply (f_equal (@length Z)) in Hused. rewrite length_app in Hused.
    simpl in Hk. lia.
Qed.

Lemma repeat_snoc {A : Type} (x : A) (n : nat) :
  repeat x n ++ [x] = repeat x (S n).
Proof.
  induction n as [|n IH]; simpl; [reflexivity|]. now rewrite IH.
Qed.

(** The counter is [KILO_QUIT_TIMES] less the number of Ctrl-Q keys just
    read. *)
Lemma main_loop_quit (fuel : nat) :
  forall (ios : nat -> save_io) (qt : Z) (fs : find_state)
         (E : editorConfig) (keys done : list Z) (E' : editorConfig)
         (rest : list Z),
    0 <= qt <= KILO_QUIT_TIMES ->
    (exists pre,
        done = pre ++ repeat (CTRL_KEY 113) (Z.to_nat (KILO_QUIT_TIMES - qt))) ->
    main_loop fuel ios qt fs E keys = RunExited E' rest ->
    dirty E' <> 0 ->
    exists pre, done ++ keys = pre ++ repeat (CTRL_KEY 113) 4 ++ rest.
Proof.
  induction fuel as [|f IH];
    intros ios qt fs E keys done E' rest Hqt (pre & Hdone) H Hdirty;
    cbn [main_loop] in H; [discriminate|].
  destruct keys as [|c keys]; [discriminate|].
  destruct (editorProcessKeypress (ios (length keys)) qt fs
              (editorRefreshScreen E) c keys)
    as [E1|q1 fs1 E1 rest1| |] eqn:Hstep; try discriminate.
  - injection H as <- <-.
    apply editorProcessKeypress_exit in Hstep.
    destruct Hstep as (-> & Hq & ->).
    change (dirty (editorRefreshScreen E)) with (dirty E) in *.
    assert (Hq0 : qt = 0) by lia. subst qt.
    exists pre. rewrite Hdone, <- app_assoc.
    change (Z.to_nat (KILO_QUIT_TIMES - 0)) with 3%nat.
    reflexivity.
  - apply editorProcessKeypress_keys in Hstep.
    destruct Hstep as ((used & Hused) & Hcase).
    destruct (IH ios q1 fs1 E1 rest1 (done ++ c :: used) E' rest)
      as (pre' & Hpre'); auto.
    + destruct Hcase as [(_ & _ & Hpos & -> & _)|(_ & ->)];
        unfold KILO_QUIT_TIMES in *; lia.
    + destruct Hcase as [(-> & _ & Hpos & -> & Hrest & _)|(_ & ->)].
      * assert (used = []).
        { rewrite Hrest in Hused.
          apply (f_equal (@length Z)) in Hused.
          rewrite length_app in Hused. destruct used; [reflexivity|].
          simpl in Hused. lia. }
        subst used. exists pre. rewrite Hdone, <- app_assoc.
        rewrite repeat_snoc. do 2 f_equal. unfold KILO_QUIT_TIMES in *. lia.
      * exists (done ++ c :: used).
        change (Z.to_nat (KILO_QUIT_TIMES - KILO_QUIT_TIMES)) with O.
        simpl. now rewrite app_nil_r.
    + exists pre'. rewrite <- Hpre', Hused, <- app_assoc. reflexivity.
Qed.

Lemma warn_step (io : save_io) (qt : Z) (fs : find_state)
  (E : editorConfig) (keys : list Z) :
  dirty E <> 0 -> 0 < qt ->
  editorProcessKeypress io qt fs E (CTRL_KEY 113) keys
  = Stepped (qt - 1) fs (editorSetStatusMessage E (quit_warning qt)) keys.
Proof.
  intros Hd Hq. unfold editorProcessKeypress.
  change (CTRL_KEY 113 =? KEY_ENTER) with false.
  change (CTRL_KEY 113 =? CTRL_KEY 113) with true. cbv iota.
  destruct (Z.eqb_spec (dirty E) 0) as [Hd0|Hd0]; [congruence|].
  destruct (Z.gtb_spec qt 0) as [Hq0|Hq0]; [reflexivity | lia].
Qed.

(** The main loop leaves a buffer with unsaved changes only on the fourth
    of four Ctrl-Q keys in a row; four in a row do leave it, with the rows
    as they were; and a buffer without unsaved changes is left on the
    first. *)
Theorem unsaved_changes_need_four_quit_presses :
  forall (ios : nat -> save_io) (E : editorConfig),
    (forall keys E' rest,
        run ios E keys = RunExited E' rest -> dirty E' <> 0 ->
        exists pre, keys = pre ++ repeat (CTRL_KEY 113) 4 ++ rest) /\
    (forall rest,
        dirty E <> 0 ->
        exists E',
          run ios E (repeat (CTRL_KEY 113) 4 ++ rest) = RunExited E' rest /\
          row E' = row E /\ dirty E' = dirty E) /\
    (forall rest,
        dirty E = 0 ->
        run ios E (CTRL_KEY 113 :: rest)
        = RunExited (editorRefreshScreen E) rest).
Proof.
  intros ios E. repeat split.
  - intros keys E' rest H Hd. unfold run in H.
    apply (main_loop_quit (length keys) ios KILO_QUIT_TIMES find_init E keys
             [] E' rest); auto.
    + unfold KILO_QUIT_TIMES; lia.
    + exists []. reflexivity.
  - intros rest Hd. unfold run.
    cbn [repeat app length main_loop].
    rewrite warn_step by (auto; reflexivity).
    rewrite warn_step by (auto; reflexivity).
    rewrite warn_step by (auto; reflexivity).
    match goal with
    | |- context [editorProcessKeypress ?io ?q ?fs ?X ?c ?k] =>
        assert (He : editorProcessKeypress io q fs X c k = Exited X)
    end.
    { apply editorProcessKeypress_exit. split; [reflexivity|].
      split; [right; vm_compute; discriminate | reflexivity]. }
    rewrite He. eexists. split; [reflexivity|]. split; reflexivity.
  - intros rest Hd. unfold run. cbn [length main_loop].
    match goal with
    | |- context [editorProcessKeypress ?io ?q ?fs ?X ?c ?k] =>
        assert (He : editorProcessKeypress io q fs X c k = Exited X)
    end.
    { apply editorProcessKeypress_exit. split; [reflexivity|].
      split; [now left | reflexivity]. }
    now rewrite He.
Qed.

Lemma unsaved_changes_need_four_quit_presses_witness :
  let ios := fun _ : nat => mkSaveIO true true 0 [] in
  let E := mkConfig 0 0 0 0 0 22 80 0 [] 1 None [] None in
  exists E',
    run ios E (repeat (CTRL_KEY 113) 4 ++ [97]) = RunExited E' [97] /\
    row E' = row E /\ dirty E' = dirty E.
Proof.
  intros ios E.
  apply (unsaved_changes_need_four_quit_presses ios E). discriminate.
Defined.

(** From a state in order (the rows, the cursor inside the document, a
    window of at least one line) the main loop, whatever keys it reads and
    whatever the system answers to a save, reaches only states in order, and
    its page loop always ends. *)
Theorem main_loop_keeps_editor_in_order :
  forall (ios : nat -> save_io) (E : editorConfig) (keys : list Z),
    editor_ok E ->
    match run ios E keys with
    | RunExited E' _ => editor_ok E'
    | RunWaiting _ fs' E' => editor_ok E' /\ find_idle fs'
    | RunStarved => True
    | RunOverrun => False
    end.
Proof.
  intros ios E keys Hok. unfold run.
  apply main_loop_ok; [exact Hok | split; reflexivity].
Qed.

Lemma main_loop_keeps_editor_in_order_witness :
  let ios := fun _ : nat => mkSaveIO true true 0 [] in
  match run ios (initEditor 24 80) [97; KEY_ENTER; ARROW_UP; PAGE_DOWN] with
  | RunExited E' _ => editor_ok E'
  | RunWaiting _ fs' E' => editor_ok E' /\ find_idle fs'
  | RunStarved => True
  | RunOverrun => False
  end.
Proof.
  intros ios.
  apply (main_loop_keeps_editor_in_order ios (initEditor 24 80)
           [97; KEY_ENTER; ARROW_UP; PAGE_DOWN]).
  split; [split; reflexivity|]. split; [constructor|].
  split; [split; vm_compute; split; discriminate|].
  split; [simpl; lia | reflexivity].
Defined.

(** ** What the scan writes *)

Lemma Forall_update_nth {A : Type} (P : A -> Prop) (l : list A) (i : nat)
  (v : A) :
  Forall P l -> P v -> Forall P (update_nth l i v).
Proof.
  intros Hl Hv. revert i. induction Hl as [|h t Hh Ht IH]; intros [|i];
    simpl; constructor; auto.
Qed.

Lemma Forall_memset {A : Type} (P : A -> Prop) (l : list A) (i n : nat)
  (v : A) :
  Forall P l -> P v -> Forall P (memset l i v n).
Proof.
  intros Hl Hv. revert i n. induction Hl as [|h t Hh Ht IH]; intros i n;
    simpl; [constructor|].
  destruct i as [|i]; [destruct n as [|n]|]; constructor; auto.
Qed.

Lemma kw_class_not_match (kw : list ascii) : kw_class kw <> HL_MATCH.
Proof. unfold kw_class. destruct (kw_is_kw2 kw); discriminate. Qed.

Lemma scan_body_no_match (s : editorSyntax) (rnd : list ascii)
  (st : scan_state) :
  Forall (fun h => h <> HL_MATCH) (sc_hl st) ->
  match scan_body s rnd st with
  | Continue st' | Break st' => Forall (fun h => h <> HL_MATCH) (sc_hl st')
  end.
Proof.
  intros H.
  destruct (scan_body s rnd st) as [st'|st'] eqn:Hb; split_body Hb;
    cbn [sc_hl];
    repeat first [ apply Forall_update_nth | apply Forall_memset ];
    try exact H; try discriminate; apply kw_class_not_match.
Qed.

(** The scan of a row never writes the class of a search match, whatever
    the descriptor and the text: [HL_MATCH] only comes from a search, which
    takes it off again. *)
Theorem scan_never_writes_match_class :
  forall (s : editorSyntax) (rnd : list ascii) (seed : bool),
    Forall (fun h => h <> HL_MATCH) (sc_hl (scan_row s rnd seed)).
Proof.
  intros s rnd seed. unfold scan_row.
  apply (scan_from_inv s rnd
           (fun st => Forall (fun h => h <> HL_MATCH) (sc_hl st))
           (fun st => Forall (fun h => h <> HL_MATCH) (sc_hl st))).
  - intros st HP _. apply (scan_body_no_match s rnd st HP).
  - intros st HP _. exact HP.
  - unfold scan_init. cbn [sc_hl]. apply Forall_forall.
    intros h Hin. apply repeat_spec in Hin. subst h. discriminate.
Qed.

(** ** Saving and loading again *)

Lemma getlines_line (l : list ascii) :
  forall (rest cur : list ascii),
    ~ In LF l ->
    getlines (l ++ LF :: rest) cur = (cur ++ l ++ [LF]) :: getlines rest [].
Proof.
  induction l as [|c l IH]; intros rest cur Hno; cbn [app getlines].
  - now rewrite Ascii.eqb_refl.
  - destruct (Ascii.eqb_spec c LF) as [->|Hc];
      [exfalso; apply Hno; now left|].
    rewrite IH by (intros Hin; apply Hno; now right).
    now rewrite <- app_assoc.
Qed.

Lemma getlines_flat (ls : list (list ascii)) :
  Forall (fun l => ~ In LF l) ls ->
  getlines (flat_map (fun l => l ++ [LF]) ls) []
  = map (fun l => l ++ [LF]) ls.
Proof.
  induction 1 as [|l ls Hl Hls IH]; [reflexivity|].
  cbn [flat_map map]. rewrite <- app_assoc. cbn [app].
  rewrite getlines_line by exact Hl. now rewrite IH.
Qed.

Lemma drop_eol_clean (l : list ascii) :
  (forall pre, l <> pre ++ [CR]) -> (forall pre, l <> pre ++ [LF]) ->
  drop_eol (rev l) = rev l.
Proof.
  intros Hcr Hlf. destruct l as [|c l] using rev_ind; [reflexivity|].
  rewrite rev_app_distr. cbn [rev app drop_eol].
  destruct (Ascii.eqb_spec c LF) as [->|_]; [exfalso; now apply (Hlf l)|].
  destruct (Ascii.eqb_spec c CR) as [->|_]; [exfalso; now apply (Hcr l)|].
  reflexivity.
Qed.

Lemma strip_eol_line (l : list ascii) :
  line_clean l -> strip_eol (l ++ [LF]) = l.
Proof.
  intros [Hno Hcr]. unfold strip_eol. rewrite rev_app_distr.
  cbn [rev app drop_eol]. rewrite Ascii.eqb_refl. cbn [orb].
  rewrite drop_eol_clean; [apply rev_involutive | exact Hcr |].
  intros pre ->. apply Hno. apply in_or_app. right. now left.
Qed.

(** What [getline] and the stripping loop leave of any file. *)
Lemma drop_eol_head (l : list ascii) :
  match drop_eol l with
  | [] => True
  | c :: _ => c <> LF /\ c <> CR
  end /\ exists pre, l = pre ++ drop_eol l.
Proof.
  induction l as [|c l [IH1 [pre IH2]]]; cbn [drop_eol];
    [split; [exact I | now exists []]|].
  destruct (Ascii.eqb_spec c LF) as [->|Hlf]; cbn [orb].
  - split; [exact IH1|]. exists (LF :: pre). cbn [app]. now f_equal.
  - destruct (Ascii.eqb_spec c CR) as [->|Hcr].
    + split; [exact IH1|]. exists (CR :: pre). cbn [app]. now f_equal.
    + split; [auto | now exists []].
Qed.

Lemma strip_eol_clean (line : list ascii) :
  (forall pre post, line = pre ++ LF :: post -> post = []) ->
  line_clean (strip_eol line).
Proof.
  intros Hend. unfold strip_eol.
  destruct (drop_eol_head (rev line)) as [Hhead [pre Hpre]].
  set (d := drop_eol (rev line)) in *.
  assert (Hline : line = rev d ++ rev pre).
  { rewrite <- rev_app_distr, <- Hpre. symmetry. apply rev_involutive. }
  split.
  - intros Hin. apply in_split in Hin. destruct Hin as (a & b & Hab).
    assert (Hb : b ++ rev pre = []).
    { apply (Hend a). rewrite Hline, Hab, <- app_assoc. reflexivity. }
    apply app_eq_nil in Hb. destruct Hb as [-> _].
    assert (Hd : d = LF :: rev a).
    { rewrite <- (rev_involutive d), Hab, rev_app_distr. reflexivity. }
    rewrite Hd in Hhead. now destruct Hhead.
  - intros p Heq.
    assert (Hd : d = CR :: rev p).
    { rewrite <- (rev_involutive d), Heq, rev_app_distr. reflexivity. }
    rewrite Hd in Hhead. now destruct Hhead.
Qed.

Lemma newline_is_last (cur pre post : list ascii) :
  ~ In LF cur -> cur ++ [LF] = pre ++ LF :: post -> post = [].
Proof.
  revert pre. induction cur as [|c cur IH]; intros pre Hno H.
  - destruct pre as [|x pre]; cbn [app] in H.
    + now injection H as <-.
    + injection H as _ H. now destruct pre.
  - destruct pre as [|x pre]; cbn [app] in H.
    + injection H as Hc _. exfalso. apply Hno. left. exact Hc.
    + injection H as _ H. apply (IH pre); [|exact H].
      intros Hin. apply Hno. now right.
Qed.

Lemma getlines_newline_last (content : list ascii) :
  forall cur,
    ~ In LF cur ->
    Forall (fun line => forall pre post, line = pre ++ LF :: post -> post = [])
      (getlines content cur).
Proof.
  induction content as [|c content IH]; intros cur Hno; cbn [getlines].
  - destruct cur as [|c0 cur0]; constructor; [|constructor].
    intros pre post Heq. exfalso. apply Hno. rewrite Heq.
    apply in_or_app. right. now left.
  - destruct (Ascii.eqb_spec c LF) as [->|Hc].
    + constructor; [|apply IH; intros []].
      intros pre post Heq. now apply (newline_is_last cur pre post).
    + apply IH. intros Hin. apply in_app_or in Hin.
      destruct Hin as [Hin|[Hin|[]]]; [now apply Hno | congruence].
Qed.

(** The rows of a loaded file are such that a save and a load give them
    back. *)
Lemma loaded_lines_clean (bytes : list ascii) :
  Forall line_clean (map strip_eol (getlines bytes [])).
Proof.
  apply Forall_map.
  eapply Forall_impl; [|apply (getlines_newline_last bytes []); intros []].
  intros line Hline. now apply strip_eol_clean.
Qed.

Lemma map_strip_lines (ls : list (list ascii)) :
  Forall line_clean ls ->
  map strip_eol (map (fun l => l ++ [LF]) ls) = ls.
Proof.
  induction 1 as [|l ls Hl Hls IH]; [reflexivity|].
  cbn [map]. now rewrite strip_eol_line, IH.
Qed.

(** The text a save writes, loaded into a fresh editor, gives rows with
    the same characters, provided no row holds a newline or ends in a
    carriage return; this is so for the rows of any loaded file, so that
    loading, saving and loading again gives the rows of the first load. *)
Theorem saved_text_loads_back :
  forall (wrows wcols : Z) (fname : list ascii),
    (forall E : editorConfig,
        numrows E = Z.of_nat (length (row E)) ->
        Forall line_clean (map chars (row E)) ->
        exists E',
          editorOpen (initEditor wrows wcols) fname
            (Some (fst (editorRowsToString E))) = Some E' /\
          map chars (row E') = map chars (row E)) /\
    (forall bytes : list ascii,
        exists E1 E2,
          editorOpen (initEditor wrows wcols) fname (Some bytes) = Some E1 /\
          editorOpen (initEditor wrows wcols) fname
            (Some (fst (editorRowsToString E1))) = Some E2 /\
          map chars (row E2) = map chars (row E1)).
Proof.
  intros wrows wcols fname.
  assert (Hback : forall E : editorConfig,
             numrows E = Z.of_nat (length (row E)) ->
             Forall line_clean (map chars (row E)) ->
             exists E',
               editorOpen (initEditor wrows wcols) fname
                 (Some (fst (editorRowsToString E))) = Some E' /\
               map chars (row E') = map chars (row E)).
  { intros E Hn Hclean.
    destruct (editorOpen_text (initEditor wrows wcols) fname
                (fst (editorRowsToString E)) eq_refl)
      as (E' & Hopen & Hchars & _).
    exists E'. split; [exact Hopen|]. rewrite Hchars.
    cbn [initEditor row map app].
    destruct (editorRowsToString_spec E Hn) as (-> & _).
    rewrite flat_map_chars, getlines_flat.
    - now apply map_strip_lines.
    - eapply Forall_impl; [|exact Hclean]. intros l [Hl _]. exact Hl. }
  split; [exact Hback|].
  intros bytes.
  destruct (editorOpen_text (initEditor wrows wcols) fname bytes eq_refl)
    as (E1 & Hopen1 & Hchars1 & Hn1 & _).
  destruct (Hback E1 Hn1) as (E2 & Hopen2 & Hchars2).
  { rewrite Hchars1. cbn [initEditor row map app]. apply loaded_lines_clean. }
  exists E1, E2. auto.
Qed.

Lemma saved_text_loads_back_witness :
  let r0 := mkRow 0 (cs "ab") [] [] false in
  let r1 := mkRow 1 [] [] [] false in
  let E := mkConfig 0 0 0 0 0 22 80 2 [r0; r1] 3 None [] None in
  exists E',
    editorOpen (initEditor 24 80) (cs "x")
      (Some (fst (editorRowsToString E))) = Some E' /\
    map chars (row E') = map chars (row E).
Proof.
  intros r0 r1 E.
  apply (saved_text_loads_back 24 80 (cs "x")).
  - reflexivity.
  - repeat constructor; try (intros H; simpl in H; intuition discriminate);
      intros pre H; destruct pre as [|a [|b [|c pre]]]; discriminate.
Defined.

(** ** The modification counter *)









(** ** Which file names select the C descriptor *)

Lemma strstr_from_skip (stem rest pat' : list ascii) :
  forall base,
    ~ In "."%char stem ->
    strstr_from (stem ++ rest) ("."%char :: pat') base
    = strstr_from rest ("."%char :: pat') (base + length stem).
Proof.
  induction stem as [|c stem IH]; intros base Hno.
  - cbn [app length]. now rewrite Nat.add_0_r.
  - cbn [app strstr_from is_prefix length].
    destruct (Ascii.eqb_spec "."%char c) as [Hc|Hc].
    + exfalso. apply Hno. left. now symmetry.
    + cbn [andb]. rewrite IH by (intros Hin; apply Hno; now right).
      f_equal. lia.
Qed.

Lemma char_at_app (stem rest : list ascii) (k : nat) :
  char_at (stem ++ rest) (length stem + k) = char_at rest k.
Proof.
  unfold char_at. rewrite app_nth2 by lia. f_equal. lia.
Qed.

Lemma filematch_ok_dot (stem ext pat' : list ascii) :
  ~ In NUL stem -> ~ In "."%char stem -> ~ In NUL ext ->
  ~ In NUL pat' ->
  filematch_ok (stem ++ ext) ("."%char :: pat')
  = match strstr_from ext ("."%char :: pat') O with
    | None => false
    | Some p =>
        Ascii.eqb (char_at ext (p + strlen ("."%char :: pat'))) NUL
    end.
Proof.
  intros Hs Hd He Hp. unfold filematch_ok, strstr.
  assert (Hname : ~ In NUL (stem ++ ext)).
  { intros Hin. apply in_app_or in Hin. tauto. }
  assert (Hpat : ~ In NUL ("."%char :: pat')).
  { intros [H|H]; [discriminate | tauto]. }
  rewrite (c_str_no_NUL _ Hname), (c_str_no_NUL _ Hpat).
  rewrite strstr_from_skip by exact Hd. cbn [Nat.add].
  pose proof (strstr_from_spec ("."%char :: pat') ext (length stem)) as Hspec.
  pose proof (strstr_from_spec ("."%char :: pat') ext O) as Hspec0.
  destruct (strstr_from ext ("."%char :: pat') (length stem)) as [p|] eqn:H1;
    destruct (strstr_from ext ("."%char :: pat') O) as [p0|] eqn:H0.
  - destruct Hspec as (k & -> & Hk & Hmin).
    destruct Hspec0 as (k0 & -> & Hk0 & Hmin0).
    assert (k = k0).
    { destruct (Nat.lt_trichotomy k k0) as [Hlt|[Heq|Hgt]]; [|exact Heq|].
      - exfalso. now apply (Hmin0 k).
      - exfalso. now apply (Hmin k0). }
    subst k0. cbn [char_at Ascii.eqb negb orb]. cbn [Nat.add].
    rewrite <- Nat.add_assoc, char_at_app. reflexivity.
  - destruct Hspec as (k & _ & Hk & _). exfalso. now apply (Hspec0 k).
  - destruct Hspec0 as (k & _ & Hk & _). exfalso. now apply (Hspec k).
  - reflexivity.
Qed.

(** A name without a dot selects no descriptor; a name whose only dot
    starts a final [.c], [.h] or [.cpp] selects the C descriptor; and since
    the test looks at the first occurrence of the extension only, a name
    ending in [.c.c] selects none. *)
Theorem file_names_that_select_c_syntax :
  forall stem : list ascii,
    ~ In NUL stem -> ~ In "."%char stem ->
    find_syntax HLDB stem = None /\
    find_syntax HLDB (stem ++ cs ".c") = Some C_syntax /\
    find_syntax HLDB (stem ++ cs ".h") = Some C_syntax /\
    find_syntax HLDB (stem ++ cs ".cpp") = Some C_syntax /\
    find_syntax HLDB (stem ++ cs ".c.c") = None.
Proof.
  intros stem Hs Hd.
  assert (Hext : forall ext pat',
             ~ In NUL ext -> ~ In NUL pat' ->
             filematch_ok (stem ++ ext) ("."%char :: pat')
             = match strstr_from ext ("."%char :: pat') O with
               | None => false
               | Some p =>
                   Ascii.eqb (char_at ext (p + strlen ("."%char :: pat'))) NUL
               end)
    by (intros; now apply filematch_ok_dot).
  unfold find_syntax, HLDB, C_syntax, filematch, C_HL_extensions.
  cbn [existsb].
  change (filematch_ok ?f (cs ".c"))
    with (filematch_ok f ("."%char :: cs "c")).
  change (filematch_ok ?f (cs ".h"))
    with (filematch_ok f ("."%char :: cs "h")).
  change (filematch_ok ?f (cs ".cpp"))
    with (filematch_ok f ("."%char :: cs "cpp")).
  repeat split.
  - rewrite <- (app_nil_r stem).
    rewrite !(Hext []) by (vm_compute; intuition discriminate).
    reflexivity.
  - rewrite !(Hext (cs ".c")) by (vm_compute; intuition discriminate).
    reflexivity.
  - rewrite !(Hext (cs ".h")) by (vm_compute; intuition discriminate).
    reflexivity.
  - rewrite !(Hext (cs ".cpp")) by (vm_compute; intuition discriminate).
    reflexivity.
  - rewrite !(Hext (cs ".c.c")) by (vm_compute; intuition discriminate).
    reflexivity.
Qed.

Lemma file_names_that_select_c_syntax_witness :
  find_syntax HLDB (cs "main") = None /\
  find_syntax HLDB (cs "main" ++ cs ".c") = Some C_syntax /\
  find_syntax HLDB (cs "main" ++ cs ".h") = Some C_syntax /\
  find_syntax HLDB (cs "main" ++ cs ".cpp") = Some C_syntax /\
  find_syntax HLDB (cs "main" ++ cs ".c.c") = None.
Proof.
  apply (file_names_that_select_c_syntax (cs "main"));
    vm_compute; intuition discriminate.
Defined.

(** ** What is drawn *)

Lemma uint_digits (d : Decimal.uint) :
  Forall (fun c => isdigit c = true) (cs (NilEmpty.string_of_uint d)).
Proof.
  unfold cs. induction d; simpl; constructor; auto.
Qed.

Lemma decimal_chars (z : Z) :
  Forall (fun c => c = "-"%char \/ isdigit c = true) (decimal z).
Proof.
  unfold decimal, NilEmpty.string_of_int.
  destruct (Z.to_int z) as [d|d].
  - eapply Forall_impl; [|apply uint_digits]. intros c Hc. now right.
  - unfold cs. simpl. constructor; [now left|].
    eapply Forall_impl; [|apply uint_digits]. intros c Hc. now right.
Qed.

Lemma isdigit_not_cntrl (c : ascii) :
  isdigit c = true -> iscntrl_char c = false.
Proof.
  unfold isdigit, iscntrl_char. cbv zeta. intros H.
  apply andb_prop in H. destruct H as [H1 H2].
  apply Nat.leb_le in H1, H2.
  apply orb_false_iff. split; [apply Nat.ltb_ge | apply Nat.eqb_neq]; lia.
Qed.

Lemma tame_not_cntrl (c : ascii) : iscntrl_char c = false -> tame c.
Proof. unfold tame. congruence. Qed.

Lemma decimal_tame (z : Z) : Forall tame (decimal z).
Proof.
  eapply Forall_impl; [|apply decimal_chars].
  intros c [->|Hc]; apply tame_not_cntrl;
    [reflexivity | now apply isdigit_not_cntrl].
Qed.

Lemma decimal_no_NUL (z : Z) : ~ In NUL (decimal z).
Proof.
  intros Hin. pose proof (decimal_chars z) as H.
  rewrite Forall_forall in H. destruct (H NUL Hin); discriminate.
Qed.

Lemma esc_tame (s : string) :
  Forall (fun c => iscntrl_char c = false) (cs s) -> Forall tame (esc s).
Proof.
  intros H. constructor; [intros _; reflexivity|].
  eapply Forall_impl; [|exact H]. intros c. apply tame_not_cntrl.
Qed.

Lemma color_escape_tame (z : Z) : Forall tame (color_escape z).
Proof.
  unfold color_escape. constructor; [intros _; reflexivity|].
  apply Forall_app. split; [repeat constructor; apply tame_not_cntrl;
                            reflexivity|].
  apply Forall_app. split; [apply decimal_tame|].
  repeat constructor; apply tame_not_cntrl; reflexivity.
Qed.

Lemma control_symbol_tame (c : ascii) : tame (control_symbol c).
Proof.
  apply tame_not_cntrl. unfold control_symbol, iscntrl_char. cbv zeta.
  destruct (Nat.leb_spec (nat_of_ascii c) 26) as [Hle|Hgt]; [|reflexivity].
  rewrite nat_ascii_embedding by lia.
  apply orb_false_iff. split; [apply Nat.ltb_ge | apply Nat.eqb_neq]; lia.
Qed.

Lemma Forall_firstn_keep {A : Type} (P : A -> Prop) (l : list A)
  (n : nat) :
  Forall P l -> Forall P (firstn n l).
Proof.
  intros H. apply Forall_forall. intros x Hx.
  apply (proj1 (Forall_forall P l) H). now apply In_firstn in Hx.
Qed.

Lemma abAppend_tame (ab s : list ascii) (len : Z) :
  Forall tame ab -> Forall tame s -> Forall tame (abAppend ab s len).
Proof.
  intros Ha Hs. unfold abAppend. apply Forall_app. split; [exact Ha|].
  now apply Forall_firstn_keep.
Qed.

Lemma abAppend_all (ab s : list ascii) (len : Z) :
  Z.of_nat (length s) <= len -> abAppend ab s len = ab ++ s.
Proof.
  intros H. unfold abAppend. now rewrite firstn_all2 by lia.
Qed.

(** The column loop only appends. *)
Lemma draw_cols_app (rnd : list ascii) (hls : list editorHighlight)
  (k : nat) :
  forall (j : nat) (color : Z) (ab : list ascii),
    exists out, draw_cols rnd hls j k color ab = ab ++ out /\
                (forall ab', draw_cols rnd hls j k color ab' = ab' ++ out) /\
                Forall tame out.
Proof.
  induction k as [|k IH]; intros j color ab; cbn [draw_cols].
  - exists []. split; [now rewrite app_nil_r|].
    split; [intros; now rewrite app_nil_r | constructor].
  - cbv zeta.
    assert (Hone : forall x : ascii,
               (forall ab0, abAppend ab0 [x] 1 = ab0 ++ [x]))
      by (intros x ab0; apply abAppend_all; simpl; lia).
    destruct (iscntrl_char (char_at rnd j)) eqn:Hc.
    + rewrite !(abAppend_all _ (esc "[7m")) by (simpl; lia).
      rewrite !(abAppend_all _ (esc "[m")) by (simpl; lia).
      set (tail := if negb (color =? -1) then color_escape color else []).
      assert (Htail : Forall tame tail)
        by (subst tail; destruct (negb _);
            [apply color_escape_tame | constructor]).
      destruct (IH (S j) color []) as (out & _ & Hout & Htame).
      exists (esc "[7m" ++ [control_symbol (char_at rnd j)] ++ esc "[m"
              ++ tail ++ out).
      assert (Hgen : forall ab0,
                 draw_cols rnd hls (S j) k color
                   (if negb (color =? -1)
                    then abAppend
                           ((abAppend (ab0 ++ esc "[7m")
                               [control_symbol (char_at rnd j)] 1)
                            ++ esc "[m")
                           (color_escape color)
                           (Z.of_nat (length (color_escape color)))
                    else (abAppend (ab0 ++ esc "[7m")
                            [control_symbol (char_at rnd j)] 1)
                         ++ esc "[m")
                 = ab0 ++ esc "[7m" ++ [control_symbol (char_at rnd j)]
                   ++ esc "[m" ++ tail ++ out).
      { intros ab0. rewrite Hout, Hone. subst tail.
        destruct (negb (color =? -1)).
        - rewrite abAppend_all by lia. now rewrite <- !app_assoc.
        - now rewrite <- !app_assoc. }
      split; [apply Hgen|]. split; [exact Hgen|].
      apply Forall_app. split; [apply esc_tame; repeat constructor|].
      apply Forall_app. split; [repeat constructor; apply control_symbol_tame|].
      apply Forall_app. split; [apply esc_tame; repeat constructor|].
      apply Forall_app. split; assumption.
    + assert (Hcc : tame (char_at rnd j)) by now apply tame_not_cntrl.
      destruct (hl_eqb (nth j hls HL_NORMAL) HL_NORMAL).
      * set (head := if negb (color =? -1) then esc "[39m" else []).
        destruct (IH (S j) (-1) []) as (out & _ & Hout & Htame).
        exists (head ++ [char_at rnd j] ++ out).
        assert (Hgen : forall ab0,
                   draw_cols rnd hls (S j) k (-1)
                     (abAppend
                        (if negb (color =? -1)
                         then abAppend ab0 (esc "[39m") 5 else ab0)
                        [char_at rnd j] 1)
                   = ab0 ++ head ++ [char_at rnd j] ++ out).
        { intros ab0. rewrite Hout, Hone. subst head.
          destruct (negb (color =? -1)).
          - rewrite abAppend_all by (simpl; lia). now rewrite <- !app_assoc.
          - now rewrite <- !app_assoc. }
        split; [apply Hgen|]. split; [exact Hgen|].
        apply Forall_app. split.
        -- subst head. destruct (negb _);
             [apply esc_tame; repeat constructor | constructor].
        -- constructor; assumption.
      * set (cl := editorSyntaxToColor (nth j hls HL_NORMAL)).
        set (head := if negb (cl =? color) then color_escape cl else []).
        destruct (IH (S j) cl []) as (out & _ & Hout & Htame).
        exists (head ++ [char_at rnd j] ++ out).
        assert (Hgen : forall ab0,
                   draw_cols rnd hls (S j) k cl
                     (abAppend
                        (if negb (cl =? color)
                         then abAppend ab0 (color_escape cl)
                                (Z.of_nat (length (color_escape cl)))
                         else ab0)
                        [char_at rnd j] 1)
                   = ab0 ++ head ++ [char_at rnd j] ++ out).
        { intros ab0. rewrite Hout, Hone. subst head.
          destruct (negb (cl =? color)).
          - rewrite abAppend_all by lia. now rewrite <- !app_assoc.
          - now rewrite <- !app_assoc. }
        split; [apply Hgen|]. split; [exact Hgen|].
        apply Forall_app. split.
        -- subst head. destruct (negb _);
             [apply color_escape_tame | constructor].
        -- constructor; assumption.
Qed.



Lemma firstn_skipn_step (rnd : list ascii) (j k : nat) :
  (j < length rnd)%nat ->
  firstn (S k) (skipn j rnd) = char_at rnd j :: firstn k (skipn (S j) rnd).
Proof.
  intros Hj. unfold char_at.
  destruct (nth_error rnd j) as [c|] eqn:Hc;
    [|apply nth_error_None in Hc; lia].
  rewrite (skipn_nth_error _ _ _ Hc). cbn [firstn].
  now rewrite (nth_error_nth _ _ _ Hc).
Qed.

Lemma editorSyntaxToColor_range (h : editorHighlight) :
  31 <= editorSyntaxToColor h <= 37.
Proof. destruct h; simpl; lia. Qed.

(** The column loop on columns that all carry class [h] and hold no
    control character: at most one colour sequence, then the bytes. *)
Lemma draw_cols_uniform (rnd : list ascii) (hls : list editorHighlight)
  (h : editorHighlight) (k : nat) :
  forall (j : nat) (color : Z) (ab : list ascii),
    (j + k <= length rnd)%nat ->
    (forall i, (j <= i < j + k)%nat ->
               iscntrl_char (char_at rnd i) = false /\
               nth i hls HL_NORMAL = h) ->
    (color = -1 \/
     (h <> HL_NORMAL /\ color = editorSyntaxToColor h)) ->
    draw_cols rnd hls j k color ab
    = ab ++ match k with
            | O => []
            | S _ =>
                if (hl_eqb h HL_NORMAL
                    || (editorSyntaxToColor h =? color))%bool
                then []
                else color_escape (editorSyntaxToColor h)
            end
         ++ firstn k (skipn j rnd).
Proof.
  induction k as [|k IH]; intros j color ab Hlen Hall Hcol;
    cbn [draw_cols].
  - cbn [firstn app]. now rewrite app_nil_r.
  - cbv zeta. destruct (Hall j) as [Hc Hh]; [lia|]. rewrite Hc, Hh.
    rewrite firstn_skipn_step by lia.
    assert (Hone : forall ab0, abAppend ab0 [char_at rnd j] 1
                               = ab0 ++ [char_at rnd j])
      by (intros ab0; apply abAppend_all; simpl; lia).
    assert (Hrest : forall i, (S j <= i < S j + k)%nat ->
                              iscntrl_char (char_at rnd i) = false /\
                              nth i hls HL_NORMAL = h)
      by (intros i Hi; apply Hall; lia).
    destruct (hl_eqb h HL_NORMAL) eqn:Hn; cbn [orb].
    + assert (h = HL_NORMAL) by (destruct h; try discriminate; reflexivity).
      subst h. destruct Hcol as [->|[Hne _]]; [|congruence].
      change (negb (-1 =? -1)) with false. cbv iota.
      rewrite Hone, (IH (S j) (-1)); auto; try lia.
      destruct k; cbn [hl_eqb orb app]; now rewrite <- !app_assoc.
    + pose proof (editorSyntaxToColor_range h) as Hr.
      assert (Hne : h <> HL_NORMAL) by (intros ->; discriminate).
      rewrite Hone, (IH (S j) (editorSyntaxToColor h)); auto; try lia.
      rewrite Z.eqb_refl. cbn [orb].
      destruct Hcol as [->|[_ ->]].
      * destruct (Z.eqb_spec (editorSyntaxToColor h) (-1)); [lia|].
        cbn [negb]. rewrite abAppend_all by lia.
        destruct k; cbn [app]; now rewrite <- !app_assoc.
      * rewrite Z.eqb_refl. cbn [negb].
        destruct k; cbn [app]; now rewrite <- !app_assoc.
Qed.

(** A row of the file whose render holds no control character and whose
    highlight is one class throughout is drawn as the bytes of its render
    that fall into the window, from column [coloff] on and at most
    [screencols] of them, after one colour sequence when the class is not
    the normal one, and before the colour reset and the end of the line. *)
Theorem uniform_row_is_drawn_as_its_window_slice :
  forall (E : editorConfig) (y : Z) (r : erow) (h : editorHighlight)
         (ab : list ascii),
    0 <= y -> 0 <= rowoff E -> 0 <= coloff E -> 0 <= screencols E ->
    y + rowoff E < numrows E ->
    nth_error (row E) (Z.to_nat (y + rowoff E)) = Some r ->
    Forall (fun c => iscntrl_char c = false) (render r) ->
    hl r = repeat h (rsize r) ->
    let slice := firstn (Z.to_nat (screencols E))
                   (skipn (Z.to_nat (coloff E)) (render r)) in
    draw_line E y ab
    = ab ++ match slice with
            | [] => []
            | _ :: _ => if hl_eqb h HL_NORMAL then []
                        else color_escape (editorSyntaxToColor h)
            end
         ++ slice ++ esc "[39m" ++ esc "[K" ++ [CR; LF].
Proof.
  intros E y r h ab Hy Hro Hco Hsc Hrow Hr Hplain Hhl slice.
  unfold draw_line. cbv zeta.
  destruct (Z.geb_spec (y + rowoff E) (numrows E)); [lia|]. rewrite Hr.
  rewrite (abAppend_all _ [CR; LF]) by (simpl; lia).
  rewrite (abAppend_all _ (esc "[K")) by (simpl; lia).
  rewrite (abAppend_all _ (esc "[39m")) by (simpl; lia).
  set (len0 := Z.of_nat (rsize r) - coloff E).
  set (len1 := if len0 <? 0 then 0 else len0).
  set (len := if len1 >? screencols E then screencols E else len1).
  assert (Hlen : 0 <= len /\ len <= screencols E /\
                 (0 < len ->
                  (Z.to_nat (coloff E) + Z.to_nat len
                   <= length (render r))%nat)
                 /\ (len < screencols E ->
                     (length (render r)
                      <= Z.to_nat (coloff E) + Z.to_nat len)%nat)).
  { subst len len1 len0. unfold rsize.
    destruct (Z.ltb_spec (Z.of_nat (length (render r)) - coloff E) 0);
      destruct (Z.gtb_spec 0 (screencols E));
      try destruct (Z.gtb_spec (Z.of_nat (length (render r)) - coloff E)
                      (screencols E)); lia. }
  clearbody len. destruct Hlen as (Hl0 & Hl1 & Hl2 & Hl3).
  assert (Hslice : slice = firstn (Z.to_nat len)
                             (skipn (Z.to_nat (coloff E)) (render r))).
  { subst slice. destruct (Z.eq_dec len (screencols E)) as [->|Hne];
      [reflexivity|].
    rewrite !firstn_all2; [reflexivity | |]; rewrite length_skipn; lia. }
  destruct (Z.eq_dec len 0) as [Hz|Hnz].
  { rewrite Hslice, Hz. cbn [Z.to_nat draw_cols firstn app].
    now rewrite <- !app_assoc. }
  rewrite (draw_cols_uniform (render r) (hl r) h); auto; try lia.
  - rewrite <- Hslice.
    assert (Hk : match Z.to_nat len with
                 | O => []
                 | S _ =>
                     if (hl_eqb h HL_NORMAL
                         || (editorSyntaxToColor h =? -1))%bool
                     then [] else color_escape (editorSyntaxToColor h)
                 end
                 = match slice with
                   | [] => []
                   | _ :: _ => if hl_eqb h HL_NORMAL then []
                               else color_escape (editorSyntaxToColor h)
                   end).
    { pose proof (editorSyntaxToColor_range h) as Hrg.
      destruct (Z.eqb_spec (editorSyntaxToColor h) (-1)); [lia|].
      rewrite orb_false_r. rewrite Hslice.
      destruct (Z.to_nat len) as [|k] eqn:Hk; [lia|].
      destruct (skipn (Z.to_nat (coloff E)) (render r)) as [|c0 rest] eqn:Hs;
        [|reflexivity].
      apply (f_equal (@length ascii)) in Hs. rewrite length_skipn in Hs.
      simpl in Hs. lia. }
    rewrite Hk. now rewrite <- !app_assoc.
  - intros i Hi. split.
    + rewrite Forall_forall in Hplain. apply Hplain.
      unfold char_at. apply nth_In. lia.
    + rewrite Hhl. unfold rsize. apply nth_repeat_lt. lia.
Qed.

Lemma uniform_row_is_drawn_as_its_window_slice_witness :
  let r0 := mkRow 0 (cs "int x") (cs "int x") (repeat HL_STRING 5) false in
  let E := mkConfig 0 0 0 0 1 2 3 1 [r0] 0 None [] None in
  let slice := firstn (Z.to_nat (screencols E))
                 (skipn (Z.to_nat (coloff E)) (render r0)) in
  draw_line E 0 []
  = [] ++ match slice with
          | [] => []
          | _ :: _ => if hl_eqb HL_STRING HL_NORMAL then []
                      else color_escape (editorSyntaxToColor HL_STRING)
          end
       ++ slice ++ esc "[39m" ++ esc "[K" ++ [CR; LF].
Proof.
  intros r0 E.
  apply (uniform_row_is_drawn_as_its_window_slice E 0 r0 HL_STRING []);
    try (simpl; lia); try reflexivity.
  repeat constructor.
Defined.

Lemma status_pad_spec (E : editorConfig) (rstatus : list ascii) (rlen : Z)
  (fuel : nat) :
  forall (len : Z) (ab : list ascii),
    0 < rlen -> len <= screencols E ->
    (Z.to_nat (screencols E - len) <= fuel)%nat ->
    status_pad fuel E len rstatus rlen ab
    = if rlen <=? screencols E - len
      then abAppend
             (ab ++ repeat SPACE (Z.to_nat (screencols E - len - rlen)))
             rstatus rlen
      else ab ++ repeat SPACE (Z.to_nat (screencols E - len)).
Proof.
  induction fuel as [|f IH]; intros len ab Hr Hlen Hf; cbn [status_pad].
  - replace (Z.to_nat (screencols E - len)) with O by lia.
    destruct (Z.leb_spec rlen (screencols E - len)); [lia|].
    cbn [repeat]. now rewrite app_nil_r.
  - destruct (Z.ltb_spec len (screencols E)) as [Hlt|Hge].
    + destruct (Z.eqb_spec (screencols E - len) rlen) as [Heq|Hne].
      * destruct (Z.leb_spec rlen (screencols E - len)); [|lia].
        replace (Z.to_nat (screencols E - len - rlen)) with O by lia.
        cbn [repeat]. now rewrite app_nil_r.
      * rewrite IH by lia. rewrite (abAppend_all _ [SPACE]) by (simpl; lia).
        destruct (Z.leb_spec rlen (screencols E - (len + 1)));
          destruct (Z.leb_spec rlen (screencols E - len)); try lia.
        -- replace (Z.to_nat (screencols E - len - rlen))
             with (S (Z.to_nat (screencols E - (len + 1) - rlen))) by lia.
           cbn [repeat]. now rewrite <- app_assoc.
        -- replace (Z.to_nat (screencols E - len))
             with (S (Z.to_nat (screencols E - (len + 1)))) by lia.
           cbn [repeat]. now rewrite <- app_assoc.
    + replace (Z.to_nat (screencols E - len)) with O by lia.
      destruct (Z.leb_spec rlen (screencols E - len)); [lia|].
      cbn [repeat]. now rewrite app_nil_r.
Qed.

(** The status bar fills the line: when both texts fit their 80-byte
    buffers, what stands between the inverse-video sequence and its end is
    exactly [screencols] bytes long: the left text, cut to the window if
    need be, then spaces, and the right text at the right edge when there is
    room for it. *)
Theorem status_bar_fills_the_line :
  forall (E : editorConfig) (ab : list ascii),
    0 <= screencols E ->
    (length (status_text E) <= 79)%nat ->
    (length (rstatus_text E) <= 79)%nat ->
    let sl := Z.of_nat (length (status_text E)) in
    let rl := Z.of_nat (length (rstatus_text E)) in
    let body :=
      if sl + rl <=? screencols E
      then status_text E
           ++ repeat SPACE (Z.to_nat (screencols E - sl - rl))
           ++ rstatus_text E
      else if sl <=? screencols E
           then status_text E ++ repeat SPACE (Z.to_nat (screencols E - sl))
           else firstn (Z.to_nat (screencols E)) (status_text E) in
    editorDrawStatusBar E ab
    = ab ++ esc "[7m" ++ body ++ esc "[m" ++ [CR; LF] /\
    Z.of_nat (length body) = screencols E.
Proof.
  intros E ab Hsc Hs Hr sl rl body.
  assert (Hrl : 0 < rl).
  { subst rl. unfold rstatus_text. rewrite !length_app. simpl. lia. }
  split.
  - unfold editorDrawStatusBar, snprintf80.
    rewrite (firstn_all2 (n := 79) (status_text E)) by exact Hs.
    rewrite (firstn_all2 (n := 79) (rstatus_text E)) by exact Hr.
    fold sl rl.
    rewrite (abAppend_all _ [CR; LF]) by (simpl; lia).
    rewrite (abAppend_all _ (esc "[m")) by (simpl; lia).
    rewrite (abAppend_all _ (esc "[7m")) by (simpl; lia).
    set (len := if sl >? screencols E then screencols E else sl).
    rewrite status_pad_spec; [|exact Hrl | subst len | lia].
    2:{ destruct (Z.gtb_spec sl (screencols E)); lia. }
    subst body len.
    destruct (Z.gtb_spec sl (screencols E)) as [Hbig|Hfit].
    + destruct (Z.leb_spec rl (screencols E - screencols E)); [lia|].
      destruct (Z.leb_spec (sl + rl) (screencols E)); [lia|].
      destruct (Z.leb_spec sl (screencols E)); [lia|].
      replace (Z.to_nat (screencols E - screencols E)) with O by lia.
      unfold abAppend. cbn [repeat]. rewrite app_nil_r.
      now rewrite <- !app_assoc.
    + destruct (Z.leb_spec sl (screencols E)); [|lia].
      destruct (Z.leb_spec rl (screencols E - sl));
        destruct (Z.leb_spec (sl + rl) (screencols E)); try lia.
      * rewrite (abAppend_all _ (rstatus_text E)) by (subst rl; lia).
        rewrite (abAppend_all _ (status_text E)) by (subst sl; lia).
        now rewrite <- !app_assoc.
      * rewrite (abAppend_all _ (status_text E)) by (subst sl; lia).
        now rewrite <- !app_assoc.
  - subst body.
    destruct (Z.leb_spec (sl + rl) (screencols E)).
    + rewrite !length_app, repeat_length. subst sl rl. lia.
    + destruct (Z.leb_spec sl (screencols E)).
      * rewrite length_app, repeat_length. subst sl. lia.
      * rewrite length_firstn. subst sl. lia.
Qed.

Lemma status_bar_fills_the_line_witness :
  let E := mkConfig 0 0 0 0 0 22 40 0 [] 1 None [] None in
  let sl := Z.of_nat (length (status_text E)) in
  let rl := Z.of_nat (length (rstatus_text E)) in
  let body :=
    if sl + rl <=? screencols E
    then status_text E
         ++ repeat SPACE (Z.to_nat (screencols E - sl - rl))
         ++ rstatus_text E
    else if sl <=? screencols E
         then status_text E ++ repeat SPACE (Z.to_nat (screencols E - sl))
         else firstn (Z.to_nat (screencols E)) (status_text E) in
  editorDrawStatusBar E [] = [] ++ esc "[7m" ++ body ++ esc "[m" ++ [CR; LF]
  /\ Z.of_nat (length body) = screencols E.
Proof.
  intros E.
  apply (status_bar_fills_the_line E []).
  - simpl; lia.
  - vm_compute. lia.
  - vm_compute. lia.
Defined.

(** *** The pieces of a frame *)

Lemma abAppend_app (ab s : list ascii) (len : Z) :
  abAppend ab s len = ab ++ abAppend [] s len.
Proof. reflexivity. Qed.

Lemma draw_line_app (E : editorConfig) (y : Z) (ab : list ascii) :
  draw_line E y ab = ab ++ draw_line E y [].
Proof.
  unfold draw_line. cbv zeta.
  rewrite !(abAppend_all _ [CR; LF]) by (simpl; lia).
  rewrite !(abAppend_all _ (esc "[K")) by (simpl; lia).
  assert (Hfin : forall X Y : list ascii,
             X = ab ++ Y ->
             (X ++ esc "[K") ++ [CR; LF] = ab ++ (Y ++ esc "[K") ++ [CR; LF]).
  { intros X Y ->. now rewrite <- !app_assoc. }
  apply Hfin.
  destruct (y + rowoff E >=? numrows E).
  - destruct ((numrows E =? 0) && (y =? Z.quot (screenrows E) 3))%bool.
    + unfold draw_welcome. cbv zeta.
      destruct (negb (_ =? 0)); unfold abAppend; cbn [app];
        now rewrite <- !app_assoc.
    + reflexivity.
  - destruct (nth_error (row E) (Z.to_nat (y + rowoff E))) as [r|].
    + match goal with
      | |- context [draw_cols ?a ?b ?c ?d ?e ab] =>
          destruct (draw_cols_app a b d c e ab) as (out & Ho & Hall & _)
      end.
      rewrite Ho, (Hall []). unfold abAppend. cbn [app].
      now rewrite <- !app_assoc.
    + now rewrite app_nil_r.
Qed.

Lemma draw_lines_app (k : nat) :
  forall (E : editorConfig) (y : Z) (ab : list ascii),
    draw_lines k E y ab = ab ++ draw_lines k E y [].
Proof.
  induction k as [|k IH]; intros E y ab; cbn [draw_lines].
  - now rewrite app_nil_r.
  - rewrite IH, (IH E (y + 1) (draw_line E y [])), draw_line_app.
    now rewrite <- app_assoc.
Qed.

Lemma status_pad_app (E : editorConfig) (rstatus : list ascii) (rlen : Z)
  (fuel : nat) :
  forall (len : Z) (ab : list ascii),
    status_pad fuel E len rstatus rlen ab
    = ab ++ status_pad fuel E len rstatus rlen [].
Proof.
  induction fuel as [|f IH]; intros len ab; cbn [status_pad].
  - now rewrite app_nil_r.
  - destruct (len <? screencols E); [|now rewrite app_nil_r].
    destruct (screencols E - len =? rlen); [reflexivity|].
    rewrite IH, (IH (len + 1) (abAppend [] [SPACE] 1)).
    unfold abAppend. cbn [app]. now rewrite <- app_assoc.
Qed.

Lemma editorDrawStatusBar_app (E : editorConfig) (ab : list ascii) :
  editorDrawStatusBar E ab = ab ++ editorDrawStatusBar E [].
Proof.
  unfold editorDrawStatusBar, snprintf80.
  rewrite status_pad_app.
  rewrite (status_pad_app E _ _ _ _ (abAppend (abAppend [] _ _) _ _)).
  unfold abAppend. cbn [app]. now rewrite <- !app_assoc.
Qed.

Lemma editorDrawMessageBar_app (recent : bool) (E : editorConfig)
  (ab : list ascii) :
  editorDrawMessageBar recent E ab = ab ++ editorDrawMessageBar recent E [].
Proof.
  unfold editorDrawMessageBar. cbv zeta.
  destruct (negb _ && recent)%bool; unfold abAppend; cbn [app];
    now rewrite <- ?app_assoc.
Qed.

Lemma cursor_escape_no_NUL (y x : Z) : ~ In NUL (cursor_escape y x).
Proof.
  unfold cursor_escape. intros [H|H]; [discriminate|].
  repeat (apply in_app_or in H; destruct H as [H|H]);
    try (now apply decimal_no_NUL in H);
    simpl in H; intuition discriminate.
Qed.

Lemma strlen_no_NUL (s : list ascii) : ~ In NUL s -> strlen s = length s.
Proof.
  intros H. pose proof (c_str_no_NUL s H) as Hc. unfold c_str in Hc.
  apply (f_equal (@length ascii)) in Hc. rewrite length_firstn in Hc.
  pose proof (strlen_le_length s). lia.
Qed.

(** A frame is: hide the cursor, go home, the text lines, the status bar,
    the message bar, the cursor position, show the cursor; and in a window
    of at least one line and one column the position written is inside the
    text area, whatever the state before the call. *)
Theorem frame_puts_cursor_inside_text_area :
  forall (recent : bool) (E : editorConfig),
    0 < screenrows E -> 0 < screencols E ->
    let E1 := editorScroll E in
    let y := cy E1 - rowoff E1 + 1 in
    let x := rx E1 - coloff E1 + 1 in
    screen_bytes recent E
    = esc "[?25l" ++ esc "[H"
      ++ editorDrawRows E1 [] ++ editorDrawStatusBar E1 []
      ++ editorDrawMessageBar recent E1 []
      ++ cursor_escape y x ++ esc "[?25h" /\
    1 <= y <= screenrows E /\ 1 <= x <= screencols E.
Proof.
  intros recent E Hr Hc E1 y x. split.
  - unfold screen_bytes. cbv zeta. fold E1. fold y x.
    rewrite (abAppend_all _ (esc "[?25h")) by (simpl; lia).
    rewrite (abAppend_all _ (cursor_escape y x))
      by (rewrite strlen_no_NUL by apply cursor_escape_no_NUL; lia).
    rewrite editorDrawMessageBar_app, editorDrawStatusBar_app.
    unfold editorDrawRows. rewrite draw_lines_app.
    unfold abAppend. cbn [app firstn Z.to_nat Pos.to_nat Pos.iter_op
                          Nat.add esc].
    now rewrite <- !app_assoc.
  - subst y x E1. unfold editorScroll. cbv zeta.
    cbn [cx cy rx rowoff coloff screenrows screencols].
    split; scroll_cases; lia.
Qed.

Lemma frame_puts_cursor_inside_text_area_witness :
  let E := mkConfig 0 0 0 5 7 22 80 0 [] 0 None [] None in
  let E1 := editorScroll E in
  let y := cy E1 - rowoff E1 + 1 in
  let x := rx E1 - coloff E1 + 1 in
  screen_bytes true E
  = esc "[?25l" ++ esc "[H"
    ++ editorDrawRows E1 [] ++ editorDrawStatusBar E1 []
    ++ editorDrawMessageBar true E1 []
    ++ cursor_escape y x ++ esc "[?25h" /\
  1 <= y <= screenrows E /\ 1 <= x <= screencols E.
Proof.
  intros E. apply (frame_puts_cursor_inside_text_area true E); reflexivity.
Defined.

(** *** Control characters of the text *)





